(* ===== verification/_CoqProject ===== *)
-Q . S2P
Prelude.v
Mem.v
DList.v
Div64.v
RLL.v
Install.v
Malloc.v
MallocSpec.v
CStr.v
Dirent.v
Mangle.v
Cache.v
CacheSpec.v
GetFsSec.v
DiskIO.v
DiskDevice.v
BlockCache.v
Runs.v
Fat.v
FatSpec.v
FatDir.v
FatDirSpec.v
FatListSpec.v
Inode.v
Vfs.v
VfsSpec.v
VfsPath.v
VfsCwd.v
FsInit.v
ExtentVfs.v
FatVfs.v
Ext2.v
Ext2Spec.v
Ext2DirSpec.v
Ext2Vfs.v
Printf.v
PrintfSpec.v
Console.v
Config.v
ConfigSpec.v
Ntfs.v
NtfsSpec.v
NtfsDemo.v
NtfsDirSpec.v
NtfsFileSpec.v
LoadHigh.v
Crc32c.v
Btrfs.v
BtrfsSpec.v
BtrfsTreeSpec.v
BtrfsChunkSpec.v
BtrfsFileSpec.v
BtrfsDemo.v
