(* ===== verification/Prelude.v ===== *)
(** * Liigboot: a verification of the boot loader's C code

    Liigboot is a boot loader made of a Linux tool that writes it to a disk
    (src/install.c), and of the C part of a cut-down SYSLINUX
    (src/syslinux/libcore and src/syslinux/libcomcore) that runs on top of an
    assembly core: it reads the volume it was started from, finds files by
    their paths, and gives their sectors to the assembly code.  This library
    models that C code as executable functions and proves what its parts
    promise to each other.

    ** The program

    From the bottom up:

    - diskio.c talks to the BIOS, by cylinder, head and sector or by the
      extended calls, through a bounce buffer, with retries and shrinking
      transfers;
    - cache.c keeps blocks of the disk in an array of descriptors with a
      doubly linked list in the order of use;
    - fat.c, ext2 (bmap.c, ext2.c), ntfs.c and btrfs.c find where the data of
      a file is: all give runs of sectors, "extents", and search directories;
    - getfssec.c reads a file through the extents of its file system;
    - fs.c, chdir.c, readdir.c, getcwd.c are the virtual file system: reference
      counted inodes with names, path lookup through links, open files, and
      the entry points of the assembly core; fs_init starts it on the first
      file system that takes the volume, and newconfig.c and loadconfig.c look
      for the configuration file with it;
    - mem/ is the allocator, with blocks tagged by their owner;
    - rllpack.c packs and unpacks lists of numbers by run lengths;
    - loadhigh.c reads a file to an address, for the kernels that are loaded;
    - libcomcore has C strings, formatted printing and 64-bit division;
      console.c and vdprintf.c are where the texts go.

    ** The files of this library

    - [Prelude]: results, loops with fuel, machine integers, bits, bytes.
    - [Mem], [DList]: memory as bytes and as words; linked lists in it.
    - [Div64]: libgcc/__udivmoddi4.c and its callers.
    - [RLL]: rllpack.c.
    - [Install]: install.c, with the disk as a list of bytes.
    - [Malloc], [MallocSpec]: mem/malloc.c, free.c, init.c, malloc.h.
    - [CStr], [Dirent], [Mangle]: C strings, directory entry types, the two
      manglings of names (fs/lib/mangle.c, fat.c).
    - [Cache], [CacheSpec], [BlockCache]: cache.c; the class [BlockCache] is
      what the file systems use of it, with its instance.
    - [GetFsSec]: getfssec.c, between the classes [SectorDevice] (the disk)
      and [ExtentOps] (a file system with next_extent); [ExtentFS] adds what
      its theorems need of a file system, and [Runs] has the files that are
      lists of runs of sectors.
    - [DiskIO], [DiskDevice]: diskio.c; the drivers are instances of
      [SectorDevice].
    - [Fat], [FatSpec], [FatDir], [FatDirSpec], [FatListSpec]: fat.c; [FatSpec]
      has the instance of [ExtentFS], [FatDirSpec] the search in a directory
      and [FatListSpec] its listing.
    - [Ext2], [Ext2Spec], [Ext2DirSpec]: bmap.c and ext2.c, with their instance;
      directories, inodes and links.
    - [Ntfs], [NtfsSpec], [NtfsDirSpec], [NtfsFileSpec]: ntfs.c, ntfs.h and
      runlist.h, their records and runs, the search in an index, and files;
      [NtfsDemo] has a small volume for the witnesses.
    - [Crc32c], [Btrfs], [BtrfsSpec], [BtrfsTreeSpec], [BtrfsChunkSpec],
      [BtrfsFileSpec]: crc32c.h, btrfs.c and btrfs.h: the checksum of names,
      the map from logical to physical addresses, the search in trees, the
      tree of chunks, names and files; [BtrfsDemo] has a small volume.
    - [LoadHigh]: loadhigh.c, over the class [FileReader], with the instance
      for files of an [ExtentFS].
    - [Printf], [PrintfSpec]: vsnprintf.c and its wrappers; where a character
      goes is a class of sinks, with the buffer and the text as instances.
    - [Console]: console.c, printf.c and vdprintf.c, with the classes of a
      screen and of a serial port.
    - [Inode], [Vfs], [VfsSpec], [VfsPath], [VfsCwd]: fs.c and its neighbours;
      the class [FsOps] is struct fs_ops, [FsSpec] what path lookup needs of
      it; [VfsCwd] has the paths of inodes and the current directory.
    - [ExtentVfs], [FatVfs], [Ext2Vfs]: a file system that is read by extents as
      an instance of [FsOps]; FAT and ext2 are.
    - [FsInit]: fs_init of fs.c.
    - [Config], [ConfigSpec]: newconfig.c and loadconfig.c.

    ** How the model reads

    A C function is a function with the same name, from the state it uses to a
    [result]: a value, [Undef] for what C leaves undefined (an access outside
    an object, a division by zero), or [NoFuel].  The state is passed
    explicitly: words or bytes of memory for the allocator and the cache, the
    heap of inodes and the open files for the virtual file system, the private
    data of an inode for the file systems.  Integers are in [Z] and the
    wrap-around of their type is written where it happens ([u16], [u32], [s32]
    and so on).  A structure on the disk is its bytes; its fields are read at
    their offsets.

    A loop is [loop fuel step state], where [step] is one round of the body.
    The theorems give a bound on the fuel that is enough, or hold for every
    fuel above a stated one: the number of sectors to read plus one for
    getfssec.c, the clusters of the file for fat.c, the depth of the tree for
    an ext4 file.  A bounded search over an array is a fixpoint over its
    length.

    What is not C code of the repository is a parameter: the BIOS (a function
    from registers and memory to registers and memory, with its documented
    behaviour as a hypothesis), the contents of the disk, the system calls of
    the installer, the table of the code page.  Classes state what one part
    promises to another, the client's theorems are proved against the class,
    and the implementation is an instance: disk drivers under getfssec.c, FAT,
    ext2, NTFS and Btrfs under getfssec.c, the cache under these four,
    getfssec.c under the loader, the file system under path lookup ([FsOps] and
    [FsSpec]).  In between, [Volume] has the methods of a file system that
    getfssec.c reads, and [Environment] the memory and the allocator; with
    them FAT and ext2 are instances of [FsSpec], where [node_ok] says which
    inodes belong to the volume.  [Boot] has what fs_init asks of the disk.

    ** What the theorems show

    - Allocator: malloc and free refine an abstract map of blocks, the bytes of
      other blocks are not changed, the free list covers all that is not
      allocated, and free blocks that meet are merged; a tag frees all blocks
      of its owner.
    - Cache: the block returned has the contents of the disk; the list of
      descriptors stays well formed; a pointer stays valid for as many other
      requests as there are unlocked descriptors, less one; a locked block
      stays.
    - Disk: the sectors read are those asked for, however the transfer is
      split, in both modes; no transfer crosses a 64K boundary; the geometry
      that is computed fits its fields.
    - Extents: what is read is the file, byte by byte, and a read stops at a
      sector that is not mapped.
    - FAT: the entry of a cluster in 12, 16 and 32 bits is the one of the bit
      string of the table; reading gives the clusters of the chain; the search
      in a directory finds the first entry that matches by its long or its
      short name, among those of deleted files; listing it gives its files in
      order, and a long name that is listed finds the first file that has it.
    - ext2: the block map is the radix tree of the pointers, or the sorted
      extents of the tree; the runs are those of the extents, and for pointers they
      are right where no block of pointers is missing, and too long inside a missing
      subtree; reading gives these blocks.
    - NTFS: a record that was protected by an update sequence array is
      restored; the runs of an inode have the places that the mapping pairs encode
      and the lengths that the code reads from them, which are those that are written
      but for some bytes;
      the search in a directory finds the first entry of the index with the
      name, in the root and then in the blocks of its runs; reading gives the
      clusters of the runs although they are taken off the list on the way.
    - Btrfs: the checksum by its table is the one bit by bit; an address is
      translated by the only chunk that has it; the search in a tree on the
      disk is the search in the sorted list of its items; reading the tree of
      chunks adds all of them, where the tree is one that the code can read; a name is found by its hash; reading gives the
      bytes of the extents, or those that are in the tree.
    - Loader: loading a file that is mapped and has bytes left ends, with the bytes
      asked for, or as many as the file has or as fit, the flags that say which, and
      zeros behind them, up to the next multiple where the code pads to it.
    - Formatted output: what is in the buffer is the text of the format, cut
      to fit; a number is its digits, padded and marked.
    - Virtual file system: path lookup gives the file that a reference
      resolution of paths gives ([resolves]), refuses no path that reaches its file
      within the limits for links ([reachable]), and keeps the counts of references
      exact;
      open and close take and give back one reference; the path of an inode;
      realpath leads to the same place, and chdir goes there.
    - From paths to bytes: on a FAT or an ext2 volume, opening a path and
      reading gives the bytes of the clusters or blocks of the file that the
      path leads to, for ext2 also through links.
    - Start: fs_init mounts the first file system that takes the volume, with
      its root as the current directory; the configuration file is the first of
      the list of names that is a file with bytes.
    - Console: a string or a debug message is sent whole, with carriage returns;
      without a serial port nothing waits for it.
    - Names and strings: mangling, strlcpy, strlcat, strcasecmp.
    - Run lengths: unpacking what was packed gives the list.
    - Installer: the partition table is kept, the written parts do not overlap
      and the sectors get their contents; the cases that are refused.
    - Division: quotient and remainder of 64-bit integers, signed and not.

    Each property has a witness: its application to a small concrete input,
    where the definitions are evaluated.

    ** Bounds

    The theorems about ext2 ask for blocks of 1024 to 4096 bytes, and those about
    reading that no block of pointers is missing on the way to a block of the file
    (the code computes the length of such a hole wrongly, as the one about the map
    says); those about extents ask for a
    file of at most 4 GB less one sector, since the code keeps sizes in 32
    bits; those about FAT that the clusters of the chain are in the volume.
    Those about NTFS ask that the table and the blocks of an index start at a
    block boundary, that records and clusters are not larger than a block, that
    no list of attributes is needed, that files have no holes, and, for the index of
    a directory, that the bytes of the length of a run are even or below 0x80, where
    the code reads them rightly.
    Those about Btrfs ask for tree blocks of at most 4096 bytes (the buffer of
    the code), for items as long as their structures, and for extents of whole
    sectors that are not compressed; the one about the tree of chunks for one
    node at most above its leaves, and for a chunk at the logical address 0:
    [read_chunk_tree_skips] shows that the code reads no chunk without it.
    The fuel of the search in a tree is above the height of the tree, that of
    the loops over the items of a tree above their number.
    Those about paths ask for a name shorter than the buffer that it is mangled
    into, for free addresses for the inodes of 120000 steps (the room of
    [search_fuel], since a link is at most 4096 bytes and 20 of them are
    followed), and those of [VfsCwd] that no allocation fails and that the path
    fits its buffer.  A path is within the limits when it reaches its end through at
    most 19 links, none of them empty, such that the lengths of the path and of the
    links add up to less than 4096; the code may follow a few more, since it counts
    only what is left of the path.  Names on FAT volumes are without backslashes, and
    the files that are read there have a first cluster.  The configuration is looked
    for with an assembly core as getc.inc documents it.  The one about listing a directory asks for a mark at its
    end, where the code would read on.

    ** Not modelled

    The assembly core (boot sector, command line, loader of kernels), the
    calls into it and into the BIOS, the idle loop and the interrupt flag are
    input and output; what the C code relies on in them is a parameter.
    strdup and zalloc are an allocation and a copy or a fill, and appear as
    these in their callers.  Headers with declarations only, the PXE and libc
    interfaces and the build tools have no behaviour of the loader.

    NTFS and Btrfs are verified by their own operations (names, inodes,
    reading), and not composed with path lookup: their getfssec is not the
    generic one alone, which [Volume] has, but does work before and after it
    for files that are kept in a record or in the tree.  The superblock of
    Btrfs with its mirrors, and the listing of ext2, NTFS and Btrfs
    directories are modelled without theorems. *)

From Stdlib Require Import ZArith Lia.
From stdpp Require Export base numbers list option gmap fin_maps.

#[global] Open Scope Z_scope.

(** ** Results

    A C function of the model returns a [result]: a value, [Undef] where the
    C program has undefined behaviour (an access outside every object, for
    instance), or [NoFuel] where the fuel that bounds a loop ran out. *)

Inductive result (A : Type) : Type :=
  | Ok (a : A)
  | Undef
  | NoFuel.

Arguments Ok {A} a.
Arguments Undef {A}.
Arguments NoFuel {A}.

#[export] Instance result_ret : MRet result := fun A a => Ok a.

#[export] Instance result_bind : MBind result := fun A B f m =>
  match m with Ok a => f a | Undef => Undef | NoFuel => NoFuel end.

#[export] Instance result_fmap : FMap result := fun A B f m =>
  match m with Ok a => Ok (f a) | Undef => Undef | NoFuel => NoFuel end.

(** An array access: undefined behaviour outside the array. *)
Definition of_option {A} (o : option A) : result A :=
  match o with Some a => Ok a | None => Undef end.

Lemma bind_Ok_inv {A B} (m : result A) (f : A -> result B) b :
  (m ≫= f) = Ok b -> exists a, m = Ok a /\ f a = Ok b.
Proof. destruct m; intros H; try discriminate H. eauto. Qed.

Lemma bind_assoc {A B C} (m : result A) (f : A -> result B) (g : B -> result C) :
  ((m ≫= f) ≫= g) = (m ≫= fun a => f a ≫= g).
Proof. by destruct m. Qed.

(** ** Loops

    [loop fuel body s] runs a C loop: [body] is one iteration on the loop's
    variables and says whether the loop continues or is left. *)

Inductive ctl (S A : Type) : Type :=
  | Continue (s : S)
  | Break (a : A).

Arguments Continue {S A} s.
Arguments Break {S A} a.

Section Loop.
  Context {S A : Type}.
  Implicit Types (body : S -> result (ctl S A)) (s : S) (a : A).

Fixpoint loop (fuel : nat) body s : result A :=
    match fuel with
    | O => NoFuel
    | Datatypes.S fuel' =>
        body s ≫= fun r =>
          match r with
          | Continue s' => loop fuel' body s'
          | Break a => Ok a
          end
    end.

  (** More fuel gives the same answer. *)
Lemma loop_mono n m body s a :
    loop n body s = Ok a -> (n <= m)%nat -> loop m body s = Ok a.
  Proof.
    revert m s. induction n as [|n IH]; intros m s H Hle; [done|].
    destruct m as [|m]; [lia|]. simpl in *.
    destruct (body s) as [[s'|a']| |]; simpl in *; try done.
    apply IH; [done|lia].
  Qed.

Lemma loop_continue n body s s' :
    body s = Ok (Continue s') -> loop (Datatypes.S n) body s = loop n body s'.
  Proof. simpl. by intros ->. Qed.

Lemma loop_break n body s a :
    body s = Ok (Break a) -> loop (Datatypes.S n) body s = Ok a.
  Proof. simpl. by intros ->. Qed.

  (** Total correctness: an invariant [I], a postcondition [Q] and a measure
      that each iteration decreases. *)
Definition step_ok (I : S -> Prop) (Q : A -> Prop) (mu : S -> nat) s
      (r : result (ctl S A)) : Prop :=
    match r with
    | Ok (Continue s') => I s' /\ (mu s' < mu s)%nat
    | Ok (Break a) => Q a
    | _ => False
    end.

Lemma loop_total (I : S -> Prop) (Q : A -> Prop) (mu : S -> nat) body :
    (forall s, I s -> step_ok I Q mu s (body s)) ->
    forall fuel s, I s -> (mu s < fuel)%nat ->
    exists a, loop fuel body s = Ok a /\ Q a.
  Proof.
    intros Hstep. induction fuel as [|fuel IH]; intros s HI Hfuel; [lia|].
    specialize (Hstep s HI). simpl.
    destruct (body s) as [[s'|a]| |]; simpl in *; try done.
    - destruct Hstep as [HI' Hlt]. apply IH; [done|lia].
    - eauto.
  Qed.

  (** Partial correctness, for the invariants of loops that may diverge. *)
Lemma loop_partial (I : S -> Prop) (Q : A -> Prop) body :
    (forall s, I s -> match body s with
       | Ok (Continue s') => I s' | Ok (Break a) => Q a | _ => True end) ->
    forall fuel s a, I s -> loop fuel body s = Ok a -> Q a.
  Proof.
    intros Hstep. induction fuel as [|fuel IH]; intros s a HI H; [done|].
    specialize (Hstep s HI). simpl in H.
    destruct (body s) as [[s'|a']| |]; simpl in *; try done; [eauto|].
    by injection H as ->.
  Qed.

  (** Divergence: a set of states the loop never leaves. *)
Lemma loop_diverges (I : S -> Prop) body :
    (forall s, I s -> exists s', body s = Ok (Continue s') /\ I s') ->
    forall fuel s, I s -> loop fuel body s = NoFuel.
  Proof.
    intros Hstep. induction fuel as [|fuel IH]; intros s HI; [done|].
    destruct (Hstep s HI) as (s' & Hb & HI'). simpl. rewrite Hb. simpl. auto.
  Qed.
End Loop.

#[global] Arguments loop : simpl never.

(** ** Machine integers

    A value of an unsigned C type of width w is a [Z] in [0, 2^w); arithmetic
    wraps around.  [s32] and [s64] reinterpret a value as signed. *)

Definition u8 (x : Z) : Z := x mod 0x100.
Definition u16 (x : Z) : Z := x mod 0x10000.
Definition u32 (x : Z) : Z := x mod 0x100000000.
Definition u64 (x : Z) : Z := x mod 0x10000000000000000.

Definition s32 (x : Z) : Z := (x + 0x80000000) mod 0x100000000 - 0x80000000.
Definition s64 (x : Z) : Z :=
  (x + 0x8000000000000000) mod 0x10000000000000000 - 0x8000000000000000.

Lemma u8_small x : 0 <= x < 0x100 -> u8 x = x.
Proof. apply Z.mod_small. Qed.
Lemma u16_small x : 0 <= x < 0x10000 -> u16 x = x.
Proof. apply Z.mod_small. Qed.
Lemma u32_small x : 0 <= x < 0x100000000 -> u32 x = x.
Proof. apply Z.mod_small. Qed.
Lemma u64_small x : 0 <= x < 0x10000000000000000 -> u64 x = x.
Proof. apply Z.mod_small. Qed.
Lemma s32_small x : - 0x80000000 <= x < 0x80000000 -> s32 x = x.
Proof. intros. unfold s32. rewrite Z.mod_small; lia. Qed.
Lemma s64_small x :
  - 0x8000000000000000 <= x < 0x8000000000000000 -> s64 x = x.
Proof. intros. unfold s64. rewrite Z.mod_small; lia. Qed.

Lemma u8_range x : 0 <= u8 x < 0x100.
Proof. apply Z.mod_pos_bound; lia. Qed.
Lemma u16_range x : 0 <= u16 x < 0x10000.
Proof. apply Z.mod_pos_bound; lia. Qed.
Lemma u32_range x : 0 <= u32 x < 0x100000000.
Proof. apply Z.mod_pos_bound; lia. Qed.
Lemma u64_range x : 0 <= u64 x < 0x10000000000000000.
Proof. apply Z.mod_pos_bound; lia. Qed.

Create Rewrite HintDb wrap.
#[export] Hint Rewrite u8_small u16_small u32_small u64_small s32_small s64_small
  using lia : wrap.

(** Removes the wrap-arounds that the context proves harmless. *)
Ltac unwrap := autorewrite with wrap in *.

(** ** Bits *)

Lemma land_ones_mod x k : 0 <= k -> Z.land x (2 ^ k - 1) = x mod 2 ^ k.
Proof.
  intros. rewrite <- Z.land_ones by lia. f_equal. by rewrite Z.ones_equiv, Z.sub_1_r.
Qed.

Lemma shiftr_div x k : 0 <= k -> Z.shiftr x k = x / 2 ^ k.
Proof. intros. by apply Z.shiftr_div_pow2. Qed.

Lemma shiftl_mul x k : 0 <= k -> Z.shiftl x k = x * 2 ^ k.
Proof. intros. by apply Z.shiftl_mul_pow2. Qed.

(** Clearing the low bits rounds down. *)
Lemma land_lnot_ones x k : 0 <= k -> Z.land x (Z.lnot (2 ^ k - 1)) = x - x mod 2 ^ k.
Proof.
  intros. replace (2 ^ k - 1) with (Z.ones k) by (rewrite Z.ones_equiv; lia).
  rewrite <- Z.ldiff_land, Z.ldiff_ones_r, shiftl_mul, shiftr_div by lia.
  pose proof (Z.div_mod x (2 ^ k)). lia.
Qed.

(** Or-ing numbers whose bits do not meet is adding them. *)
Lemma lor_disjoint a b k :
  0 <= k -> 0 <= a < 2 ^ k -> Z.lor a (b * 2 ^ k) = a + b * 2 ^ k.
Proof.
  intros Hk Ha. assert (Z.land a (b * 2 ^ k) = 0) as Hland.
  { apply Z.bits_inj'. intros n Hn. rewrite Z.land_spec, Z.bits_0.
    destruct (Z.lt_ge_cases n k).
    - by rewrite Z.mul_pow2_bits_low, andb_false_r by lia.
    - by rewrite <- (Z.mod_small a (2 ^ k)), Z.mod_pow2_bits_high by lia. }
  by rewrite <- Z.lxor_lor, <- Z.add_nocarry_lxor.
Qed.

(** ** Little-endian words in a list of bytes *)

Fixpoint le_num (l : list Z) : Z :=
  match l with
  | [] => 0
  | b :: l' => b + 0x100 * le_num l'
  end.

Definition byte_ok (b : Z) : Prop := 0 <= b < 0x100.

#[export] Instance byte_ok_dec b : Decision (byte_ok b) := _.

Lemma le_num_range l :
  Forall byte_ok l -> 0 <= le_num l < 2 ^ (8 * Z.of_nat (length l)).
Proof.
  induction 1 as [|b l Hb _ IH]; [done|]. cbn [le_num length].
  rewrite Nat2Z.inj_succ, Z.mul_succ_r, Z.pow_add_r by lia.
  change (2 ^ 8) with 0x100. unfold byte_ok in Hb. lia.
Qed.

Lemma le_num_app l1 l2 :
  le_num (l1 ++ l2) = le_num l1 + 2 ^ (8 * Z.of_nat (length l1)) * le_num l2.
Proof.
  induction l1 as [|b l1 IH]; cbn [app le_num length]; [by rewrite Z.mul_1_l|].
  rewrite IH, Nat2Z.inj_succ, Z.mul_succ_r, Z.pow_add_r by lia.
  change (2 ^ 8) with 0x100. lia.
Qed.

(** The [n] low bytes of a number. *)
Fixpoint le_bytes (n : nat) (x : Z) : list Z :=
  match n with
  | O => []
  | S n => x mod 0x100 :: le_bytes n (x / 0x100)
  end.

Lemma le_bytes_length n x : length (le_bytes n x) = n.
Proof. revert x. induction n as [|n IH]; intros x; simpl; [done|by rewrite IH]. Qed.

Lemma le_bytes_ok n x : Forall byte_ok (le_bytes n x).
Proof.
  revert x. induction n as [|n IH]; intros x; simpl; [done|].
  constructor; [apply Z.mod_pos_bound; lia|apply IH].
Qed.

Lemma le_num_le_bytes n x : le_num (le_bytes n x) = x mod 2 ^ (8 * Z.of_nat n).
Proof.
  revert x. induction n as [|n IH]; intros x; [by rewrite Z.mod_1_r|]. cbn [le_bytes le_num].
  rewrite IH, Nat2Z.inj_succ, Z.mul_succ_r, (Z.add_comm _ 8), Z.pow_add_r by lia.
  change (2 ^ 8) with 0x100. by rewrite Z.rem_mul_r by lia.
Qed.

Lemma le_bytes_le_num l : Forall byte_ok l -> le_bytes (length l) (le_num l) = l.
Proof.
  induction 1 as [|b l Hb _ IH]; [done|]. cbn [length le_bytes le_num]. unfold byte_ok in Hb.
  rewrite (Z.mul_comm 0x100), Z.mod_add, Z.mod_small, Z.div_add, Z.div_small, Z.add_0_l by lia.
  by rewrite IH.
Qed.

(** [sub l i n] is the [n] bytes of [l] from index [i]. *)
Definition sub (l : list Z) (i : Z) (n : nat) : list Z :=
  take n (drop (Z.to_nat i) l).

Definition get8 (l : list Z) (i : Z) : result Z :=
  if decide (0 <= i) then of_option (l !! Z.to_nat i) else Undef.

(** A 16-, 32- or 64-bit load at byte offset [i]. *)
Definition getle (n : nat) (l : list Z) (i : Z) : result Z :=
  if decide (0 <= i /\ i + Z.of_nat n <= Z.of_nat (length l))
  then Ok (le_num (sub l i n)) else Undef.

Abbreviation get16 := (getle 2).
Abbreviation get32 := (getle 4).
Abbreviation get64 := (getle 8).

(** ** Case analysis *)

(** Decides a closed proposition by computation. *)
Ltac by_compute := apply (bool_decide_unpack _); vm_compute; exact I.

(** Linear arithmetic with quotients and remainders by constants. *)
Ltac dlia := Z.div_mod_to_equations; lia.

(** Equality of results and tuples whose components differ by arithmetic. *)
Ltac tuple_lia := solve [repeat first [reflexivity | lia | f_equal]].

(** Splits on the first [if] or [match] of the goal that is stuck. *)
Ltac cases := repeat (case_match; simplify_eq/=; try done).

(** Splits the conjunctions that are visible, unlike [repeat split], which
    unfolds definitions. *)
Ltac splits := repeat match goal with |- _ /\ _ => split end.
