(* ===== verification/Mem.v ===== *)
(** * Byte memory

    The flat memory of the 32-bit program: addresses and bytes are [Z], and an
    address that belongs to no object is absent from the map, so that an access
    to it is undefined behaviour.  [bytes_at] and [cstring] say what a region
    of memory holds. *)

From Stdlib Require Import ZArith Lia.
From S2P Require Import Prelude.

Abbreviation mem := (gmap Z Z).

Definition load (m : mem) (a : Z) : result Z := of_option (m !! a).

Definition store (m : mem) (a v : Z) : result mem :=
  match m !! a with Some _ => Ok (<[a := u8 v]> m) | None => Undef end.

(** The region [a, a+n) is readable and writable. *)
Definition mapped (m : mem) (a n : Z) : Prop :=
  forall x, a <= x < a + n -> is_Some (m !! x).

(** The bytes [l] are in memory from [a] upwards. *)
Definition bytes_at (m : mem) (a : Z) (l : list Z) : Prop :=
  forall i x, l !! i = Some x -> m !! (a + Z.of_nat i) = Some x.

(** The bytes [l] are in memory from [a - 1] downwards. *)
Definition bytes_below (m : mem) (a : Z) (l : list Z) : Prop :=
  forall i x, l !! i = Some x -> m !! (a - 1 - Z.of_nat i) = Some x.

(** Two memories agree outside [a, a+n). *)
Definition same_outside (a n : Z) (m m' : mem) : Prop :=
  forall x, ~ (a <= x < a + n) -> m' !! x = m !! x.

Section Facts.
  Implicit Types (m : mem) (a v x : Z) (l : list Z).

Lemma load_Ok m a v : m !! a = Some v -> load m a = Ok v.
  Proof. unfold load. by intros ->. Qed.

Lemma store_Ok m a v : is_Some (m !! a) -> store m a v = Ok (<[a := u8 v]> m).
  Proof. unfold store. by intros [? ->]. Qed.

Lemma mapped_insert m a n y v : mapped m a n -> mapped (<[y := v]> m) a n.
  Proof. intros H x Hx. rewrite lookup_insert_is_Some'. auto. Qed.

Lemma mapped_sub m a n a' n' :
    mapped m a n -> a <= a' -> a' + n' <= a + n -> mapped m a' n'.
  Proof. intros H ?? x ?. apply H. lia. Qed.

Lemma bytes_at_nil m a : bytes_at m a [].
  Proof. intros i x H. by rewrite lookup_nil in H. Qed.

Lemma bytes_at_cons m a b l :
    bytes_at m a (b :: l) <-> m !! a = Some b /\ bytes_at m (a + 1) l.
  Proof.
    split.
    - intros H. split; [specialize (H O b eq_refl); by rewrite Z.add_0_r in H|].
      intros i x Hi. specialize (H (S i) x Hi). by replace (a + 1 + Z.of_nat i) with (a + Z.of_nat (S i)) by lia.
    - intros [H0 H] [|i] x Hi; simplify_eq/=; [by rewrite Z.add_0_r|].
      specialize (H i x Hi). by replace (a + Z.of_nat (S i)) with (a + 1 + Z.of_nat i) by lia.
  Qed.

Lemma bytes_at_app m a l1 l2 :
    bytes_at m a (l1 ++ l2) <->
    bytes_at m a l1 /\ bytes_at m (a + Z.of_nat (length l1)) l2.
  Proof.
    revert a. induction l1 as [|b l1 IH]; intros a.
    - cbn. rewrite Z.add_0_r. pose proof (bytes_at_nil m a). tauto.
    - cbn [app length]. rewrite !bytes_at_cons, IH.
      replace (a + Z.of_nat (S (length l1))) with (a + 1 + Z.of_nat (length l1)) by lia.
      tauto.
  Qed.

Lemma bytes_at_insert_ne m a l y v :
    bytes_at m a l -> ~ (a <= y < a + Z.of_nat (length l)) ->
    bytes_at (<[y := v]> m) a l.
  Proof.
    intros H Hy i x Hi. pose proof (lookup_lt_Some _ _ _ Hi).
    rewrite lookup_insert_ne by lia. auto.
  Qed.

Lemma bytes_at_same_outside m m' b n a l :
    same_outside b n m m' -> bytes_at m a l ->
    (a + Z.of_nat (length l) <= b \/ b + n <= a) -> bytes_at m' a l.
  Proof.
    intros Hs H Hd i x Hi. pose proof (lookup_lt_Some _ _ _ Hi).
    rewrite Hs by lia. auto.
  Qed.

Lemma bytes_below_nil m a : bytes_below m a [].
  Proof. intros i x H. by rewrite lookup_nil in H. Qed.

Lemma bytes_below_cons m a b l :
    bytes_below m a (b :: l) <-> m !! (a - 1) = Some b /\ bytes_below m (a - 1) l.
  Proof.
    split.
    - intros H. split; [specialize (H O b eq_refl); by rewrite Z.sub_0_r in H|].
      intros i x Hi. specialize (H (S i) x Hi).
      by replace (a - 1 - 1 - Z.of_nat i) with (a - 1 - Z.of_nat (S i)) by lia.
    - intros [H0 H] [|i] x Hi; simplify_eq/=; [by rewrite Z.sub_0_r|].
      specialize (H i x Hi). by replace (a - 1 - Z.of_nat (S i)) with (a - 1 - 1 - Z.of_nat i) by lia.
  Qed.

Lemma bytes_below_app m a l1 l2 :
    bytes_below m a (l1 ++ l2) <->
    bytes_below m a l1 /\ bytes_below m (a - Z.of_nat (length l1)) l2.
  Proof.
    revert a. induction l1 as [|b l1 IH]; intros a.
    - cbn. rewrite Z.sub_0_r. pose proof (bytes_below_nil m a). tauto.
    - cbn [app length]. rewrite !bytes_below_cons, IH.
      replace (a - Z.of_nat (S (length l1))) with (a - 1 - Z.of_nat (length l1)) by lia.
      tauto.
  Qed.

Lemma bytes_below_insert_ne m a l y v :
    bytes_below m a l -> ~ (a - Z.of_nat (length l) <= y < a) ->
    bytes_below (<[y := v]> m) a l.
  Proof.
    intros H Hy i x Hi. pose proof (lookup_lt_Some _ _ _ Hi).
    rewrite lookup_insert_ne by lia. auto.
  Qed.

Lemma same_outside_refl a n m : same_outside a n m m.
  Proof. by intros ??. Qed.

Lemma same_outside_insert a n m m' y v :
    same_outside a n m m' -> a <= y < a + n -> same_outside a n m (<[y := v]> m').
  Proof. intros H ? x ?. rewrite lookup_insert_ne by lia. auto. Qed.

Lemma same_outside_trans a n m1 m2 m3 :
    same_outside a n m1 m2 -> same_outside a n m2 m3 -> same_outside a n m1 m3.
  Proof. intros H1 H2 x ?. rewrite H2, H1; auto. Qed.

Lemma same_outside_weaken a n a' n' m m' :
    same_outside a n m m' -> a' <= a -> a + n <= a' + n' -> same_outside a' n' m m'.
  Proof. intros H ?? x ?. apply H. lia. Qed.
End Facts.

(** The region predicates are decidable, so that a concrete memory can be
    checked by computation. *)
#[export] Instance mapped_dec m a n : Decision (mapped m a n).
Proof.
  refine (cast_if (decide (Forall (fun x => is_Some (m !! x)) (seqZ a n)))).
  - intros x Hx. rewrite Forall_forall in f. apply f, elem_of_seqZ. lia.
  - intros H. apply n0, Forall_forall. intros x Hx%elem_of_seqZ. apply H. lia.
Defined.

Fixpoint bytes_atb (m : mem) (a : Z) (l : list Z) : bool :=
  match l with
  | [] => true
  | b :: l' => bool_decide (m !! a = Some b) && bytes_atb m (a + 1) l'
  end.

Lemma bytes_atb_spec m a l : bytes_atb m a l = true <-> bytes_at m a l.
Proof.
  revert a. induction l as [|b l IH]; intros a; simpl.
  - split; [intros _; apply bytes_at_nil|done].
  - rewrite andb_true_iff, bool_decide_eq_true, IH, bytes_at_cons. done.
Qed.

#[export] Instance bytes_at_dec m a l : Decision (bytes_at m a l).
Proof.
  refine (cast_if (decide (bytes_atb m a l = true))); by rewrite <- bytes_atb_spec.
Defined.

(** A memory made of buffers: each at an address, with its contents. *)
Definition buffers (bs : list (Z * list Z)) : mem :=
  list_to_map (bs ≫= fun '(a, l) => imap (fun i x => (a + Z.of_nat i, x)) l).

Create HintDb mem.
#[export] Hint Resolve mapped_insert bytes_at_nil bytes_below_nil same_outside_refl : mem.
