(* ===== verification/DList.v ===== *)
(** * Words and doubly linked lists

    A memory of 32-bit words at byte addresses, for the code that links its
    structures by pointers, and cyclic doubly linked lists in it: a structure
    at address [p] has its successor in the word at [p + on] and its
    predecessor in the word at [p + op]. *)

From Stdlib Require Import ZArith Lia.
From S2P Require Import Prelude.

(** ** Words *)

Definition words : Type := Z -> Z.

Definition st (m : words) (a v : Z) : words := fun x => if decide (x = a) then v else m x.

Lemma st_eq m a v : st m a v a = v.
Proof. unfold st. by rewrite decide_True. Qed.

Lemma st_ne m a v x : x <> a -> st m a v x = m x.
Proof. intros. unfold st. by rewrite decide_False. Qed.

(** [wsame P m m']: the two memories only differ at addresses in [P]. *)
Definition wsame (P : Z -> Prop) (m m' : words) : Prop := forall x, ~ P x -> m' x = m x.

Lemma wsame_refl P m : wsame P m m.
Proof. done. Qed.

Lemma wsame_st (P : Z -> Prop) m m' a v : wsame P m m' -> P a -> wsame P m (st m' a v).
Proof. intros H Ha x Hx. rewrite st_ne; [by apply H|]. by intros ->. Qed.

Lemma wsame_trans (P : Z -> Prop) m1 m2 m3 : wsame P m1 m2 -> wsame P m2 m3 -> wsame P m1 m3.
Proof. intros H1 H2 x Hx. by rewrite H2, H1. Qed.

Lemma wsame_weaken (P Q : Z -> Prop) m m' : (forall x, P x -> Q x) -> wsame P m m' -> wsame Q m m'.
Proof. intros H Hs x Hx. apply Hs. auto. Qed.

Create HintDb words.
#[export] Hint Resolve wsame_refl wsame_st : words.

Lemma NoDup_sub3 (x : Z) l1 l2 l3 :
  NoDup (x :: l1 ++ l2 ++ l3) ->
  NoDup (x :: l1 ++ l3) /\ (forall y, In y (x :: l1 ++ l3) -> ~ In y l2).
Proof.
  intros H. rewrite app_comm_cons in H. apply NoDup_app in H as (H1 & H2 & H3).
  apply NoDup_app in H3 as (H3 & H4 & H5). split.
  - rewrite app_comm_cons. apply NoDup_app. split; [done|]. split; [|done].
    intros y Hy Hy'. apply (H2 y Hy), elem_of_app. by right.
  - rewrite app_comm_cons. intros y Hy Hy'. apply in_app_or in Hy as [Hy|Hy].
    + apply (H2 y); [by apply list_elem_of_In|]. apply elem_of_app. left. by apply list_elem_of_In.
    + apply (H4 y); by apply list_elem_of_In.
Qed.

(** ** Cyclic doubly linked lists *)

Section DList.
Context (on op : Z).
Implicit Types (m : words) (h n p s x y : Z) (l L R X Y : list Z).

(** Each structure of [l] is linked with the next one. *)
Fixpoint chain m l : Prop :=
  match l with
  | x :: (y :: _) as l' => m (x + on) = y /\ m (y + op) = x /\ chain m l'
  | _ => True
  end.

(** The structures of [l], in order, on the ring with head [h]. *)
Definition ring m h l : Prop := chain m (h :: l ++ [h]).

Lemma chain_cons m x y l :
  chain m (x :: y :: l) <-> m (x + on) = y /\ m (y + op) = x /\ chain m (y :: l).
Proof. done. Qed.

Lemma chain_app m L x R : chain m (L ++ x :: R) <-> chain m (L ++ [x]) /\ chain m (x :: R).
Proof.
  induction L as [|y L IH]; [simpl; tauto|]. destruct L as [|z L].
  - simpl. destruct R; tauto.
  - change ((y :: z :: L) ++ x :: R) with (y :: z :: (L ++ x :: R)).
    change ((y :: z :: L) ++ [x]) with (y :: z :: (L ++ [x])).
    rewrite !chain_cons. simpl in IH. tauto.
Qed.

(** A chain only depends on its links. *)
Lemma chain_ext m m' L x :
  (forall y, In y L -> m' (y + on) = m (y + on)) ->
  (forall y, In y (tail (L ++ [x])) -> m' (y + op) = m (y + op)) ->
  chain m (L ++ [x]) -> chain m' (L ++ [x]).
Proof.
  induction L as [|y L IH]; intros Hn Hp H; [done|].
  destruct L as [|z L]; simpl in *.
  - rewrite Hn, Hp by auto. done.
  - rewrite Hn, Hp by auto. destruct H as (H1 & H2 & H3). split; [done|]. split; [done|].
    apply IH; auto.
Qed.

Lemma last_snoc_In l p d : List.last (l ++ [p]) d = p.
Proof. apply last_last. Qed.

(** Replaces a part of the ring: only the links around it change. *)
Lemma ring_splice m m' h l1 X Y l2 p s :
  NoDup (h :: l1 ++ l2) -> p = List.last l1 h -> s = hd h l2 ->
  ring m h (l1 ++ X ++ l2) ->
  (forall y, In y (h :: l1 ++ l2) -> y <> p -> m' (y + on) = m (y + on)) ->
  (forall y, In y (h :: l1 ++ l2) -> y <> s -> m' (y + op) = m (y + op)) ->
  chain m' (p :: Y ++ [s]) -> ring m' h (l1 ++ Y ++ l2).
Proof.
  intros Hnd Hp Hs Hr Hn Hpr HY. unfold ring in *.
  assert (exists L, h :: l1 = L ++ [p]) as [L HL].
  { destruct (exists_last (l := h :: l1)) as (L & p' & HL); [done|].
    exists L. rewrite HL. f_equal. rewrite Hp.
    replace (List.last l1 h) with (List.last (h :: l1) h) by (by destruct l1).
    rewrite HL, last_last. done. }
  assert (exists R, l2 ++ [h] = s :: R) as [R HR].
  { destruct l2; simpl in *; subst; eauto. }
  assert (h :: (l1 ++ Y ++ l2) ++ [h] = L ++ p :: Y ++ s :: R) as ->.
  { rewrite app_comm_cons, app_comm_cons, HL, <- !app_assoc, HR. done. }
  assert (h :: (l1 ++ X ++ l2) ++ [h] = L ++ p :: X ++ s :: R) as Hx.
  { rewrite app_comm_cons, app_comm_cons, HL, <- !app_assoc, HR. done. }
  rewrite Hx in Hr. rewrite chain_app in Hr |- *. destruct Hr as [HrL Hr].
  rewrite app_comm_cons, chain_app in Hr. destruct Hr as [_ HrR].
  assert (NoDup (L ++ [p]) /\ NoDup (s :: R)) as [HndL HndR].
  { rewrite <- HL, <- HR. rewrite app_comm_cons in Hnd. apply NoDup_app in Hnd as (H1 & H2 & H3).
    split; [done|]. apply NoDup_app. split; [done|]. split; [|apply NoDup_singleton].
    intros y Hy ->%list_elem_of_singleton. apply (H2 h); [by left|done]. }
  assert (forall y, In y L -> In y (h :: l1 ++ l2) /\ y <> p) as HinL.
  { intros y Hy. split.
    - rewrite app_comm_cons, HL. apply in_or_app. left. apply in_or_app. by left.
    - intros ->. apply NoDup_app in HndL as (_ & HndL & _).
      apply (HndL p); [by apply list_elem_of_In|by left]. }
  assert (forall y, In y R -> In y (h :: l1 ++ l2) /\ y <> s) as HinR.
  { intros y Hy. split.
    - assert (In y (l2 ++ [h])) as H by (rewrite HR; by right).
      apply in_app_or in H as [H|[->|[]]]; [right; apply in_or_app; by right|by left].
    - intros ->. apply NoDup_cons in HndR as [H _]. by apply H, list_elem_of_In. }
  assert (forall y, In y l1 -> y <> s) as Hl1s.
  { intros y Hy ->. apply NoDup_cons in Hnd as [Hnh Hnd]. apply NoDup_app in Hnd as (_ & Hnd & _).
    destruct l2 as [|z l2]; simpl in Hs; subst s.
    - apply Hnh, list_elem_of_In. rewrite app_nil_r. done.
    - apply (Hnd z); [by apply list_elem_of_In|by left]. }
  assert (forall y, In y l2 -> y <> p) as Hl2p.
  { intros y Hy ->. rewrite app_comm_cons in Hnd. apply NoDup_app in Hnd as (_ & Hnd & _).
    apply (Hnd p); [|by apply list_elem_of_In]. rewrite HL. apply elem_of_app. right. by left. }
  split.
  - apply chain_ext with m; [| |done].
    + intros y Hy. by apply Hn; apply HinL.
    + rewrite <- HL. simpl. intros y Hy. apply Hpr; [right; apply in_or_app; by left|auto].
  - rewrite app_comm_cons, chain_app. split; [done|].
    rewrite <- HR. apply chain_ext with m; [| |by rewrite HR].
    + intros y Hy. apply Hn; [right; apply in_or_app; by right|auto].
    + rewrite HR. simpl. intros y Hy. by apply Hpr; apply HinR.
Qed.

(** The links around a structure of the ring. *)
Lemma ring_links m h l1 x l2 :
  ring m h (l1 ++ x :: l2) -> m (x + on) = hd h l2 /\ m (x + op) = List.last l1 h.
Proof.
  unfold ring. rewrite <- app_assoc. cbn [app]. rewrite app_comm_cons.
  intros H. apply chain_app in H as [H1 H2]. split.
  - destruct l2; simpl in H2; tauto.
  - destruct (exists_last (l := h :: l1)) as (L & p & HL); [done|].
    replace (List.last l1 h) with p.
    2: { replace (List.last l1 h) with (List.last (h :: l1) h) by (by destruct l1).
         by rewrite HL, last_last. }
    rewrite HL, <- app_assoc in H1. apply chain_app in H1 as [_ H1]. simpl in H1. tauto.
Qed.

Lemma ring_first m h l : ring m h l -> m (h + on) = hd h l.
Proof. unfold ring. destruct l; simpl; tauto. Qed.

Lemma ring_last m h l : ring m h l -> m (h + op) = List.last l h.
Proof.
  unfold ring. destruct (exists_last (l := h :: l)) as (L & p & HL); [done|]. intros H.
  replace (List.last l h) with p.
  2: { replace (List.last l h) with (List.last (h :: l) h) by (by destruct l).
       by rewrite HL, last_last. }
  rewrite app_comm_cons, HL, <- app_assoc in H. apply chain_app in H as [_ H]. simpl in H. tauto.
Qed.

Lemma ring_ext m m' h l :
  (forall y, In y (h :: l) -> m' (y + on) = m (y + on)) ->
  (forall y, In y (h :: l) -> m' (y + op) = m (y + op)) ->
  ring m h l -> ring m' h l.
Proof.
  intros Hn Hp. unfold ring. rewrite app_comm_cons. apply chain_ext; [done|].
  simpl. intros y Hy. apply Hp. apply in_app_or in Hy as [Hy|[->|[]]]; [by right|by left].
Qed.

(** *** Removing and appending *)

Section Update.
(** The structures do not overlap: [size] bytes each. *)
Context (size : Z).

Definition sepn x y : Prop := x = y \/ x + size <= y \/ y + size <= x.

Lemma st_sepn m x f v y g :
  sepn x y -> x <> y \/ f <> g -> 0 <= f < size -> 0 <= g < size ->
  st m (x + f) v (y + g) = m (y + g).
Proof. unfold sepn. intros. apply st_ne. lia. Qed.

Context (Hon : 0 <= on < size) (Hop : 0 <= op < size) (Hne : on <> op).

(** Store to the successor's and the predecessor's link: any memory with these
    values does. *)
Lemma ring_remove m m' h l1 x l2 :
  NoDup (h :: l1 ++ x :: l2) ->
  (forall y z, In y (h :: l1 ++ x :: l2) -> In z (h :: l1 ++ x :: l2) -> sepn y z) ->
  ring m h (l1 ++ x :: l2) ->
  wsame (fun a => a = m (x + op) + on \/ a = m (x + on) + op) m m' ->
  m' (m (x + op) + on) = m (x + on) -> m' (m (x + on) + op) = m (x + op) ->
  ring m' h (l1 ++ l2).
Proof.
  intros Hnd Hsep Hr Hw H1 H2. destruct (ring_links _ _ _ _ _ Hr) as [En Ep].
  rewrite En, Ep in *.
  assert (NoDup (h :: l1 ++ l2)) as Hnd'.
  { rewrite app_comm_cons in Hnd |- *. apply NoDup_app in Hnd as (N1 & N2 & N3).
    apply NoDup_app. apply NoDup_cons in N3 as [_ N3]. split; [done|]. split; [|done].
    intros y Hy Hy'. apply (N2 y Hy). by right. }
  assert (forall y, In y (h :: l1 ++ l2) -> In y (h :: l1 ++ x :: l2)) as Hsub.
  { intros y [<-|Hy]; [by left|right]. apply in_app_or in Hy as [?|?]; apply in_or_app;
      [by left|right; by right]. }
  assert (In (hd h l2) (h :: l1 ++ l2)) as Hs.
  { destruct l2; [by left|right; apply in_or_app; right; by left]. }
  assert (In (List.last l1 h) (h :: l1 ++ l2)) as Hp.
  { destruct l1 as [|y l1 _] using rev_ind; [by left|right]. rewrite last_last.
    apply in_or_app. left. apply in_or_app. right. by left. }
  apply (ring_splice m m' h l1 [x] [] l2 (List.last l1 h) (hd h l2)); try done.
  - intros y Hy Hyp. apply Hw. pose proof (Hsep y _ (Hsub _ Hy) (Hsub _ Hs)) as S1.
    unfold sepn in S1. lia.
  - intros y Hy Hys. apply Hw. pose proof (Hsep y _ (Hsub _ Hy) (Hsub _ Hp)) as S1.
    unfold sepn in S1. lia.
Qed.

Lemma ring_push_back m m' h l x :
  NoDup (h :: l ++ [x]) ->
  (forall y z, In y (h :: l ++ [x]) -> In z (h :: l ++ [x]) -> sepn y z) ->
  ring m h l ->
  wsame (fun a => a = m (h + op) + on \/ a = h + op \/ a = x + on \/ a = x + op) m m' ->
  m' (m (h + op) + on) = x -> m' (h + op) = x -> m' (x + on) = h -> m' (x + op) = m (h + op) ->
  ring m' h (l ++ [x]).
Proof.
  intros Hnd Hsep Hr Hw H1 H2 H3 H4. rewrite (ring_last _ _ _ Hr) in *.
  assert (forall y, In y (h :: l) -> In y (h :: l ++ [x]) /\ y <> x) as Hsub.
  { intros y Hy. split.
    - destruct Hy as [<-|Hy]; [by left|right]. apply in_or_app. by left.
    - intros ->. rewrite app_comm_cons in Hnd. apply NoDup_app in Hnd as (_ & Hnd & _).
      apply (Hnd x); [by apply list_elem_of_In|by left]. }
  assert (In x (h :: l ++ [x])) as Hx by (right; apply in_or_app; right; by left).
  assert (In (List.last l h) (h :: l)) as Hp.
  { destruct l as [|y l _] using rev_ind; [by left|right]. rewrite last_last.
    apply in_or_app. right. by left. }
  destruct (Hsub _ Hp) as [HpN Hpx]. destruct (Hsub h) as [HhN Hhx]; [by left|].
  replace (l ++ [x]) with (l ++ [x] ++ []) by (by rewrite app_nil_r).
  apply (ring_splice m m' h l [] [x] [] (List.last l h) h); try done.
  - rewrite app_nil_r. rewrite app_comm_cons in Hnd. by apply NoDup_app in Hnd as (? & _).
  - by rewrite app_nil_r.
  - rewrite app_nil_r. intros y Hy Hyp. destruct (Hsub y Hy) as [HyN Hyx]. apply Hw.
    pose proof (Hsep y _ HyN HpN). pose proof (Hsep y _ HyN HhN). pose proof (Hsep y _ HyN Hx).
    unfold sepn in *. lia.
  - rewrite app_nil_r. intros y Hy Hys. destruct (Hsub y Hy) as [HyN Hyx]. apply Hw.
    pose proof (Hsep y _ HyN HpN). pose proof (Hsep y _ HyN HhN). pose proof (Hsep y _ HyN Hx).
    unfold sepn in *. lia.
Qed.
End Update.

End DList.
