(* ===== verification/Div64.v ===== *)
(** * 64-bit division (libcomcore/libgcc)

    The compiler's support routines for 64-bit division on the 32-bit target:
    shift-and-subtract division of unsigned numbers, and the signed quotient
    and remainder on top of it. *)

From Stdlib Require Import ZArith Lia.
From S2P Require Import Prelude.

Module Div64.

(** What [__udivmoddi4] does: whether it raised the divide trap, the quotient
    it returns and the remainder it stores ([None]: nothing is stored). *)
Record divres := DivRes { dr_trap : bool; dr_quot : Z; dr_rem : option Z }.

(** One iteration of each of the two loops of [__udivmoddi4]. *)
Definition justify_step (s : Z * Z) : result (ctl (Z * Z) (Z * Z)) :=
  let '(den, qbit) := s in
  if decide (0 <= s64 den)
  then Ok (Continue (u64 (Z.shiftl den 1), u64 (Z.shiftl qbit 1)))
  else Ok (Break (den, qbit)).

Definition divide_step (s : Z * Z * Z * Z) : result (ctl (Z * Z * Z * Z) (Z * Z)) :=
  let '(num, den, quot, qbit) := s in
  if decide (qbit = 0) then Ok (Break (quot, num))
  else
    let '(num, quot) :=
      if decide (den <= num) then (u64 (num - den), u64 (quot + qbit)) else (num, quot) in
    Ok (Continue (num, Z.shiftr den 1, quot, Z.shiftr qbit 1)).

(** Each loop shifts a 64-bit word once per iteration. *)
Definition div_fuel : nat := 66.

Definition udivmoddi4 (num den : Z) : result divres :=
  if decide (den = 0) then Ok (DivRes true 0 None)
  else
    '(den, qbit) ← loop div_fuel justify_step (den, 1);
    '(quot, num) ← loop div_fuel divide_step (num, den, 0, qbit);
    Ok (DivRes false quot (Some num)).

Definition udivdi3 (num den : Z) : result Z :=
  dr_quot <$> udivmoddi4 num den.

(** [v] stays uninitialised when nothing is stored. *)
Definition umoddi3 (num den : Z) : result Z :=
  r ← udivmoddi4 num den; of_option (dr_rem r).

Definition divdi3 (num den : Z) : result Z :=
  let '(num, minus) := if decide (num < 0) then (s64 (- num), 1) else (num, 0) in
  let '(den, minus) :=
    if decide (den < 0) then (s64 (- den), Z.lxor minus 1) else (den, minus) in
  r ← udivmoddi4 (u64 num) (u64 den);
  let v := s64 (dr_quot r) in
  Ok (if decide (minus = 0) then v else s64 (- v)).

Definition moddi3 (num den : Z) : result Z :=
  let '(num, minus) := if decide (num < 0) then (s64 (- num), 1) else (num, 0) in
  let '(den, minus) :=
    if decide (den < 0) then (s64 (- den), Z.lxor minus 1) else (den, minus) in
  r ← udivmoddi4 (u64 num) (u64 den);
  v ← of_option (dr_rem r);
  let v := s64 v in
  Ok (if decide (minus = 0) then v else s64 (- v)).

(** ** The loops *)

Lemma justify_loop den :
  0 < den < 0x10000000000000000 ->
  exists k, loop div_fuel justify_step (den, 1) = Ok (den * 2 ^ k, 2 ^ k) /\
    0 <= k <= 63 /\ 0x8000000000000000 <= den * 2 ^ k < 0x10000000000000000.
Proof.
  intros Hden.
  pose (I := fun s : Z * Z => exists k, s = (den * 2 ^ k, 2 ^ k) /\ 0 <= k <= 63 /\
    den * 2 ^ k < 0x10000000000000000).
  destruct (loop_total I (fun s => I s /\ 0x8000000000000000 <= s.1)
      (fun s => Z.to_nat (64 - Z.log2 s.2)) justify_step)
    with (fuel := div_fuel) (s := (den, 1))
    as ([??] & -> & (k & [= -> ->] & Hk) & Hle);
    [|exists 0; rewrite Z.mul_1_r; split; [done|lia]|unfold div_fuel; simpl; lia|exists k; simpl in *; split; [done|lia]].
  intros [d q] (k & [= -> ->] & Hk & Hlt). unfold justify_step.
  assert (0 < 2 ^ k) by (apply Z.pow_pos_nonneg; lia).
  case_decide as Hs; simpl.
  2: { split; [by exists k|]. apply Z.nlt_ge. intros Hsm. rewrite s64_small in Hs; nia. }
  assert (den * 2 ^ k < 0x8000000000000000) as Hsmall.
  { apply Z.nle_gt. intros Hge. unfold s64 in Hs.
    rewrite <- (Z.mod_unique _ _ 1 (den * 2 ^ k - 0x8000000000000000)) in Hs; lia. }
  assert (k < 63) as Hk'.
  { apply Z.nle_gt. intros Hge. replace k with 63 in Hsmall by lia.
    change (2 ^ 63) with 0x8000000000000000 in Hsmall. lia. }
  assert (2 ^ k < 2 ^ 63) by (apply Z.pow_lt_mono_r; lia).
  assert (2 ^ (k + 1) = 2 * 2 ^ k) as Hpow by (rewrite Z.pow_add_r by lia; lia).
  change (2 ^ 63) with 0x8000000000000000 in *.
  rewrite !shiftl_mul, !u64_small by lia. change (2 ^ 1) with 2. split.
  - exists (k + 1). split; [f_equal; rewrite Hpow; lia|]. lia.
  - replace (2 ^ k * 2) with (2 ^ (k + 1)) by lia.
    rewrite !Z.log2_pow2 by lia. lia.
Qed.

Definition divide_inv (num0 den0 : Z) (s : Z * Z * Z * Z) : Prop :=
  let '(num, den, quot, qbit) := s in
  0 <= num /\ 0 <= quot /\ quot * den0 + num = num0 /\
  ((qbit = 0 /\ num < den0) \/
   exists j, 0 <= j /\ qbit = 2 ^ j /\ den = den0 * 2 ^ j /\ num < den0 * (2 * 2 ^ j)).

Lemma divide_step_ok num0 den0 s :
  0 < den0 -> 0 <= num0 < 0x10000000000000000 -> divide_inv num0 den0 s ->
  step_ok (divide_inv num0 den0)
    (fun '(q, r) => 0 <= r < den0 /\ q * den0 + r = num0)
    (fun '(_, _, _, qbit) => Z.to_nat (if decide (qbit = 0) then 0 else Z.log2 qbit + 1))
    s (divide_step s).
Proof.
  intros Hd Hn. destruct s as [[[num den] quot] qbit]. simpl.
  intros (Hnum & Hquot & Heq & [[-> Hlt]|(j & Hj & -> & -> & Hlt)]);
    unfold divide_step; [case_decide; simpl; lia|].
  pose proof (Z.pow_pos_nonneg 2 j ltac:(lia) Hj) as Hpos.
  rewrite decide_False by lia.
  set (nq := if decide (den0 * 2 ^ j <= num) then _ else _).
  assert (exists n' q', nq = (n', q') /\ 0 <= n' /\ 0 <= q' /\ q' * den0 + n' = num0 /\
    n' < den0 * 2 ^ j) as (n' & q' & -> & Hn' & Hq' & Heq' & Hlt').
  { subst nq. case_decide.
    - assert (quot + 2 ^ j <= num0) by nia.
      exists (num - den0 * 2 ^ j), (quot + 2 ^ j). rewrite !u64_small by nia. split; [done|nia].
    - exists num, quot. split; [done|nia]. }
  simpl. rewrite (decide_False (P := 2 ^ j = 0)) by lia. split.
  - split; [done|]. split; [done|]. split; [done|]. rewrite !shiftr_div by lia.
    destruct (decide (j = 0)) as [->|Hj0]; [left; split; [done|lia]|right].
    exists (j - 1). replace (2 ^ j) with (2 * 2 ^ (j - 1)) in *
      by (rewrite <- Z.pow_succ_r by lia; f_equal; lia).
    change (2 ^ 1) with 2. split; [lia|]. split; [symmetry; apply Z.div_unique with 0; lia|].
    split; [symmetry; apply Z.div_unique with 0; lia|lia].
  - rewrite shiftr_div, Z.log2_pow2 by lia. destruct (decide (j = 0)) as [->|Hj0]; [vm_compute; lia|].
    replace (2 ^ j / 2 ^ 1) with (2 ^ (j - 1)) by (rewrite <- Z.pow_sub_r by lia; done).
    pose proof (Z.pow_pos_nonneg 2 (j - 1) ltac:(lia) ltac:(lia)).
    rewrite decide_False, Z.log2_pow2 by lia. lia.
Qed.

Lemma udivmoddi4_spec num den :
  0 <= num < 0x10000000000000000 -> 0 < den < 0x10000000000000000 ->
  udivmoddi4 num den = Ok (DivRes false (num / den) (Some (num mod den))).
Proof.
  intros Hnum Hden. unfold udivmoddi4. rewrite decide_False by lia.
  destruct (justify_loop den Hden) as (k & -> & Hk & Hlt). simpl.
  assert (2 ^ k <= 2 ^ 63) by (apply Z.pow_le_mono_r; lia).
  destruct (loop_total _ _ _ _ (fun s => divide_step_ok num den s ltac:(lia) Hnum))
    with (fuel := div_fuel) (s := (num, den * 2 ^ k, 0, 2 ^ k))
    as ([q r] & -> & Hr & Heq); simpl.
  - split; [lia|]. split; [lia|]. split; [lia|]. right. exists k. repeat split; lia.
  - pose proof (Z.pow_pos_nonneg 2 k ltac:(lia) ltac:(lia)).
    rewrite decide_False, Z.log2_pow2 by lia. unfold div_fuel. lia.
  - do 3 f_equal; [apply (Z.div_unique_pos _ _ _ r)|f_equal; apply (Z.mod_unique_pos _ _ q)]; lia.
Qed.

(** The signed routines divide the magnitudes. *)
Definition int64 (x : Z) : Prop := - 0x8000000000000000 <= x < 0x8000000000000000.

Lemma magnitude x :
  int64 x -> u64 (if decide (x < 0) then s64 (- x) else x) = Z.abs x.
Proof.
  unfold int64. intros Hx. case_decide; [|by rewrite u64_small; lia].
  destruct (decide (x = - 0x8000000000000000)) as [->|]; [done|].
  rewrite s64_small, u64_small; lia.
Qed.

(** What both signed routines compute before they look at the sign. *)
Lemma signed_division num den :
  int64 num -> int64 den -> den <> 0 ->
  udivmoddi4 (u64 (if decide (num < 0) then s64 (- num) else num))
             (u64 (if decide (den < 0) then s64 (- den) else den)) =
  Ok (DivRes false (Z.abs num / Z.abs den) (Some (Z.abs num mod Z.abs den))).
Proof.
  intros Hn Hd Hden. rewrite !magnitude by done. unfold int64 in *.
  apply udivmoddi4_spec; lia.
Qed.

Lemma abs_div_range num den :
  int64 num -> den <> 0 -> 0 <= Z.abs num / Z.abs den <= Z.abs num.
Proof.
  intros Hn Hd. split; [apply Z.div_pos; lia|]. apply Z.div_le_upper_bound; [lia|nia].
Qed.

(** ** Properties *)

(** [__udivmoddi4] (behind [__udivdi3] and [__umoddi3]) returns the exact
    quotient and remainder of any two unsigned 64-bit numbers; it terminates
    on all of them, and for a zero divisor it raises the divide trap, returns
    0 and stores no remainder. *)
Theorem udivmoddi4_correct num den :
  0 <= num < 0x10000000000000000 -> 0 <= den < 0x10000000000000000 ->
  udivmoddi4 num den =
    Ok (if decide (den = 0) then DivRes true 0 None
        else DivRes false (num / den) (Some (num mod den))) /\
  udivdi3 num den = Ok (if decide (den = 0) then 0 else num / den) /\
  umoddi3 num den = (if decide (den = 0) then Undef else Ok (num mod den)).
Proof.
  intros Hnum Hden. unfold udivdi3, umoddi3.
  destruct (decide (den = 0)) as [->|]; [done|].
  rewrite udivmoddi4_spec by lia. done.
Qed.

Lemma udivmoddi4_correct_witness :
  udivmoddi4 1000000007 (2 ^ 33 + 1) = Ok (DivRes false 0 (Some 1000000007)) /\
  udivmoddi4 (2 ^ 64 - 1) 10 = Ok (DivRes false 1844674407370955161 (Some 5)).
Proof.
  split.
  - rewrite (proj1 (udivmoddi4_correct 1000000007 (2 ^ 33 + 1) ltac:(lia) ltac:(lia))).
    vm_compute. reflexivity.
  - rewrite (proj1 (udivmoddi4_correct (2 ^ 64 - 1) 10 ltac:(lia) ltac:(lia))).
    vm_compute. reflexivity.
Defined.

(** [__divdi3] is the truncating quotient of C, reduced to 64 bits: only
    INT64_MIN / -1 wraps around. *)
Theorem divdi3_correct num den :
  int64 num -> int64 den -> den <> 0 ->
  divdi3 num den = Ok (s64 (Z.quot num den)).
Proof.
  intros Hn Hd Hden. unfold divdi3.
  pose proof (signed_division num den Hn Hd Hden) as H.
  pose proof (abs_div_range num den Hn Hden) as Hq.
  rewrite (Z.quot_div num den Hden). unfold int64 in *.
  set (q := Z.abs num / Z.abs den) in *.
  destruct (decide (q = 0x8000000000000000)) as [Hmin|Hmin].
  - assert (num = -0x8000000000000000) as -> by lia.
    repeat case_decide; change (Z.lxor 1 1) with 0 in *; change (Z.lxor 0 1) with 1 in *;
    try lia; rewrite H; simpl; rewrite Hmin; f_equal;
      rewrite ?Z.sgn_neg, ?Z.sgn_pos by lia; done.
  - assert (s64 q = q) as Hsq by (apply s64_small; lia).
    assert (s64 (- q) = - q) as Hsq' by (apply s64_small; lia).
    assert (num = 0 -> q = 0) as Hz by (intros ->; simpl in Hq; lia).
    repeat case_decide; change (Z.lxor 1 1) with 0 in *; change (Z.lxor 0 1) with 1 in *;
    try lia; rewrite H; simpl; rewrite ?Hsq, ?Hsq'; f_equal;
      destruct (Z.eq_dec num 0) as [Heq|]; try rewrite (Hz Heq), Heq;
      rewrite ?(Z.sgn_neg num), ?(Z.sgn_pos num), ?(Z.sgn_neg den), ?(Z.sgn_pos den) by lia;
      try done; rewrite s64_small; lia.
Qed.

Lemma divdi3_correct_witness :
  divdi3 (-7) 2 = Ok (-3) /\
  divdi3 (-0x8000000000000000) (-1) = Ok (-0x8000000000000000).
Proof.
  split.
  - rewrite (divdi3_correct (-7) 2); unfold int64; [reflexivity|lia..].
  - rewrite (divdi3_correct (-0x8000000000000000) (-1)); unfold int64; [reflexivity|lia..].
Defined.

(** [__moddi3] returns the remainder of C times the sign of the divisor:
    it agrees with the C operator [%] exactly when the divisor is positive or
    divides the dividend. *)
Theorem moddi3_sign num den :
  int64 num -> int64 den -> den <> 0 ->
  moddi3 num den = Ok (Z.sgn den * Z.rem num den) /\
  (moddi3 num den = Ok (Z.rem num den) <-> 0 < den \/ Z.rem num den = 0).
Proof.
  intros Hn Hd Hden.
  assert (moddi3 num den = Ok (Z.sgn den * Z.rem num den)) as ->.
  2: { split; [done|]. split; [intros [= H]|intros H; f_equal]; nia. }
  unfold moddi3. pose proof (signed_division num den Hn Hd Hden) as H.
  rewrite (Z.rem_mod num den Hden).
  pose proof (Z.mod_pos_bound (Z.abs num) (Z.abs den) ltac:(lia)) as Hr.
  unfold int64 in *. set (r := Z.abs num mod Z.abs den) in *.
  assert (num = 0 -> r = 0) as Hz by (intros ->; subst r; by rewrite Z.mod_0_l by lia).
  assert (s64 r = r) as Hsr by (apply s64_small; lia).
  assert (s64 (- r) = - r) as Hsr' by (apply s64_small; lia).
  repeat case_decide; change (Z.lxor 1 1) with 0 in *; change (Z.lxor 0 1) with 1 in *;
    try lia; rewrite H; simpl; rewrite ?Hsr, ?Hsr'; f_equal;
    destruct (Z.eq_dec num 0) as [Heq|]; try rewrite (Hz Heq), Heq;
    rewrite ?(Z.sgn_neg num), ?(Z.sgn_pos num), ?(Z.sgn_neg den), ?(Z.sgn_pos den) by lia;
    lia.
Qed.

Lemma moddi3_sign_witness : moddi3 7 (-3) = Ok (-1) /\ Z.rem 7 (-3) = 1.
Proof.
  split; [|reflexivity].
  rewrite (proj1 (moddi3_sign 7 (-3) ltac:(unfold int64; lia) ltac:(unfold int64; lia) ltac:(lia))).
  reflexivity.
Defined.

End Div64.
