(* ===== verification/RLL.v ===== *)
(** * Run-length packing (libcore/rllpack.c)

    The compressor and decompressor that pack binary structures into high
    memory, downwards from a pointer.  Both run on the byte memory of [Mem];
    the packed format is described by lists of [group]s. *)

From Stdlib Require Import ZArith Lia.
From S2P Require Import Prelude Mem.

Module RLL.

(** The registers the two routines read and write. *)
Record regs := Regs { esi : Z; ecx : Z; edi : Z }.

(** ** rllpack *)

(** [while (run < tcnt && i[run] == c) run++] *)
Definition scan_step (m : mem) (i c tcnt run : Z) : result (ctl Z Z) :=
  if decide (run < tcnt) then
    x ← load m (i + run);
    Ok (if decide (x = c) then Continue (run + 1) else Break run)
  else Ok (Break run).

(** [*(uint16_t * ) o = v]: a little-endian store. *)
Definition store16 (m : mem) (o v : Z) : result mem :=
  m ← store m o v; store m (o + 1) (Z.shiftr v 8).

Record pack_state := PackState
  { pk_m : mem; pk_i : Z; pk_o : Z; pk_cnt : Z; pk_vrun : Z; pk_hdr : Z }.

Definition pack_step (s : pack_state) : result (ctl pack_state pack_state) :=
  let '(PackState m i o cnt vrun hdr) := s in
  if decide (cnt = 0) then Ok (Break s)
  else
    c ← load m i;
    let tcnt := if decide (8191 < cnt) then 8191 else cnt in
    run ← loop (Z.to_nat tcnt) (scan_step m i c tcnt) 1;
    if decide (run < 3) then
      let '(o, hdr, vrun) :=
        if decide (128 <= vrun) then (o - 1, o - 1, 0) else (o, hdr, vrun) in
      let o := o - 1 in
      m ← store m o c;
      let vrun := u32 (vrun + 1) in
      m ← store m hdr vrun;
      Ok (Continue (PackState m (i + 1) o (cnt - 1) vrun hdr))
    else
      '(m, o) ← (if decide (run < 224 - 126)
                 then (m ← store m (o - 1) (run + 126); Ok (m, o - 1))
                 else (m ← store16 m (o - 2) (run + Z.shiftl 224 8); Ok (m, o - 2)));
      let o := o - 1 in
      m ← store m o c;
      Ok (Continue (PackState m (i + run) o (cnt - run) (u32 (-1)) hdr)).

Definition rllpack (m : mem) (r : regs) : result (mem * regs) :=
  s ← loop (S (Z.to_nat (ecx r))) pack_step
        (PackState m (esi r) (edi r) (ecx r) (u32 (-1)) 0);
  let o := pk_o s - 1 in
  m ← store (pk_m s) o 0;
  Ok (m, Regs (pk_i s) (ecx r) o).

(** ** rllunpack *)

(** [while (c--) *o++ = *--i] and [while (n--) *o++ = c] *)
Definition copy_step (s : mem * Z * Z * Z) : result (ctl (mem * Z * Z * Z) (mem * Z * Z)) :=
  let '(m, i, o, c) := s in
  if decide (c = 0) then Ok (Break (m, i, o))
  else
    x ← load m (i - 1); m ← store m o x;
    Ok (Continue (m, i - 1, o + 1, c - 1)).

Definition fill_step (c : Z) (s : mem * Z * Z) : result (ctl (mem * Z * Z) (mem * Z)) :=
  let '(m, o, n) := s in
  if decide (n = 0) then Ok (Break (m, o))
  else m ← store m o c; Ok (Continue (m, o + 1, n - 1)).

Definition unpack_step (s : mem * Z * Z) : result (ctl (mem * Z * Z) (mem * Z * Z)) :=
  let '(m, i, o) := s in
  c ← load m (i - 1);
  let i := i - 1 in
  if decide (c = 0) then Ok (Break (m, i, o))
  else if decide (c <= 128) then
    '(m, i, o) ← loop (S (Z.to_nat c)) copy_step (m, i, o, c);
    Ok (Continue (m, i, o))
  else
    '(n, i) ← (if decide (c < 224) then Ok (c - 126, i)
               else (x ← load m (i - 1); Ok (Z.shiftl (c - 224) 8 + x, i - 1)));
    c ← load m (i - 1);
    let i := i - 1 in
    '(m, o) ← loop (S (Z.to_nat n)) (fill_step c) (m, o, n);
    Ok (Continue (m, i, o)).

(** The packed stream ends at its zero byte; [fuel] bounds the number of
    groups in it. *)
Definition rllunpack (fuel : nat) (m : mem) (r : regs) : result (mem * regs) :=
  '(m, i, o) ← loop fuel unpack_step (m, esi r, edi r);
  Ok (m, Regs i (u32 (o - edi r)) o).

(** ** The packed format *)

Inductive group :=
  | Lit (l : list Z)          (* 1-128: that many verbatim bytes *)
  | Run (n : nat) (c : Z)     (* 129-223: n+126, then the byte *)
  | Long (n : nat) (c : Z).   (* 224-255: 224*256+n, then the byte *)

Definition enc1 (g : group) : list Z :=
  match g with
  | Lit l => Z.of_nat (length l) :: l
  | Run n c => [Z.of_nat n + 126; c]
  | Long n c => [224 + Z.of_nat n / 256; Z.of_nat n mod 256; c]
  end.

Definition dec1 (g : group) : list Z :=
  match g with Lit l => l | Run n c | Long n c => replicate n c end.

Definition valid1 (g : group) : Prop :=
  match g with
  | Lit l => (1 <= length l <= 128)%nat /\ Forall byte_ok l
  | Run n c => (3 <= n <= 97)%nat /\ byte_ok c
  | Long n c => Z.of_nat n <= 8191 /\ byte_ok c
  end.

Definition enc (gs : list group) : list Z := gs ≫= enc1.
Definition dec (gs : list group) : list Z := gs ≫= dec1.

(** ** Unpacking any well-formed stream *)

Lemma copy_loop l m i o :
  Forall byte_ok l -> bytes_below m i l -> mapped m o (Z.of_nat (length l)) ->
  (o + Z.of_nat (length l) <= i - Z.of_nat (length l) \/ i <= o) ->
  exists m', loop (S (length l)) copy_step (m, i, o, Z.of_nat (length l)) =
      Ok (m', i - Z.of_nat (length l), o + Z.of_nat (length l)) /\
    bytes_at m' o l /\ same_outside o (Z.of_nat (length l)) m m' /\
    (forall x, is_Some (m !! x) -> is_Some (m' !! x)).
Proof.
  revert m i o. induction l as [|b l IH]; intros m i o Hl Hb Hm Hd.
  - exists m. split; [|auto with mem]. cbn. unfold loop. simpl.
    by rewrite Z.sub_0_r, Z.add_0_r.
  - apply Forall_cons in Hl as [Hb0 Hl]. apply bytes_below_cons in Hb as [Hi Hb].
    cbn [length] in *.
    destruct (IH (<[o := b]> m) (i - 1) (o + 1)) as (m' & Hloop & Hat & Hsame & Hmap); try done.
    { apply bytes_below_insert_ne; [done|lia]. }
    { apply mapped_insert. eapply mapped_sub; [done|lia..]. }
    { lia. }
    exists m'. split.
    + erewrite loop_continue.
      2: { simpl. rewrite (load_Ok _ _ _ Hi). simpl. rewrite store_Ok by (apply Hm; lia).
           rewrite u8_small by done. done. }
      replace (Z.of_nat (S (length l)) - 1) with (Z.of_nat (length l)) by lia.
      rewrite Hloop. tuple_lia.
    + split; [|split].
      * apply bytes_at_cons. split; [|done].
        rewrite Hsame by lia. by rewrite lookup_insert_eq.
      * intros x Hx. rewrite Hsame, lookup_insert_ne by lia. done.
      * intros x Hx. apply Hmap. rewrite lookup_insert_is_Some'. auto.
Qed.

Lemma fill_loop n c m o :
  byte_ok c -> mapped m o (Z.of_nat n) ->
  exists m', loop (S n) (fill_step c) (m, o, Z.of_nat n) = Ok (m', o + Z.of_nat n) /\
    bytes_at m' o (replicate n c) /\ same_outside o (Z.of_nat n) m m' /\
    (forall x, is_Some (m !! x) -> is_Some (m' !! x)).
Proof.
  revert m o. induction n as [|n IH]; intros m o Hc Hm.
  - exists m. split; [|auto with mem]. unfold loop. simpl. by rewrite Z.add_0_r.
  - destruct (IH (<[o := c]> m) (o + 1)) as (m' & Hloop & Hat & Hsame & Hmap); [done|..].
    { apply mapped_insert. eapply mapped_sub; [done|lia..]. }
    exists m'. split.
    + erewrite loop_continue.
      2: { simpl. rewrite store_Ok by (apply Hm; lia). rewrite u8_small by done. done. }
      replace (Z.of_nat (S n) - 1) with (Z.of_nat n) by lia.
      rewrite Hloop. do 2 f_equal. lia.
    + split; [|split].
      * cbn [replicate]. apply bytes_at_cons. split; [|done].
        rewrite Hsame by lia. by rewrite lookup_insert_eq.
      * intros x Hx. rewrite Hsame, lookup_insert_ne by lia. done.
      * intros x Hx. apply Hmap. rewrite lookup_insert_is_Some'. auto.
Qed.

(** One group, then all of them. *)
Lemma unpack_group g m i o :
  valid1 g -> bytes_below m i (enc1 g) -> mapped m o (Z.of_nat (length (dec1 g))) ->
  (o + Z.of_nat (length (dec1 g)) <= i - Z.of_nat (length (enc1 g)) \/ i <= o) ->
  exists m', unpack_step (m, i, o) =
      Ok (Continue (m', i - Z.of_nat (length (enc1 g)), o + Z.of_nat (length (dec1 g)))) /\
    bytes_at m' o (dec1 g) /\ same_outside o (Z.of_nat (length (dec1 g))) m m' /\
    (forall x, is_Some (m !! x) -> is_Some (m' !! x)).
Proof.
  intros Hv Hb Hm Hd.
  destruct g as [l|n c|n c]; cbn [valid1 enc1 dec1 length] in *.
  - destruct Hv as [Hlen Hl]. apply bytes_below_cons in Hb as [H0 Hb].
    destruct (copy_loop l m (i - 1) o Hl Hb Hm) as (m' & Hloop & Hrest); [lia|].
    exists m'. split; [|done]. simpl. rewrite (load_Ok _ _ _ H0). simpl.
    rewrite decide_False, decide_True, Nat2Z.id, Hloop by lia. simpl.
    tuple_lia.
  - destruct Hv as [Hn Hc]. rewrite length_replicate in *.
    rewrite !bytes_below_cons in Hb. destruct Hb as (H0 & H1 & _).
    destruct (fill_loop n c m o Hc Hm) as (m' & Hloop & Hrest).
    exists m'. split; [|done]. simpl. rewrite (load_Ok _ _ _ H0). simpl.
    rewrite decide_False, decide_False, decide_True by lia. simpl.
    rewrite (load_Ok _ _ _ H1). simpl.
    replace (Z.of_nat n + 126 - 126) with (Z.of_nat n) by lia.
    rewrite Nat2Z.id, Hloop. simpl. tuple_lia.
  - destruct Hv as [Hn Hc]. rewrite length_replicate in *.
    rewrite !bytes_below_cons in Hb. destruct Hb as (H0 & H1 & H2 & _).
    destruct (fill_loop n c m o Hc Hm) as (m' & Hloop & Hrest).
    exists m'. split; [|done]. simpl. rewrite (load_Ok _ _ _ H0). simpl.
    assert (0 <= Z.of_nat n / 256) by (apply Z.div_pos; lia).
    rewrite decide_False, decide_False, decide_False by lia. simpl.
    rewrite (load_Ok _ _ _ H1). simpl. rewrite (load_Ok _ _ _ H2). simpl.
    replace (Z.shiftl (224 + Z.of_nat n / 256 - 224) 8 + Z.of_nat n mod 256)
      with (Z.of_nat n)
      by (rewrite shiftl_mul by lia; pose proof (Z.div_mod (Z.of_nat n) 256); lia).
    rewrite Nat2Z.id, Hloop. simpl. tuple_lia.
Qed.

Lemma unpack_loop gs m i o fuel :
  Forall valid1 gs -> bytes_below m i (enc gs ++ [0]) ->
  mapped m o (Z.of_nat (length (dec gs))) ->
  (o + Z.of_nat (length (dec gs)) <= i - Z.of_nat (length (enc gs)) - 1 \/ i <= o) ->
  (length gs < fuel)%nat ->
  exists m', loop fuel unpack_step (m, i, o) =
      Ok (m', i - Z.of_nat (length (enc gs)) - 1, o + Z.of_nat (length (dec gs))) /\
    bytes_at m' o (dec gs) /\ same_outside o (Z.of_nat (length (dec gs))) m m'.
Proof.
  revert m i o fuel. induction gs as [|g gs IH]; intros m i o fuel Hv Hb Hm Hd Hf;
    (destruct fuel as [|fuel]; [simpl in Hf; lia|]).
  - apply bytes_below_cons in Hb as [H0 _]. exists m. split; [|auto with mem].
    erewrite loop_break; [|simpl; rewrite (load_Ok _ _ _ H0); done].
    simpl. tuple_lia.
  - apply Forall_cons in Hv as [Hg Hv]. unfold enc, dec in *. rewrite !bind_cons in *.
    fold (enc gs) (dec gs) in *. rewrite !length_app, !Nat2Z.inj_add in *.
    rewrite <- app_assoc in Hb. apply bytes_below_app in Hb as [Hb1 Hb2].
    destruct (unpack_group g m i o Hg Hb1) as (m1 & Hstep & Hat & Hsame & Hmap).
    { eapply mapped_sub; [done|lia..]. }
    { lia. }
    destruct (IH m1 (i - Z.of_nat (length (enc1 g))) (o + Z.of_nat (length (dec1 g))) fuel)
      as (m' & Hloop & Hat' & Hsame'); [done|..].
    { intros k x Hk. pose proof (lookup_lt_Some _ _ _ Hk) as Hlt.
      rewrite length_app in Hlt. simpl in Hlt. rewrite Hsame by lia. auto. }
    { intros x Hx. apply Hmap, Hm. lia. }
    { lia. }
    { simpl in Hf. lia. }
    exists m'. split.
    + erewrite loop_continue by exact Hstep. rewrite Hloop. tuple_lia.
    + split.
      * apply bytes_at_app. split; [|done]. intros k x Hk.
        pose proof (lookup_lt_Some _ _ _ Hk). rewrite Hsame' by lia. auto.
      * intros x Hx. rewrite Hsame', Hsame by lia. done.
Qed.

(** ** Packing *)

Lemma scan_loop m i c l :
  bytes_at m i (c :: l) ->
  let tcnt := if decide (8191 < Z.of_nat (length (c :: l))) then 8191
              else Z.of_nat (length (c :: l)) in
  exists n : nat, loop (Z.to_nat tcnt) (scan_step m i c tcnt) 1 = Ok (Z.of_nat n) /\
    (1 <= n)%nat /\ Z.of_nat n <= tcnt /\ take n (c :: l) = replicate n c.
Proof.
  intros Hat tcnt.
  assert (1 <= tcnt <= Z.of_nat (length (c :: l))) as Ht.
  { subst tcnt. cbn [length]. case_decide; lia. }
  set (I := fun run => exists n : nat, run = Z.of_nat n /\ (1 <= n)%nat /\
    Z.of_nat n <= tcnt /\ take n (c :: l) = replicate n c).
  destruct (loop_total I I (fun run => Z.to_nat (tcnt - run)) (scan_step m i c tcnt))
    with (fuel := Z.to_nat tcnt) (s := 1) as (run & Hloop & n & -> & Hn);
    [|exists 1%nat; split_and!; [done|lia|lia|done]|lia|eauto].
  intros run (n & -> & Hn & Hle & Htake). unfold scan_step.
  case_decide as Hlt; [|by exists n].
  destruct (lookup_lt_is_Some_2 (c :: l) n) as [x Hx]; [lia|].
  rewrite (load_Ok _ _ _ (Hat _ _ Hx)). simpl. case_decide as Hc; [|by exists n].
  subst x. split; [|lia]. exists (S n). split; [lia|]. split; [lia|]. split; [lia|].
  rewrite (take_S_r _ _ _ Hx), Htake, <- replicate_S_end. done.
Qed.

(** The open group of literals, whose length byte the packer keeps patching. *)
Definition close (l : list Z) : list group := match l with [] => [] | _ => [Lit l] end.

Lemma enc_app gs1 gs2 : enc (gs1 ++ gs2) = enc gs1 ++ enc gs2.
Proof. apply bind_app. Qed.
Lemma dec_app gs1 gs2 : dec (gs1 ++ gs2) = dec gs1 ++ dec gs2.
Proof. apply bind_app. Qed.
Lemma enc_one g : enc [g] = enc1 g.
Proof. apply app_nil_r. Qed.
Lemma dec_close l : dec (close l) = l.
Proof. destruct l; simpl; [done|]. by rewrite app_nil_r. Qed.

Lemma close_valid l : (length l <= 128)%nat -> Forall byte_ok l -> Forall valid1 (close l).
Proof. destruct l; [by constructor|]. constructor; [|constructor]. simpl in *. split; [lia|done]. Qed.

Lemma length_enc_close l : (length (enc (close l)) <= S (length l))%nat.
Proof. destruct l; simpl; [lia|]. rewrite length_app. simpl. lia. Qed.

Lemma length_enc1_nonempty g : valid1 g -> (1 <= length (dec1 g))%nat -> (1 <= length (enc1 g))%nat.
Proof. destruct g; simpl; lia. Qed.

(** Adding one literal to the open group, header patch included. *)
Lemma lit_bytes m p e l c k :
  bytes_below m p e -> bytes_below m (p - Z.of_nat (length e) - 1) l ->
  bytes_below (<[p - Z.of_nat (length e) - 1 := k]>
    (<[p - Z.of_nat (length e) - 1 - Z.of_nat (length l) - 1 := c]> m))
    p (e ++ k :: (l ++ [c])).
Proof.
  intros He Hl. apply bytes_below_app. split.
  { repeat (apply bytes_below_insert_ne; [|lia]). done. }
  apply bytes_below_cons. split.
  { replace (p - Z.of_nat (length e) - 1) with (p - Z.of_nat (length e) - 1) by lia.
    by rewrite lookup_insert_eq. }
  apply bytes_below_app. split.
  { repeat (apply bytes_below_insert_ne; [|lia]). done. }
  apply bytes_below_cons. split; [|apply bytes_below_nil].
  rewrite lookup_insert_ne by lia. rewrite lookup_insert_eq. done.
Qed.

(** The loop invariant of [rllpack]. *)
Section Pack.
  Context (m0 : mem) (src dst : Z) (data : list Z).

Definition window : Z := 2 * Z.of_nat (length data) + 1.

Record pack_inv (s : pack_state) (rest : list Z) (gs : list group) (lits : list Z) : Prop := {
    pi_data : data = dec gs ++ lits ++ rest;
    pi_i : pk_i s = src + Z.of_nat (length (dec gs ++ lits));
    pi_cnt : pk_cnt s = Z.of_nat (length rest);
    pi_valid : Forall valid1 gs;
    pi_out : bytes_below (pk_m s) dst (enc (gs ++ close lits));
    pi_o : pk_o s = dst - Z.of_nat (length (enc (gs ++ close lits)));
    pi_size : (length (enc (gs ++ close lits)) <= 2 * length (dec gs ++ lits))%nat;
    pi_vrun : if decide (lits = []) then 128 <= pk_vrun s
              else pk_vrun s = Z.of_nat (length lits) /\ (length lits < 128)%nat /\
                   pk_hdr s = dst - Z.of_nat (length (enc gs)) - 1;
    pi_same : same_outside (dst - window) window m0 (pk_m s);
    pi_map : mapped (pk_m s) (dst - window) window }.

  Hypothesis Hbytes : Forall byte_ok data.
  Hypothesis Hsrc : bytes_at m0 src data.
  Hypothesis Hdst : mapped m0 (dst - window) window.
  Hypothesis Hdisj :
    src + Z.of_nat (length data) <= dst - window \/ dst <= src.

Lemma pack_lits_short s rest gs lits :
    pack_inv s rest gs lits -> (length lits <= 128)%nat.
  Proof.
    intros []. destruct (decide (lits = [])) as [->|]; [simpl; lia|].
    destruct pi_vrun0 as (_ & ? & _). lia.
  Qed.

Lemma pack_read s rest gs lits :
    pack_inv s rest gs lits -> bytes_at (pk_m s) (pk_i s) rest.
  Proof.
    intros []. assert (bytes_at (pk_m s) src data) as H.
    { eapply bytes_at_same_outside; [done..|]. unfold window in *. lia. }
    rewrite pi_data0, app_assoc in H. apply bytes_at_app in H as [_ H]. by rewrite pi_i0.
  Qed.

  (** Where the open group of literals is: its length byte and its next byte. *)
Definition lit_hdr (gs : list group) : Z := dst - Z.of_nat (length (enc gs)) - 1.

Lemma pack_open s rest gs lits :
    pack_inv s rest gs lits ->
    (if decide (128 <= pk_vrun s) then (pk_o s - 1, pk_o s - 1, 0)
     else (pk_o s, pk_hdr s, pk_vrun s)) =
    (lit_hdr gs - Z.of_nat (length lits), lit_hdr gs, Z.of_nat (length lits)) /\
    (length lits < 128)%nat /\
    bytes_below (pk_m s) dst (enc gs) /\ bytes_below (pk_m s) (lit_hdr gs) lits.
  Proof.
    intros []. unfold lit_hdr. rewrite enc_app, ?length_app in *.
    apply bytes_below_app in pi_out0 as [Hgs Hl].
    destruct (decide (lits = [])) as [->|Hne].
    - rewrite decide_True by done. rewrite pi_o0. simpl. split; [tuple_lia|].
      split; [lia|]. split; [done|apply bytes_below_nil].
    - destruct pi_vrun0 as (Hv & Hlt & Hh). rewrite decide_False by lia.
      destruct lits as [|x l]; [done|]. cbn [close enc length] in *.
      rewrite enc_one in *. cbn [enc1 length] in *. rewrite pi_o0, Hv, Hh.
      split; [tuple_lia|]. split; [lia|]. split; [done|].
      apply bytes_below_cons in Hl as [_ Hl]. done.
  Qed.

  (** Closing a full group of literals does not change the output. *)
Lemma close_full gs lits :
    (1 <= length lits)%nat -> (length lits <= 128)%nat -> Forall byte_ok lits ->
    exists gs' lits', enc (gs' ++ close lits') = enc (gs ++ [Lit lits]) /\
      dec gs' ++ lits' = dec gs ++ lits /\
      (Forall valid1 gs -> Forall valid1 gs') /\
      (if decide (lits' = []) then length lits = 128%nat
       else lits' = lits /\ gs' = gs /\ (length lits < 128)%nat).
  Proof.
    intros H1 H128 Hb. destruct (decide (length lits = 128%nat)) as [Hfull|Hnot].
    - exists (gs ++ [Lit lits]), []. rewrite dec_app, !app_nil_r. simpl. rewrite app_nil_r.
      split; [done|]. split; [done|]. split; [|done].
      intros Hgs. apply Forall_app. split; [done|]. constructor; [|done]. split; [lia|done].
    - exists gs, lits. destruct lits; [simpl in *; lia|]. simpl. split; [done|].
      split; [done|]. split; [done|]. simpl in *. split; [done|]. split; [done|lia].
  Qed.

Lemma pack_lit s c rest gs lits :
    pack_inv s (c :: rest) gs lits ->
    exists m', (m ← store (pk_m s) (lit_hdr gs - Z.of_nat (length lits) - 1) c;
         store m (lit_hdr gs) (u32 (Z.of_nat (length lits) + 1))) = Ok m' /\
      exists gs' lits',
        pack_inv (PackState m' (pk_i s + 1) (lit_hdr gs - Z.of_nat (length lits) - 1)
          (pk_cnt s - 1) (u32 (Z.of_nat (length lits) + 1)) (lit_hdr gs)) rest gs' lits'.
  Proof.
    intros Hinv. destruct (pack_open _ _ _ _ Hinv) as (_ & Hlt & Hgs & Hl).
    destruct Hinv. pose proof Hbytes as Hb. rewrite pi_data0, !Forall_app, Forall_cons in Hb.
    destruct Hb as (_ & Hblits & Hc & _).
    assert (length data = length (dec gs) + length lits + S (length rest))%nat as Hlen
      by (rewrite pi_data0 at 1; rewrite !length_app; simpl; lia).
    pose proof (lit_bytes _ _ _ _ c (Z.of_nat (length lits) + 1) Hgs Hl) as Hout.
    fold (lit_hdr gs) in Hout. rewrite enc_app, !length_app in pi_size0.
    rewrite u32_small by lia.
    assert (dst - window < lit_hdr gs - Z.of_nat (length lits) - 1 /\ lit_hdr gs < dst) as [Hlo Hhi].
    { unfold window, lit_hdr in *. destruct lits; simpl in *; [lia|].
      rewrite length_app in *. simpl in *. lia. }
    eexists. split.
    { rewrite store_Ok by (apply pi_map0; lia). simpl. apply store_Ok.
      apply mapped_insert with (1 := pi_map0). lia. }
    rewrite !u8_small by (unfold byte_ok in *; lia).
    destruct (close_full gs (lits ++ [c])) as (gs' & lits' & He & Hd & Hv & Hif).
    { rewrite length_app. simpl. lia. }
    { rewrite length_app. simpl. lia. }
    { apply Forall_app. split; [done|]. by constructor. }
    exists gs', lits'.
    assert (enc (gs' ++ close lits') =
      enc gs ++ (Z.of_nat (length lits) + 1) :: lits ++ [c]) as He'.
    { rewrite He, enc_app, enc_one. simpl. rewrite length_app. simpl. do 2 f_equal. lia. }
    constructor; cbn [pk_m pk_i pk_o pk_cnt pk_vrun pk_hdr].
    - rewrite pi_data0. rewrite app_assoc, (app_assoc (dec gs')), Hd, <- !app_assoc. done.
    - rewrite pi_i0, Hd, !length_app. simpl. lia.
    - rewrite pi_cnt0. simpl. lia.
    - auto.
    - by rewrite He'.
    - rewrite He', !length_app. simpl. rewrite length_app. simpl. unfold lit_hdr. lia.
    - rewrite He', Hd, !length_app. simpl. rewrite length_app. simpl.
      destruct lits; simpl in *; [lia|]. rewrite length_app in *. simpl in *. lia.
    - rewrite length_app in Hif. simpl in Hif. case_decide; [lia|].
      destruct Hif as (-> & -> & Hlt'). rewrite length_app. simpl. unfold lit_hdr. lia.
    - repeat (apply same_outside_insert; [|lia]). done.
    - auto with mem.
  Qed.

  (** The group a run becomes. *)
Definition run_group (n : nat) (c : Z) : group :=
    if decide (Z.of_nat n < 98) then Run n c else Long n c.

Lemma run_group_facts n c :
    (3 <= n)%nat -> Z.of_nat n <= 8191 -> byte_ok c ->
    valid1 (run_group n c) /\ dec1 (run_group n c) = replicate n c /\
    (2 <= length (enc1 (run_group n c)) <= 3)%nat.
  Proof. intros. unfold run_group. case_decide; simpl; split_and!; try done; lia. Qed.

  (** Storing a run below [o]. *)
Lemma pack_run_store m o n c :
    (3 <= n)%nat -> Z.of_nat n <= 8191 -> byte_ok c -> mapped m (o - 3) 3 ->
    exists m', ('(m, o) ← (if decide (Z.of_nat n < 224 - 126)
           then (m ← store m (o - 1) (Z.of_nat n + 126); Ok (m, o - 1))
           else (m ← store16 m (o - 2) (Z.of_nat n + Z.shiftl 224 8); Ok (m, o - 2)));
        m ← store m (o - 1) c; Ok (m, o - 1)) =
      Ok (m', o - Z.of_nat (length (enc1 (run_group n c)))) /\
      bytes_below m' o (enc1 (run_group n c)) /\ same_outside (o - 3) 3 m m' /\
      (forall x, is_Some (m !! x) -> is_Some (m' !! x)).
  Proof.
    intros Hn Hn' Hc Hm. unfold run_group. change (224 - 126) with 98.
    assert (Z.of_nat n / 256 < 32) by (apply Z.div_lt_upper_bound; lia).
    assert (0 <= Z.of_nat n / 256) by (apply Z.div_pos; lia).
    case_decide as Hs; cbn [enc1 length].
    - exists (<[o - 2 := c]> (<[o - 1 := Z.of_nat n + 126]> m)). split; [|split; [|split]].
      + rewrite store_Ok by (apply Hm; lia). simpl.
        replace (o - 1 - 1) with (o - 2) by lia.
        rewrite store_Ok by (apply (mapped_insert _ (o - 3) 3); [done|lia]). simpl.
        rewrite !u8_small by (done || lia). done.
      + rewrite !bytes_below_cons. replace (o - 1 - 1) with (o - 2) by lia.
        rewrite lookup_insert_ne, !lookup_insert_eq by lia. auto with mem.
      + repeat (apply same_outside_insert; [|lia]). auto with mem.
      + intros x Hx. rewrite !lookup_insert_is_Some'. auto.
    - exists (<[o - 3 := c]> (<[o - 1 := 224 + Z.of_nat n / 256]>
               (<[o - 2 := Z.of_nat n mod 256]> m))). split; [|split; [|split]].
      + unfold store16. rewrite store_Ok by (apply Hm; lia). simpl.
        replace (o - 2 + 1) with (o - 1) by lia. replace (o - 2 - 1) with (o - 3) by lia.
        rewrite store_Ok by (apply (mapped_insert _ (o - 3) 3); [done|lia]). simpl.
        rewrite store_Ok by (repeat apply (mapped_insert _ (o - 3) 3); [done|lia]). simpl.
        rewrite shiftr_div by lia. change (2 ^ 8) with 256.
        replace (u8 (Z.of_nat n + Z.shiftl 224 8)) with (Z.of_nat n mod 256)
          by (unfold u8; change (Z.shiftl 224 8) with (224 * 256);
              rewrite Z.mod_add by lia; done).
        change (Z.shiftl 224 8) with (224 * 256). rewrite Z.div_add by lia.
        rewrite (u8_small c) by done. rewrite u8_small by lia.
        rewrite (Z.add_comm (_ / _)). replace (o - 2 - 1) with (o - 3) by lia. done.
      + rewrite !bytes_below_cons. replace (o - 1 - 1) with (o - 2) by lia.
        replace (o - 2 - 1) with (o - 3) by lia.
        rewrite lookup_insert_ne, lookup_insert_eq by lia.
        rewrite !lookup_insert_ne by lia. rewrite lookup_insert_eq.
        rewrite lookup_insert_eq. auto with mem.
      + repeat (apply same_outside_insert; [|lia]). auto with mem.
      + intros x Hx. rewrite !lookup_insert_is_Some'. auto.
  Qed.

Lemma pack_run s n c rest gs lits :
    pack_inv s (replicate n c ++ rest) gs lits -> (3 <= n)%nat -> Z.of_nat n <= 8191 ->
    exists m', ('(m, o) ← (if decide (Z.of_nat n < 224 - 126)
           then (m ← store (pk_m s) (pk_o s - 1) (Z.of_nat n + 126); Ok (m, pk_o s - 1))
           else (m ← store16 (pk_m s) (pk_o s - 2) (Z.of_nat n + Z.shiftl 224 8);
                 Ok (m, pk_o s - 2)));
        m ← store m (o - 1) c; Ok (m, o - 1)) =
      Ok (m', pk_o s - Z.of_nat (length (enc1 (run_group n c)))) /\
      pack_inv (PackState m' (pk_i s + Z.of_nat n)
          (pk_o s - Z.of_nat (length (enc1 (run_group n c))))
          (pk_cnt s - Z.of_nat n) (u32 (-1)) (pk_hdr s)) rest
        (gs ++ close lits ++ [run_group n c]) [].
  Proof.
    intros Hinv Hn Hn'. pose proof (pack_lits_short _ _ _ _ Hinv) as Hshort.
    destruct Hinv. pose proof Hbytes as Hb. rewrite pi_data0, !Forall_app in Hb.
    destruct Hb as (_ & Hblits & Hbn & _).
    assert (byte_ok c) as Hc by (destruct n; [lia|]; by apply Forall_cons in Hbn as [? _]).
    assert (length data = length (dec gs) + length lits + (n + length rest))%nat as Hlen
      by (rewrite pi_data0 at 1; rewrite !length_app, length_replicate; lia).
    destruct (run_group_facts n c Hn Hn' Hc) as (Hv & Hd & Hl).
    rewrite !length_app in pi_size0. unfold window in *.
    destruct (pack_run_store (pk_m s) (pk_o s) n c Hn Hn' Hc) as (m' & Heq & Hout & Hsame & Hmap).
    { eapply mapped_sub; [exact pi_map0|lia..]. }
    exists m'. split; [done|].
    assert (enc ((gs ++ close lits ++ [run_group n c]) ++ close []) =
      enc (gs ++ close lits) ++ enc1 (run_group n c)) as Henc.
    { simpl. by rewrite app_nil_r, app_assoc, enc_app, enc_one. }
    assert (dec (gs ++ close lits ++ [run_group n c]) = dec gs ++ lits ++ replicate n c) as Hdec.
    { rewrite !dec_app, dec_close. do 2 f_equal. unfold dec. simpl. by rewrite app_nil_r. }
    constructor; cbn [pk_m pk_i pk_o pk_cnt pk_vrun pk_hdr]; rewrite ?Henc, ?Hdec, ?app_nil_r.
    - rewrite pi_data0, <- !app_assoc. done.
    - rewrite pi_i0, !length_app, length_replicate. lia.
    - rewrite pi_cnt0, length_app, length_replicate. lia.
    - apply Forall_app. split; [done|]. apply Forall_app. split; [by apply close_valid|].
      by constructor.
    - apply bytes_below_app. rewrite <- pi_o0. split; [|done].
      intros k x Hk. pose proof (lookup_lt_Some _ _ _ Hk). rewrite Hsame by lia. auto.
    - rewrite length_app. lia.
    - rewrite !length_app, length_replicate. lia.
    - done.
    - unfold window. eapply same_outside_trans; [done|].
      eapply same_outside_weaken; [exact Hsame|lia..].
    - intros x Hx. auto.
  Qed.

Lemma pack_step_ok s :
    (exists rest gs lits, pack_inv s rest gs lits) ->
    step_ok (fun s => exists rest gs lits, pack_inv s rest gs lits)
      (fun s => exists gs lits, pack_inv s [] gs lits)
      (fun s => Z.to_nat (pk_cnt s)) s (pack_step s).
  Proof.
    intros (rest & gs & lits & Hinv). pose proof (pack_read _ _ _ _ Hinv) as Hread.
    pose proof (pi_cnt _ _ _ _ Hinv) as Hcnt.
    destruct s as [m i o cnt vrun hdr]. cbn [pk_m pk_i pk_cnt] in *.
    unfold pack_step. destruct rest as [|c rest].
    { rewrite decide_True by (by subst). by exists gs, lits. }
    rewrite decide_False by (subst; simpl; lia).
    pose proof (proj1 (proj1 (bytes_at_cons _ _ _ _) Hread)) as Hc.
    rewrite (load_Ok _ _ _ Hc). cbn [mbind result_bind]. subst cnt.
    destruct (scan_loop m i c rest Hread) as (n & -> & Hn & Hle & Htake).
    cbn [mbind result_bind]. set (cnt := Z.of_nat (length (c :: rest))) in *.
    assert (Z.of_nat n <= 8191 /\ (n <= length (c :: rest))%nat) as [Hn8 Hnl]
      by (case_decide; lia). clear Hle.
    case_decide as H3.
    - destruct (pack_open _ _ _ _ Hinv) as (Hopen & _). cbn [pk_o pk_vrun pk_hdr] in Hopen.
      rewrite Hopen. destruct (pack_lit _ _ _ _ _ Hinv) as (m' & Hst & gs' & lits' & Hinv').
      cbn [pk_m pk_i pk_cnt] in *. apply bind_Ok_inv in Hst as (m1 & -> & Hst).
      cbn [mbind result_bind]. rewrite Hst. split; [eauto|]. simpl. subst cnt. simpl. lia.
    - rewrite <- (take_drop n (c :: rest)), Htake in Hinv.
      destruct (pack_run _ _ _ _ _ _ Hinv ltac:(lia) Hn8) as (m' & Hst & Hinv').
      cbn [pk_m pk_i pk_o pk_cnt pk_vrun pk_hdr] in *.
      apply bind_Ok_inv in Hst as ([m1 o1] & -> & Hst). cbn [mbind result_bind].
      apply bind_Ok_inv in Hst as (m2 & -> & [= -> Ho]). cbn [mbind result_bind].
      split; [rewrite Ho; eauto|simpl; subst cnt; lia].
  Qed.

  (** What [rllpack] leaves in memory. *)
Lemma rllpack_spec :
    exists gs m', rllpack m0 (Regs src (Z.of_nat (length data)) dst) =
        Ok (m', Regs (src + Z.of_nat (length data)) (Z.of_nat (length data))
                     (dst - Z.of_nat (length (enc gs)) - 1)) /\
      Forall valid1 gs /\ dec gs = data /\
      bytes_below m' dst (enc gs ++ [0]) /\
      (length (enc gs) <= 2 * length data)%nat /\
      same_outside (dst - window) window m0 m' /\ mapped m' (dst - window) window.
  Proof.
    unfold rllpack. cbn [esi ecx edi].
    edestruct (loop_total _ _ _ _ pack_step_ok (S (Z.to_nat (Z.of_nat (length data))))
      (PackState m0 src dst (Z.of_nat (length data)) (u32 (-1)) 0))
      as (s & -> & gs & lits & Hinv).
    { exists data, [], []. constructor; simpl; auto with mem; try done; try lia.
      all: by rewrite ?Z.add_0_r, ?Z.sub_0_r. }
    { simpl. lia. }
    pose proof (pack_lits_short _ _ _ _ Hinv) as Hshort.
    destruct Hinv. rewrite app_nil_r in pi_data0.
    exists (gs ++ close lits). cbn [mbind result_bind].
    assert (Forall byte_ok lits) by (rewrite pi_data0, Forall_app in Hbytes; by destruct Hbytes).
    rewrite <- pi_data0 in pi_size0. unfold window in *.
    rewrite store_Ok by (apply pi_map0; lia). eexists. cbn [mbind result_bind].
    rewrite u8_small by done. split_and!.
    - rewrite pi_i0, pi_o0, <- pi_data0. done.
    - apply Forall_app. split; [done|by apply close_valid].
    - by rewrite dec_app, dec_close.
    - apply bytes_below_app. split; [apply bytes_below_insert_ne; [done|lia]|].
      apply bytes_below_cons. split; [|apply bytes_below_nil].
      by rewrite lookup_insert_eq.
    - done.
    - apply same_outside_insert; [done|lia].
    - auto with mem.
  Qed.
End Pack.

(** Every valid group yields a byte or its own header, so there are at most as
    many groups as bytes of the stream. *)
Lemma groups_le_enc gs : (length gs <= length (enc gs))%nat.
Proof.
  induction gs as [|g gs IH]; [done|]. unfold enc in *. rewrite bind_cons, length_app.
  destruct g; simpl in *; lia.
Qed.

(** ** Properties *)

(** The decompressor decodes every well-formed stream: with the groups'
    encoding and a zero byte below ESI, [rllunpack] writes exactly the decoded
    bytes at EDI and nothing else, and returns the three registers the real
    mode code reads (end of the stream, length, end of the data). *)
Theorem rllunpack_correct gs m p q fuel :
  Forall valid1 gs -> bytes_below m p (enc gs ++ [0]) ->
  mapped m q (Z.of_nat (length (dec gs))) ->
  (q + Z.of_nat (length (dec gs)) <= p - Z.of_nat (length (enc gs)) - 1 \/ p <= q) ->
  Z.of_nat (length (dec gs)) < 0x100000000 ->
  (length gs < fuel)%nat ->
  exists m', rllunpack fuel m (Regs p 0 q) =
      Ok (m', Regs (p - Z.of_nat (length (enc gs)) - 1) (Z.of_nat (length (dec gs)))
                   (q + Z.of_nat (length (dec gs)))) /\
    bytes_at m' q (dec gs) /\ same_outside q (Z.of_nat (length (dec gs))) m m'.
Proof.
  intros Hv Hb Hm Hd Hlen Hf. unfold rllunpack. cbn [esi edi].
  destruct (unpack_loop gs m p q fuel Hv Hb Hm Hd Hf) as (m' & -> & Hat & Hsame).
  exists m'. cbn [mbind result_bind]. rewrite u32_small by lia. split; [tuple_lia|done].
Qed.

(** Round trip: [rllpack] always terminates, writes at most [2n + 1] bytes
    below EDI and nothing elsewhere, and [rllunpack] run on what it wrote
    gives back the packed bytes in any disjoint buffer. *)
Theorem rll_roundtrip m src dst data :
  Forall byte_ok data -> bytes_at m src data ->
  mapped m (dst - window data) (window data) ->
  (src + Z.of_nat (length data) <= dst - window data \/ dst <= src) ->
  Z.of_nat (length data) < 0x100000000 ->
  exists m1 e, rllpack m (Regs src (Z.of_nat (length data)) dst) =
      Ok (m1, Regs (src + Z.of_nat (length data)) (Z.of_nat (length data)) e) /\
    dst - window data <= e < dst /\ same_outside (dst - window data) (window data) m m1 /\
    forall q fuel, mapped m1 q (Z.of_nat (length data)) ->
      (q + Z.of_nat (length data) <= e \/ dst <= q) ->
      (2 * length data < fuel)%nat ->
      exists m2, rllunpack fuel m1 (Regs dst 0 q) =
          Ok (m2, Regs e (Z.of_nat (length data)) (q + Z.of_nat (length data))) /\
        bytes_at m2 q data /\ same_outside q (Z.of_nat (length data)) m1 m2.
Proof.
  intros Hb Hsrc Hdst Hd Hlen.
  destruct (rllpack_spec m src dst data Hb Hsrc Hdst Hd)
    as (gs & m1 & Hpack & Hv & <- & Hout & Hsize & Hsame & _).
  exists m1, (dst - Z.of_nat (length (enc gs)) - 1). unfold window in *.
  split; [done|]. split; [lia|]. split; [done|]. intros q fuel Hm Hq Hf.
  pose proof (groups_le_enc gs). unfold rllunpack. cbn [esi edi].
  destruct (unpack_loop gs m1 dst q fuel Hv Hout Hm) as (m2 & -> & Hat & Hsame2); [lia..|].
  exists m2. cbn [mbind result_bind]. rewrite u32_small by lia. split; [tuple_lia|done].
Qed.

(** A concrete memory for the witnesses. *)
Definition ex_data : list Z := [1; 2; 2; 7; 7; 7; 7].
Definition ex_mem : mem := buffers [(100, ex_data); (200, replicate 100 0)].

Lemma rll_roundtrip_witness :
  exists m1 e, rllpack ex_mem (Regs 100 7 300) = Ok (m1, Regs 107 7 e) /\
    exists m2, rllunpack 15 m1 (Regs 300 0 200) = Ok (m2, Regs e 7 207) /\
      bytes_at m2 200 ex_data.
Proof.
  destruct (rll_roundtrip ex_mem 100 300 ex_data) as (m1 & e & Hp & He & Hs & Hu);
    [by_compute|by_compute|by_compute|change (window ex_data) with 15; simpl; lia|simpl; lia|].
  change (window ex_data) with 15 in *. change (Z.of_nat (length ex_data)) with 7 in *.
  exists m1, e. split; [exact Hp|].
  destruct (Hu 200 15%nat) as (m2 & Hm2 & Hat & _); [|left; lia|simpl; lia|].
  - intros x Hx. rewrite Hs by lia. revert x Hx. change (mapped ex_mem 200 7). by_compute.
  - exists m2. auto.
Defined.

Lemma rllunpack_correct_witness :
  exists m', rllunpack 3 (buffers [(10, [0; 9; 129; 5; 6; 2]); (50, replicate 5 0)]) (Regs 16 0 50)
      = Ok (m', Regs 10 5 55) /\ bytes_at m' 50 [6; 5; 9; 9; 9].
Proof.
  destruct (rllunpack_correct [Lit [6; 5]; Run 3 9]
    (buffers [(10, [0; 9; 129; 5; 6; 2]); (50, replicate 5 0)]) 16 50 3) as (m' & H & Hat & _);
    [| |by_compute|simpl; lia|simpl; lia|simpl; lia|].
  - repeat constructor; simpl; lia.
  - cbn. repeat (apply bytes_below_cons; split; [reflexivity|]). apply bytes_below_nil.
  - exists m'. split; [exact H|exact Hat].
Defined.

End RLL.
