(* ===== verification/Install.v ===== *)
(** * The MBR installer (install.c)

    The program that copies the Liigboot image over the first sectors of a
    disk while it keeps the disk's partition table.  The kernel is a parameter:
    the record [kernel] holds the results of the system calls [install] makes,
    and the model records the data of every [write] to the target.  The texts
    of the diagnostics lose their final newline. *)

From Stdlib Require Import ZArith Lia String.
From stdpp Require Import strings.
From S2P Require Import Prelude.

Open Scope string_scope.
Open Scope Z_scope.
Open Scope list_scope.

Module Install.

(** ** The kernel's answers *)

Record kernel := Kernel {
  k_open_source : bool;                  (* open(source, O_RDONLY) >= 0 *)
  k_open_target : option Z;              (* errno of open(target, O_RDWR), if it fails *)
  k_geteuid : Z;
  k_oldmbr : option (list Z);            (* read(fdout, oldmbr, 512) *)
  k_lseek : Z;                           (* lseek(fdout, 0, SEEK_SET) *)
  k_st_size : option Z;                  (* fstat(fdin): st_size *)
  k_reads : list (option (list Z));      (* successive read(fdin, buf, 4096); then EOF *)
  k_writes : nat -> Z                    (* result of the n-th write(fdout, ...) *)
}.

Inductive exit_status :=
  | Die (msg : string)                   (* die(): message on stderr, exit code 2 *)
  | Usage                                (* usage message, exit code 1 *)
  | Success.                             (* exit code 0 *)

(** How a run ends and the buffers it passed to write(fdout), in order. *)
Record outcome := Outcome { o_exit : exit_status; o_writes : list (list Z) }.

(** ** struct pte *)

Record pte := Pte
  { pte_flags : Z; pte_type : Z; pte_lba_first : Z; pte_lba_sector_count : Z }.

Definition byte (buf : list Z) (i : nat) : Z := nth i buf 0.

(** The entry at byte offset [i] of a buffer (chs fields not used). *)
Definition read_pte (buf : list Z) (i : nat) : pte :=
  Pte (byte buf i) (byte buf (i + 4)) (le_num (take 4 (drop (i + 8) buf)))
      (le_num (take 4 (drop (i + 12) buf))).

Definition PT_BASE : nat := 446.         (* 0x1be *)
Definition sector_sig (buf : list Z) : Z := le_num (take 2 (drop 510 buf)).
Definition BUFSIZE : nat := 4096.

(** The smallest first sector of a used partition. *)
Definition lba_scan (buf : list Z) : Z :=
  fold_left (fun lba_first_min i =>
      let p := read_pte buf (PT_BASE + 16 * i) in
      if decide (pte_type p <> 0 /\ pte_lba_first p < lba_first_min)
      then pte_lba_first p else lba_first_min)
    [0; 1; 2; 3]%nat (u32 (-1)).

(** memcpy(buf + 0x1b8, oldmbr + 0x1b8, 0x46) *)
Definition keep_table (buf oldmbr : list Z) : list Z :=
  take 440 buf ++ take 70 (drop 440 oldmbr) ++ drop 510 buf.

(** buf[i] = f(buf[i]) *)
Definition upd (i : nat) (f : Z -> Z) (buf : list Z) : list Z := <[i := f (byte buf i)]> buf.

Definition set_active (active_part : Z) (buf : list Z) : list Z :=
  let clear b := Z.land b 0x7f in
  let buf := upd PT_BASE clear buf in
  let buf := upd (PT_BASE + 0x10) clear buf in
  let buf := upd (PT_BASE + 0x20) clear buf in
  let buf := upd (PT_BASE + 0x30) clear buf in
  upd (Z.to_nat (0x1be - 0x10 + active_part * 0x10)) (fun b => Z.lor b 0x80) buf.

(** A read of [data] into [buf]: the rest of the buffer keeps its bytes. *)
Definition fill_buf (data buf : list Z) : list Z := data ++ drop (length data) buf.

(** ** The copy loop

    [while (got != 0) ...]: [buf] holds [got] bytes of data, [reads] what the
    remaining reads of the source return, [nw] how many writes were made. *)
Fixpoint copy_loop (k : kernel) (lba lba_first_min : Z) (reads : list (option (list Z)))
    (nw : nat) (buf : list Z) (got : Z) : outcome :=
  if decide (got = 0) then Outcome Success []
  else if decide (lba_first_min < u32 (lba + Z.shiftr (got + 511) 9)) then
    Outcome (Die "fatal: partition in mbr target starts too early, stopping") []
  else if decide (got < Z.of_nat BUFSIZE) then
    let got := Z.land (got + 511) (-512) in
    let chunk := take (Z.to_nat got) buf in
    if decide (k_writes k nw <> got)
    then Outcome (Die "fatal: error writing to mbr target") [chunk]
    else Outcome Success [chunk]
  else if decide (k_writes k nw <> Z.of_nat BUFSIZE)
  then Outcome (Die "fatal: error writing to mbr target") [buf]
  else
    match reads with
    | [] => Outcome Success [buf]                      (* read returns 0 *)
    | None :: _ => Outcome (Die "fatal: error reading from source") [buf]
    | Some data :: reads' =>
        let '(Outcome e ws) :=
          copy_loop k lba lba_first_min reads' (S nw) (fill_buf data buf)
            (Z.of_nat (length data)) in
        Outcome e (buf :: ws)
    end.

(** What the old contents of the target's first sector allow: an error, or the
    buffer to write and the first sector that must not be written. *)
Definition check_oldmbr (k : kernel) (buf : list Z) : string + (list Z * Z) :=
  match k_oldmbr k with
  | None => inl "fatal: error reading from mbr target"
  | Some got2 =>
      let oldmbr := fill_buf got2 (replicate 512 0) in
      if decide (length got2 = 0%nat) then inr (buf, u32 (-1))
      else if decide (length got2 < 512)%nat then inl "fatal: mbr truncated in mbr target"
      else if decide (k_lseek k <> 0) then inl "fatal: error seeking in mbr target"
      else if decide (sector_sig oldmbr = 0xaa55) then
        match k_st_size k with
        | None => inl "fatal: error statting source"
        | Some st_size =>
            let source_sector_count := u32 (Z.shiftr (st_size + 511) 9) in
            let buf := keep_table buf oldmbr in
            let lba_first_min := lba_scan buf in
            if decide (lba_first_min < source_sector_count)
            then inl "fatal: partition in mbr target starts too early"
            else inr (buf, lba_first_min)
        end
      else if decide (Forall (fun b => b = 0) (take 512 oldmbr)) then inr (buf, u32 (-1))
      else inl "fatal: refusing to modify unusual mbr"
  end.

Definition EACCES := 13.
Definition ENOENT := 2.

Definition install (k : kernel) (active_part : Z) : outcome :=
  let active_part := if decide (4 < active_part) then 0 else active_part in
  if negb (k_open_source k) then Outcome (Die "fatal: error opening source") []
  else
    match hd (Some []) (k_reads k) with
    | None => Outcome (Die "fatal: error reading from source") []
    | Some data =>
        let buf := fill_buf data (replicate BUFSIZE 0) in
        let got := Z.of_nat (length data) in
        if decide (got < 512) then Outcome (Die "fatal: source too short") []
        else if decide (sector_sig buf <> 0xaa55) then
          Outcome (Die "fatal: bad mbr in source") []
        else
          match k_open_target k with
          | Some e =>
              if decide (e = EACCES /\ k_geteuid k <> 0) then
                Outcome (Die "fatal: error opening mbr target; use sudo") []
              else if decide (e = ENOENT) then
                Outcome (Die "fatal: error opening mbr target; create image file first") []
              else Outcome (Die "fatal: error opening mbr target") []
          | None =>
              match check_oldmbr k buf with
              | inl msg => Outcome (Die msg) []
              | inr (buf, lba_first_min) =>
                  let buf := if decide (0 < active_part) then set_active active_part buf
                             else buf in
                  copy_loop k 0 lba_first_min (tail (k_reads k)) 0 buf got
              end
          end
    end.

(** ** find_device_name

    [d_name] and [d_reclen] of the entries of /dev, one list per getdents call;
    [None] is a call that fails, the end of the list a call that returns 0.
    [blk_rdev] is [Some rdev] for the path of a block device (lstat). *)

Record dirent := Dirent { d_name : string; d_reclen : Z }.

Record dev_dir := DevDir {
  dd_open : bool;
  dd_batches : list (option (list dirent));
  dd_blk_rdev : string -> option Z }.

(** The loop's variables: the entries left in the buffer, the calls to come
    and the string in [dev_name]. *)
Definition find_state : Type := list dirent * list (option (list dirent)) * string.

Definition find_step (d : dev_dir) (mbr_dev dev_name_size : Z) (s : find_state) :
    result (ctl find_state (Z * string)) :=
  let '(entries, batches, dev_name) := s in
  match entries with
  | [] =>
      match batches with
      | None :: _ => Ok (Break (-1, dev_name))
      | [] | Some [] :: _ => Ok (Break (1, dev_name))
      | Some entries :: batches => Ok (Continue (entries, batches, dev_name))
      end
  | e :: entries' =>
      if decide (dev_name_size < Z.of_nat (String.length dev_name) + 6)
      then Ok (Continue (entries, batches, dev_name))
      else if decide (dev_name_size < Z.of_nat (String.length (d_name e)) + 6)
      then Undef                                        (* strcpy past dev_name *)
      else
        let dev_name := ("/dev/" +:+ d_name e)%string in
        if decide (dd_blk_rdev d dev_name = Some mbr_dev)
        then Ok (Break (0, dev_name))
        else Ok (Continue (entries', batches, dev_name))
  end.

Definition find_device_name (fuel : nat) (d : dev_dir) (mbr_dev dev_name_size : Z) :
    result (Z * string) :=
  if decide (dev_name_size < 7) then Ok (1, "")
  else if negb (dd_open d) then Ok (-1, "/dev/")
  else loop fuel (find_step d mbr_dev dev_name_size) ([], dd_batches d, "/dev/").

(** ** main *)

Inductive file_kind := KDir | KBlk | KOther.
Record stat := Stat { st_kind : file_kind; st_dev : Z; st_rdev : Z }.

(** The part of the command line after [argv[0]] and an optional [--rm]. *)
Definition skip_rm (argv : list string) : list string :=
  match argv with a :: argv' => if decide (a = "--rm") then argv' else argv | [] => [] end.

Definition SUFFIX : string := ".install".

(** The source: argv[0] without its ".install" suffix. *)
Definition source_name (argv0 : string) : option string :=
  let size := String.length argv0 in
  if decide (size < 9 \/ 1024 - 8 <= size)%nat then None
  else if decide (String.substring (size - 8) 8 argv0 = SUFFIX)
  then Some (String.substring 0 (size - 8) argv0) else None.

(** The target and whether it is an image file. *)
Definition target_arg (args : list string) : option (string * bool) :=
  match args with
  | [] => Some ("/", false)
  | [t] => Some (t, false)
  | [i; t] => if decide (i = "image") then Some (t, true) else None
  | _ => None
  end.

(** The device to write to and the partition to activate. *)
Definition resolve_target (fuel : nat) (stat_of : string -> option stat) (d : dev_dir)
    (target : string) : result (exit_status + (string * Z)) :=
  match stat_of target with
  | None => Ok (inl (Die "fatal: target not found"))
  | Some st =>
      match st_kind st with
      | KDir =>
          let mbr_dev := u32 (Z.land (st_dev st) (Z.lnot 15)) in
          if decide (Z.land (st_dev st) 15 = 0)
          then Ok (inl (Die "fatal: refusing to install to mounted mbr device"))
          else
            '(r, dev_name) ← find_device_name fuel d mbr_dev 32;
            if decide (r <> 0) then Ok (inl (Die "fatal: mbr device not found in /dev"))
            else Ok (inr (dev_name, Z.land (st_dev st) 15))
      | KBlk =>
          if decide (Z.land (st_rdev st) 15 <> 0)
          then Ok (inl (Die "fatal: refusing to install to partition"))
          else Ok (inr (target, 0))
      | KOther => Ok (inl (Die "fatal: target not a directory or blockdev"))
      end
  end.

(** [kernel_of source target] is the kernel's behaviour on these two files. *)
Definition main (fuel : nat) (argv0 : string) (argv : list string)
    (stat_of : string -> option stat) (d : dev_dir)
    (kernel_of : string -> string -> kernel) : result outcome :=
  match skip_rm argv with
  | cmd :: args =>
      if decide (cmd <> "install") then Ok (Outcome Usage [])
      else
        match source_name argv0 with
        | None => Ok (Outcome (Die "fatal: command name must end with .install") [])
        | Some source =>
            match target_arg args with
            | None => Ok (Outcome Usage [])
            | Some (target, is_target_image) =>
                r ← (if is_target_image : bool then Ok (inr (target, 0))
                     else resolve_target fuel stat_of d target);
                match r with
                | inl e => Ok (Outcome e [])
                | inr (target, active_part) =>
                    Ok (install (kernel_of source target) active_part)
                end
            end
        end
  | [] => Ok (Outcome Usage [])
  end.

(** ** Buffers *)

Section Buffers.
  Implicit Types (buf old data : list Z) (i j n : nat).

Lemma byte_app buf old i :
    byte (buf ++ old) i =
      if decide (i < length buf)%nat then byte buf i else byte old (i - length buf).
  Proof. unfold byte. case_decide; [by apply app_nth1|apply app_nth2; lia]. Qed.

Lemma byte_take n buf i : (i < n)%nat -> byte (take n buf) i = byte buf i.
  Proof. intros H. unfold byte. rewrite nth_firstn. by rewrite (proj2 (Nat.ltb_lt i n) H). Qed.

Lemma byte_drop n buf i : byte (drop n buf) i = byte buf (n + i).
  Proof. apply nth_skipn. Qed.

Lemma length_upd j f buf : length (upd j f buf) = length buf.
  Proof. apply length_insert. Qed.

Lemma byte_upd j f buf i :
    (j < length buf)%nat ->
    byte (upd j f buf) i = if decide (i = j) then f (byte buf i) else byte buf i.
  Proof.
    intros H. unfold byte, upd. rewrite !nth_lookup. case_decide as He.
    - subst. rewrite list_lookup_insert_eq by done. unfold byte. by rewrite nth_lookup.
    - by rewrite list_lookup_insert_ne by done.
  Qed.

Lemma length_fill_buf data buf :
    (length data <= length buf)%nat -> length (fill_buf data buf) = length buf.
  Proof. intros. unfold fill_buf. rewrite length_app, length_drop. lia. Qed.

Lemma take_fill_buf data buf : take (length data) (fill_buf data buf) = data.
  Proof. unfold fill_buf. by rewrite take_app_length. Qed.

Lemma byte_fill_buf data buf i :
    (i < length data)%nat -> byte (fill_buf data buf) i = byte data i.
  Proof. intros. unfold fill_buf. by rewrite byte_app, decide_True. Qed.

Lemma length_keep_table buf old :
    (512 <= length old)%nat -> (510 <= length buf)%nat ->
    length (keep_table buf old) = length buf.
  Proof.
    intros. unfold keep_table.
    rewrite !length_app, !length_take, !length_drop. lia.
  Qed.

Lemma byte_keep_table buf old i :
    (512 <= length old)%nat -> (510 <= length buf)%nat ->
    byte (keep_table buf old) i =
      if decide (440 <= i < 510)%nat then byte old i else byte buf i.
  Proof.
    intros Ho Hb. unfold keep_table.
    rewrite !byte_app, !length_take, length_drop, byte_drop.
    rewrite !Nat.min_l by lia.
    repeat case_decide; try lia; rewrite ?byte_take by lia; try done.
    - rewrite byte_drop. f_equal. lia.
    - f_equal. lia.
  Qed.
End Buffers.

(** The sector-rounding of the copy loop. *)
Definition round_up (n : Z) : Z := 512 * ((n + 511) / 512).

Lemma round_up_land n : Z.land (n + 511) (-512) = round_up n.
Proof.
  change (-512) with (Z.lnot (2 ^ 9 - 1)). rewrite land_lnot_ones by lia.
  unfold round_up. change (2 ^ 9) with 512. pose proof (Z.div_mod (n + 511) 512). lia.
Qed.

Lemma round_up_bounds n : n <= round_up n < n + 512.
Proof. unfold round_up. dlia. Qed.

Lemma round_up_add a n : round_up (512 * a + n) = 512 * a + round_up n.
Proof.
  unfold round_up. replace (512 * a + n + 511) with (n + 511 + a * 512) by lia.
  rewrite Z.div_add by lia. lia.
Qed.

(** ** The active flag *)

Definition is_flag (i : nat) : Prop :=
  i = 446%nat \/ i = 462%nat \/ i = 478%nat \/ i = 494%nat.

#[export] Instance is_flag_dec i : Decision (is_flag i) := _.

(** What [set_active] does to the byte at index [i]. *)
Definition active_byte (active_part : Z) (i : nat) (b : Z) : Z :=
  if decide (is_flag i) then
    if decide (Z.of_nat i = 446 + 16 * (active_part - 1)) then Z.lor (Z.land b 0x7f) 0x80
    else Z.land b 0x7f
  else b.

Lemma length_set_active a buf : length (set_active a buf) = length buf.
Proof. unfold set_active. by rewrite !length_upd. Qed.

Lemma byte_set_active a buf i :
  1 <= a <= 4 -> (512 <= length buf)%nat ->
  byte (set_active a buf) i = active_byte a i (byte buf i).
Proof.
  intros Ha Hb. unfold set_active, active_byte, PT_BASE.
  rewrite !byte_upd by (rewrite ?length_upd; lia).
  destruct (decide (is_flag i)) as [Hf|Hf].
  - assert (a = 1 \/ a = 2 \/ a = 3 \/ a = 4) as Ha4 by lia.
    by destruct Ha4 as [-> | [-> | [-> | ->]]], Hf as [-> | [-> | [-> | ->]]].
  - unfold is_flag in Hf. by rewrite !decide_False by lia.
Qed.

(** ** The copy loop *)

(** read() returns at most as many bytes as it is asked for. *)
Definition read_ok (n : nat) (r : option (list Z)) : Prop :=
  match r with Some d => (length d <= n)%nat | None => True end.

(** The bytes the copy loop takes from the source: everything up to the first
    short read. *)
Fixpoint delivered (data : list Z) (reads : list (option (list Z))) : list Z :=
  if decide (length data < BUFSIZE)%nat then data
  else match reads with Some d :: reads' => data ++ delivered d reads' | _ => data end.

Definition written (o : outcome) : list Z := concat (o_writes o).

Lemma copy_loop_unfold k lba lfm reads nw buf got :
  copy_loop k lba lfm reads nw buf got =
  if decide (got = 0) then Outcome Success []
  else if decide (lfm < u32 (lba + Z.shiftr (got + 511) 9)) then
    Outcome (Die "fatal: partition in mbr target starts too early, stopping") []
  else if decide (got < Z.of_nat BUFSIZE) then
    let got := Z.land (got + 511) (-512) in
    let chunk := take (Z.to_nat got) buf in
    if decide (k_writes k nw <> got)
    then Outcome (Die "fatal: error writing to mbr target") [chunk]
    else Outcome Success [chunk]
  else if decide (k_writes k nw <> Z.of_nat BUFSIZE)
  then Outcome (Die "fatal: error writing to mbr target") [buf]
  else
    match reads with
    | [] => Outcome Success [buf]
    | None :: _ => Outcome (Die "fatal: error reading from source") [buf]
    | Some data :: reads' =>
        let '(Outcome e ws) :=
          copy_loop k lba lfm reads' (S nw) (fill_buf data buf)
            (Z.of_nat (length data)) in
        Outcome e (buf :: ws)
    end.
Proof. by destruct reads. Qed.

Lemma delivered_short data reads :
  (length data < BUFSIZE)%nat -> delivered data reads = data.
Proof. intros H. destruct reads; simpl; by rewrite decide_True. Qed.

Lemma delivered_full data reads :
  length data = BUFSIZE ->
  delivered data reads =
    match reads with Some d :: reads' => data ++ delivered d reads' | _ => data end.
Proof. intros H. destruct reads; simpl; by rewrite decide_False by lia. Qed.

Lemma delivered_ge data reads : (length data <= length (delivered data reads))%nat.
Proof.
  destruct (Nat.lt_ge_cases (length data) BUFSIZE).
  - by rewrite delivered_short.
  - destruct reads as [|[d|] reads]; simpl; rewrite decide_False by lia; try done.
    rewrite length_app. lia.
Qed.

(** What one run of the copy loop guarantees. *)
Record copy_ok (reads : list (option (list Z))) (buf data : list Z) (o : outcome) : Prop := {
  co_bound : Z.of_nat (length (written o)) <= round_up (Z.of_nat (length (delivered data reads)));
  co_success : o_exit o = Success ->
    Z.of_nat (length (written o)) = round_up (Z.of_nat (length (delivered data reads))) /\
    take (length (delivered data reads)) (written o) = delivered data reads;
  co_first : forall w ws, o_writes o = w :: ws ->
    exists m, w = take m buf /\ (length data <= m <= BUFSIZE)%nat }.

Lemma copy_ok_stop reads buf data msg : copy_ok reads buf data (Outcome (Die msg) []).
Proof. constructor; [|done|done]. simpl. pose proof (round_up_bounds (Z.of_nat (length (delivered data reads)))). lia. Qed.

(** The last, partial buffer. *)
Lemma copy_ok_last reads buf data e :
  length buf = BUFSIZE -> take (length data) buf = data -> (length data < BUFSIZE)%nat ->
  copy_ok reads buf data
    (Outcome e [take (Z.to_nat (round_up (Z.of_nat (length data)))) buf]).
Proof.
  intros Hbuf Hdata Hlt. pose proof (round_up_bounds (Z.of_nat (length data))).
  assert (round_up (Z.of_nat (length data)) <= Z.of_nat BUFSIZE) by
    (unfold round_up, BUFSIZE in *; dlia).
  constructor; unfold written; simpl; rewrite ?app_nil_r, ?delivered_short by done.
  - rewrite length_take. lia.
  - intros _. rewrite length_take. split; [lia|]. rewrite take_take, Nat.min_l by lia. done.
  - intros w ws [= <- <-]. eexists. split; [done|]. lia.
Qed.

(** A full buffer, then what the rest of the loop guarantees. *)
Lemma copy_ok_full reads buf o :
  length buf = BUFSIZE ->
  match reads with
  | Some d :: reads' => exists buf', copy_ok reads' buf' d o
  | _ => written o = []
  end -> copy_ok reads buf buf (Outcome (o_exit o) (buf :: o_writes o)).
Proof.
  intros Hbuf Ho. pose proof (round_up_add 8) as Hra.
  assert (forall l, length (buf ++ l) = (BUFSIZE + length l)%nat) as Happ
    by (intros; rewrite length_app; lia).
  constructor; unfold written; simpl; rewrite ?(delivered_full buf) by done; fold (written o).
  - destruct reads as [|[d|] reads]; [rewrite Ho, app_nil_r; pose proof (round_up_bounds (Z.of_nat (length buf))); lia| |
      rewrite Ho, app_nil_r; pose proof (round_up_bounds (Z.of_nat (length buf))); lia].
    destruct Ho as (buf' & [Hb _ _]). rewrite !Happ, !Nat2Z.inj_add.
    replace (Z.of_nat BUFSIZE) with (512 * 8) by done. rewrite Hra. lia.
  - intros He. destruct reads as [|[d|] reads].
    1, 3: rewrite Ho, app_nil_r, Hbuf, <- Hbuf, take_ge by lia; rewrite Hbuf; done.
    destruct Ho as (buf' & [_ [Hb Ht] _]); [done|]. rewrite !Happ, !Nat2Z.inj_add.
    replace (Z.of_nat BUFSIZE) with (512 * 8) by done. rewrite Hra. split; [lia|].
    rewrite take_app_ge by lia. rewrite Hbuf. f_equal.
    replace (BUFSIZE + _ - BUFSIZE)%nat with (length (delivered d reads)) by lia. done.
  - intros w ws [= <- <-]. exists BUFSIZE. rewrite <- Hbuf at 1. rewrite firstn_all. split; [done|lia].
Qed.

Lemma copy_loop_ok k lba lfm reads nw buf data :
  Forall (read_ok BUFSIZE) reads -> length buf = BUFSIZE ->
  take (length data) buf = data ->
  copy_ok reads buf data (copy_loop k lba lfm reads nw buf (Z.of_nat (length data))).
Proof.
  revert nw buf data. induction reads as [|r reads IH];
    intros nw buf data Hreads Hbuf Hdata; rewrite copy_loop_unfold.
  all: assert (length data <= BUFSIZE)%nat as Hlen
    by (rewrite <- Hdata, length_take; lia).
  all: destruct (decide (Z.of_nat (length data) = 0)) as [H0|H0];
    [destruct data; [|simpl in H0; lia];
     constructor; rewrite ?delivered_short by (simpl; unfold BUFSIZE; lia); done|].
  all: destruct (decide (lfm < _)) as [H1|H1]; [apply copy_ok_stop|].
  all: destruct (decide (Z.of_nat (length data) < _)) as [H2|H2];
    [cbv zeta; rewrite round_up_land; case_decide; apply copy_ok_last; (done || lia)|].
  all: assert (data = buf) as -> by (rewrite <- Hdata; apply take_ge; lia).
  - case_decide.
    + by apply (copy_ok_full [] buf (Outcome (Die _) [])).
    + by apply (copy_ok_full [] buf (Outcome Success [])).
  - apply Forall_cons in Hreads as [Hr Hreads].
    case_decide as Hw.
    { destruct r as [d|].
      - apply (copy_ok_full (Some d :: reads) buf (Outcome (Die _) [])); [done|].
        exists buf. apply copy_ok_stop.
      - by apply (copy_ok_full (None :: reads) buf (Outcome (Die _) [])). }
    destruct r as [d|].
    + simpl in Hr. specialize (IH (S nw) (fill_buf d buf) d Hreads).
      destruct (copy_loop _ _ _ _ _ _ _) as [e ws].
      apply (copy_ok_full (Some d :: reads) buf (Outcome e ws)); [done|].
      exists (fill_buf d buf). apply IH; [rewrite length_fill_buf; lia|apply take_fill_buf].
    + by apply (copy_ok_full (None :: reads) buf (Outcome (Die _) [])).
Qed.

(** ** What the old first sector decides *)

(** The bytes [read] leaves in [oldmbr] when the target has a partition table. *)
Definition has_table (k : kernel) (old : list Z) : Prop :=
  k_oldmbr k = Some old /\ length old = 512%nat /\ sector_sig old = 0xaa55.

Definition blank_target (k : kernel) : Prop :=
  k_oldmbr k = Some [] \/ k_oldmbr k = Some (replicate 512 0).

Lemma fill_buf_all data buf : length data = length buf -> fill_buf data buf = data.
Proof. intros H. unfold fill_buf. rewrite H, drop_all. apply app_nil_r. Qed.

Lemma check_oldmbr_inv k buf buf' lfm :
  match k_oldmbr k with Some old => (length old <= 512)%nat | None => True end ->
  check_oldmbr k buf = inr (buf', lfm) ->
  (blank_target k /\ buf' = buf /\ lfm = u32 (-1)) \/
  (exists old st_size, has_table k old /\ k_st_size k = Some st_size /\
     k_lseek k = 0 /\ buf' = keep_table buf old /\ lfm = lba_scan buf' /\
     u32 (Z.shiftr (st_size + 511) 9) <= lfm).
Proof.
  unfold check_oldmbr, blank_target, has_table. intros Hlen.
  destruct (k_oldmbr k) as [old|]; [|done]. case_decide as H0.
  { intros [= <- <-]. left. apply nil_length_inv in H0 as ->. auto. }
  case_decide as H5; [done|]. case_decide as Hl; [done|].
  rewrite fill_buf_all by (rewrite length_replicate; lia).
  case_decide as Hsig.
  - destruct (k_st_size k) as [st_size|]; [|done]. case_decide as Hle; [done|].
    intros [= <- <-]. right. exists old, st_size. repeat split; try done; lia.
  - case_decide as Hz; [|done]. intros [= <- <-]. left. split; [|done]. right. f_equal.
    rewrite take_ge in Hz by lia. symmetry. apply replicate_as_Forall. split; [lia|].
    eapply Forall_impl; [exact Hz|]. by intros x ->.
Qed.

(** [install] either stops without writing or runs the copy loop. *)
Lemma install_inv k a :
  (exists msg, install k a = Outcome (Die msg) []) \/
  exists data buf lfm, hd (Some []) (k_reads k) = Some data /\ (512 <= length data)%nat /\
    sector_sig (fill_buf data (replicate BUFSIZE 0)) = 0xaa55 /\ k_open_target k = None /\
    check_oldmbr k (fill_buf data (replicate BUFSIZE 0)) = inr (buf, lfm) /\
    install k a = copy_loop k 0 lfm (tail (k_reads k)) 0
      (if decide (0 < a <= 4) then set_active a buf else buf) (Z.of_nat (length data)).
Proof.
  unfold install. destruct (k_open_source k); cbn [negb]; [|eauto].
  destruct (hd _ _) as [data|]; [|eauto]. cbv zeta.
  case_decide; [eauto|]. case_decide as Hsig; [eauto|].
  destruct (k_open_target k) as [e|]; [repeat case_decide; eauto|].
  destruct (check_oldmbr _ _) as [msg|[buf lfm]] eqn:Hc; [eauto|]. right.
  exists data, buf, lfm. split; [done|]. split; [lia|]. split; [lia|].
  split; [done|]. split; [done|].
  f_equal. repeat case_decide; try lia; done.
Qed.

(** ** The partition entries of a sector *)

Lemma take_drop_bytes n i l :
  (i + n <= length l)%nat -> take n (drop i l) = byte l <$> seq i n.
Proof.
  revert i. induction n as [|n IH]; intros i H; [done|].
  destruct (lookup_lt_is_Some_2 l i) as [x Hx]; [lia|].
  rewrite (drop_S _ _ _ Hx). simpl. rewrite IH by lia. f_equal.
  symmetry. unfold byte. by apply nth_lookup_Some.
Qed.

Lemma read_pte_ext buf old i :
  (440 <= i)%nat -> (i + 16 <= 510)%nat -> (510 <= length buf)%nat -> (512 <= length old)%nat ->
  read_pte (keep_table buf old) i = read_pte old i.
Proof.
  intros Hi Hi' Hb Ho. pose proof (length_keep_table buf old Ho Hb) as Hl. unfold read_pte.
  rewrite !byte_keep_table, !decide_True by lia.
  rewrite !take_drop_bytes by lia. do 2 f_equal.
  all: apply list_fmap_ext; intros j x Hx; apply lookup_seq in Hx as [-> ?].
  all: by rewrite byte_keep_table, decide_True by lia.
Qed.

Lemma lba_scan_le buf j :
  (j < 4)%nat -> pte_type (read_pte buf (PT_BASE + 16 * j)) <> 0 ->
  lba_scan buf <= pte_lba_first (read_pte buf (PT_BASE + 16 * j)).
Proof.
  intros Hj Ht. unfold lba_scan. cbn [fold_left].
  destruct j as [|[|[|[|j]]]]; [..|lia]; repeat case_decide; lia.
Qed.

(** ** The first buffer *)

(** The byte the target gets at index [i] for the source contents [src]. *)
Definition expected_byte (k : kernel) (a : Z) (src : list Z) (i : nat) : Z :=
  let b := match k_oldmbr k with
           | Some old =>
               if decide (length old = 512%nat /\ sector_sig old = 0xaa55 /\ (440 <= i < 510)%nat)
               then byte old i else byte src i
           | None => byte src i
           end in
  if decide (0 < a <= 4) then active_byte a i b else b.

Definition kernel_ok (k : kernel) : Prop :=
  Forall (read_ok BUFSIZE) (k_reads k) /\
  match k_oldmbr k with Some old => (length old <= 512)%nat | None => True end.

Lemma reads_ok_hd k data :
  kernel_ok k -> hd (Some []) (k_reads k) = Some data ->
  (length data <= BUFSIZE)%nat /\ Forall (read_ok BUFSIZE) (tail (k_reads k)).
Proof.
  intros [Hr _] Hh. destruct (k_reads k) as [|r reads]; simpl in *; simplify_eq.
  - simpl. split; [lia|done].
  - by apply Forall_cons in Hr as [? ?].
Qed.

Lemma first_buffer k a data buf lfm :
  kernel_ok k -> (512 <= length data <= BUFSIZE)%nat ->
  check_oldmbr k (fill_buf data (replicate BUFSIZE 0)) = inr (buf, lfm) ->
  let buf' := if decide (0 < a <= 4) then set_active a buf else buf in
  length buf' = BUFSIZE /\
  forall i, (i < length data)%nat -> byte buf' i = expected_byte k a data i.
Proof.
  intros [_ Hold] Hlen Hc buf'.
  assert (length (fill_buf data (replicate BUFSIZE 0)) = BUFSIZE) as Hfl
    by (rewrite length_fill_buf; rewrite length_replicate; [done|lia]).
  assert (length buf = BUFSIZE /\ forall i, (i < length data)%nat -> byte buf i =
    match k_oldmbr k with
    | Some old => if decide (length old = 512%nat /\ sector_sig old = 0xaa55 /\ (440 <= i < 510)%nat)
                  then byte old i else byte data i
    | None => byte data i end) as [Hbl Hb].
  { destruct (check_oldmbr_inv _ _ _ _ Hold Hc)
      as [(Hblank & -> & ->)|(old & sz & (Ho & Hol & Hsig) & _ & _ & -> & -> & _)].
    - split; [done|]. intros i Hi. rewrite byte_fill_buf by done.
      destruct Hblank as [-> | ->]; by rewrite decide_False by (intros (? & [=] & ?)).
    - rewrite length_keep_table by (unfold BUFSIZE in *; lia). split; [done|]. intros i Hi.
      rewrite byte_keep_table by (unfold BUFSIZE in *; lia). rewrite Ho.
      rewrite byte_fill_buf by done. destruct (decide (440 <= i < 510)%nat) as [Hr|Hr].
      + by rewrite decide_True.
      + by rewrite decide_False by tauto. }
  subst buf'. unfold expected_byte. case_decide as Ha.
  - rewrite length_set_active. split; [done|]. intros i Hi.
    rewrite byte_set_active by (unfold BUFSIZE in *; lia). by rewrite Hb.
  - auto.
Qed.

Lemma delivered_suffix d1 d2 reads :
  length d1 = length d2 ->
  exists l, delivered d1 reads = d1 ++ l /\ delivered d2 reads = d2 ++ l.
Proof.
  intros Hl. destruct (Nat.lt_ge_cases (length d1) BUFSIZE).
  - exists []. rewrite !delivered_short, !app_nil_r by lia. done.
  - destruct reads as [|[d|] reads]; simpl; rewrite !decide_False by lia;
      [exists []; by rewrite !app_nil_r|by eexists|exists []; by rewrite !app_nil_r].
Qed.

(** The contents of the source, as far as [install] reads it. *)
Definition source_of (k : kernel) : list Z :=
  match hd (Some []) (k_reads k) with
  | Some data => delivered data (tail (k_reads k))
  | None => []
  end.

Lemma expected_byte_high k a l i : (510 <= i)%nat -> expected_byte k a l i = byte l i.
Proof.
  intros Hi. unfold expected_byte, active_byte, is_flag.
  destruct (k_oldmbr k); repeat case_decide; try done; lia.
Qed.

Lemma expected_byte_ext k a l1 l2 i :
  byte l1 i = byte l2 i -> expected_byte k a l1 i = expected_byte k a l2 i.
Proof. intros H. unfold expected_byte. rewrite H. by destruct (k_oldmbr k). Qed.

(** What a run guarantees when it gets as far as the copy loop. *)
Record run_ok (k : kernel) (a : Z) (o : outcome) : Prop := {
  ro_bound : Z.of_nat (length (written o)) <= round_up (Z.of_nat (length (source_of k)));
  ro_success : o_exit o = Success ->
    Z.of_nat (length (written o)) = round_up (Z.of_nat (length (source_of k))) /\
    forall i, (i < length (source_of k))%nat ->
      byte (written o) i = expected_byte k a (source_of k) i;
  ro_first : forall w ws, o_writes o = w :: ws ->
    (512 <= length w)%nat /\
    forall i, (i < 512)%nat -> byte w i = expected_byte k a (source_of k) i }.

Lemma copy_run_ok k a data buf lfm nw :
  kernel_ok k -> hd (Some []) (k_reads k) = Some data -> (512 <= length data)%nat ->
  check_oldmbr k (fill_buf data (replicate BUFSIZE 0)) = inr (buf, lfm) ->
  run_ok k a (copy_loop k 0 lfm (tail (k_reads k)) nw
    (if decide (0 < a <= 4) then set_active a buf else buf) (Z.of_nat (length data))).
Proof.
  intros Hk Hh Hlen Hc. destruct (reads_ok_hd k data Hk Hh) as [Hmax Hreads].
  destruct (first_buffer k a data buf lfm Hk (conj Hlen Hmax) Hc) as [Hbl Hb].
  set (buf' := if decide (0 < a <= 4) then _ else _) in *.
  assert (length (take (length data) buf') = length data) as Hl
    by (rewrite length_take; lia).
  destruct (delivered_suffix data (take (length data) buf') (tail (k_reads k)))
    as (l & Hd1 & Hd2); [done|].
  assert (forall i, (i < length (data ++ l))%nat ->
    byte (take (length data) buf' ++ l) i = expected_byte k a (data ++ l) i) as Hbyte.
  { intros i _. rewrite byte_app, Hl. case_decide as Hi.
    - rewrite byte_take, Hb by done. apply expected_byte_ext. by rewrite byte_app, decide_True.
    - rewrite expected_byte_high, byte_app, decide_False by lia. done. }
  destruct (copy_loop_ok k 0 lfm (tail (k_reads k)) nw buf' (take (length data) buf'))
    as [Hcb Hcs Hcf]; try done; [by rewrite Hl|].
  rewrite Hd2, length_app, Hl in Hcb, Hcs. rewrite Hl in Hcf.
  constructor; unfold source_of; rewrite Hh, Hd1, ?length_app.
  - done.
  - intros He. destruct (Hcs He) as [Hw Ht]. split; [done|]. intros i Hi.
    rewrite <- Hbyte by (rewrite length_app; done). rewrite <- Ht. symmetry.
    by rewrite byte_take.
  - intros w ws Hw. destruct (Hcf w ws Hw) as (m & -> & Hm). 
    split; [rewrite length_take; lia|]. intros i Hi.
    rewrite byte_take by lia. rewrite <- Hbyte by (rewrite length_app; lia).
    rewrite byte_app, Hl, decide_True, byte_take by lia. done.
Qed.

Lemma install_run_ok k a : kernel_ok k -> run_ok k a (install k a).
Proof.
  intros Hk. destruct (install_inv k a) as [[msg ->]|(data & buf & lfm & Hh & Hlen & _ & _ & Hc & ->)].
  - constructor; simpl; try done.
    pose proof (round_up_bounds (Z.of_nat (length (source_of k)))). lia.
  - by eapply copy_run_ok.
Qed.

(** ** Properties of the installation *)

(** C35. A successful installation writes the whole source, rounded up to
    sectors, and each byte written is the source's, except that the bytes
    0x1b8..0x1fd of a target with a partition table are kept and that the
    active flags are those of the requested partition. *)
Theorem install_success k a :
  kernel_ok k -> o_exit (install k a) = Success ->
  Z.of_nat (length (written (install k a))) = round_up (Z.of_nat (length (source_of k))) /\
  forall i, (i < length (source_of k))%nat ->
    byte (written (install k a)) i = expected_byte k a (source_of k) i.
Proof. intros Hk. apply (ro_success _ _ _ (install_run_ok k a Hk)). Qed.

(** C36. Whatever fails later, the first write covers the first sector, and it
    keeps the partition table (0x1b8..0x1fd) of a target that has one: only
    the active flags change, and only when a partition is to be activated. *)
Theorem install_keeps_table k a old w ws :
  kernel_ok k -> has_table k old -> o_writes (install k a) = w :: ws ->
  (512 <= length w)%nat /\
  forall i, (440 <= i < 510)%nat ->
    byte w i = if decide (0 < a <= 4) then active_byte a i (byte old i) else byte old i.
Proof.
  intros Hk (Ho & Hol & Hsig) Hw.
  destruct (ro_first _ _ _ (install_run_ok k a Hk) _ _ Hw) as [Hl Hb].
  split; [done|]. intros i Hi. rewrite Hb by lia. unfold expected_byte.
  rewrite Ho. by rewrite (decide_True (P := length old = _ /\ _)).
Qed.

(** If the source has the size that fstat reports, no write reaches a
    partition of the target's table that is in use. *)
Theorem install_no_overlap k a old st_size j :
  kernel_ok k -> has_table k old -> Forall byte_ok old -> k_st_size k = Some st_size ->
  Z.of_nat (length (source_of k)) <= st_size < 2 ^ 41 - 511 ->
  (j < 4)%nat -> pte_type (read_pte old (PT_BASE + 16 * j)) <> 0 ->
  Z.of_nat (length (written (install k a))) <=
    512 * pte_lba_first (read_pte old (PT_BASE + 16 * j)).
Proof.
  intros Hk (Ho & Hol & Hsig) Hbytes Hst Hsz Hj Ht.
  pose proof (ro_bound _ _ _ (install_run_ok k a Hk)) as Hb.
  destruct (install_inv k a) as [[msg ->]|(data & buf & lfm & Hh & Hlen & _ & _ & Hc & _)].
  - unfold written. simpl. assert (0 <= le_num (take 4 (drop (PT_BASE + 16 * j + 8) old))).
    { apply le_num_range. apply Forall_take, Forall_drop. done. }
    simpl in *. lia.
  - destruct (reads_ok_hd k data Hk Hh) as [Hmax _].
    destruct (check_oldmbr_inv k _ _ _ (proj2 Hk) Hc)
      as [([Hn|Hn] & _)|(old' & sz & (Ho' & _) & Hst' & _ & Hbuf & Hlfm & Hle)].
    + rewrite Ho in Hn. by injection Hn as ->.
    + rewrite Ho in Hn. injection Hn as ->. discriminate Hsig.
    + rewrite Ho in Ho'. injection Ho' as <-. rewrite Hst in Hst'. injection Hst' as <-.
      rewrite Hlfm, Hbuf in Hle.
      assert (length (fill_buf data (replicate BUFSIZE 0)) = BUFSIZE) as Hfl
        by (rewrite length_fill_buf; rewrite length_replicate; [done|lia]).
      pose proof (lba_scan_le (keep_table (fill_buf data (replicate BUFSIZE 0)) old) j Hj) as Hscan.
      rewrite read_pte_ext in Hscan by (unfold PT_BASE, BUFSIZE in *; lia).
      specialize (Hscan Ht).
      rewrite shiftr_div in Hle by lia. change (2 ^ 9) with 512 in Hle.
      rewrite u32_small in Hle by dlia. unfold round_up in Hb.
      assert ((Z.of_nat (length (source_of k)) + 511) / 512 <= (st_size + 511) / 512)
        by (apply Z.div_le_mono; lia). lia.
Qed.

(** [install] writes only a source of at least one sector with the boot
    signature, and only to a target that is empty, whose first sector is all
    zero, or that has a partition table. *)
Theorem install_refuses k a :
  kernel_ok k -> o_writes (install k a) <> [] ->
  k_open_target k = None /\
  (512 <= length (source_of k))%nat /\ le_num (take 2 (drop 510 (source_of k))) = 0xaa55 /\
  (blank_target k \/ exists old, has_table k old).
Proof.
  intros Hk Hw.
  destruct (install_inv k a) as [[msg Hi]|(data & buf & lfm & Hh & Hlen & Hsig & Hot & Hc & Hi)];
    [by rewrite Hi in Hw|].
  destruct (reads_ok_hd k data Hk Hh) as [Hmax _].
  assert (exists l, source_of k = data ++ l) as [l Hs].
  { unfold source_of. rewrite Hh.
    destruct (delivered_suffix data data (tail (k_reads k))) as (l & -> & _); eauto. }
  split_and!; [done|rewrite Hs, length_app; lia| |].
  - rewrite <- Hsig. unfold sector_sig, fill_buf. rewrite Hs. f_equal.
    rewrite !drop_app_le by lia.
    destruct (decide (length data = 512)%nat) as [He|He]; rewrite !take_app_le; rewrite ?length_drop; (done || lia).
  - destruct (check_oldmbr_inv k _ _ _ (proj2 Hk) Hc) as [(? & _)|(old & _ & ? & _)]; eauto.
Qed.

(** ** The search for the device *)

(** The entries that the getdents calls deliver. *)
Fixpoint listed (batches : list (option (list dirent))) : list dirent :=
  match batches with
  | Some (e :: es) :: bs => (e :: es) ++ listed bs
  | _ => []
  end.

Definition dev_path (e : dirent) : string := ("/dev/" +:+ d_name e)%string.

Lemma length_dev_path e : String.length (dev_path e) = (5 + String.length (d_name e))%nat.
Proof. done. Qed.

Lemma find_step_nil d dev n batches name :
  find_step d dev n ([], batches, name) =
  match batches with
  | None :: _ => Ok (Break (-1, name))
  | [] | Some [] :: _ => Ok (Break (1, name))
  | Some es :: bs => Ok (Continue (es, bs, name))
  end.
Proof. by destruct batches as [|[[]|] ?]. Qed.

Lemma find_step_cons d dev n e es batches name :
  Z.of_nat (String.length name) + 6 <= n -> Z.of_nat (String.length (d_name e)) + 6 <= n ->
  find_step d dev n (e :: es, batches, name) =
  if decide (dd_blk_rdev d (dev_path e) = Some dev) then Ok (Break (0, dev_path e))
  else Ok (Continue (es, batches, dev_path e)).
Proof. intros. unfold find_step. by rewrite !decide_False by lia. Qed.

Definition find_mu (s : find_state) : nat :=
  let '(entries, batches, _) := s in
  length entries + sum_list_with (fun b => S (length (default [] b))) batches.

Definition short_name (e : dirent) : Prop := (String.length (d_name e) <= 21)%nat.

(** The loop invariant: the entries tried so far are not the device. *)
Definition find_inv (d : dev_dir) (mbr_dev : Z) (s : find_state) : Prop :=
  let '(entries, batches, name) := s in
  (String.length name <= 26)%nat /\
  exists tried, listed (dd_batches d) = tried ++ entries ++ listed batches /\
    Forall (fun e => dd_blk_rdev d (dev_path e) <> Some mbr_dev) tried.

(** What the result says of the device with number [mbr_dev]. *)
Definition find_post (d : dev_dir) (mbr_dev : Z) (r : Z * string) : Prop :=
  (r.1 = 0 /\ exists e, In e (listed (dd_batches d)) /\ r.2 = dev_path e /\
     dd_blk_rdev d r.2 = Some mbr_dev) \/
  (r.1 <> 0 /\ Forall (fun e => dd_blk_rdev d (dev_path e) <> Some mbr_dev)
     (listed (dd_batches d))).

Lemma find_step_ok d dev s :
  Forall short_name (listed (dd_batches d)) -> find_inv d dev s ->
  step_ok (find_inv d dev) (find_post d dev) find_mu s (find_step d dev 32 s).
Proof.
  intros Hshort. destruct s as [[entries batches] name]. intros (Hn & tried & Hl & Hno).
  destruct entries as [|e es].
  - rewrite find_step_nil. destruct batches as [|[[|e es]|] bs]; simpl in Hl |- *;
      rewrite ?app_nil_r in Hl; try (right; by rewrite Hl).
    split; [|lia]. split; [done|]. by exists tried.
  - rewrite Hl in Hshort. apply Forall_app in Hshort as [_ [He _]%Forall_cons].
    unfold short_name in He.
    rewrite find_step_cons by lia. case_decide as Hd.
    + left. split; [done|]. exists e. split; [|done]. rewrite Hl.
      apply in_or_app. right. by left.
    + split; [|simpl; lia]. split; [rewrite ?length_dev_path; lia|]. exists (tried ++ [e]). split.
      * by rewrite <- app_assoc.
      * apply Forall_app. by repeat constructor.
Qed.

(** When no entry of /dev has a name of more than 21 characters, the
    search ends; it finds the path of a block device with the given number, or
    there is none among the entries that were read. *)
Theorem find_device_name_correct fuel d mbr_dev :
  dd_open d = true -> Forall short_name (listed (dd_batches d)) ->
  (sum_list_with (fun b => S (length (default [] b))) (dd_batches d) < fuel)%nat ->
  exists r, find_device_name fuel d mbr_dev 32 = Ok r /\ find_post d mbr_dev r.
Proof.
  intros Ho Hshort Hfuel. unfold find_device_name. rewrite Ho. simpl negb. cbv iota.
  rewrite decide_False by lia.
  apply (loop_total (find_inv d mbr_dev) _ find_mu).
  - intros s Hs. by apply find_step_ok.
  - split; [simpl; lia|]. by exists [].
  - done.
Qed.

(** The length check of the search looks at the previous name, and skips
    without advancing: after an entry whose name has 22 to 26 characters and
    is not the device, the search never ends. *)
Theorem find_device_name_hangs fuel e1 e2 es bs blk mbr_dev :
  (22 <= String.length (d_name e1) <= 26)%nat -> blk (dev_path e1) <> Some mbr_dev ->
  find_device_name fuel (DevDir true (Some (e1 :: e2 :: es) :: bs) blk) mbr_dev 32 = NoFuel.
Proof.
  intros Hlen Hblk. unfold find_device_name. simpl negb. cbv iota.
  rewrite decide_False by lia.
  destruct fuel as [|fuel]; [done|]. erewrite loop_continue by done.
  destruct fuel as [|fuel]; [done|].
  erewrite loop_continue by (rewrite find_step_cons by (simpl; lia); by rewrite decide_False).
  apply (loop_diverges (fun s => s = (e2 :: es, bs, dev_path e1))); [|done].
  intros s ->. eexists. split; [|done]. unfold find_step.
  rewrite decide_True; [done|]. rewrite length_dev_path. lia.
Qed.

(** ** The choice of the target *)

(** What [main] may write to: the named image file, a block device that is
    a whole disk, or the whole disk that holds a directory, in which case the
    directory's partition is the one made active. *)
Theorem main_target fuel argv0 argv stat_of d kernel_of o :
  main fuel argv0 argv stat_of d kernel_of = Ok o -> o_writes o <> [] ->
  exists source target a,
    source_name argv0 = Some source /\ o = install (kernel_of source target) a /\
    (a = 0 /\ (exists cmd, skip_rm argv = [cmd; "image"; target]) \/
     a = 0 /\ (exists st, stat_of target = Some st /\ st_kind st = KBlk /\
       Z.land (st_rdev st) 15 = 0) \/
     exists dir st, stat_of dir = Some st /\ st_kind st = KDir /\
       a = Z.land (st_dev st) 15 /\ a <> 0 /\
       find_device_name fuel d (u32 (Z.land (st_dev st) (Z.lnot 15))) 32 = Ok (0, target)).
Proof.
  unfold main. destruct (skip_rm argv) as [|cmd args]; [by intros [= <-]|].
  case_decide; [by intros [= <-]|]. destruct (source_name argv0) as [source|]; [|by intros [= <-]].
  destruct (target_arg args) as [[t img]|] eqn:Ht; [|by intros [= <-]].
  intros Hm Hw. apply bind_Ok_inv in Hm as (r & Hr & Hm).
  destruct r as [e|[target a]]; injection Hm as <-; [done|].
  exists source, target, a. split; [done|]. split; [done|].
  destruct img.
  - injection Hr as <- <-. left. split; [done|]. exists cmd.
    unfold target_arg in Ht. destruct args as [|x [|y [|]]]; simplify_eq.
    case_decide; simplify_eq. done.
  - right. unfold resolve_target in Hr. destruct (stat_of t) as [st|] eqn:Hst; [|done].
    destruct (st_kind st) eqn:Hk; [|case_decide; [done|]; simplify_eq; left; split; [done|]; exists st; split_and!; [done..|lia]|done].
    case_decide; [done|]. apply bind_Ok_inv in Hr as ([r name] & Hf & Hr).
    case_decide as Hr0; [done|]. injection Hr as <- <-. right. exists t, st. split_and!; try done.
    rewrite Hf. do 2 f_equal. lia.
Qed.

(** ** Concrete runs *)

(** A first sector whose first partition is used and starts at sector [lba]. *)
Definition demo_mbr (lba : Z) : list Z :=
  replicate 446 7 ++ [0x80; 0; 0; 0; 0x83; 0; 0; 0; lba; 0; 0; 0; 1; 0; 0; 0] ++
  replicate 48 0 ++ [0x55; 0xaa].

(** A source image: one boot sector and [n] more bytes. *)
Definition demo_source (n : nat) : list Z := replicate 510 1 ++ [0x55; 0xaa] ++ replicate n 2.

Definition demo_kernel (reads : list (option (list Z))) (lba st_size : Z)
    (writes : nat -> Z) : kernel :=
  Kernel true None 0 (Some (demo_mbr lba)) 0 (Some st_size) reads writes.

#[export] Instance read_ok_dec n r : Decision (read_ok n r).
Proof. destruct r; simpl; apply _. Defined.

#[export] Instance kernel_ok_dec k : Decision (kernel_ok k).
Proof. unfold kernel_ok. destruct (k_oldmbr k); apply _. Defined.

Definition demo_small : kernel := demo_kernel [Some (demo_source 88)] 63 600 (fun _ => 1024).

Lemma demo_small_ok : kernel_ok demo_small.
Proof. by_compute. Qed.

Lemma demo_small_table : has_table demo_small (demo_mbr 63).
Proof. split; [done|]. by_compute. Qed.

Lemma install_success_witness :
  kernel_ok demo_small /\ o_exit (install demo_small 2) = Success /\
  Z.of_nat (length (written (install demo_small 2))) = 1024 /\
  map (byte (written (install demo_small 2))) [0; 446; 462; 511]%nat = [1; 0; 128; 170].
Proof.
  assert (o_exit (install demo_small 2) = Success) as He by (vm_compute; reflexivity).
  destruct (install_success demo_small 2 demo_small_ok He) as [Hl Hb].
  split; [exact demo_small_ok|]. split; [exact He|].
  split; [rewrite Hl; vm_compute; reflexivity|].
  cbn [map]. rewrite !Hb by (apply Nat.ltb_lt; vm_compute; reflexivity).
  vm_compute. reflexivity.
Defined.

Lemma install_keeps_table_witness :
  exists w, o_writes (install demo_small 0) = [w] /\
  byte w 446 = 0x80 /\ byte w 450 = 0x83 /\ byte w 454 = 63.
Proof.
  destruct (o_writes (install demo_small 0)) as [|w [|]] eqn:Hw;
    [vm_compute in Hw; discriminate Hw| |vm_compute in Hw; discriminate Hw].
  exists w. split; [reflexivity|].
  destruct (install_keeps_table demo_small 0 (demo_mbr 63) w [] demo_small_ok
    demo_small_table Hw) as [_ Hb].
  rewrite !Hb by lia. vm_compute. auto.
Defined.

Lemma install_no_overlap_witness :
  Z.of_nat (length (written (install demo_small 2))) <= 512 * 63.
Proof.
  apply (install_no_overlap demo_small 2 (demo_mbr 63) 600 0 demo_small_ok demo_small_table);
    [by_compute|done|by_compute|lia|by_compute].
Defined.

Lemma install_refuses_witness :
  o_writes (install demo_small 0) <> [] /\ (512 <= length (source_of demo_small))%nat.
Proof.
  assert (o_writes (install demo_small 0) <> []) as Hw by (vm_compute; discriminate).
  split; [exact Hw|]. apply (install_refuses demo_small 0 demo_small_ok Hw).
Defined.

(** The copy loop never advances its [lba], so its check bounds each
    buffer and not the copy: when fstat reports a smaller size than the source
    delivers (0 for a block device), the copy runs into the partition that the
    check should protect, and the installation is reported as a success. *)
Theorem install_overrun : exists k,
  kernel_ok k /\ has_table k (demo_mbr 9) /\ k_st_size k = Some 0 /\
  o_exit (install k 0) = Success /\
  pte_type (read_pte (demo_mbr 9) PT_BASE) = 0x83 /\
  pte_lba_first (read_pte (demo_mbr 9) PT_BASE) = 9 /\
  Z.of_nat (length (written (install k 0))) = 512 * 16.
Proof.
  exists (demo_kernel [Some (demo_source 3584); Some (replicate BUFSIZE 2)] 9 0
    (fun _ => 4096)).
  split; [by_compute|]. split; [split; [done|by_compute]|]. split; [done|].
  vm_compute. auto.
Qed.

Definition demo_dev : dev_dir :=
  DevDir true [Some [Dirent "null" 24; Dirent "sda" 20; Dirent "sdb" 20]]
    (fun s => if decide (s = "/dev/sda") then Some 0x800 else
              if decide (s = "/dev/sdb") then Some 0x810 else None).

Lemma find_device_name_correct_witness :
  exists r, find_device_name 5 demo_dev 0x810 32 = Ok r /\ find_post demo_dev 0x810 r /\
  r = (0, "/dev/sdb").
Proof.
  destruct (find_device_name_correct 5 demo_dev 0x810) as (r & Hr & Hp);
    [done|repeat constructor; vm_compute; lia|vm_compute; lia|].
  exists r. split; [done|]. split; [done|]. vm_compute in Hr. congruence.
Defined.

Lemma find_device_name_hangs_witness :
  find_device_name 1000
    (DevDir true [Some [Dirent "disk-by-uuid-0123456789" 40; Dirent "sda" 20]] (fun _ => None))
    0x800 32 = NoFuel.
Proof.
  apply (find_device_name_hangs 1000 (Dirent "disk-by-uuid-0123456789" 40));
    [vm_compute; lia|done].
Defined.

Lemma main_target_witness :
  exists o, main 5 "liigboot.bin.install" ["install"; "/mnt"]
    (fun _ => Some (Stat KDir 0x812 0)) demo_dev (fun _ _ => demo_small) = Ok o /\
  o_writes o <> [] /\ exists a, o = install demo_small a.
Proof.
  destruct (main 5 "liigboot.bin.install" ["install"; "/mnt"]
    (fun _ => Some (Stat KDir 0x812 0)) demo_dev (fun _ _ => demo_small)) as [o| |] eqn:Hm;
    [|exfalso; vm_compute in Hm; discriminate Hm..].
  assert (o_writes o <> []) as Hw.
  { intros E. assert (o = Outcome (o_exit o) []) as Ho by (destruct o; simpl in *; by subst).
    rewrite Ho in Hm. vm_compute in Hm. discriminate Hm. }
  destruct (main_target _ _ _ _ _ _ _ Hm Hw) as (s & t & a & _ & Ho & _). eauto.
Defined.

End Install.
