(* ===== verification/Malloc.v ===== *)
(** * The memory allocator (libcore/mem)

    First-fit allocation from two heaps.  Every block starts with an arena
    header; the blocks of a heap, free or not, are on one ring in the order of
    their addresses, and the free ones are on a second ring.  Both rings go
    through the head of the heap, [__malloc_head[heap]].  The model works on
    32-bit words, so that a store of the user into a block is a store into the
    memory in which the allocator keeps its headers. *)

From Stdlib Require Import ZArith Lia.
From S2P Require Import Prelude DList.

Module Malloc.

(** ** The headers *)

(** Offsets of the fields of struct free_arena_header. *)
Abbreviation o_tag := 0.
Abbreviation o_attrs := 4.
Abbreviation o_next := 8.
Abbreviation o_prev := 12.
Abbreviation o_next_free := 16.
Abbreviation o_prev_free := 20.

(** sizeof(struct arena_header) *)
Abbreviation hdr := 16.

(** enum malloc_owner, enum arena_type, enum heap *)
Abbreviation MALLOC_FREE := 0.
Abbreviation MALLOC_HEAD := 1.
Abbreviation MALLOC_CORE := 2.
Abbreviation MALLOC_MODULE := 3.
Abbreviation ARENA_TYPE_USED := 0.
Abbreviation ARENA_TYPE_FREE := 1.
Abbreviation ARENA_TYPE_HEAD := 2.
Abbreviation HEAP_MAIN := 0.
Abbreviation HEAP_LOWMEM := 1.
Abbreviation NHEAP := 2.

Definition ARENA_SIZE_GET (attrs : Z) : Z := Z.land attrs (Z.lnot 15).
Definition ARENA_HEAP_GET (attrs : Z) : Z := Z.shiftr (Z.land attrs 0xc) 2.
Definition ARENA_TYPE_GET (attrs : Z) : Z := Z.land attrs 0x3.

Definition ARENA_SIZE_SET (attrs size : Z) : Z :=
  Z.lor (Z.land size (Z.lnot 15)) (Z.land attrs 15).
Definition ARENA_HEAP_SET (attrs heap : Z) : Z :=
  Z.lor (Z.land (Z.shiftl heap 2) 0xc) (Z.land attrs (Z.lnot 0xc)).
Definition ARENA_TYPE_SET (attrs type : Z) : Z :=
  Z.lor (Z.land attrs (Z.lnot 0x3)) (Z.land type 0x3).

(** Updates of one field. *)
Definition upd_attrs (f : Z -> Z -> Z) (m : words) (p v : Z) : words :=
  st m (p + o_attrs) (f (m (p + o_attrs)) v).

(** ** malloc.c *)

(** Splits a block that is bigger than required: the headers of the new block
    [nfp] and of the allocated one, *)
Definition split_headers (m : words) (fp nfp size tag : Z) : words :=
  let heap := ARENA_HEAP_GET (m (fp + o_attrs)) in
  let fsize := ARENA_SIZE_GET (m (fp + o_attrs)) in
  let m := upd_attrs ARENA_TYPE_SET m nfp ARENA_TYPE_FREE in
  let m := upd_attrs ARENA_HEAP_SET m nfp heap in
  let m := upd_attrs ARENA_SIZE_SET m nfp (fsize - size) in
  let m := st m (nfp + o_tag) MALLOC_FREE in
  let m := upd_attrs ARENA_TYPE_SET m fp ARENA_TYPE_USED in
  let m := upd_attrs ARENA_SIZE_SET m fp size in
  st m (fp + o_tag) tag.

(** the insertion into the all-block chain, *)
Definition split_insert (m : words) (fp nfp na : Z) : words :=
  let m := st m (nfp + o_prev) fp in
  let m := st m (nfp + o_next) na in
  let m := st m (na + o_prev) nfp in
  st m (fp + o_next) nfp.

(** and the replacement of the current block on the free chain. *)
Definition replace_free (m : words) (fp nfp : Z) : words :=
  let m := st m (nfp + o_next_free) (m (fp + o_next_free)) in
  let m := st m (nfp + o_prev_free) (m (fp + o_prev_free)) in
  let m := st m (m (fp + o_next_free) + o_prev_free) nfp in
  st m (m (fp + o_prev_free) + o_next_free) nfp.

Definition split_block (m : words) (fp size tag : Z) : words :=
  let nfp := fp + size in
  let na := m (fp + o_next) in
  let m := split_headers m fp nfp size tag in
  let m := split_insert m fp nfp na in
  replace_free m fp nfp.

(** Removes a block from the free chain. *)
Definition unlink_free (m : words) (p : Z) : words :=
  let m := st m (m (p + o_next_free) + o_prev_free) (m (p + o_prev_free)) in
  st m (m (p + o_prev_free) + o_next_free) (m (p + o_next_free)).

(** Allocates the whole block. *)
Definition take_block (m : words) (fp tag : Z) : words :=
  let m := upd_attrs ARENA_TYPE_SET m fp ARENA_TYPE_USED in
  let m := st m (fp + o_tag) tag in
  unlink_free m fp.

Definition malloc_from_block (m : words) (fp size tag : Z) : words * Z :=
  let fsize := ARENA_SIZE_GET (m (fp + o_attrs)) in
  let m := if decide (u32 (size + 2 * hdr) <= fsize) then split_block m fp size tag
           else take_block m fp tag in
  (m, fp + hdr).

Section Heads.
(** The address of [__malloc_head]. *)
Context (malloc_head : Z).

Definition head_of (heap : Z) : Z := malloc_head + 32 * heap.

(** [for (fp = head->next_free; fp != head; fp = fp->next_free)] *)
Definition fit_step (m : words) (head size fp : Z) : result (ctl Z (option Z)) :=
  Ok (if decide (fp = head) then Break None
      else if decide (size <= ARENA_SIZE_GET (m (fp + o_attrs))) then Break (Some fp)
      else Continue (m (fp + o_next_free))).

Definition _malloc (fuel : nat) (m : words) (size heap tag : Z) : result (words * Z) :=
  let head := head_of heap in
  if decide (size = 0) then Ok (m, 0)
  else
    let size := Z.land (u32 (size + 2 * hdr - 1)) (Z.lnot 15) in
    r ← loop fuel (fit_step m head size) (m (head + o_next_free));
    Ok (match r with
        | Some fp => malloc_from_block m fp size tag
        | None => (m, 0)
        end).

Definition malloc fuel m size := _malloc fuel m size HEAP_MAIN MALLOC_CORE.
Definition lmalloc fuel m size := _malloc fuel m size HEAP_LOWMEM MALLOC_CORE.
Definition pmapi_lmalloc fuel m size := _malloc fuel m size HEAP_LOWMEM MALLOC_MODULE.

(** ** free.c *)

(** Adds a block to the free chain. *)
Definition push_free (m : words) (head ah : Z) : words :=
  let m := st m (ah + o_next_free) (m (head + o_next_free)) in
  let m := st m (ah + o_prev_free) head in
  let m := st m (head + o_next_free) ah in
  st m (m (ah + o_next_free) + o_prev_free) ah.

Definition release (m : words) (head ah : Z) : words :=
  let m := upd_attrs ARENA_TYPE_SET m ah ARENA_TYPE_FREE in
  let m := st m (ah + o_tag) MALLOC_FREE in
  push_free m head ah.

(** Is [p] free and is [q] where it ends? *)
Definition joins (m : words) (p q free : Z) : Prop :=
  ARENA_TYPE_GET (m (free + o_attrs)) = ARENA_TYPE_FREE /\
  p + ARENA_SIZE_GET (m (p + o_attrs)) = q.

#[export] Instance joins_dec m p q free : Decision (joins m p q free) := _.

(** Coalesces [ah] into the previous block. *)
Definition absorb_prev (m : words) (pah ah nah : Z) : words :=
  let m := upd_attrs ARENA_SIZE_SET m pah
             (ARENA_SIZE_GET (m (pah + o_attrs)) + ARENA_SIZE_GET (m (ah + o_attrs))) in
  let m := st m (pah + o_next) nah in
  st m (nah + o_prev) pah.

(** Merges with the subsequent block, which leaves the chains. *)
Definition absorb_next (m : words) (ah nah : Z) : words :=
  let m := upd_attrs ARENA_SIZE_SET m ah
             (ARENA_SIZE_GET (m (ah + o_attrs)) + ARENA_SIZE_GET (m (nah + o_attrs))) in
  let m := unlink_free m nah in
  let m := st m (ah + o_next) (m (nah + o_next)) in
  st m (m (nah + o_next) + o_prev) ah.

Definition free_block (m : words) (ah : Z) : words * Z :=
  let head := head_of (ARENA_HEAP_GET (m (ah + o_attrs))) in
  let pah := m (ah + o_prev) in
  let nah := m (ah + o_next) in
  let '(m, ah) :=
    if decide (joins m pah ah pah) then (absorb_prev m pah ah nah, pah)
    else (release m head ah, ah) in
  if decide (joins m ah nah nah) then (absorb_next m ah nah, ah) else (m, ah).

Definition free (m : words) (ptr : Z) : words :=
  if decide (ptr = 0) then m else (free_block m (ptr - hdr)).1.

(** The search for the successor: [Break None] rejects the block. *)
Definition inject_step (m : words) (head ah a_end nah : Z) : result (ctl Z (option Z)) :=
  Ok (if decide (nah = head) then Break (Some nah)
      else
        let n_end := u32 (nah + ARENA_SIZE_GET (m (nah + o_attrs))) in
        if decide (a_end <= nah) then Break (Some nah)
        else if decide (n_end <= ah) then Continue (m (nah + o_next))
        else Break None).

Definition inject_free_block (fuel : nat) (m : words) (ah : Z) : result words :=
  let head := head_of (ARENA_HEAP_GET (m (ah + o_attrs))) in
  let a_end := u32 (ah + ARENA_SIZE_GET (m (ah + o_attrs))) in
  r ← loop fuel (inject_step m head ah a_end) (m (head + o_next));
  Ok (match r with
      | None => m
      | Some nah =>
          let m := st m (ah + o_next) nah in
          let m := st m (ah + o_prev) (m (nah + o_prev)) in
          let m := st m (nah + o_prev) ah in
          let m := st m (m (ah + o_prev) + o_next) ah in
          (free_block m ah).1
      end).

(** Frees the blocks of one heap that have the given tag. *)
Definition tagged_step (head tag : Z) (s : words * Z) : result (ctl (words * Z) words) :=
  let '(m, fp) := s in
  Ok (if decide (fp = head) then Break m
      else
        let '(m, fp) :=
          if decide (ARENA_TYPE_GET (m (fp + o_attrs)) = ARENA_TYPE_USED /\ m (fp + o_tag) = tag)
          then free_block m fp else (m, fp) in
        Continue (m, m (fp + o_next))).

Definition free_tagged (fuel : nat) (m : words) (tag : Z) : result words :=
  m ← (let head := head_of 0 in loop fuel (tagged_step head tag) (m, m (head + o_next)));
  let head := head_of 1 in loop fuel (tagged_step head tag) (m, m (head + o_next)).

Definition comboot_cleanup_lowmem fuel m := free_tagged fuel m MALLOC_MODULE.

(** ** init.c *)

Definition init_head (m : words) (i : Z) : words :=
  let fp := head_of i in
  let m := st m (fp + o_prev_free) fp in
  let m := st m (fp + o_next_free) fp in
  let m := st m (fp + o_prev) fp in
  let m := st m (fp + o_next) fp in
  let m := st m (fp + o_attrs) (Z.lor ARENA_TYPE_HEAD (Z.shiftl i 2)) in
  st m (fp + o_tag) MALLOC_HEAD.

(** The addresses of the two heaps and the word at 0x413, the size of the low
    memory in kilobytes. *)
Definition mem_init (fuel : nat) (main_heap lowmem_heap bios_free_mem : Z) (m : words) :
    result words :=
  let m := init_head m 0 in
  let m := init_head m 1 in
  let m := st m (main_heap + o_attrs) (Z.lor ARENA_TYPE_USED (Z.shiftl HEAP_MAIN 2)) in
  let m := upd_attrs ARENA_SIZE_SET m main_heap (Z.shiftl 128 10) in
  m ← inject_free_block fuel m main_heap;
  let m := st m (lowmem_heap + o_attrs) (Z.lor ARENA_TYPE_USED (Z.shiftl HEAP_LOWMEM 2)) in
  let m := upd_attrs ARENA_SIZE_SET m lowmem_heap
             (u32 (Z.shiftl bios_free_mem 10 - lowmem_heap)) in
  inject_free_block fuel m lowmem_heap.

End Heads.

(** ** The attributes word *)

Definition mk_attrs (size heap type : Z) : Z := size + 4 * heap + type.

Section Attrs.
Context (heap : Z) (Hheap : 0 <= heap < 4).
Implicit Types size type : Z.

Lemma land_not15 x : Z.land x (Z.lnot 15) = x - x mod 16.
Proof. apply (land_lnot_ones x 4). lia. Qed.

Lemma size_get_mk size type :
  size mod 16 = 0 -> 0 <= type < 4 -> ARENA_SIZE_GET (mk_attrs size heap type) = size.
Proof. intros. unfold ARENA_SIZE_GET, mk_attrs. rewrite land_not15. dlia. Qed.

Lemma type_get_mk size type :
  size mod 16 = 0 -> 0 <= type < 4 -> ARENA_TYPE_GET (mk_attrs size heap type) = type.
Proof.
  intros. unfold ARENA_TYPE_GET, mk_attrs. rewrite (land_ones_mod _ 2) by lia.
  change (2 ^ 2) with 4. dlia.
Qed.

Lemma heap_get_mk size type :
  size mod 16 = 0 -> 0 <= type < 4 -> ARENA_HEAP_GET (mk_attrs size heap type) = heap.
Proof.
  intros. unfold ARENA_HEAP_GET, mk_attrs. rewrite Z.shiftr_land.
  change (Z.shiftr 0xc 2) with (2 ^ 2 - 1). rewrite land_ones_mod, shiftr_div by lia.
  change (2 ^ 2) with 4. dlia.
Qed.

Lemma lor_low x y k : 0 <= k -> 0 <= y < 2 ^ k -> x mod 2 ^ k = 0 -> Z.lor x y = x + y.
Proof.
  intros Hk Hy Hx. rewrite Z.lor_comm.
  replace x with (x / 2 ^ k * 2 ^ k) at 1 by (pose proof (Z.div_mod x (2 ^ k)); lia).
  rewrite lor_disjoint by lia. pose proof (Z.div_mod x (2 ^ k)). lia.
Qed.

Lemma size_set_mk size size' type :
  size mod 16 = 0 -> size' mod 16 = 0 -> 0 <= type < 4 ->
  ARENA_SIZE_SET (mk_attrs size heap type) size' = mk_attrs size' heap type.
Proof.
  intros. unfold ARENA_SIZE_SET, mk_attrs. rewrite land_not15, (land_ones_mod _ 4) by lia.
  change (2 ^ 4) with 16. rewrite (lor_low _ _ 4) by (change (2 ^ 4) with 16; dlia). dlia.
Qed.

Lemma type_set_mk size type type' :
  size mod 16 = 0 -> 0 <= type < 4 -> 0 <= type' < 4 ->
  ARENA_TYPE_SET (mk_attrs size heap type) type' = mk_attrs size heap type'.
Proof.
  intros. unfold ARENA_TYPE_SET, mk_attrs.
  rewrite (land_lnot_ones _ 2), (land_ones_mod _ 2) by lia.
  change (2 ^ 2) with 4. rewrite (lor_low _ _ 2) by (change (2 ^ 2) with 4; dlia). dlia.
Qed.

(** Setting all three fields, over whatever the word holds. *)
Lemma set_all_mk x size type :
  size mod 16 = 0 -> 0 <= type < 4 ->
  ARENA_SIZE_SET (ARENA_HEAP_SET (ARENA_TYPE_SET x type) heap) size = mk_attrs size heap type.
Proof.
  intros Hs Ht. unfold ARENA_SIZE_SET. rewrite land_not15, Hs, Z.sub_0_r.
  assert (Z.land (ARENA_HEAP_SET (ARENA_TYPE_SET x type) heap) 15 = 4 * heap + type) as ->.
  { unfold ARENA_HEAP_SET, ARENA_TYPE_SET.
    rewrite !Z.land_lor_distr_l, <- !Z.land_assoc.
    change (Z.land (Z.lnot 12) 15) with 3. change (Z.land 12 15) with 12.
    change (Z.land (Z.lnot 3) 3) with 0. rewrite Z.land_0_r. change (Z.land 3 3) with 3.
    assert (heap = 0 \/ heap = 1 \/ heap = 2 \/ heap = 3) as [->|[->|[->| ->]]] by lia;
    assert (type = 0 \/ type = 1 \/ type = 2 \/ type = 3) as [->|[->|[->| ->]]] by lia;
      reflexivity. }
  rewrite (lor_low _ _ 4) by (change (2 ^ 4) with 16; lia). unfold mk_attrs. lia.
Qed.
End Attrs.

(** ** Heaps

    What the allocator keeps in one heap: its blocks in the order of their
    addresses, and the order of the free ones on the free chain. *)

Record arena := Arena { ar_head : Z; ar_heap : Z; ar_lo : Z; ar_hi : Z }.

Record arena_ok (A : arena) : Prop := {
  ao_heap : 0 <= ar_heap A < 4;
  ao_lo : 64 <= ar_lo A;
  ao_hi : ar_hi A < 0x100000000;
  ao_head : ar_head A + 32 <= ar_lo A \/ ar_hi A <= ar_head A }.

(** A block; [b_tag] is [None] when it is free. *)
Record block := Block { b_addr : Z; b_size : Z; b_tag : option Z }.

Definition b_end (b : block) : Z := b_addr b + b_size b.

Definition is_free (b : block) : bool := match b_tag b with None => true | Some _ => false end.

Definition addrs (bs : list block) : list Z := map b_addr bs.

(** The addresses of the free blocks. *)
Definition free_addrs (bs : list block) : list Z := addrs (List.filter is_free bs).

Definition block_at (m : words) (heap : Z) (b : block) : Prop :=
  m (b_addr b + o_attrs) =
    mk_attrs (b_size b) heap (if is_free b then ARENA_TYPE_FREE else ARENA_TYPE_USED) /\
  m (b_addr b + o_tag) = default MALLOC_FREE (b_tag b).

Definition block_ok (b : block) : Prop :=
  32 <= b_size b /\ b_size b mod 16 = 0 /\ b_addr b mod 16 = 0.

(** The blocks lie one after the other between [lo] and [hi]. *)
Fixpoint spaced (lo : Z) (bs : list block) (hi : Z) : Prop :=
  match bs with
  | [] => lo <= hi
  | b :: bs' => lo <= b_addr b /\ block_ok b /\ spaced (b_end b) bs' hi
  end.

(** No two free blocks touch. *)
Fixpoint coalesced (bs : list block) : Prop :=
  match bs with
  | b :: (b' :: _) as bs' =>
      ~ (is_free b = true /\ is_free b' = true /\ b_end b = b_addr b') /\ coalesced bs'
  | _ => True
  end.

Record heap_rep (A : arena) (m : words) (bs : list block) (fl : list Z) : Prop := {
  hr_all : ring o_next o_prev m (ar_head A) (addrs bs);
  hr_free : ring o_next_free o_prev_free m (ar_head A) fl;
  hr_head : m (ar_head A + o_attrs) = mk_attrs 0 (ar_heap A) ARENA_TYPE_HEAD;
  hr_blocks : Forall (block_at m (ar_heap A)) bs;
  hr_perm : fl ≡ₚ free_addrs bs;
  hr_spaced : spaced (ar_lo A) bs (ar_hi A) }.

(** *** Addresses of blocks *)

Lemma spaced_weaken lo lo' bs hi : spaced lo bs hi -> lo' <= lo -> spaced lo' bs hi.
Proof. destruct bs; simpl; intros; [lia|]. split; [lia|tauto]. Qed.

Lemma spaced_le lo bs hi : spaced lo bs hi -> lo <= hi.
Proof.
  revert lo. induction bs as [|b bs IH]; intros lo; simpl; [done|].
  intros (H & [Hb _] & Hs). apply IH in Hs. unfold b_end in Hs. lia.
Qed.

Lemma spaced_app lo b1 b b2 hi :
  spaced lo (b1 ++ b :: b2) hi <->
  spaced lo b1 (b_addr b) /\ block_ok b /\ spaced (b_end b) b2 hi.
Proof.
  revert lo. induction b1 as [|c b1 IH]; intros lo; simpl; [tauto|]. rewrite IH. tauto.
Qed.

Lemma spaced_In lo bs hi b :
  spaced lo bs hi -> In b bs -> lo <= b_addr b /\ block_ok b /\ b_end b <= hi.
Proof.
  intros Hs (b1 & b2 & ->)%in_split. apply spaced_app in Hs as (H1 & H2 & H3).
  apply spaced_le in H1, H3. done.
Qed.

Definition sep (x y : Z) : Prop := x = y \/ x + 24 <= y \/ y + 24 <= x.

Lemma sep_sym x y : sep x y -> sep y x.
Proof. unfold sep. lia. Qed.

Lemma spaced_apart lo b1 b b2 hi c :
  spaced lo (b1 ++ b :: b2) hi -> In c (b1 ++ b2) -> b_end c <= b_addr b \/ b_end b <= b_addr c.
Proof.
  intros (H1 & H2 & H3)%spaced_app [Hc|Hc]%in_app_or.
  - left. by destruct (spaced_In _ _ _ _ H1 Hc) as (_ & _ & ?).
  - right. by destruct (spaced_In _ _ _ _ H3 Hc) as (? & _).
Qed.

Lemma In_addrs x bs : In x (addrs bs) <-> exists b, In b bs /\ b_addr b = x.
Proof. unfold addrs. rewrite in_map_iff. firstorder. Qed.

Lemma addrs_app b1 b2 : addrs (b1 ++ b2) = addrs b1 ++ addrs b2.
Proof. apply map_app. Qed.

Lemma spaced_NoDup lo bs hi : spaced lo bs hi -> NoDup (addrs bs).
Proof.
  revert lo. induction bs as [|b bs IH]; intros lo; [constructor|]. intros (H1 & [H2 _] & H3).
  simpl. constructor; [|by eapply IH].
  intros (c & Hc & He)%list_elem_of_In%In_addrs. eapply spaced_In in H3 as [H3 _]; [|done].
  unfold b_end in *. lia.
Qed.

Section Nodes.
Context (A : arena) (bs : list block) (HA : arena_ok A) (Hs : spaced (ar_lo A) bs (ar_hi A)).

Lemma node_range x :
  In x (addrs bs) -> ar_lo A <= x /\ x + 32 <= ar_hi A.
Proof.
  intros (b & Hb & <-)%In_addrs. destruct (spaced_In _ _ _ _ Hs Hb) as (H1 & [H2 _] & H3).
  unfold b_end in H3. lia.
Qed.

Lemma node_sep x y :
  In x (ar_head A :: addrs bs) -> In y (ar_head A :: addrs bs) -> sep x y.
Proof.
  destruct HA as [_ _ _ Hh]. intros Hx Hy. unfold sep.
  destruct Hx as [<-|Hx], Hy as [<-|Hy]; [by left| | |].
  - apply node_range in Hy. lia.
  - apply node_range in Hx. lia.
  - apply In_addrs in Hx as (b & (b1 & b2 & Hbs)%in_split & <-).
    apply In_addrs in Hy as (c & Hc & <-).
    destruct (spaced_In _ _ _ _ Hs Hc) as (_ & [Hc32 _] & _).
    rewrite Hbs in Hs, Hc.
    apply in_app_or in Hc as [Hc|[<-|Hc]]; [|by left|].
    all: assert (b_end c <= b_addr b \/ b_end b <= b_addr c) as Hap
      by (eapply spaced_apart; [exact Hs|apply in_or_app; auto]).
    all: apply spaced_app in Hs as (_ & [Hb _] & _); unfold b_end in Hap; lia.
Qed.

Lemma nodes_NoDup : NoDup (ar_head A :: addrs bs).
Proof.
  constructor; [|by eapply spaced_NoDup].
  intros Hin%list_elem_of_In%node_range. destruct HA as [_ _ _ Hh]. lia.
Qed.
End Nodes.

(** A store to one field leaves the other fields alone. *)
Lemma st_other m x f v y g :
  sep x y -> x <> y \/ f <> g -> 0 <= f < 24 -> 0 <= g < 24 ->
  st m (x + f) v (y + g) = m (y + g).
Proof. unfold sep. intros. apply st_ne. lia. Qed.

(** Reads fields back from a memory built of stores, given the separation [H]
    of the structures. *)
Ltac field_side H :=
  first [ solve [split; [discriminate|reflexivity]] | solve [right; discriminate]
        | solve [left; congruence] | apply H; first [assumption | solve [simpl; auto]] | solve [eauto] ].
Ltac fields H := repeat first [rewrite st_eq | rewrite st_other by field_side H].

(** The words the allocator may write when the structures at [N] are blocks,
    and those at [F] free ones. *)
Definition touched (N F : list Z) (x : Z) : Prop :=
  (exists y, In y N /\ y <= x < y + 16) \/ (exists y, In y F /\ y <= x < y + 24).

Lemma touched_hdr N F y f : In y N -> 0 <= f < 16 -> touched N F (y + f).
Proof. intros. left. exists y. split; [done|lia]. Qed.

Lemma touched_free N F y f : In y F -> 0 <= f < 24 -> touched N F (y + f).
Proof. intros. right. exists y. split; [done|lia]. Qed.

Definition set_tag (t : option Z) (b : block) : block := Block (b_addr b) (b_size b) t.

Lemma addrs_set_tag t b1 b b2 : addrs (b1 ++ set_tag t b :: b2) = addrs (b1 ++ b :: b2).
Proof. by rewrite !addrs_app. Qed.

Lemma free_addrs_app b1 b b2 :
  free_addrs (b1 ++ b :: b2) =
  free_addrs b1 ++ (if is_free b then [b_addr b] else []) ++ free_addrs b2.
Proof.
  unfold free_addrs. rewrite List.filter_app, addrs_app. f_equal. simpl.
  by destruct (is_free b).
Qed.

(** Replaces some blocks: the headers of the others stay as they are. *)
Lemma blocks_splice m m' heap b1 old new b2 :
  Forall (block_at m heap) (b1 ++ old ++ b2) -> NoDup (addrs (b1 ++ old ++ b2)) ->
  (forall y, In y (addrs (b1 ++ old ++ b2)) -> ~ In y (addrs old) ->
     m' (y + o_attrs) = m (y + o_attrs) /\ m' (y + o_tag) = m (y + o_tag)) ->
  Forall (block_at m' heap) new -> Forall (block_at m' heap) (b1 ++ new ++ b2).
Proof.
  intros Hbl Hnd Hsame Hnew. rewrite !Forall_app in Hbl |- *.
  rewrite !addrs_app in Hnd. rewrite !addrs_app in Hsame.
  assert (forall c, In c (b1 ++ b2) -> block_at m heap c -> block_at m' heap c) as Hc.
  { intros c Hc [H1 H2]. assert (In (b_addr c) (addrs b1) \/ In (b_addr c) (addrs b2)) as Hin.
    { apply in_app_or in Hc as [Hc|Hc]; [left|right]; apply In_addrs; eauto. }
    destruct (Hsame (b_addr c)) as [E1 E2].
    - apply in_or_app. destruct Hin; [by left|right; apply in_or_app; by right].
    - intros Ho%list_elem_of_In. rewrite !NoDup_app in Hnd.
      destruct Hnd as (_ & N1 & _ & N2 & _). destruct Hin as [Hi%list_elem_of_In|Hi%list_elem_of_In].
      + apply (N1 _ Hi), elem_of_app. by left.
      + by apply (N2 _ Ho).
    - split; congruence. }
  destruct Hbl as (H1 & _ & H2). split; [|split; [done|]].
  - apply Forall_forall. intros c Hc'. apply Hc; [apply in_or_app; left; by apply list_elem_of_In|].
    by apply (proj1 (Forall_forall _ _) H1).
  - apply Forall_forall. intros c Hc'. apply Hc; [apply in_or_app; right; by apply list_elem_of_In|].
    by apply (proj1 (Forall_forall _ _) H2).
Qed.

(** *** The two chains

    What the primitive operations maintain, whatever the sizes of the blocks:
    the rings, the headers and the separation of the structures. *)

Record links (A : arena) (m : words) (bs : list block) (fl : list Z) : Prop := {
  li_all : ring o_next o_prev m (ar_head A) (addrs bs);
  li_free : ring o_next_free o_prev_free m (ar_head A) fl;
  li_head : m (ar_head A + o_attrs) = mk_attrs 0 (ar_heap A) ARENA_TYPE_HEAD;
  li_blocks : Forall (block_at m (ar_heap A)) bs;
  li_sep : forall x y, In x (ar_head A :: addrs bs) -> In y (ar_head A :: addrs bs) -> sep x y;
  li_NoDup : NoDup (ar_head A :: addrs bs);
  li_NoDup_free : NoDup (ar_head A :: fl);
  li_sub : forall x, In x fl -> In x (addrs bs) }.

Lemma in_NoDup_head (h x : Z) l : NoDup (h :: l) -> In x l -> x <> h.
Proof. intros [H _]%NoDup_cons Hx ->. by apply H, list_elem_of_In. Qed.

Lemma free_node A m bs fl x : links A m bs fl -> In x (ar_head A :: fl) -> In x (ar_head A :: addrs bs).
Proof. intros Hl [<-|Hx]; [by left|right]. by eapply li_sub. Qed.

Lemma hd_In (h : Z) l : In (hd h l) (h :: l).
Proof. destruct l; simpl; auto. Qed.

Lemma last_In (h : Z) l : In (List.last l h) (h :: l).
Proof.
  destruct (exists_last (l := h :: l)) as (L & p & HL); [done|].
  replace (List.last l h) with (List.last (h :: l) h) by (by destruct l).
  rewrite HL, last_last. apply in_or_app. right. by left.
Qed.

(** Changing the tag and the attributes of a block. *)
Lemma links_hdr A m m' b1 b b' b2 fl :
  links A m (b1 ++ b :: b2) fl -> b_addr b' = b_addr b ->
  wsame (fun x => x = b_addr b + o_attrs \/ x = b_addr b + o_tag) m m' ->
  block_at m' (ar_heap A) b' -> links A m' (b1 ++ b' :: b2) fl.
Proof.
  intros Hl Hab Hw Hb'.
  assert (addrs (b1 ++ b' :: b2) = addrs (b1 ++ b :: b2)) as Hadd
    by (rewrite !addrs_app; simpl; by rewrite Hab).
  assert (In (b_addr b) (addrs (b1 ++ b :: b2))) as Hb.
  { apply In_addrs. exists b. split; [|done]. apply in_or_app. right. by left. }
  assert (forall y f, In y (ar_head A :: addrs (b1 ++ b :: b2)) -> 0 <= f < 24 ->
    y <> b_addr b \/ 4 < f -> m' (y + f) = m (y + f)) as Hsame.
  { intros y f Hy Hf Hd. apply Hw.
    pose proof (li_sep _ _ _ _ Hl _ _ Hy (or_intror Hb)) as Hs. unfold sep in Hs. lia. }
  pose proof (in_NoDup_head _ _ _ (li_NoDup _ _ _ _ Hl) Hb) as Hne.
  constructor; rewrite ?Hadd.
  - apply ring_ext with m; [intros y Hy; apply Hsame; [done|lia|lia]..|apply Hl].
  - apply ring_ext with m; [intros y Hy; eapply free_node in Hy; [apply Hsame; [done|lia|lia]|done]..|apply Hl].
  - rewrite Hsame; [apply Hl|by left|lia|left; congruence].
  - apply (blocks_splice m _ _ b1 [b] [b'] b2); [apply Hl|eapply NoDup_cons, Hl| |by apply Forall_singleton].
    intros y Hy Hyb. assert (y <> b_addr b) by (intros ->; apply Hyb; by left).
    split; apply Hsame; auto; (by right) || lia.
  - apply Hl.
  - apply Hl.
  - apply Hl.
  - apply Hl.
Qed.

(** The links that replacing a part of a ring writes. *)
Definition spliced (on op p : Z) (Y : list Z) (s x : Z) : Prop :=
  (exists y, In y (p :: Y) /\ x = y + on) \/ (exists y, In y (Y ++ [s]) /\ x = y + op).

Lemma spliced_nodes on op p Y s x N :
  spliced on op p Y s x -> In p N -> In s N -> (forall y, In y Y -> In y N) ->
  exists y f, In y N /\ (f = on \/ f = op) /\ x = y + f.
Proof.
  intros [(y & Hy & ->)|(y & Hy & ->)] Hp Hs HY; exists y.
  - exists on. destruct Hy as [<-|Hy]; auto.
  - exists op. apply in_app_or in Hy as [Hy|[<-|[]]]; auto.
Qed.

Lemma wsame_field (P : Z -> Prop) m m' N y f :
  wsame P m m' -> (forall x y, In x N -> In y N -> sep x y) -> In y N -> 0 <= f < 24 ->
  (forall x, P x -> exists z g, In z N /\ 0 <= g < 24 /\ x = z + g /\ (z <> y \/ g <> f)) ->
  m' (y + f) = m (y + f).
Proof.
  intros Hw Hsep Hy Hf HP. apply Hw. intros Hx. destruct (HP _ Hx) as (z & g & Hz & Hg & He & Hd).
  pose proof (Hsep z y Hz Hy) as Hs. unfold sep in Hs. lia.
Qed.

(** Changing the ring of all blocks. *)
Lemma links_all A m m' b1 X Y b2 fl p s :
  links A m (b1 ++ X ++ b2) fl ->
  p = List.last (addrs b1) (ar_head A) -> s = hd (ar_head A) (addrs b2) ->
  wsame (spliced o_next o_prev p (addrs Y) s) m m' ->
  chain o_next o_prev m' (p :: addrs Y ++ [s]) ->
  Forall (block_at m' (ar_heap A)) Y ->
  (forall x y, In x (ar_head A :: addrs (b1 ++ Y ++ b2)) ->
     In y (ar_head A :: addrs (b1 ++ Y ++ b2)) -> sep x y) ->
  NoDup (ar_head A :: addrs (b1 ++ Y ++ b2)) ->
  (forall x, In x fl -> In x (addrs (b1 ++ Y ++ b2))) ->
  links A m' (b1 ++ Y ++ b2) fl.
Proof.
  intros Hl Hp Hs Hw Hch HbY Hsep Hnd Hsub.
  set (N := ar_head A :: addrs (b1 ++ Y ++ b2)) in *.
  assert (HpN : In p N).
  { subst p. destruct (last_In (ar_head A) (addrs b1)) as [<-|H]; [by left|].
    right. rewrite addrs_app. apply in_or_app. by left. }
  assert (HsN : In s N).
  { subst s. destruct (hd_In (ar_head A) (addrs b2)) as [<-|H]; [by left|].
    right. rewrite !addrs_app. apply in_or_app; right. apply in_or_app. by right. }
  assert (HYN : forall y, In y (addrs Y) -> In y N).
  { intros y Hy. right. rewrite !addrs_app. apply in_or_app; right. apply in_or_app. by left. }
  assert (forall y f, In y N -> 0 <= f < 24 -> f <> o_next -> f <> o_prev ->
    m' (y + f) = m (y + f)) as Hother.
  { intros y f Hy Hf H1 H2. apply (wsame_field _ _ _ N _ _ Hw); try done. intros x Hx.
    destruct (spliced_nodes _ _ _ _ _ _ N Hx HpN HsN HYN) as (z & g & Hz & Hg & ->).
    exists z, g. split; [done|]. split; [lia|]. split; [done|]. lia. }
  unfold N in Hnd. rewrite !addrs_app in Hnd. destruct (NoDup_sub3 _ _ _ _ Hnd) as [Hnd' HnY].
  rewrite <- !addrs_app in Hnd.
  assert (forall y, In y (ar_head A :: addrs b1 ++ addrs b2) -> In y N) as Hsub'.
  { intros y [<-|Hy]; [by left|right]. rewrite !addrs_app. apply in_app_or in Hy as [Hy|Hy];
      [apply in_or_app; by left|apply in_or_app; right; apply in_or_app; by right]. }
  constructor; try done.
  - rewrite !addrs_app. apply (ring_splice _ _ m _ _ _ (addrs X) _ _ p s); try done.
    + rewrite <- !addrs_app. apply Hl.
    + intros y Hy Hyp. apply Hw. intros [(z & Hz & He)|(z & Hz & He)].
      * destruct Hz as [<-|Hz]; [lia|]. apply (HnY y Hy). replace y with z by lia. done.
      * assert (In z N) as HzN by (apply in_app_or in Hz as [?|[<-|[]]]; auto).
        pose proof (Hsep z y HzN (Hsub' y Hy)) as Hsz. unfold sep in Hsz. lia.
    + intros y Hy Hys. apply Hw. intros [(z & Hz & He)|(z & Hz & He)].
      * assert (In z N) as HzN by (destruct Hz as [<-|?]; auto).
        pose proof (Hsep z y HzN (Hsub' y Hy)) as Hsz. unfold sep in Hsz. lia.
      * apply in_app_or in Hz as [Hz|[<-|[]]]; [|lia].
        apply (HnY y Hy). replace y with z by lia. done.
  - assert (forall y, In y (ar_head A :: fl) -> In y N) as HfN
      by (intros y [<-|Hy]; [by left|right; auto]).
    apply ring_ext with m; [..|apply Hl]; intros y Hy; apply Hother; (auto || lia).
  - rewrite Hother; [apply Hl|by left|lia..].
  - apply (blocks_splice m _ _ b1 X Y b2); [apply Hl|eapply NoDup_cons, Hl| |done].
    intros y Hy HyX. assert (In y N) as HyN.
    { apply Hsub'. right. rewrite !addrs_app in Hy. apply in_app_or in Hy as [Hy|Hy];
        [apply in_or_app; by left|]. apply in_app_or in Hy as [Hy|Hy]; [done|].
      apply in_or_app. by right. }
    split; apply Hother; (done || lia).
  - apply Hl.
Qed.

(** Changing the ring of the free blocks. *)
Lemma links_free A m m' bs f1 X Y f2 p s :
  links A m bs (f1 ++ X ++ f2) ->
  p = List.last f1 (ar_head A) -> s = hd (ar_head A) f2 ->
  wsame (spliced o_next_free o_prev_free p Y s) m m' ->
  chain o_next_free o_prev_free m' (p :: Y ++ [s]) ->
  NoDup (ar_head A :: f1 ++ Y ++ f2) -> (forall x, In x Y -> In x (addrs bs)) ->
  links A m' bs (f1 ++ Y ++ f2).
Proof.
  intros Hl Hp Hs Hw Hch Hnd HY.
  set (N := ar_head A :: addrs bs).
  assert (Hsub : forall y, In y (ar_head A :: f1 ++ Y ++ f2) -> In y N).
  { intros y [<-|Hy]; [by left|right]. apply in_app_or in Hy as [Hy|Hy].
    - eapply li_sub; [done|]. apply in_or_app. by left.
    - apply in_app_or in Hy as [Hy|Hy]; [auto|]. eapply li_sub; [done|].
      apply in_or_app. right. apply in_or_app. by right. }
  assert (HpN : In p N).
  { apply Hsub. subst p. destruct (last_In (ar_head A) f1) as [<-|H]; [by left|].
    right. apply in_or_app. by left. }
  assert (HsN : In s N).
  { apply Hsub. subst s. destruct (hd_In (ar_head A) f2) as [<-|H]; [by left|].
    right. apply in_or_app; right. apply in_or_app. by right. }
  assert (HYN : forall y, In y Y -> In y N) by (intros y Hy; right; auto).
  pose proof (li_sep _ _ _ _ Hl) as Hsep. fold N in Hsep.
  assert (forall y f, In y N -> 0 <= f < 16 -> m' (y + f) = m (y + f)) as Hother.
  { intros y f Hy Hf. apply (wsame_field _ _ _ N _ _ Hw); try done; [lia|]. intros x Hx.
    destruct (spliced_nodes _ _ _ _ _ _ N Hx HpN HsN HYN) as (z & g & Hz & Hg & ->).
    exists z, g. split; [done|]. split; [lia|]. split; [done|]. lia. }
  destruct (NoDup_sub3 _ _ _ _ Hnd) as [Hnd' HnY].
  assert (forall y, In y (ar_head A :: f1 ++ f2) -> In y N) as Hsub'.
  { intros y [<-|Hy]; apply Hsub; [by left|right]. apply in_app_or in Hy as [Hy|Hy];
      [apply in_or_app; by left|apply in_or_app; right; apply in_or_app; by right]. }
  constructor; try apply Hl; try done.
  - apply ring_ext with m; [..|apply Hl]; intros y Hy; apply Hother; (done || lia).
  - apply (ring_splice _ _ m _ _ _ X _ _ p s); try done; [apply Hl|..].
    + intros y Hy Hyp. apply Hw. intros [(z & Hz & He)|(z & Hz & He)].
      * destruct Hz as [<-|Hz]; [lia|]. apply (HnY y Hy). replace y with z by lia. done.
      * assert (In z N) as HzN by (apply in_app_or in Hz as [?|[<-|[]]]; auto).
        pose proof (Hsep z y HzN (Hsub' y Hy)) as Hsz. unfold sep in Hsz. lia.
    + intros y Hy Hys. apply Hw. intros [(z & Hz & He)|(z & Hz & He)].
      * assert (In z N) as HzN by (destruct Hz as [<-|?]; auto).
        pose proof (Hsep z y HzN (Hsub' y Hy)) as Hsz. unfold sep in Hsz. lia.
      * apply in_app_or in Hz as [Hz|[<-|[]]]; [|lia].
        apply (HnY y Hy). replace y with z by lia. done.
  - rewrite Hother; [apply Hl|by left|lia].
  - pose proof (li_blocks _ _ _ _ Hl) as Hbl. eapply Forall_impl; [|intros c Hc; exact Hc].
    apply Forall_forall. intros c Hc. apply (proj1 (Forall_forall _ _) Hbl) in Hc as Hcb.
    assert (In (b_addr c) N) by (right; apply In_addrs; exists c; split; [by apply list_elem_of_In|done]).
    destruct Hcb. split; rewrite Hother; (done || lia).
  - intros x Hx. destruct (Hsub x (or_intror Hx)) as [E|?]; [|done].
    exfalso. subst x. apply NoDup_cons in Hnd as [Hnd _]. by apply Hnd, list_elem_of_In.
Qed.

Lemma spliced_nil on op p s x :
  spliced on op p [] s x <-> x = p + on \/ x = s + op.
Proof.
  split.
  - intros [(y & [<-|[]] & ->)|(y & [<-|[]] & ->)]; auto.
  - intros [->| ->]; [left; exists p|right; exists s]; split; simpl; auto.
Qed.

Lemma spliced_one on op p q s x :
  spliced on op p [q] s x <-> x = p + on \/ x = q + on \/ x = q + op \/ x = s + op.
Proof.
  split.
  - intros [(y & [<-|[<-|[]]] & ->)|(y & [<-|[<-|[]]] & ->)]; auto.
  - intros [->|[->|[->| ->]]];
      [left; exists p|left; exists q|right; exists q|right; exists s]; split; simpl; auto.
Qed.

(** The neighbours on the free ring. *)
Section Neighbours.
Context (A : arena) (m : words) (bs : list block) (f1 f2 : list Z).
Context (Hl : links A m bs (f1 ++ f2)).

Lemma free_last_In : In (List.last f1 (ar_head A)) (ar_head A :: f1 ++ f2).
Proof.
  destruct (last_In (ar_head A) f1) as [<-|H]; [by left|right]. apply in_or_app. by left.
Qed.

Lemma free_hd_In : In (hd (ar_head A) f2) (ar_head A :: f1 ++ f2).
Proof.
  destruct (hd_In (ar_head A) f2) as [<-|H]; [by left|right]. apply in_or_app. by right.
Qed.
End Neighbours.

Lemma unlink_ok A m bs f1 x f2 :
  links A m bs (f1 ++ x :: f2) ->
  links A (unlink_free m x) bs (f1 ++ f2) /\
  wsame (touched [] (ar_head A :: f1 ++ f2)) m (unlink_free m x).
Proof.
  intros Hl. destruct (ring_links _ _ _ _ _ _ _ (li_free _ _ _ _ Hl)) as [Hn Hp].
  set (s := hd (ar_head A) f2) in *. set (p := List.last f1 (ar_head A)) in *.
  pose proof (li_NoDup_free _ _ _ _ Hl) as Hnd.
  destruct (NoDup_sub3 _ f1 [x] f2 Hnd) as [Hnd' Hx].
  assert (In p (ar_head A :: f1 ++ f2)) as HpF by apply free_last_In.
  assert (In s (ar_head A :: f1 ++ f2)) as HsF by apply free_hd_In.
  assert (forall y, In y (ar_head A :: f1 ++ f2) -> In y (ar_head A :: addrs bs) /\ x <> y) as HF.
  { intros y Hy. split; [|intros <-; apply (Hx x Hy); by left].
    eapply free_node; [done|]. destruct Hy as [<-|Hy]; [by left|right].
    apply in_app_or in Hy as [Hy|Hy]; apply in_or_app; [by left|right; by right]. }
  pose proof (li_sep _ _ _ _ Hl) as Hsep. set (N := ar_head A :: addrs bs) in *.
  destruct (HF p HpF) as [HpN Hpx], (HF s HsF) as [HsN Hsx].
  assert (In x N) as HxN
    by (right; eapply li_sub; [done|apply in_or_app; right; by left]).
  unfold unlink_free. rewrite Hn, Hp. fields Hsep. rewrite Hn, Hp.
  assert (wsame (spliced o_next_free o_prev_free p [] s) m
    (st (st m (s + o_prev_free) p) (p + o_next_free) s)) as Hw
    by (repeat apply wsame_st; [done|rewrite spliced_nil; auto..]).
  split.
  - apply (links_free A m _ bs f1 [x] [] f2 p s); try done.
    simpl. fields Hsep. done.
  - repeat apply wsame_st; [done|apply touched_free; (done || lia)..].
Qed.

Lemma push_ok A m bs fl x :
  links A m bs fl -> In x (addrs bs) -> ~ In x fl ->
  links A (push_free m (ar_head A) x) bs (x :: fl) /\
  wsame (touched [] (ar_head A :: x :: fl)) m (push_free m (ar_head A) x).
Proof.
  intros Hl Hx Hxf. pose proof (ring_first _ _ _ _ _ (li_free _ _ _ _ Hl)) as Hs.
  pose proof (in_NoDup_head _ _ _ (li_NoDup _ _ _ _ Hl) Hx) as Hne.
  pose proof (li_NoDup_free _ _ _ _ Hl) as Hnd.
  set (h := ar_head A) in *. set (s := hd h fl) in *.
  assert (In s (h :: fl)) as HsF by apply hd_In.
  assert (s <> x) as Hsx by (intros E; destruct HsF as [?|?]; congruence).
  pose proof (free_node _ _ _ _ s Hl HsF) as HsN.
  pose proof (li_sep _ _ _ _ Hl) as Hsep. fold h in Hsep, HsN. set (N := h :: addrs bs) in *.
  assert (In x N) as HxN by (by right). assert (In h N) as HhN by (by left).
  unfold push_free. rewrite Hs. fields Hsep.
  split.
  - apply (links_free A m _ bs [] [] [x] fl h s); try done.
    + repeat apply wsame_st; [done|rewrite spliced_one; auto..].
    + simpl. fields Hsep. done.
    + simpl. fold h. apply NoDup_cons in Hnd as [H1 H2]. repeat constructor; [|by rewrite list_elem_of_In|done].
      intros [E|?]%elem_of_cons; congruence.
    + intros y [<-|[]]. done.
  - assert (In s (h :: x :: fl)) as Hs' by (destruct HsF; simpl; auto).
    repeat apply wsame_st; [done|apply touched_free; first [lia | done | simpl; auto]..].
Qed.

(** *** Operations on blocks *)

Lemma heap_rep_free_In A m bs fl x : heap_rep A m bs fl -> In x fl -> In x (addrs bs).
Proof.
  intros Hr Hx%list_elem_of_In. rewrite (hr_perm _ _ _ _ Hr) in Hx.
  apply list_elem_of_In, In_addrs in Hx as (b & [Hb _]%filter_In & <-). apply In_addrs. eauto.
Qed.

Lemma heap_rep_links A m bs fl : arena_ok A -> heap_rep A m bs fl -> links A m bs fl.
Proof.
  intros HA Hr. pose proof (nodes_NoDup A bs HA (hr_spaced _ _ _ _ Hr)) as Hnd.
  constructor; try apply Hr; try done.
  - apply node_sep; [done|apply Hr].
  - apply NoDup_cons in Hnd as [Hh Hnd]. constructor.
    + intros Hin%list_elem_of_In. apply Hh, list_elem_of_In. by eapply heap_rep_free_In.
    + rewrite (hr_perm _ _ _ _ Hr). unfold free_addrs, addrs in *.
      clear -Hnd. induction bs as [|b bs IH]; [constructor|]. simpl in *.
      apply NoDup_cons in Hnd as [Hb Hnd]. destruct (is_free b); [|auto].
      simpl. constructor; [|auto]. intros (c & [Hc _]%filter_In & He)%list_elem_of_In%In_addrs.
      apply Hb, list_elem_of_In, In_addrs. eauto.
  - intros x. by eapply heap_rep_free_In.
Qed.

Lemma links_rep A m bs fl :
  links A m bs fl -> fl ≡ₚ free_addrs bs -> spaced (ar_lo A) bs (ar_hi A) ->
  heap_rep A m bs fl.
Proof. intros Hl Hp Hs. constructor; try done; apply Hl. Qed.

(** What is known about a block of the heap. *)
Lemma heap_rep_block A m b1 b b2 fl :
  heap_rep A m (b1 ++ b :: b2) fl ->
  In (b_addr b) (addrs (b1 ++ b :: b2)) /\ block_ok b /\ block_at m (ar_heap A) b.
Proof.
  intros Hr. split; [|split].
  - apply In_addrs. exists b. split; [|done]. apply in_or_app. right. by left.
  - destruct (proj1 (spaced_app _ _ _ _ _) (hr_spaced _ _ _ _ Hr)) as (_ & H & _). exact H.
  - pose proof (hr_blocks _ _ _ _ Hr) as Hbl. by apply Forall_app in Hbl as [_ [? _]%Forall_cons].
Qed.

(** A free block is on the free chain, a used one is not. *)
Lemma heap_rep_free_iff A m b1 b b2 fl :
  arena_ok A -> heap_rep A m (b1 ++ b :: b2) fl -> (In (b_addr b) fl <-> is_free b = true).
Proof.
  intros HA Hr. pose proof (heap_rep_links _ _ _ _ HA Hr) as Hl.
  pose proof (li_NoDup _ _ _ _ Hl) as Hnd. rewrite addrs_app in Hnd.
  destruct (NoDup_sub3 _ (addrs b1) [b_addr b] (addrs b2) Hnd) as [_ Hn].
  rewrite <- list_elem_of_In, (hr_perm _ _ _ _ Hr), free_addrs_app, !elem_of_app.
  assert (forall bs, (b_addr b) ∈ free_addrs bs -> In (b_addr b) (addrs bs)) as Hsub.
  { intros bs (c & [Hc _]%filter_In & <-)%list_elem_of_In%In_addrs. apply In_addrs. eauto. }
  split.
  - intros [H|[H|H]].
    + exfalso. apply (Hn (b_addr b)); [right; apply in_or_app; auto|by left].
    + destruct (is_free b); [done|]. by apply elem_of_nil in H.
    + exfalso. apply (Hn (b_addr b)); [right; apply in_or_app; auto|by left].
  - intros ->. right. left. by apply list_elem_of_singleton.
Qed.

(** Writing the header of a block of the heap. *)
Lemma hdr_type_ok A m b1 b b2 fl type t :
  arena_ok A -> heap_rep A m (b1 ++ b :: b2) fl -> 0 <= type < 4 ->
  type = (match t with None => ARENA_TYPE_FREE | Some _ => ARENA_TYPE_USED end) ->
  let m1 := st (upd_attrs ARENA_TYPE_SET m (b_addr b) type) (b_addr b + o_tag)
              (default MALLOC_FREE t) in
  links A m1 (b1 ++ set_tag t b :: b2) fl /\ wsame (touched [b_addr b] []) m m1.
Proof.
  intros HA Hr Htype Ht m1. destruct (heap_rep_block _ _ _ _ _ _ Hr) as (Hin & Hok & Hat & _).
  pose proof (heap_rep_links _ _ _ _ HA Hr) as Hl. split.
  - apply (links_hdr A m m1 b1 b _ b2 fl Hl); [done| |].
    + subst m1. unfold upd_attrs. repeat apply wsame_st; auto. done.
    + subst m1. unfold upd_attrs, block_at. cbn [set_tag b_addr b_size is_free b_tag].
      rewrite st_ne, !st_eq, Hat by lia. split; [|done].
      rewrite type_set_mk; [subst type; by destruct t|apply HA|apply Hok|by destruct (is_free b)|done].
  - subst m1. unfold upd_attrs. repeat apply wsame_st; [done|apply touched_hdr; [by left|lia]..].
Qed.

Lemma release_rep A m b1 b b2 fl :
  arena_ok A -> heap_rep A m (b1 ++ b :: b2) fl -> is_free b = false ->
  heap_rep A (release m (ar_head A) (b_addr b)) (b1 ++ set_tag None b :: b2) (b_addr b :: fl) /\
  wsame (touched [b_addr b] (ar_head A :: b_addr b :: fl)) m (release m (ar_head A) (b_addr b)).
Proof.
  intros HA Hr Hb. destruct (heap_rep_block _ _ _ _ _ _ Hr) as (Hin & _).
  pose proof (heap_rep_free_iff _ _ _ _ _ _ HA Hr) as Hiff. unfold release.
  destruct (hdr_type_ok A m b1 b b2 _ ARENA_TYPE_FREE None HA Hr) as [Hl1 Hw1]; [done..|].
  destruct (push_ok A _ _ fl (b_addr b) Hl1) as [Hl2 Hw2].
  { by rewrite addrs_set_tag. }
  { by rewrite Hiff, Hb. }
  split.
  - apply links_rep; [done| |].
    + rewrite free_addrs_app. cbn [set_tag is_free b_tag b_addr].
      rewrite (hr_perm _ _ _ _ Hr), free_addrs_app, Hb. simpl. by rewrite Permutation_middle.
    + pose proof (hr_spaced _ _ _ _ Hr) as Hsp. apply spaced_app in Hsp. by apply spaced_app.
  - eapply wsame_trans; (eapply wsame_weaken; [|eassumption]).
    + intros x [H|(y & [] & _)]. by left.
    + intros x [(y & [] & _)|H]. by right.
Qed.

Lemma take_rep A m b1 b b2 f1 f2 tag :
  arena_ok A -> heap_rep A m (b1 ++ b :: b2) (f1 ++ b_addr b :: f2) -> is_free b = true ->
  heap_rep A (take_block m (b_addr b) tag) (b1 ++ set_tag (Some tag) b :: b2) (f1 ++ f2) /\
  wsame (touched [b_addr b] (ar_head A :: f1 ++ f2)) m (take_block m (b_addr b) tag).
Proof.
  intros HA Hr Hb. unfold take_block.
  destruct (hdr_type_ok A m b1 b b2 _ ARENA_TYPE_USED (Some tag) HA Hr) as [Hl1 Hw1]; [done..|].
  destruct (unlink_ok A _ _ _ _ _ Hl1) as [Hl2 Hw2]. split.
  - apply links_rep; [done| |].
    + pose proof (hr_perm _ _ _ _ Hr) as Hp. rewrite free_addrs_app, Hb in Hp.
      rewrite free_addrs_app. cbn [set_tag is_free b_tag b_addr]. simpl in Hp |- *.
      rewrite <- !Permutation_middle in Hp. by apply Permutation_cons_inv in Hp.
    + pose proof (hr_spaced _ _ _ _ Hr) as Hsp. apply spaced_app in Hsp. by apply spaced_app.
  - eapply wsame_trans; (eapply wsame_weaken; [|eassumption]).
    + intros x [H|(y & [] & _)]. by left.
    + intros x [(y & [] & _)|H]. by right.
Qed.

(** The two links that take a block out of the ring of all blocks. *)
Lemma absorb_ok A m b1 a b b2 fl :
  links A m (b1 ++ a :: b :: b2) fl -> ~ In (b_addr b) fl ->
  let n := m (b_addr b + o_next) in
  let m' := st (st m (b_addr a + o_next) n) (n + o_prev) (b_addr a) in
  links A m' (b1 ++ a :: b2) fl /\
  wsame (touched (ar_head A :: addrs (b1 ++ a :: b2)) []) m m'.
Proof.
  intros Hl Hbf n m'.
  pose proof (li_all _ _ _ _ Hl) as Hring.
  replace (addrs (b1 ++ a :: b :: b2)) with (addrs (b1 ++ [a]) ++ b_addr b :: addrs b2) in Hring
    by (rewrite !addrs_app; simpl; by rewrite <- app_assoc).
  destruct (ring_links _ _ _ _ _ _ _ Hring) as [Hn _]. fold n in Hn.
  pose proof (li_NoDup _ _ _ _ Hl) as Hnd. pose proof (li_sep _ _ _ _ Hl) as Hsep.
  assert (forall x, In x (ar_head A :: addrs (b1 ++ a :: b2)) ->
    In x (ar_head A :: addrs (b1 ++ a :: b :: b2))) as Hsub.
  { intros x [<-|Hx]; [by left|right]. rewrite addrs_app in *. simpl in *.
    apply in_app_or in Hx as [?|[?|?]]; apply in_or_app; simpl; auto. }
  assert (NoDup (ar_head A :: addrs (b1 ++ a :: b2))) as Hnd'.
  { rewrite addrs_app in Hnd |- *. simpl in *.
    pose proof (NoDup_sub3 (ar_head A) (addrs b1 ++ [b_addr a]) [b_addr b] (addrs b2)) as H3.
    rewrite <- !app_assoc in H3. by apply H3. }
  assert (In (b_addr a) (ar_head A :: addrs (b1 ++ a :: b2))) as Ha.
  { right. apply In_addrs. exists a. split; [|done]. apply in_or_app. right. by left. }
  assert (In n (ar_head A :: addrs (b1 ++ a :: b2))) as HnN.
  { rewrite Hn. destruct (hd_In (ar_head A) (addrs b2)) as [<-|H]; [by left|right].
    rewrite addrs_app. apply in_or_app. right. by right. }
  split.
  - replace (b1 ++ a :: b2) with ((b1 ++ [a]) ++ [] ++ b2) in * by (rewrite <- !app_assoc; done).
    apply (links_all A m m' (b1 ++ [a]) [b] [] b2 fl (b_addr a) n); try done.
    + by rewrite <- app_assoc.
    + rewrite addrs_app. symmetry. apply last_last.
    + repeat apply wsame_st; [done|rewrite spliced_nil; auto..].
    + subst m'. simpl. fields (fun x y Hx Hy => Hsep x y (Hsub x Hx) (Hsub y Hy)). done.
    + intros x y Hx Hy. apply Hsep; auto.
    + intros x Hx. pose proof (li_sub _ _ _ _ Hl x Hx) as Hin.
      assert (x <> b_addr b) by congruence.
      rewrite !addrs_app in *. simpl in *. apply in_app_or in Hin as [?|[?|[?|?]]];
        [..|congruence|]; apply in_or_app; [left; apply in_or_app; by left|left; apply in_or_app; right; by left|by right].
  - repeat apply wsame_st; [done|apply touched_hdr; (done || lia)..].
Qed.

(** A block followed by the one it absorbs. *)
Definition join (a b : block) : block := Block (b_addr a) (b_size a + b_size b) (b_tag a).

Lemma join_ok a b : block_ok a -> block_ok b -> block_ok (join a b).
Proof. unfold block_ok. simpl. intros. dlia. Qed.

Lemma spaced_join lo b1 a b b2 hi :
  spaced lo (b1 ++ a :: b :: b2) hi -> b_end a = b_addr b ->
  spaced lo (b1 ++ join a b :: b2) hi.
Proof.
  rewrite !spaced_app. simpl. intros (H1 & Ha & H2 & Hb & H3) Hab.
  split; [done|]. split; [by apply join_ok|].
  replace (b_end (join a b)) with (b_end b) by (unfold b_end, join in *; simpl; lia). done.
Qed.

(** Growing a block by the size of the next one. *)
Lemma grow_ok A m b1 a b b2 fl :
  arena_ok A -> heap_rep A m (b1 ++ a :: b :: b2) fl ->
  let m1 := upd_attrs ARENA_SIZE_SET m (b_addr a)
              (ARENA_SIZE_GET (m (b_addr a + o_attrs)) + ARENA_SIZE_GET (m (b_addr b + o_attrs))) in
  links A m1 (b1 ++ join a b :: b :: b2) fl /\ wsame (touched [b_addr a] []) m m1.
Proof.
  intros HA Hr m1. pose proof (heap_rep_links _ _ _ _ HA Hr) as Hl.
  destruct (heap_rep_block A m b1 a (b :: b2) fl Hr) as (_ & Hoka & Hata & Htaga).
  destruct (heap_rep_block A m (b1 ++ [a]) b b2 fl) as (_ & Hokb & Hatb & _);
    [by rewrite <- app_assoc|].
  destruct HA as [Hheap _ _ _]. unfold block_ok in Hoka, Hokb.
  split.
  - apply (links_hdr A m m1 b1 a _ (b :: b2) fl Hl); [done| |].
    + subst m1. apply wsame_st; auto. done.
    + subst m1. unfold upd_attrs, block_at. cbn [join b_addr b_size b_tag].
      rewrite st_eq, st_ne, Hata, Hatb by lia.
      rewrite !size_get_mk by (tauto || by destruct (is_free a), (is_free b)).
      rewrite size_set_mk; [done|tauto|tauto|dlia|by destruct (is_free a)].
  - subst m1. apply wsame_st; [done|]. apply touched_hdr; [by left|lia].
Qed.

Lemma free_addrs_two b1 a b b2 :
  free_addrs (b1 ++ a :: b :: b2) =
  free_addrs b1 ++ (if is_free a then [b_addr a] else []) ++
  (if is_free b then [b_addr b] else []) ++ free_addrs b2.
Proof.
  rewrite free_addrs_app. do 2 f_equal. unfold free_addrs. simpl. by destruct (is_free b).
Qed.

Lemma adjacent_sep A m b1 a b b2 fl :
  heap_rep A m (b1 ++ a :: b :: b2) fl -> b_addr a + 32 <= b_addr b.
Proof.
  intros Hr. destruct (proj1 (spaced_app _ _ _ _ _) (hr_spaced _ _ _ _ Hr)) as (_ & [Ha _] & H & _).
  unfold b_end in H. lia.
Qed.

Lemma nodes_join A b1 a b b2 x :
  In x (ar_head A :: addrs (b1 ++ join a b :: b2)) ->
  In x (ar_head A :: addrs (b1 ++ a :: b :: b2)).
Proof.
  intros [<-|Hx]; [by left|right]. rewrite addrs_app in *. simpl in *.
  apply in_app_or in Hx as [?|[?|?]]; apply in_or_app; simpl; auto.
Qed.

Lemma touched_mono N F N' F' x :
  (forall y, In y N -> In y N') -> (forall y, In y F -> In y F') ->
  touched N F x -> touched N' F' x.
Proof. intros HN HF [(y & Hy & H)|(y & Hy & H)]; [left|right]; exists y; auto. Qed.

Ltac touched_sub := eapply wsame_weaken; [|eassumption]; intros ?; apply touched_mono;
  let y := fresh "y" in intros y Hy; simpl in Hy |- *; try tauto.

Lemma join_prev_rep A m b1 a b b2 fl :
  arena_ok A -> heap_rep A m (b1 ++ a :: b :: b2) fl -> is_free b = false ->
  b_end a = b_addr b ->
  let m' := absorb_prev m (b_addr a) (b_addr b) (m (b_addr b + o_next)) in
  heap_rep A m' (b1 ++ join a b :: b2) fl /\
  wsame (touched (ar_head A :: addrs (b1 ++ a :: b :: b2)) []) m m'.
Proof.
  intros HA Hr Hb Hab m'. pose proof (adjacent_sep _ _ _ _ _ _ _ Hr) as Hs.
  destruct (grow_ok A m b1 a b b2 fl HA Hr) as [Hl1 Hw1].
  subst m'. unfold absorb_prev. set (m1 := upd_attrs _ m _ _) in *.
  replace (m (b_addr b + o_next)) with (m1 (b_addr b + o_next)).
  2: { subst m1. unfold upd_attrs. by rewrite st_ne by lia. }
  assert (~ In (b_addr b) fl) as Hbf.
  { pose proof (heap_rep_free_iff A m (b1 ++ [a]) b b2 fl HA) as Hi.
    rewrite <- app_assoc in Hi. rewrite Hi, Hb by done. done. }
  destruct (absorb_ok A m1 b1 (join a b) b b2 fl Hl1 Hbf) as [Hl2 Hw2]. split.
  - apply links_rep; [done| |].
    + rewrite (hr_perm _ _ _ _ Hr), free_addrs_two, free_addrs_app, Hb. done.
    + apply spaced_join; [apply Hr|done].
  - eapply wsame_trans.
    + touched_sub. destruct Hy as [<-|[]]. right. rewrite addrs_app. apply in_or_app. right. by left.
    + eapply wsame_weaken; [|exact Hw2]. intros x. apply touched_mono; [apply nodes_join|done].
Qed.

Lemma join_next_rep A m b1 a b b2 f1 f2 :
  arena_ok A -> heap_rep A m (b1 ++ a :: b :: b2) (f1 ++ b_addr b :: f2) -> is_free b = true ->
  b_end a = b_addr b ->
  let m' := absorb_next m (b_addr a) (b_addr b) in
  heap_rep A m' (b1 ++ join a b :: b2) (f1 ++ f2) /\
  wsame (touched (ar_head A :: addrs (b1 ++ a :: b :: b2)) (ar_head A :: f1 ++ f2)) m m'.
Proof.
  intros HA Hr Hb Hab m'. pose proof (adjacent_sep _ _ _ _ _ _ _ Hr) as Hs.
  destruct (grow_ok A m b1 a b b2 _ HA Hr) as [Hl1 Hw1].
  subst m'. unfold absorb_next. set (m1 := upd_attrs _ m _ _) in *.
  destruct (unlink_ok A m1 _ f1 (b_addr b) f2 Hl1) as [Hl2 Hw2].
  set (m2 := unlink_free m1 (b_addr b)) in *.
  rewrite (st_ne m2 (b_addr a + o_next) (m2 (b_addr b + o_next)) (b_addr b + o_next)) by lia.
  assert (~ In (b_addr b) (f1 ++ f2)) as Hbf.
  { intros Hin. destruct (NoDup_sub3 _ f1 [b_addr b] f2 (li_NoDup_free _ _ _ _ Hl1)) as [_ Hn].
    apply (Hn (b_addr b)); [by right|by left]. }
  destruct (absorb_ok A m2 b1 (join a b) b b2 _ Hl2 Hbf) as [Hl3 Hw3]. split.
  - apply links_rep; [done| |].
    + pose proof (hr_perm _ _ _ _ Hr) as Hp. rewrite free_addrs_two, Hb in Hp.
      rewrite free_addrs_app. replace (is_free (join a b)) with (is_free a) by done.
      simpl in Hp |- *. rewrite app_assoc in Hp.
      rewrite <- !Permutation_middle in Hp. apply Permutation_cons_inv in Hp.
      by rewrite Hp, <- app_assoc.
    + apply spaced_join; [apply Hr|done].
  - eapply wsame_trans; [eapply wsame_trans|].
    + touched_sub. destruct Hy as [<-|[]]. right. rewrite addrs_app. apply in_or_app. right. by left.
    + touched_sub.
    + eapply wsame_weaken; [|exact Hw3]. intros x. apply touched_mono; [apply nodes_join|done].
Qed.

(** ** The abstract allocator

    The effect of freeing the used block [b] that lies between the blocks [b1]
    and [b2]: the blocks, the free chain and the block that now contains [b]. *)

Definition joinable (a b : block) : Prop := is_free a = true /\ b_end a = b_addr b.

#[export] Instance joinable_dec a b : Decision (joinable a b) := _.

Definition drop_addr (x : Z) (fl : list Z) : list Z := List.filter (fun y => negb (y =? x)) fl.

Definition free_prev (b1 : list block) (b : block) (fl : list Z) :
    list block * block * list Z :=
  match last b1 with
  | Some a => if decide (joinable a b) then (removelast b1, join a b, fl)
              else (b1, set_tag None b, b_addr b :: fl)
  | None => (b1, set_tag None b, b_addr b :: fl)
  end.

Definition free_next (b : block) (b2 : list block) (fl : list Z) :
    block * list block * list Z :=
  match b2 with
  | c :: b2' => if decide (is_free c = true /\ b_end b = b_addr c)
                then (join b c, b2', drop_addr (b_addr c) fl) else (b, b2, fl)
  | [] => (b, b2, fl)
  end.

Definition a_free (b1 : list block) (b : block) (b2 : list block) (fl : list Z) :
    list block * list Z * Z :=
  let '(b1, b, fl) := free_prev b1 b fl in
  let '(b, b2, fl) := free_next b b2 fl in
  (b1 ++ b :: b2, fl, b_addr b).

(** *** free_block *)

Section FreeBlock.
Context (malloc_head : Z) (A : arena) (HA : arena_ok A).
Context (Hhead : ar_head A = head_of malloc_head (ar_heap A)).

(** The block before or after [b] on the ring, if it is not the head. *)
Lemma type_at_head m bs fl :
  heap_rep A m bs fl -> ARENA_TYPE_GET (m (ar_head A + o_attrs)) <> ARENA_TYPE_FREE.
Proof. intros Hr. rewrite (hr_head _ _ _ _ Hr), type_get_mk; [done|apply HA|done|done]. Qed.

Lemma type_at_block m b :
  block_at m (ar_heap A) b -> block_ok b ->
  (ARENA_TYPE_GET (m (b_addr b + o_attrs)) = ARENA_TYPE_FREE <-> is_free b = true) /\
  ARENA_SIZE_GET (m (b_addr b + o_attrs)) = b_size b /\
  ARENA_HEAP_GET (m (b_addr b + o_attrs)) = ar_heap A.
Proof.
  intros [Hat _] Hok. rewrite Hat. unfold block_ok in Hok.
  rewrite type_get_mk, size_get_mk, heap_get_mk;
    first [apply HA | solve [destruct (is_free b); done] | tauto].
Qed.

Lemma ring_around m b1 b b2 fl :
  heap_rep A m (b1 ++ b :: b2) fl ->
  m (b_addr b + o_next) = hd (ar_head A) (addrs b2) /\
  m (b_addr b + o_prev) = List.last (addrs b1) (ar_head A).
Proof.
  intros Hr. pose proof (hr_all _ _ _ _ Hr) as H. rewrite addrs_app in H. simpl in H.
  by apply ring_links in H.
Qed.

(** The first half: into the previous block, or onto the free chain. *)
Lemma free_prev_rep m b1 b b2 fl b1' b' fl' :
  heap_rep A m (b1 ++ b :: b2) fl -> is_free b = false -> free_prev b1 b fl = (b1', b', fl') ->
  let pah := m (b_addr b + o_prev) in
  let '(m', ah) :=
    if decide (joins m pah (b_addr b) pah)
    then (absorb_prev m pah (b_addr b) (m (b_addr b + o_next)), pah)
    else (release m (ar_head A) (b_addr b), b_addr b) in
  heap_rep A m' (b1' ++ b' :: b2) fl' /\ ah = b_addr b' /\ is_free b' = true /\
  wsame (touched (ar_head A :: addrs (b1 ++ b :: b2)) (ar_head A :: b_addr b :: fl)) m m'.
Proof.
  intros Hr Hb Hf pah. destruct (ring_around _ _ _ _ _ Hr) as [_ Hp]. fold pah in Hp.
  assert (heap_rep A (release m (ar_head A) (b_addr b)) (b1 ++ set_tag None b :: b2) (b_addr b :: fl) /\
    wsame (touched (ar_head A :: addrs (b1 ++ b :: b2)) (ar_head A :: b_addr b :: fl)) m
      (release m (ar_head A) (b_addr b))) as [Hrel Hrelw].
  { destruct (release_rep A m b1 b b2 fl HA Hr Hb) as [H1 H2]. split; [done|].
    touched_sub. destruct Hy as [<-|[]]. right. rewrite addrs_app. apply in_or_app. right. by left. }
  unfold free_prev in Hf. destruct b1 as [|a0 b1 _] using rev_ind.
  - simpl in Hf. injection Hf as <- <- <-. rewrite decide_False; [done|].
    intros [H _]. rewrite Hp in H. by apply (type_at_head m _ _ Hr) in H.
  - rewrite last_snoc, removelast_last in Hf.
    rewrite addrs_app in Hp. change (addrs [a0]) with [b_addr a0] in Hp. rewrite last_last in Hp.
    rewrite <- app_assoc in Hr. simpl in Hr.
    destruct (heap_rep_block _ _ _ _ _ _ Hr) as (_ & Hok & Hat).
    destruct (type_at_block _ _ Hat Hok) as (Ht & Hsz & _).
    rewrite <- Hp in Ht, Hsz. unfold joins. 
    destruct (decide (joinable a0 b)) as [[Hj1 Hj2]|Hj].
    + injection Hf as <- <- <-. rewrite decide_True.
      2: { split; [by apply Ht|]. rewrite Hsz, Hp. done. }
      destruct (join_prev_rep A m b1 a0 b b2 fl HA Hr Hb Hj2) as [H1 H2].
      rewrite Hp. split; [done|]. split; [done|]. split; [done|].
      rewrite <- app_assoc. touched_sub. 
    + injection Hf as <- <- <-. rewrite decide_False; [done|]. 
      intros [H1 H2]. apply Hj. split; [by apply Ht|]. unfold b_end. by rewrite <- Hsz, <- Hp.
Qed.

Lemma drop_addr_split x f1 f2 :
  ~ In x (f1 ++ f2) -> drop_addr x (f1 ++ x :: f2) = f1 ++ f2.
Proof.
  intros Hn. unfold drop_addr. rewrite List.filter_app. simpl. rewrite Z.eqb_refl. simpl.
  rewrite <- List.filter_app. apply forallb_filter_id, forallb_forall.
  intros y Hy. apply negb_true_iff, Z.eqb_neq. by intros ->.
Qed.

(** The second half. *)
Lemma free_next_rep m b1 b b2 fl b' b2' fl' :
  heap_rep A m (b1 ++ b :: b2) fl -> is_free b = true -> free_next b b2 fl = (b', b2', fl') ->
  m (b_addr b + o_next) = hd (ar_head A) (addrs b2) /\
  let nah := hd (ar_head A) (addrs b2) in
  let m' := if decide (joins m (b_addr b) nah nah) then absorb_next m (b_addr b) nah else m in
  heap_rep A m' (b1 ++ b' :: b2') fl' /\ b_addr b' = b_addr b /\ is_free b' = true /\
  wsame (touched (ar_head A :: addrs (b1 ++ b :: b2)) (ar_head A :: fl)) m m'.
Proof.
  intros Hr Hb Hf. destruct (ring_around _ _ _ _ _ Hr) as [Hn _]. split; [done|].
  intros nah. destruct (heap_rep_block _ _ _ _ _ _ Hr) as (_ & Hokb & Hatb).
  destruct (type_at_block _ _ Hatb Hokb) as (_ & Hszb & _).
  destruct b2 as [|c b2]; simpl in Hf.
  - injection Hf as <- <- <-. rewrite decide_False; [done|].
    intros [H _]. by apply (type_at_head m _ _ Hr) in H.
  - assert (heap_rep A m ((b1 ++ [b]) ++ c :: b2) fl) as Hr' by (by rewrite <- app_assoc).
    destruct (heap_rep_block _ _ _ _ _ _ Hr') as (_ & Hok & Hat).
    destruct (type_at_block _ _ Hat Hok) as (Ht & _).
    unfold joins. simpl in nah. subst nah. cbv zeta.
    destruct (decide (is_free c = true /\ b_end b = b_addr c)) as [[Hj1 Hj2]|Hj].
    + injection Hf as <- <- <-. rewrite decide_True.
      2: { split; [by apply Ht|]. rewrite Hszb. done. }
      pose proof (proj2 (heap_rep_free_iff A m _ c b2 fl HA Hr') Hj1) as Hin.
      apply in_split in Hin as (f1 & f2 & ->).
      destruct (join_next_rep A m b1 b c b2 f1 f2 HA Hr Hj1 Hj2) as [H1 H2].
      destruct (NoDup_sub3 _ f1 [b_addr c] f2 (li_NoDup_free _ _ _ _ (heap_rep_links _ _ _ _ HA Hr))) as [_ Hno].
      rewrite drop_addr_split by (intros Hi; apply (Hno (b_addr c)); [by right|by left]).
      split; [done|]. split; [done|]. split; [done|].
      touched_sub. destruct Hy as [?|Hy]; [by left|right].
      apply in_app_or in Hy as [?|?]; apply in_or_app; simpl; auto.
    + injection Hf as <- <- <-. rewrite decide_False; [done|].
      intros [H1 H2]. apply Hj. split; [by apply Ht|]. unfold b_end. by rewrite <- Hszb.
Qed.

Lemma free_block_rep m b1 b b2 fl bs' fl' ah :
  heap_rep A m (b1 ++ b :: b2) fl -> is_free b = false -> a_free b1 b b2 fl = (bs', fl', ah) ->
  exists m', free_block malloc_head m (b_addr b) = (m', ah) /\ heap_rep A m' bs' fl' /\
  wsame (touched (ar_head A :: addrs (b1 ++ b :: b2)) (ar_head A :: b_addr b :: fl)) m m'.
Proof.
  intros Hr Hb Ha. unfold a_free in Ha.
  destruct (free_prev b1 b fl) as [[b1' b'] fl1] eqn:Hp.
  destruct (free_next b' b2 fl1) as [[b'' b2'] fl2] eqn:Hn. injection Ha as <- <- <-.
  pose proof (free_prev_rep _ _ _ _ _ _ _ _ Hr Hb Hp) as Hprev.
  destruct (ring_around _ _ _ _ _ Hr) as [Hnext _].
  destruct (heap_rep_block _ _ _ _ _ _ Hr) as (_ & Hokb & Hatb).
  destruct (type_at_block _ _ Hatb Hokb) as (_ & _ & Hhp).
  unfold free_block. rewrite Hhp, <- Hhead. simpl in Hprev.
  destruct (if decide _ then _ else _) as [m1 ah1]. destruct Hprev as (Hr1 & -> & Hb' & Hw1).
  destruct (free_next_rep _ _ _ _ _ _ _ _ Hr1 Hb' Hn) as [Hnext1 Hnext2]. simpl in Hnext2.
  rewrite Hnext. destruct Hnext2 as (Hr2 & Had & _ & Hw2). rewrite Had.
  exists (if decide (joins m1 (b_addr b') (hd (ar_head A) (addrs b2)) (hd (ar_head A) (addrs b2)))
     then absorb_next m1 (b_addr b') (hd (ar_head A) (addrs b2)) else m1).
  split; [by case_decide|]. split; [done|].
  eapply wsame_trans; [exact Hw1|]. eapply wsame_weaken; [|exact Hw2].
  intros x. apply touched_mono; intros y [<-|Hy]; try (by left).
  - right. unfold free_prev in Hp. destruct b1 as [|a0 b1 _] using rev_ind; simpl in Hp.
    + injection Hp as <- <- <-. done.
    + rewrite last_snoc, removelast_last in Hp.
      destruct (decide (joinable a0 b)); injection Hp as <- <- <-.
      * rewrite !addrs_app in *. simpl in *. rewrite <- app_assoc.
        apply in_app_or in Hy as [?|[?|?]]; apply in_or_app; simpl; auto.
      * by rewrite addrs_set_tag in Hy.
  - right. unfold free_prev in Hp. destruct (last b1) as [a0|]; [|injection Hp as <- <- <-; done].
    destruct (decide (joinable a0 b)); injection Hp as <- <- <-; [by right|done].
Qed.
End FreeBlock.

(** ** Allocation *)

(** The words of a region outside all structures may change. *)
Lemma links_frame A m m' bs fl q :
  links A m bs fl -> (forall x, In x (ar_head A :: addrs bs) -> x + 24 <= q \/ q + 24 <= x) ->
  wsame (fun x => q <= x < q + 24) m m' -> links A m' bs fl.
Proof.
  intros Hl Hq Hw.
  assert (forall x f, In x (ar_head A :: addrs bs) -> 0 <= f < 24 -> m' (x + f) = m (x + f)) as Hs.
  { intros x f Hx Hf. apply Hw. pose proof (Hq x Hx). lia. }
  constructor; try apply Hl.
  - apply ring_ext with m; [..|apply Hl]; intros y Hy; apply Hs; (done || lia).
  - apply ring_ext with m; [..|apply Hl]; intros y Hy; (apply Hs; [|lia]); by eapply free_node.
  - rewrite Hs; [apply Hl|by left|lia].
  - pose proof (li_blocks _ _ _ _ Hl) as Hbl. apply Forall_forall. intros c Hc.
    destruct (proj1 (Forall_forall _ _) Hbl c Hc) as [H1 H2].
    assert (In (b_addr c) (ar_head A :: addrs bs))
      by (right; apply In_addrs; exists c; split; [by apply list_elem_of_In|done]).
    split; rewrite Hs; (done || lia).
Qed.

(** The two blocks that replace [b] when [size] bytes of it are allocated. *)
Definition front (b : block) (size tag : Z) : block := Block (b_addr b) size (Some tag).
Definition rest (b : block) (size : Z) : block := Block (b_addr b + size) (b_size b - size) None.

Lemma spaced_split lo b1 b b2 hi size tag :
  spaced lo (b1 ++ b :: b2) hi -> 32 <= size -> size mod 16 = 0 -> size + 32 <= b_size b ->
  spaced lo (b1 ++ front b size tag :: rest b size :: b2) hi.
Proof.
  rewrite !spaced_app. unfold block_ok, b_end. simpl. intros (H1 & (H2 & H3 & H4) & H5) Hs Hm Hle.
  unfold block_ok, b_end. simpl. split_and!; try done; try lia; [dlia..|].
  by replace (b_addr b + size + (b_size b - size)) with (b_addr b + b_size b) by lia.
Qed.

Lemma split_headers_ok A m b1 b b2 fl size tag :
  arena_ok A -> heap_rep A m (b1 ++ b :: b2) fl -> is_free b = true ->
  32 <= size -> size mod 16 = 0 -> size + 32 <= b_size b ->
  let m' := split_headers m (b_addr b) (b_addr b + size) size tag in
  links A m' (b1 ++ front b size tag :: b2) fl /\ block_at m' (ar_heap A) (rest b size) /\
  wsame (touched [b_addr b; b_addr b + size] []) m m'.
Proof.
  intros HA Hr Hb Hs Hm Hle m'.
  destruct (heap_rep_block _ _ _ _ _ _ Hr) as (Hin & Hok & Hat).
  destruct (type_at_block A HA m b Hat Hok) as (_ & Hsz & Hhp). destruct Hat as [Hat _].
  pose proof (heap_rep_links _ _ _ _ HA Hr) as Hl.
  subst m'. unfold split_headers. rewrite Hsz, Hhp. set (nfp := b_addr b + size).
  pose proof Hok as (_ & Hmod & _).
  set (m1 := st (upd_attrs ARENA_SIZE_SET _ nfp _) _ _).
  assert (wsame (fun x => nfp <= x < nfp + 24) m m1) as Hw1.
  { subst m1. unfold upd_attrs. repeat apply wsame_st; try lia. done. }
  assert (m1 (nfp + o_attrs) = mk_attrs (b_size b - size) (ar_heap A) ARENA_TYPE_FREE) as Ha1.
  { subst m1. unfold upd_attrs. rewrite st_ne, !st_eq by lia. apply set_all_mk; [apply HA|dlia|done]. }
  assert (m1 (nfp + o_tag) = MALLOC_FREE) as Ht1 by (subst m1; by rewrite st_eq).
  assert (links A m1 (b1 ++ b :: b2) fl) as Hl1.
  { apply (links_frame A m m1 _ _ nfp Hl); [|done]. intros x Hx.
    pose proof (spaced_split _ b1 b b2 _ size tag (hr_spaced _ _ _ _ Hr) Hs Hm Hle) as Hsp.
    assert (x <> nfp) as Hne.
    { pose proof (nodes_NoDup A _ HA Hsp) as Hnd.
      replace (b1 ++ front b size tag :: rest b size :: b2)
        with ((b1 ++ [front b size tag]) ++ [rest b size] ++ b2) in Hnd by (by rewrite <- app_assoc).
      rewrite !addrs_app in Hnd. apply NoDup_sub3 in Hnd as [_ Hnd].
      intros ->. apply (Hnd nfp); [|by left].
      destruct Hx as [<-|Hx]; [by left|right]. rewrite addrs_app in Hx. simpl in *.
      rewrite <- app_assoc. done. }
    assert (sep x nfp) as Hsep.
    { apply (node_sep A _ HA Hsp).
      - destruct Hx as [<-|Hx]; [by left|right]. rewrite addrs_app in *. simpl in *.
        apply in_app_or in Hx as [?|[?|?]]; apply in_or_app; simpl; auto.
      - right. rewrite addrs_app. apply in_or_app. right. right. by left. }
    unfold sep in Hsep. lia. }
  assert (m1 (b_addr b + o_attrs) = m (b_addr b + o_attrs)) as Hb1 by (apply Hw1; lia).
  assert (wsame (touched [b_addr b; nfp] []) m m1) as Ht01.
  { subst m1. unfold upd_attrs. repeat apply wsame_st; [done|apply touched_hdr; [simpl; tauto|lia]..]. }
  clearbody m1. set (m2 := st (upd_attrs ARENA_SIZE_SET _ (b_addr b) _) _ _).
  assert (wsame (fun x => x = b_addr b + o_attrs \/ x = b_addr b + o_tag) m1 m2) as Hw2.
  { subst m2. unfold upd_attrs. repeat apply wsame_st; auto. done. }
  split; [|split].
  - apply (links_hdr A m1 m2 b1 b _ b2 fl Hl1); [done|done|].
    unfold block_at. cbn [front b_addr b_size is_free b_tag]. subst m2. unfold upd_attrs.
    rewrite st_ne, !st_eq, Hb1, Hat, Hb by lia. split; [|done].
    rewrite type_set_mk; [apply size_set_mk; (apply HA || done)|apply HA|done..].
  - unfold block_at. cbn [rest b_addr b_size is_free b_tag]. fold nfp.
    rewrite !(Hw2 (nfp + _)) by lia. done.
  - eapply wsame_trans; [exact Ht01|]. subst m2. unfold upd_attrs.
    repeat apply wsame_st; [done|apply touched_hdr; [by left|lia]..].
Qed.

(** Inserting a block into the ring of all blocks. *)
Lemma insert_ok A m m' b1 r b2 fl p s :
  links A m (b1 ++ b2) fl -> spaced (ar_lo A) (b1 ++ r :: b2) (ar_hi A) -> arena_ok A ->
  p = List.last (addrs b1) (ar_head A) -> s = hd (ar_head A) (addrs b2) ->
  wsame (spliced o_next o_prev p [b_addr r] s) m m' ->
  chain o_next o_prev m' [p; b_addr r; s] -> block_at m (ar_heap A) r ->
  links A m' (b1 ++ r :: b2) fl /\
  wsame (touched (ar_head A :: addrs (b1 ++ r :: b2)) []) m m'.
Proof.
  intros Hl Hsp HA Hp Hs Hw Hch Hat.
  pose proof (node_sep A _ HA Hsp) as Hsep. pose proof (nodes_NoDup A _ HA Hsp) as Hnd.
  set (N := ar_head A :: addrs (b1 ++ r :: b2)) in *.
  assert (HpN : In p N).
  { subst p. destruct (last_In (ar_head A) (addrs b1)) as [<-|H]; [by left|].
    right. rewrite addrs_app. apply in_or_app. by left. }
  assert (HsN : In s N).
  { subst s. destruct (hd_In (ar_head A) (addrs b2)) as [<-|H]; [by left|].
    right. rewrite !addrs_app. apply in_or_app; right. by right. }
  assert (HrN : In (b_addr r) N) by (right; rewrite addrs_app; apply in_or_app; right; by left).
  split.
  - apply (links_all A m m' b1 [] [r] b2 fl p s); try done.
    + apply Forall_singleton. destruct Hat as [H1 H2].
      split; [rewrite <- H1|rewrite <- H2]; apply (wsame_field _ _ _ N _ _ Hw); try done; try lia.
      all: intros x Hx; destruct (spliced_nodes _ _ _ _ _ _ N Hx HpN HsN) as (z & g & Hz & Hg & ->);
        [by intros y [<-|[]]|]; exists z, g; split_and!; (done || lia).
    + intros x Hx. apply (li_sub _ _ _ _ Hl) in Hx. rewrite addrs_app in *.
      apply in_app_or in Hx as [?|?]; apply in_or_app; [by left|right; by right].
  - eapply wsame_weaken; [|exact Hw].
    intros x [->|[->|[->| ->]]]%spliced_one; apply touched_hdr; (done || lia).
Qed.

Lemma split_insert_ok A m b1 f r b2 fl :
  links A m (b1 ++ f :: b2) fl -> spaced (ar_lo A) (b1 ++ f :: r :: b2) (ar_hi A) ->
  arena_ok A -> block_at m (ar_heap A) r ->
  let m' := split_insert m (b_addr f) (b_addr r) (hd (ar_head A) (addrs b2)) in
  links A m' (b1 ++ f :: r :: b2) fl /\
  wsame (touched (ar_head A :: addrs (b1 ++ f :: r :: b2)) []) m m'.
Proof.
  intros Hl Hsp HA Hat m'.
  replace (b1 ++ f :: r :: b2) with ((b1 ++ [f]) ++ r :: b2) in * by (by rewrite <- app_assoc).
  pose proof (node_sep A _ HA Hsp) as Hsep. pose proof (nodes_NoDup A _ HA Hsp) as Hnd.
  set (s := hd (ar_head A) (addrs b2)) in *.
  rewrite !addrs_app in Hsep, Hnd. 
  destruct (NoDup_sub3 _ _ [b_addr r] _ Hnd) as [_ Hr].
  set (N := ar_head A :: _) in Hsep.
  assert (HsN' : In s (ar_head A :: (addrs b1 ++ addrs [f]) ++ addrs b2)).
  { subst s. destruct (hd_In (ar_head A) (addrs b2)) as [<-|H]; [by left|].
    right. apply in_or_app. by right. }
  assert (HfN' : In (b_addr f) (ar_head A :: (addrs b1 ++ addrs [f]) ++ addrs b2)).
  { right. apply in_or_app. left. apply in_or_app. right. by left. }
  assert (Hsub : forall x, In x (ar_head A :: (addrs b1 ++ addrs [f]) ++ addrs b2) -> In x N /\ b_addr r <> x).
  { intros x Hx. split; [|intros <-; apply (Hr _ Hx); by left].
    destruct Hx as [<-|Hx]; [by left|right]. apply in_app_or in Hx as [?|?]; apply in_or_app;
      [by left|right; by right]. }
  destruct (Hsub _ HsN') as [HsN Hrs], (Hsub _ HfN') as [HfN Hrf].
  assert (HrN : In (b_addr r) N) by (right; apply in_or_app; right; by left).
  apply (insert_ok A m m' _ r b2 fl (b_addr f) s); try done.
  - by rewrite <- app_assoc.
  - rewrite addrs_app. symmetry. apply last_last.
  - repeat apply wsame_st; [done|rewrite spliced_one; auto..].
  - subst m'. unfold split_insert. simpl. fields Hsep. done.
Qed.

Lemma replace_free_ok A m bs f1 x y f2 :
  links A m bs (f1 ++ x :: f2) -> In y (addrs bs) -> ~ In y (f1 ++ x :: f2) ->
  links A (replace_free m x y) bs (f1 ++ y :: f2) /\
  wsame (touched [] (y :: ar_head A :: f1 ++ f2)) m (replace_free m x y).
Proof.
  intros Hl Hy Hyf. destruct (ring_links _ _ _ _ _ _ _ (li_free _ _ _ _ Hl)) as [Hn Hp].
  set (s := hd (ar_head A) f2) in *. set (p := List.last f1 (ar_head A)) in *.
  pose proof (li_NoDup_free _ _ _ _ Hl) as Hnd.
  destruct (NoDup_sub3 _ f1 [x] f2 Hnd) as [Hnd' Hx].
  assert (In p (ar_head A :: f1 ++ f2)) as HpF by apply free_last_In.
  assert (In s (ar_head A :: f1 ++ f2)) as HsF by apply free_hd_In.
  pose proof (in_NoDup_head _ _ _ (li_NoDup _ _ _ _ Hl) Hy) as Hyh.
  assert (forall z, In z (ar_head A :: f1 ++ f2) -> In z (ar_head A :: addrs bs) /\ x <> z /\ y <> z) as HF.
  { intros z Hz. split; [|split; [intros <-; apply (Hx x Hz); by left|]].
    - eapply free_node; [done|]. destruct Hz as [<-|Hz]; [by left|right].
      apply in_app_or in Hz as [Hz|Hz]; apply in_or_app; [by left|right; by right].
    - intros <-. destruct Hz as [?|Hz]; [done|]. apply Hyf.
      apply in_app_or in Hz as [Hz|Hz]; apply in_or_app; [by left|right; by right]. }
  pose proof (li_sep _ _ _ _ Hl) as Hsep. set (N := ar_head A :: addrs bs) in *.
  destruct (HF p HpF) as (HpN & Hpx & Hpy), (HF s HsF) as (HsN & Hsx & Hsy).
  assert (In x N) as HxN
    by (right; eapply li_sub; [done|apply in_or_app; right; by left]).
  assert (In y N) as HyN by (by right).
  assert (y <> x) as Hyx by (intros ->; apply Hyf, in_or_app; right; by left).
  unfold replace_free. fields Hsep. rewrite Hn, Hp. fields Hsep. rewrite ?Hn, ?Hp.
  fields Hsep. rewrite ?Hn, ?Hp.
  split.
  - apply (links_free A m _ bs f1 [x] [y] f2 p s); try done.
    + repeat apply wsame_st; [done|rewrite spliced_one; auto..].
    + simpl. fields Hsep. done.
    + rewrite app_comm_cons in Hnd' |- *. apply NoDup_app in Hnd' as (N1 & N2 & N3).
      apply NoDup_app. split; [done|]. split.
      * intros z Hz [->|Hz']%elem_of_cons; [|by apply (N2 z)].
        apply list_elem_of_In in Hz. destruct Hz as [?|Hz]; [congruence|].
        apply Hyf, in_or_app. by left.
      * constructor; [|done]. intros Hz%list_elem_of_In. apply Hyf, in_or_app. right. by right.
    + intros z [<-|[]]. done.
  - repeat apply wsame_st; [done|apply touched_free; first [lia | done | by left | by right]..].
Qed.

Lemma split_rep A m b1 b b2 f1 f2 size tag :
  arena_ok A -> heap_rep A m (b1 ++ b :: b2) (f1 ++ b_addr b :: f2) -> is_free b = true ->
  32 <= size -> size mod 16 = 0 -> size + 32 <= b_size b ->
  let m' := split_block m (b_addr b) size tag in
  heap_rep A m' (b1 ++ front b size tag :: rest b size :: b2)
    (f1 ++ b_addr b + size :: f2) /\
  wsame (touched (ar_head A :: addrs (b1 ++ front b size tag :: rest b size :: b2))
          (b_addr b + size :: ar_head A :: f1 ++ f2)) m m'.
Proof.
  intros HA Hr Hb Hs Hm Hle m'.
  pose proof (spaced_split _ b1 b b2 _ size tag (hr_spaced _ _ _ _ Hr) Hs Hm Hle) as Hsp.
  destruct (ring_around A m b1 b b2 _ Hr) as [Hnext _].
  destruct (split_headers_ok A m b1 b b2 _ size tag HA Hr Hb Hs Hm Hle) as (Hl1 & Hat1 & Hw1).
  subst m'. unfold split_block. rewrite Hnext. set (m1 := split_headers _ _ _ _ _) in *.
  destruct (split_insert_ok A m1 b1 _ (rest b size) b2 _ Hl1 Hsp HA Hat1) as [Hl2 Hw2].
  cbn [front rest b_addr] in Hl2, Hw2. set (m2 := split_insert _ _ _ _) in *.
  assert (~ In (b_addr b + size) (f1 ++ b_addr b :: f2)) as Hnf.
  { intros Hin. pose proof (li_sub _ _ _ _ Hl1 _ Hin) as Hin1.
    pose proof (nodes_NoDup A _ HA Hsp) as Hnd.
    replace (b1 ++ front b size tag :: rest b size :: b2)
      with ((b1 ++ [front b size tag]) ++ [rest b size] ++ b2) in Hnd by (by rewrite <- app_assoc).
    rewrite !addrs_app in Hnd. apply NoDup_sub3 in Hnd as [_ Hnd].
    apply (Hnd (b_addr b + size)); [|by left]. right.
    rewrite addrs_app in Hin1. rewrite <- app_assoc. done. }
  destruct (replace_free_ok A m2 _ f1 (b_addr b) (b_addr b + size) f2 Hl2) as [Hl3 Hw3]; [|done|].
  { rewrite addrs_app. apply in_or_app. right. right. by left. }
  split.
  - apply links_rep; [done| |done].
    pose proof (hr_perm _ _ _ _ Hr) as Hp. rewrite free_addrs_app, Hb in Hp.
    rewrite free_addrs_two. cbn [front rest is_free b_tag b_addr]. simpl in Hp |- *.
    rewrite <- !Permutation_middle in Hp. apply Permutation_cons_inv in Hp.
    by rewrite <- !Permutation_middle, Hp.
  - eapply wsame_trans; [eapply wsame_trans|].
    + eapply wsame_weaken; [|exact Hw1]. intros x. apply touched_mono; [|by intros y []].
      intros y [<-|[<-|[]]]; right; rewrite addrs_app; apply in_or_app; right; simpl; auto.
    + eapply wsame_weaken; [|exact Hw2]. intros x. apply touched_mono; [done|by intros y []].
    + eapply wsame_weaken; [|exact Hw3]. intros x. apply touched_mono; [by intros y []|done].
Qed.

(** *** First fit *)

(** The size of an allocation with its header, rounded up to the alignment. *)
Definition round_size (n : Z) : Z := 16 * ((n + 31) / 16).

Lemma round_size_bounds n :
  0 < n -> n + 16 <= round_size n <= n + 31 /\ 32 <= round_size n /\ round_size n mod 16 = 0.
Proof. unfold round_size. intros. split_and!; dlia. Qed.

Lemma round_size_land n :
  0 < n <= 0x100000000 - 32 -> Z.land (u32 (n + 2 * hdr - 1)) (Z.lnot 15) = round_size n.
Proof. intros. rewrite u32_small, land_not15 by lia. unfold round_size. dlia. Qed.

(** What an allocation of [size] bytes, header included, does: the first block
    of the free chain that is big enough is split, or taken as a whole when the
    rest would be too small for a free block. *)
Inductive a_malloc (size tag : Z) :
    list block -> list Z -> list block -> list Z -> Z -> Prop :=
  | am_none bs fl :
      (forall b, In b bs -> is_free b = true -> b_size b < size) ->
      a_malloc size tag bs fl bs fl 0
  | am_split b1 b b2 f1 f2 :
      is_free b = true -> size + 32 <= b_size b ->
      (forall c, In c (b1 ++ b :: b2) -> In (b_addr c) f1 -> b_size c < size) ->
      a_malloc size tag (b1 ++ b :: b2) (f1 ++ b_addr b :: f2)
        (b1 ++ front b size tag :: rest b size :: b2) (f1 ++ b_addr b + size :: f2)
        (b_addr b + hdr)
  | am_whole b1 b b2 f1 f2 :
      is_free b = true -> size <= b_size b < size + 32 ->
      (forall c, In c (b1 ++ b :: b2) -> In (b_addr c) f1 -> b_size c < size) ->
      a_malloc size tag (b1 ++ b :: b2) (f1 ++ b_addr b :: f2)
        (b1 ++ set_tag (Some tag) b :: b2) (f1 ++ f2) (b_addr b + hdr).

Lemma fit_loop m head size f1 f2 fuel :
  ring o_next_free o_prev_free m head (f1 ++ f2) -> NoDup (head :: f1 ++ f2) ->
  (length f2 < fuel)%nat ->
  match loop fuel (fit_step m head size) (hd head f2) with
  | Ok None => forall x, In x f2 -> ARENA_SIZE_GET (m (x + o_attrs)) < size
  | Ok (Some x) => exists g1 g2, f2 = g1 ++ x :: g2 /\
      size <= ARENA_SIZE_GET (m (x + o_attrs)) /\
      forall y, In y g1 -> ARENA_SIZE_GET (m (y + o_attrs)) < size
  | _ => False
  end.
Proof.
  revert f1 fuel. induction f2 as [|x f2 IH]; intros f1 fuel Hring Hnd Hfuel;
    (destruct fuel as [|fuel]; [simpl in Hfuel; lia|]); simpl hd.
  - rewrite (loop_break _ _ _ None); [done|]. unfold fit_step. by rewrite decide_True.
  - assert (x <> head) as Hx.
    { apply (in_NoDup_head _ _ _ Hnd). apply in_or_app. right. by left. }
    destruct (decide (size <= ARENA_SIZE_GET (m (x + o_attrs)))) as [Hle|Hle].
    + erewrite loop_break by (unfold fit_step; rewrite decide_False by done; by rewrite decide_True).
      exists [], f2. split; [done|]. split; [done|]. by intros y [].
    + erewrite loop_continue by (unfold fit_step; rewrite decide_False by done; by rewrite decide_False).
      destruct (ring_links _ _ _ _ _ _ _ Hring) as [-> _].
      assert (f1 ++ x :: f2 = (f1 ++ [x]) ++ f2) as E by (by rewrite <- app_assoc).
      rewrite E in Hring, Hnd. simpl in Hfuel.
      specialize (IH (f1 ++ [x]) fuel Hring Hnd ltac:(lia)).
      destruct (loop fuel _ _) as [[y|]| |]; try done.
      * destruct IH as (g1 & g2 & -> & Hy & Hg). exists (x :: g1), g2.
        split; [done|]. split; [done|]. intros z [<-|Hz]; [lia|auto].
      * intros z [<-|Hz]; [lia|auto].
Qed.

Lemma a_malloc_addrs size tag bs fl bs' fl' p x :
  a_malloc size tag bs fl bs' fl' p -> In x (addrs bs) -> In x (addrs bs').
Proof.
  intros [| |]; rewrite ?addrs_app, ?addrs_set_tag; simpl; [done| |done].
  rewrite !in_app_iff. simpl. tauto.
Qed.

Section Refinement.
Context (malloc_head : Z) (A : arena) (HA : arena_ok A).
Context (Hhead : ar_head A = head_of malloc_head (ar_heap A)).

(** The size the search reads for a block of the heap. *)
Lemma size_at m bs fl b :
  heap_rep A m bs fl -> In b bs -> ARENA_SIZE_GET (m (b_addr b + o_attrs)) = b_size b.
Proof.
  intros Hr (b1 & b2 & ->)%in_split. destruct (heap_rep_block _ _ _ _ _ _ Hr) as (_ & Hok & Hat).
  by destruct (type_at_block A HA m b Hat Hok) as (_ & H & _).
Qed.

Lemma malloc_rep fuel m bs fl n tag :
  heap_rep A m bs fl -> 0 < n <= 0x100000000 - 32 -> (length fl < fuel)%nat ->
  exists m' bs' fl' p,
    _malloc malloc_head fuel m n (ar_heap A) tag = Ok (m', p) /\
    a_malloc (round_size n) tag bs fl bs' fl' p /\ heap_rep A m' bs' fl' /\
    wsame (touched (ar_head A :: addrs bs') (ar_head A :: fl ++ fl')) m m'.
Proof.
  intros Hr Hn Hfuel. unfold _malloc. rewrite decide_False by lia.
  rewrite round_size_land, <- Hhead by done.
  destruct (round_size_bounds n) as (_ & Hs32 & Hs16); [lia|].
  set (size := round_size n) in *.
  pose proof (heap_rep_links _ _ _ _ HA Hr) as Hl.
  pose proof (fit_loop m (ar_head A) size [] fl fuel (hr_free _ _ _ _ Hr)
    (li_NoDup_free _ _ _ _ Hl) Hfuel) as Hfit.
  rewrite (ring_first _ _ _ _ _ (hr_free _ _ _ _ Hr)).
  destruct (loop fuel _ _) as [[x|]| |]; try done; cbn [mbind result_bind].
  - destruct Hfit as (f1 & f2 & -> & Hx & Hf1).
    assert (In x (free_addrs bs)) as Hxb.
    { apply list_elem_of_In. rewrite <- (hr_perm _ _ _ _ Hr). apply elem_of_app. right. by left. }
    apply In_addrs in Hxb as (b & [Hb Hfree]%filter_In & <-).
    rewrite (size_at _ _ _ _ Hr Hb) in Hx.
    assert (forall c, In c bs -> In (b_addr c) f1 -> b_size c < size) as Hfirst.
    { intros c Hc Hc1. specialize (Hf1 _ Hc1). by rewrite (size_at _ _ _ _ Hr Hc) in Hf1. }
    pose proof (spaced_In _ _ _ _ (hr_spaced _ _ _ _ Hr) Hb) as (Hlo & (_ & Hmod & _) & Hhi).
    apply in_split in Hb as (b1 & b2 & ->).
    unfold malloc_from_block. rewrite (size_at _ _ _ b Hr) by (apply in_or_app; right; by left).
    destruct HA as [_ Halo Hahi _]. unfold b_end in Hhi. rewrite u32_small by lia.
    case_decide as Hd; do 4 eexists; (split; [reflexivity|]).
    + destruct (split_rep A m b1 b b2 f1 f2 size tag HA Hr Hfree Hs32 Hs16) as [H1 H2]; [lia|].
      split; [constructor; (done || lia)|]. split; [done|].
      eapply wsame_weaken; [|exact H2]. intros y. apply touched_mono; [done|].
      intros z [<-|[<-|Hz]]; [|by left|]; right; apply in_or_app; right; apply in_or_app;
        [right; by left|]. apply in_app_or in Hz as [?|?]; [by left|right; by right].
    + destruct (take_rep A m b1 b b2 f1 f2 tag HA Hr Hfree) as [H1 H2].
      split; [constructor; (done || lia)|]. split; [done|].
      eapply wsame_weaken; [|exact H2]. intros y. apply touched_mono.
      * intros z [<-|[]]. right. rewrite addrs_app. apply in_or_app. right. by left.
      * intros z [<-|Hz]; [by left|right]. apply in_or_app. by right.
  - do 4 eexists. split; [reflexivity|]. split; [|split; [done|done]].
    apply am_none. intros b Hb Hf. rewrite <- (size_at _ _ _ _ Hr Hb). apply Hfit.
    apply list_elem_of_In. rewrite (hr_perm _ _ _ _ Hr). apply list_elem_of_In, In_addrs.
    exists b. split; [|done]. by apply filter_In.
Qed.

End Refinement.

(** ** Invariants of the abstract allocator *)

(** The blocks fill the region from [lo] to [hi]. *)
Fixpoint tiles (lo : Z) (bs : list block) (hi : Z) : Prop :=
  match bs with
  | [] => lo = hi
  | b :: bs' => b_addr b = lo /\ tiles (b_end b) bs' hi
  end.

Lemma tiles_app lo b1 b b2 hi :
  tiles lo (b1 ++ b :: b2) hi <-> tiles lo b1 (b_addr b) /\ tiles (b_end b) b2 hi.
Proof.
  revert lo. induction b1 as [|c b1 IH]; intros lo; simpl.
  - split; [intros [-> ?]|intros [-> ?]]; done.
  - rewrite IH. tauto.
Qed.

Lemma coalesced_app b1 b b2 :
  coalesced (b1 ++ b :: b2) <-> coalesced (b1 ++ [b]) /\ coalesced (b :: b2).
Proof.
  induction b1 as [|c b1 IH]; [simpl; destruct b2; tauto|].
  destruct b1 as [|d b1]; [simpl; destruct b2; tauto|].
  change (coalesced ((c :: d :: b1) ++ b :: b2)) with
    (~ (is_free c = true /\ is_free d = true /\ b_end c = b_addr d) /\
     coalesced ((d :: b1) ++ b :: b2)).
  change (coalesced ((c :: d :: b1) ++ [b])) with
    (~ (is_free c = true /\ is_free d = true /\ b_end c = b_addr d) /\
     coalesced ((d :: b1) ++ [b])).
  rewrite IH. tauto.
Qed.

(** What matters to the block before is the address and whether it is free. *)
Lemma coalesced_last b1 b b' :
  b_addr b' = b_addr b -> (is_free b' = true -> is_free b = true) ->
  coalesced (b1 ++ [b]) -> coalesced (b1 ++ [b']).
Proof.
  intros Ha Hf. induction b1 as [|c b1 IH]; [done|]. destruct b1 as [|d b1].
  - simpl. rewrite Ha. tauto.
  - intros [H1 H2]. split; [done|]. apply IH, H2.
Qed.

(** And to the block after, where it ends. *)
Lemma coalesced_first b b' b2 :
  b_end b' = b_end b -> (is_free b' = true -> is_free b = true) ->
  coalesced (b :: b2) -> coalesced (b' :: b2).
Proof. intros He Hf. destruct b2; simpl; [done|]. rewrite He. tauto. Qed.

Lemma coalesced_init b1 b : coalesced (b1 ++ [b]) -> coalesced b1.
Proof.
  induction b1 as [|c b1 IH]; [done|]. destruct b1 as [|d b1]; [done|].
  intros [H1 H2]. split; [done|]. by apply IH.
Qed.

Lemma coalesced_snoc_used b1 b : is_free b = false -> coalesced b1 -> coalesced (b1 ++ [b]).
Proof.
  intros Hb. induction b1 as [|c b1 IH]; [done|]. destruct b1 as [|d b1]; simpl.
  - rewrite Hb. intros _. split; [|done]. by intros (_ & ? & _).
  - intros [H1 H2]. split; [done|]. by apply IH.
Qed.

Lemma coalesced_cons_used b b2 : is_free b = false -> coalesced b2 -> coalesced (b :: b2).
Proof. intros Hb Hc. destruct b2; simpl; [done|]. rewrite Hb. split; [by intros [? _]|done]. Qed.

Lemma coalesced_tail b b2 : coalesced (b :: b2) -> coalesced b2.
Proof. destruct b2; simpl; tauto. Qed.

Lemma a_malloc_inv size tag bs fl bs' fl' p lo hi :
  a_malloc size tag bs fl bs' fl' p -> coalesced bs -> tiles lo bs hi ->
  coalesced bs' /\ tiles lo bs' hi.
Proof.
  intros Hm Hc Ht. destruct Hm as [| b1 b b2 f1 f2 Hf _ _ | b1 b b2 f1 f2 Hf _ _]; [done| |];
    apply coalesced_app in Hc as [Hc1 Hc2]; apply tiles_app in Ht as [Ht1 Ht2]; split.
  - apply coalesced_app. split.
    + apply coalesced_snoc_used; [done|]. by eapply coalesced_init.
    + apply coalesced_cons_used; [done|]. apply (coalesced_first b); [|done|done].
      unfold b_end. simpl. lia.
  - apply tiles_app. split; [done|]. simpl. split; [done|].
    by replace (b_end (rest b size)) with (b_end b) by (unfold b_end; simpl; lia).
  - apply coalesced_app. split.
    + apply coalesced_snoc_used; [done|]. by eapply coalesced_init.
    + apply coalesced_cons_used; [done|]. by eapply coalesced_tail.
  - apply tiles_app. done.
Qed.

Lemma a_free_coalesced b1 b b2 fl bs' fl' ah :
  a_free b1 b b2 fl = (bs', fl', ah) -> coalesced (b1 ++ b :: b2) -> coalesced bs'.
Proof.
  intros Ha Hc. unfold a_free in Ha.
  apply coalesced_app in Hc as [Hc1 Hc2%coalesced_tail].
  destruct (free_prev b1 b fl) as [[b1' b'] fl1] eqn:Hp.
  assert (coalesced (b1' ++ [b'])) as Hc1'.
  { unfold free_prev in Hp. destruct b1 as [|a b1 _] using rev_ind.
    - simpl in Hp. by injection Hp as <- <- <-.
    - rewrite last_snoc, removelast_last in Hp.
      assert (coalesced (b1 ++ [a])) as Hca by (by eapply coalesced_init).
      destruct (decide (joinable a b)) as [[Hj1 Hj2]|Hj]; injection Hp as <- <- <-.
      + by eapply coalesced_last; [| |exact Hca].
      + rewrite <- app_assoc. apply coalesced_app. split; [done|].
        simpl. split; [|done]. intros (H1 & _ & H2). by apply Hj. }
  destruct (free_next b' b2 fl1) as [[b'' b2'] fl2] eqn:Hn. injection Ha as <- <- <-.
  unfold free_next in Hn. destruct b2 as [|c b2]; [by injection Hn as <- <- <-|].
  destruct (decide (is_free c = true /\ b_end b' = b_addr c)) as [[Hj1 Hj2]|Hj];
    injection Hn as <- <- <-; rewrite coalesced_app; split.
  - by eapply coalesced_last; [| |exact Hc1'].
  - apply (coalesced_first c); [|done|done]. unfold b_end, join in *. simpl. lia.
  - done.
  - simpl. split; [|done]. intros (H1 & H2 & H3). by apply Hj.
Qed.

Lemma a_free_inv b1 b b2 fl bs' fl' ah lo hi :
  a_free b1 b b2 fl = (bs', fl', ah) -> coalesced (b1 ++ b :: b2) -> tiles lo (b1 ++ b :: b2) hi ->
  coalesced bs' /\ tiles lo bs' hi.
Proof.
  intros Ha Hc Ht. split; [by eapply a_free_coalesced|]. unfold a_free in Ha.
  apply tiles_app in Ht as [Ht1 Ht2].
  destruct (free_prev b1 b fl) as [[b1' b'] fl1] eqn:Hp.
  assert (tiles lo b1' (b_addr b') /\ b_end b' = b_end b) as (Ht1' & He).
  { unfold free_prev in Hp. destruct b1 as [|a b1 _] using rev_ind.
    - simpl in Hp. by injection Hp as <- <- <-.
    - rewrite last_snoc, removelast_last in Hp.
      destruct (decide (joinable a b)) as [[Hj1 Hj2]|Hj]; injection Hp as <- <- <-; [|done].
      apply tiles_app in Ht1 as [Ht1 _]. split; [done|]. unfold b_end, join in *. simpl. lia. }
  destruct (free_next b' b2 fl1) as [[b'' b2'] fl2] eqn:Hn. injection Ha as <- <- <-.
  unfold free_next in Hn. destruct b2 as [|c b2].
  - injection Hn as <- <- <-. by rewrite tiles_app, He.
  - destruct (decide (is_free c = true /\ b_end b' = b_addr c)) as [[Hj1 Hj2]|Hj];
      injection Hn as <- <- <-; rewrite tiles_app; [|by rewrite He].
    split; [done|]. destruct Ht2 as [Ht2 Ht3].
    by replace (b_end (join b' c)) with (b_end c) by (unfold b_end, join in *; simpl; lia).
Qed.

(** When nothing is in use, a region is one free block. *)
Lemma all_free_single bs lo hi :
  coalesced bs -> tiles lo bs hi -> Forall (fun b => is_free b = true) bs ->
  bs = [] \/ exists b, bs = [b] /\ b_addr b = lo /\ b_end b = hi.
Proof.
  destruct bs as [|b [|c bs]]; intros Hc Ht Hf; [by left| |].
  - right. exists b. simpl in Ht. tauto.
  - exfalso. rewrite !Forall_cons in Hf. destruct Hf as (H1 & H2 & _), Hc as [Hc _].
    apply Hc. split; [done|]. split; [done|]. simpl in Ht. symmetry. tauto.
Qed.

(** ** Adding memory to a heap *)

(** The words that belong to a heap. *)
Definition arena_words (A : arena) (x : Z) : Prop :=
  ar_head A <= x < ar_head A + 32 \/ ar_lo A <= x < ar_hi A.

Lemma heap_rep_frame A m m' bs fl :
  arena_ok A -> (forall x, arena_words A x -> m' x = m x) ->
  heap_rep A m bs fl -> heap_rep A m' bs fl.
Proof.
  intros HA Hw Hr. pose proof (heap_rep_links _ _ _ _ HA Hr) as Hl.
  assert (forall x f, In x (ar_head A :: addrs bs) -> 0 <= f < 24 -> m' (x + f) = m (x + f)) as Hs.
  { intros x f [<-|Hx] Hf; apply Hw; [left; lia|right].
    pose proof (node_range A bs (hr_spaced _ _ _ _ Hr) x Hx). lia. }
  constructor; try apply Hr.
  - apply ring_ext with m; [..|apply Hl]; intros y Hy; apply Hs; (done || lia).
  - apply ring_ext with m; [..|apply Hl]; intros y Hy; (apply Hs; [|lia]); by eapply free_node.
  - rewrite Hs; [apply Hl|by left|lia].
  - pose proof (li_blocks _ _ _ _ Hl) as Hbl. apply Forall_forall. intros c Hc.
    destruct (proj1 (Forall_forall _ _) Hbl c Hc) as [H1 H2].
    assert (In (b_addr c) (ar_head A :: addrs bs))
      by (right; apply In_addrs; exists c; split; [by apply list_elem_of_In|done]).
    split; rewrite Hs; (done || lia).
Qed.

Section Inject.
Context (malloc_head : Z) (A : arena) (HA : arena_ok A).
Context (Hhead : ar_head A = head_of malloc_head (ar_heap A)).

(** The search over the blocks [f2]; those of [f1] lie before [ah]. *)
Lemma inject_loop m f1 f2 fl ah a_end fuel :
  heap_rep A m (f1 ++ f2) fl -> (length f2 < fuel)%nat ->
  match loop fuel (inject_step m (ar_head A) ah a_end) (hd (ar_head A) (addrs f2)) with
  | Ok (Some nah) => exists g1 g2, f2 = g1 ++ g2 /\ nah = hd (ar_head A) (addrs g2) /\
      Forall (fun c => b_end c <= ah) g1 /\ match g2 with c :: _ => a_end <= b_addr c | [] => True end
  | Ok None => exists c, In c f2 /\ b_addr c < a_end /\ ah < b_end c
  | _ => False
  end.
Proof.
  revert f1 fuel. induction f2 as [|c f2 IH]; intros f1 fuel Hr Hfuel;
    (destruct fuel as [|fuel]; [simpl in Hfuel; lia|]); cbn [addrs map hd].
  - rewrite (loop_break _ _ _ (Some (ar_head A)));
      [|unfold inject_step; by rewrite decide_True].
    by exists [], [].
  - pose proof (heap_rep_links _ _ _ _ HA Hr) as Hl.
    assert (In c (f1 ++ c :: f2)) as Hc by (apply in_or_app; right; by left).
    assert (b_addr c <> ar_head A) as Hne.
    { apply (in_NoDup_head _ _ _ (li_NoDup _ _ _ _ Hl)). apply In_addrs. eauto. }
    pose proof (spaced_In _ _ _ _ (hr_spaced _ _ _ _ Hr) Hc) as (Hlo & [Hc32 _] & Hhi).
    assert (inject_step m (ar_head A) ah a_end (b_addr c) =
      Ok (if decide (a_end <= b_addr c) then Break (Some (b_addr c))
          else if decide (b_end c <= ah) then Continue (m (b_addr c + o_next)) else Break None)) as Hst.
    { unfold inject_step. rewrite decide_False by done.
      rewrite (size_at A HA _ _ _ _ Hr Hc). destruct HA. unfold b_end in *.
      by rewrite u32_small by lia. }
    destruct (decide (a_end <= b_addr c)) as [Hd1|Hd1].
    { rewrite (loop_break _ _ _ (Some (b_addr c))) by done. by exists [], (c :: f2). }
    destruct (decide (b_end c <= ah)) as [Hd2|Hd2].
    + erewrite loop_continue by done.
      destruct (ring_around A m f1 c f2 _ Hr) as [-> _].
      assert (heap_rep A m ((f1 ++ [c]) ++ f2) fl) as Hr' by (by rewrite <- app_assoc).
      simpl in Hfuel. specialize (IH (f1 ++ [c]) fuel Hr' ltac:(lia)).
      destruct (loop fuel _ _) as [[nah|]| |]; try done.
      * destruct IH as (g1 & g2 & -> & -> & H1 & H2). exists (c :: g1), g2. 
        split; [done|]. split; [done|]. split; [by constructor|done].
      * destruct IH as (d & Hd & ?). exists d. split; [by right|done].
    + rewrite (loop_break _ _ _ None) by done. exists c. split; [by left|]. lia.
Qed.

(** Where a block that overlaps no other belongs. *)
Lemma spaced_insert lo g1 g2 hi r :
  spaced lo (g1 ++ g2) hi -> block_ok r -> lo <= b_addr r -> b_end r <= hi ->
  Forall (fun c => b_end c <= b_addr r) g1 ->
  match g2 with c :: _ => b_end r <= b_addr c | [] => True end ->
  spaced lo (g1 ++ r :: g2) hi.
Proof.
  intros Hs Hok Hlo Hhi H1 H2. revert lo Hs Hlo. induction g1 as [|c g1 IH]; intros lo Hs Hlo.
  - simpl in *. split; [done|]. split; [done|]. destruct g2; simpl in *; [done|]. tauto.
  - apply Forall_cons in H1 as [Hc H1]. destruct Hs as (Hs1 & Hs2 & Hs3).
    split; [done|]. split; [done|]. by apply IH.
Qed.

Lemma inject_rep fuel m bs fl r :
  heap_rep A m bs fl -> (length bs < fuel)%nat -> block_ok r -> is_free r = false ->
  block_at m (ar_heap A) r -> ar_lo A <= b_addr r -> b_end r <= ar_hi A ->
  exists m', inject_free_block malloc_head fuel m (b_addr r) = Ok m' /\
  (m' = m /\ (exists c, In c bs /\ b_addr c < b_end r /\ b_addr r < b_end c) \/
   exists b1 b2 bs' fl' ah, bs = b1 ++ b2 /\ spaced (ar_lo A) (b1 ++ r :: b2) (ar_hi A) /\
     a_free b1 r b2 fl = (bs', fl', ah) /\ heap_rep A m' bs' fl' /\
     forall x, ~ arena_words A x -> m' x = m x).
Proof.
  intros Hr Hfuel Hok Hused Hat Hlo Hhi.
  destruct (type_at_block A HA m r Hat Hok) as (_ & Hsz & Hhp).
  unfold inject_free_block. rewrite Hsz, Hhp, <- Hhead.
  rewrite (u32_small (b_addr r + b_size r)) by (destruct HA, Hok; unfold b_end in *; lia).
  fold (b_end r). rewrite (ring_first _ _ _ _ _ (hr_all _ _ _ _ Hr)).
  pose proof (inject_loop m [] bs fl (b_addr r) (b_end r) fuel Hr Hfuel) as Hloop.
  destruct (loop fuel _ _) as [[nah|]| |]; try done; cbn [mbind result_bind].
  2: { exists m. split; [done|]. left. split; [done|]. destruct Hloop as (c & Hc & ?). eauto. }
  destruct Hloop as (g1 & g2 & -> & -> & Hg1 & Hg2).
  pose proof (spaced_insert _ g1 g2 _ r (hr_spaced _ _ _ _ Hr) Hok Hlo Hhi Hg1 Hg2) as Hsp.
  pose proof (node_sep A _ HA Hsp) as Hsep. pose proof (nodes_NoDup A _ HA Hsp) as Hnd.
  set (s := hd (ar_head A) (addrs g2)).
  pose proof (hr_all _ _ _ _ Hr) as Hring.
  assert (m (s + o_prev) = List.last (addrs g1) (ar_head A)) as Hp.
  { subst s. rewrite addrs_app in Hring. destruct g2 as [|c g2].
    - simpl. rewrite app_nil_r in Hring. by rewrite (ring_last _ _ _ _ _ Hring).
    - simpl in Hring |- *. by apply ring_links in Hring as [_ ?]. }
  set (p := List.last (addrs g1) (ar_head A)) in *.
  rewrite addrs_app in Hnd, Hsep. simpl in Hnd, Hsep.
  destruct (NoDup_sub3 _ _ [b_addr r] _ Hnd) as [_ Hrn].
  set (N := ar_head A :: addrs g1 ++ b_addr r :: addrs g2) in *.
  assert (Hsub : forall x, In x (ar_head A :: addrs g1 ++ addrs g2) -> In x N /\ b_addr r <> x).
  { intros x Hx. split; [|intros <-; apply (Hrn _ Hx); by left].
    destruct Hx as [<-|Hx]; [by left|right]. apply in_app_or in Hx as [?|?]; apply in_or_app;
      [by left|right; by right]. }
  assert (In s (ar_head A :: addrs g1 ++ addrs g2)) as Hs0 by apply free_hd_In.
  assert (In p (ar_head A :: addrs g1 ++ addrs g2)) as Hp0 by apply free_last_In.
  destruct (Hsub _ Hs0) as [HsN Hrs], (Hsub _ Hp0) as [HpN Hrp].
  assert (HrN : In (b_addr r) N) by (right; apply in_or_app; right; by left).
  fields Hsep. rewrite Hp. fields Hsep.
  set (m1 := st _ (p + o_next) (b_addr r)).
  pose proof (heap_rep_links _ _ _ _ HA Hr) as Hl.
  destruct (insert_ok A m m1 g1 r g2 fl p s Hl Hsp HA) as [Hl1 Hw1]; try done.
  { subst m1. repeat apply wsame_st; [done|rewrite spliced_one; auto..]. }
  { subst m1. simpl. fields Hsep. done. }
  assert (heap_rep A m1 (g1 ++ r :: g2) fl) as Hr1.
  { apply links_rep; [done| |done]. rewrite free_addrs_app, Hused.
    rewrite (hr_perm _ _ _ _ Hr). simpl. unfold free_addrs.
    by rewrite List.filter_app, addrs_app. }
  destruct (a_free g1 r g2 fl) as [[bs' fl'] ah] eqn:Ha.
  destruct (free_block_rep malloc_head A HA Hhead m1 g1 r g2 fl bs' fl' ah Hr1 Hused Ha)
    as (m2 & Hfb & Hr2 & Hw2).
  exists m2. rewrite Hfb. split; [done|]. right. exists g1, g2, bs', fl', ah.
  split; [done|]. split; [done|]. split; [done|]. split; [done|].
  assert (forall x, touched (ar_head A :: addrs (g1 ++ r :: g2)) (ar_head A :: b_addr r :: fl) x ->
    arena_words A x) as Htw.
  { assert (forall y, In y (addrs (g1 ++ r :: g2)) -> ar_lo A <= y /\ y + 32 <= ar_hi A) as Hrg
      by (intros y; by apply (node_range A _ Hsp)).
    assert (forall y, In y (ar_head A :: b_addr r :: fl) -> y = ar_head A \/ In y (addrs (g1 ++ r :: g2))) as Hfl.
    { intros y [<-|[<-|Hy]]; [by left|right; rewrite addrs_app; by right||(apply in_or_app; right; by left)|].
      right. by eapply li_sub in Hy. }
    intros x [(y & [<-|Hy] & Hx)|(y & Hy & Hx)]; [left; lia| |].
    - right. specialize (Hrg y Hy). lia.
    - destruct (Hfl y Hy) as [->|Hy']; [left; lia|right]. specialize (Hrg y Hy'). lia. }
  intros x Hx. rewrite Hw2, Hw1; [done| |]; intros Ht; apply Hx, Htw; [|done].
  revert Ht. apply touched_mono; [done|by intros y []].
Qed.
End Inject.

(** ** The data of allocated blocks *)

(** The words of a used block that its owner may use. *)
Definition data (c : block) (x : Z) : Prop := b_addr c + hdr <= x < b_end c.

Definition away (c : block) (y : Z) : Prop := y + 24 <= b_addr c \/ b_end c <= y.

Lemma away_head A lo bs c :
  arena_ok A -> ar_lo A <= lo -> spaced lo bs (ar_hi A) -> In c bs -> away c (ar_head A).
Proof.
  intros HA Hlo Hs Hc. destruct (spaced_In _ _ _ _ Hs Hc) as (H1 & _ & H2).
  destruct HA. unfold away. lia.
Qed.

Lemma away_block lo bs hi c d :
  spaced lo bs hi -> In c bs -> In d bs -> b_addr d <> b_addr c -> away c (b_addr d).
Proof.
  intros Hs Hc (b1 & b2 & ->)%in_split Hne.
  assert (In c (b1 ++ b2)) as Hc'.
  { apply in_app_or in Hc as [?|[->|?]]; [|done|]; apply in_or_app; auto. }
  destruct (spaced_apart _ _ _ _ _ _ Hs Hc') as [H|H].
  - by right.
  - left. apply spaced_app in Hs as (_ & [Hd _] & _). unfold b_end in H. lia.
Qed.

Lemma data_untouched c x N F :
  data c x -> (forall y, In y N -> y = b_addr c \/ away c y) -> (forall y, In y F -> away c y) ->
  ~ touched N F x.
Proof.
  unfold data, away. intros Hx HN HF [(y & Hy & H)|(y & Hy & H)].
  - destruct (HN y Hy); lia.
  - specialize (HF y Hy). lia.
Qed.

Lemma free_addrs_away A m bs fl c y :
  arena_ok A -> heap_rep A m bs fl -> In c bs -> is_free c = false ->
  In y (ar_head A :: fl) -> away c y.
Proof.
  intros HA Hr Hc Hu [<-|Hy]; [by eapply away_head; [..|apply Hr|]; [|lia|]|].
  apply list_elem_of_In in Hy as Hy'. rewrite (hr_perm _ _ _ _ Hr) in Hy'.
  apply list_elem_of_In, In_addrs in Hy' as (d & [Hd Hf]%filter_In & <-).
  apply (away_block _ _ _ _ _ (hr_spaced _ _ _ _ Hr)); [done..|].
  intros E. apply in_split in Hc as (b1 & b2 & ->).
  pose proof (proj1 (heap_rep_free_iff A m b1 c b2 fl HA Hr)) as Hi. rewrite <- E, Hu in Hi.
  by specialize (Hi Hy).
Qed.

Lemma addrs_away A m bs fl c y :
  arena_ok A -> heap_rep A m bs fl -> In c bs ->
  In y (ar_head A :: addrs bs) -> y = b_addr c \/ away c y.
Proof.
  intros HA Hr Hc [<-|(d & Hd & <-)%In_addrs].
  - right. by eapply away_head; [..|apply Hr|]; [|lia|].
  - destruct (decide (b_addr d = b_addr c)); [by left|right].
    by apply (away_block _ _ _ _ _ (hr_spaced _ _ _ _ Hr)).
Qed.

(** The used blocks. *)
Definition used (bs : list block) : list block := List.filter (fun b => negb (is_free b)) bs.

Lemma used_app b1 b2 : used (b1 ++ b2) = used b1 ++ used b2.
Proof. apply List.filter_app. Qed.

Lemma used_cons b bs : used (b :: bs) = (if is_free b then [] else [b]) ++ used bs.
Proof. unfold used. simpl. by destruct (is_free b). Qed.

Lemma In_used c bs : In c (used bs) <-> In c bs /\ is_free c = false.
Proof. unfold used. rewrite filter_In. destruct (is_free c); simpl; intuition discriminate. Qed.

Lemma a_free_used b1 b b2 fl bs' fl' ah :
  a_free b1 b b2 fl = (bs', fl', ah) -> used bs' = used b1 ++ used b2.
Proof.
  intros Ha. unfold a_free in Ha.
  destruct (free_prev b1 b fl) as [[b1' b'] fl1] eqn:Hp.
  assert (used b1' = used b1 /\ is_free b' = true) as [H1 Hf].
  { unfold free_prev in Hp. destruct b1 as [|a b1 _] using rev_ind.
    - simpl in Hp. by injection Hp as <- <- <-.
    - rewrite last_snoc, removelast_last in Hp.
      destruct (decide (joinable a b)) as [[Hj1 Hj2]|Hj]; injection Hp as <- <- <-; [|done].
      rewrite used_app, used_cons, Hj1. simpl. by rewrite app_nil_r. }
  destruct (free_next b' b2 fl1) as [[b'' b2'] fl2] eqn:Hn. injection Ha as <- <- <-.
  rewrite used_app, H1. f_equal.
  unfold free_next in Hn. destruct b2 as [|c b2].
  - injection Hn as <- <- <-. by rewrite used_cons, Hf.
  - destruct (decide (is_free c = true /\ b_end b' = b_addr c)) as [[Hj1 Hj2]|Hj];
      injection Hn as <- <- <-; rewrite !used_cons; [|by rewrite Hf].
    change (is_free (join b' c)) with (is_free b'). by rewrite Hj1, Hf.
Qed.

(** The block an allocation returns, and the other ones. *)
Lemma a_malloc_used size tag bs fl bs' fl' p :
  a_malloc size tag bs fl bs' fl' p ->
  (p = 0 /\ bs' = bs /\ forall b, In b bs -> is_free b = true -> b_size b < size) \/
  exists b, In b bs' /\ b_tag b = Some tag /\ p = b_addr b + hdr /\ size <= b_size b /\
    used bs' ≡ₚ b :: used bs.
Proof.
  intros Hm. destruct Hm as [bs fl Hno| b1 b b2 f1 f2 Hf Hsz _ | b1 b b2 f1 f2 Hf Hsz _].
  - left. done.
  - right. exists (front b size tag). split; [apply in_or_app; right; by left|].
    simpl. split; [done|]. split; [done|]. split; [lia|].
    rewrite !used_app, !used_cons, Hf. simpl. by rewrite Permutation_middle.
  - right. exists (set_tag (Some tag) b). split; [apply in_or_app; right; by left|].
    simpl. split; [done|]. split; [done|]. split; [lia|].
    rewrite !used_app, !used_cons, Hf. simpl. by rewrite Permutation_middle.
Qed.

(** ** The allocator as its clients see it

    A live allocation: the pointer, the size asked for, and the tag. *)
Record alloc := Alloc { a_ptr : Z; a_size : Z; a_tag : Z }.

Definition alloc_of (a : alloc) (b : block) : Prop :=
  a_ptr a = b_addr b + hdr /\ a_size a + hdr <= b_size b /\ b_tag b = Some (a_tag a) /\
  0 < a_size a.

Section Client.
Context (malloc_head : Z) (A : arena) (HA : arena_ok A).
Context (Hhead : ar_head A = head_of malloc_head (ar_heap A)).

(** What the memory of one heap looks like while [L] are the live allocations. *)
Definition heap_inv (m : words) (L : list alloc) : Prop :=
  exists bs fl ub, heap_rep A m bs fl /\ coalesced bs /\ tiles (ar_lo A) bs (ar_hi A) /\
    ub ≡ₚ used bs /\ Forall2 alloc_of L ub.

(** The steps of a client of the heap: allocate, free a live allocation, store
    a word into one.  The label is the address of a client's store. *)
Inductive client_step : option Z -> words * list alloc -> words * list alloc -> Prop :=
  | cs_malloc m L fuel n tag m' p :
      0 < n <= 0x100000000 - 32 ->
      _malloc malloc_head fuel m n (ar_heap A) tag = Ok (m', p) -> p <> 0 ->
      client_step None (m, L) (m', Alloc p n tag :: L)
  | cs_fail m L fuel n tag m' :
      0 < n <= 0x100000000 - 32 ->
      _malloc malloc_head fuel m n (ar_heap A) tag = Ok (m', 0) ->
      client_step None (m, L) (m', L)
  | cs_free m L1 a L2 : client_step None (m, L1 ++ a :: L2) (free malloc_head m (a_ptr a), L1 ++ L2)
  | cs_store m L a x v :
      In a L -> a_ptr a <= x -> x + 4 <= a_ptr a + a_size a ->
      client_step (Some x) (m, L) (st m x v, L).

Lemma malloc_fuel m bs fl n tag fuel fuel' m' p r :
  heap_rep A m bs fl -> 0 < n <= 0x100000000 - 32 ->
  _malloc malloc_head fuel m n (ar_heap A) tag = Ok (m', p) ->
  _malloc malloc_head fuel' m n (ar_heap A) tag = Ok r ->
  r = (m', p).
Proof.
  unfold _malloc. intros Hr Hn. rewrite !decide_False by lia. intros H1 H2.
  apply bind_Ok_inv in H1 as (r1 & H1 & E1). apply bind_Ok_inv in H2 as (r2 & H2 & E2).
  assert (r1 = r2) as ->.
  { destruct (Nat.le_ge_cases fuel fuel') as [Hle|Hle].
    - apply (loop_mono _ fuel') in H1; [|done]. congruence.
    - apply (loop_mono _ fuel) in H2; [|done]. congruence. }
  rewrite E1 in E2. by injection E2.
Qed.

Lemma malloc_step m bs fl n tag fuel m' p :
  heap_rep A m bs fl -> 0 < n <= 0x100000000 - 32 ->
  _malloc malloc_head fuel m n (ar_heap A) tag = Ok (m', p) ->
  exists bs' fl', a_malloc (round_size n) tag bs fl bs' fl' p /\ heap_rep A m' bs' fl' /\
    wsame (touched (ar_head A :: addrs bs') (ar_head A :: fl ++ fl')) m m'.
Proof.
  intros Hr Hn Hm.
  destruct (malloc_rep malloc_head A HA Hhead (S (length fl)) m bs fl n tag Hr Hn)
    as (m1 & bs' & fl' & p1 & Hm1 & Ham & Hr1 & Hw); [lia|].
  pose proof (malloc_fuel _ _ _ _ _ _ _ _ _ _ Hr Hn Hm Hm1) as E. injection E as -> ->. eauto.
Qed.

(** Allocating leaves the data of the blocks in use alone. *)
Lemma malloc_data m m' bs fl bs' fl' size tag p c x :
  heap_rep A m bs fl -> heap_rep A m' bs' fl' -> a_malloc size tag bs fl bs' fl' p ->
  wsame (touched (ar_head A :: addrs bs') (ar_head A :: fl ++ fl')) m m' ->
  In c (used bs) -> data c x -> m' x = m x.
Proof.
  intros Hr Hr' Ham Hw Hc Hx. apply Hw.
  assert (In c (used bs')) as Hc'.
  { destruct (a_malloc_used _ _ _ _ _ _ _ Ham) as [(_ & -> & _)|(b & _ & _ & _ & _ & Hp)]; [done|].
    apply list_elem_of_In. rewrite Hp. right. by apply list_elem_of_In. }
  apply In_used in Hc as [Hc Hu], Hc' as [Hc' _].
  apply (data_untouched c); [done|intros y Hy; by apply (addrs_away A m' bs' fl')|].
  intros y [<-|[Hy|Hy]%in_app_or];
    [apply (free_addrs_away A m bs fl)|apply (free_addrs_away A m bs fl)
    |apply (free_addrs_away A m' bs' fl')]; try done; (by left) || by right.
Qed.

Lemma free_data m m' bs b1 b b2 fl c x :
  heap_rep A m bs fl -> bs = b1 ++ b :: b2 -> is_free b = false ->
  wsame (touched (ar_head A :: addrs bs) (ar_head A :: b_addr b :: fl)) m m' ->
  In c (used b1 ++ used b2) -> data c x -> m' x = m x.
Proof.
  intros Hr Hbs Hb Hw Hc Hx. apply Hw. rewrite <- used_app in Hc.
  apply In_used in Hc as [Hc Hu].
  assert (In c bs) as Hcb.
  { rewrite Hbs. apply in_app_or in Hc as [?|?]; apply in_or_app; [by left|right; by right]. }
  apply (data_untouched c); [done|intros y Hy; by apply (addrs_away A m bs fl)|].
  intros y [<-|[<-|Hy]]; try (apply (free_addrs_away A m bs fl); simpl; by auto).
  assert (In b bs) as Hbb by (rewrite Hbs; apply in_or_app; right; by left).
  assert (In (b_addr b) (ar_head A :: addrs bs)) as Hbn by (right; apply In_addrs; eauto).
  destruct (addrs_away A m bs fl c (b_addr b) HA Hr Hcb Hbn) as [E|?]; [|done].
  exfalso. pose proof (hr_spaced _ _ _ _ Hr) as Hs. rewrite Hbs in Hs.
  pose proof (proj1 (spaced_app _ _ _ _ _) Hs) as (_ & [Hb32 _] & _).
  destruct (spaced_In _ _ _ _ (hr_spaced _ _ _ _ Hr) Hcb) as (_ & [Hc32 _] & _).
  destruct (spaced_apart _ _ _ _ _ _ Hs Hc); unfold b_end in *; lia.
Qed.

Lemma Forall2_In_l {X Y} (P : X -> Y -> Prop) l k x :
  Forall2 P l k -> In x l -> exists y, In y k /\ P x y.
Proof.
  induction 1 as [|a b l k H HF IH]; [done|]. intros [<-|Hx]; [exists b; split; [by left|done]|].
  destruct (IH Hx) as (y & Hy & ?). exists y. split; [by right|done].
Qed.

(** Every step preserves the invariant, and the data of every allocation that
    stays live, except for the store of its owner. *)
Lemma client_step_ok o m L m' L' :
  heap_inv m L -> client_step o (m, L) (m', L') ->
  heap_inv m' L' /\
  (forall a x, In a L -> In a L' -> a_ptr a <= x < a_ptr a + a_size a ->
     o <> Some x -> m' x = m x).
Proof.
  intros (bs & fl & ub & Hr & Hc & Ht & Hub & HL) Hstep.
  assert (forall a x, In a L -> a_ptr a <= x < a_ptr a + a_size a ->
    exists c, In c (used bs) /\ alloc_of a c /\ data c x) as Hdata.
  { intros a x Ha Hx. destruct (Forall2_In_l _ _ _ _ HL Ha) as (c & Hcu & Hac).
    exists c. split; [|split; [done|]].
    - apply list_elem_of_In. rewrite <- Hub. by apply list_elem_of_In.
    - destruct Hac as (H1 & H2 & _). unfold data, b_end. lia. }
  inversion Hstep as [m0 L0 fuel n tag m1 p Hn Hm Hp|m0 L0 fuel n tag m1 Hn Hm
    |m0 L1 a L2|m0 L0 a x v Ha Hx1 Hx2]; subst; clear Hstep.
  - destruct (malloc_step _ _ _ _ _ _ _ _ Hr Hn Hm) as (bs' & fl' & Ham & Hr' & Hw).
    destruct (a_malloc_inv _ _ _ _ _ _ _ _ _ Ham Hc Ht) as [Hc' Ht'].
    split.
    + destruct (a_malloc_used _ _ _ _ _ _ _ Ham) as [(-> & _)|(b & Hb & Htag & -> & Hsz & Hu)]; [done|].
      exists bs', fl', (b :: ub). split; [done|]. split; [done|]. split; [done|].
      split; [by rewrite Hu, Hub|]. constructor; [|done].
      destruct (round_size_bounds n) as (Hrs & _); [lia|].
      unfold alloc_of. simpl. split; [done|]. split; [lia|]. split; [done|lia].
    + intros a x Ha _ Hx _.
      destruct (Hdata a x Ha Hx) as (c & Hcu & _ & Hcx). by eapply malloc_data.
  - destruct (malloc_step _ _ _ _ _ _ _ _ Hr Hn Hm) as (bs' & fl' & Ham & Hr' & Hw).
    destruct (a_malloc_inv _ _ _ _ _ _ _ _ _ Ham Hc Ht) as [Hc' Ht'].
    split.
    + destruct (a_malloc_used _ _ _ _ _ _ _ Ham) as [(_ & -> & _)|(b & Hb & _ & Hp & _)].
      * by exists bs, fl', ub.
      * exfalso. destruct (spaced_In _ _ _ _ (hr_spaced _ _ _ _ Hr') Hb) as (Hlo & _).
        destruct HA. lia.
    + intros a x Ha _ Hx _.
      destruct (Hdata a x Ha Hx) as (c & Hcu & _ & Hcx). by eapply malloc_data.
  - apply Forall2_app_inv_l in HL as (u1 & u2' & HL1 & HL2 & ->).
    apply Forall2_cons_inv_l in HL2 as (b & u2 & Hab & HL2 & ->).
    assert (In b (used bs)) as Hbu.
    { apply list_elem_of_In. rewrite <- Hub. apply elem_of_app. right. by left. }
    apply In_used in Hbu as [Hb Hbf]. apply in_split in Hb as (b1 & b2 & ->).
    destruct (a_free b1 b b2 fl) as [[bs' fl'] ah] eqn:Hfr.
    destruct (free_block_rep malloc_head A HA Hhead m b1 b b2 fl bs' fl' ah Hr Hbf Hfr)
      as (m' & Hm' & Hr' & Hw).
    destruct (a_free_inv _ _ _ _ _ _ _ _ _ Hfr Hc Ht) as [Hc' Ht'].
    pose proof (a_free_used _ _ _ _ _ _ _ Hfr) as Hu.
    rewrite used_app, used_cons, Hbf in Hub. simpl in Hub.
    rewrite <- !Permutation_middle in Hub. apply Permutation_cons_inv in Hub.
    assert (free malloc_head m (a_ptr a) = m') as ->.
    { destruct Hab as (-> & _). unfold free.
      destruct (spaced_In _ _ _ b (hr_spaced _ _ _ _ Hr)) as (Hlo & _);
        [apply in_or_app; right; by left|].
      rewrite decide_False by (destruct HA; lia).
      replace (b_addr b + hdr - hdr) with (b_addr b) by lia. by rewrite Hm'. }
    split.
    + exists bs', fl', (u1 ++ u2). split; [done|]. split; [done|]. split; [done|].
      split; [by rewrite Hu|]. by apply Forall2_app.
    + intros a' x _ Ha' Hx _.
      destruct (Forall2_In_l alloc_of (L1 ++ L2) (u1 ++ u2) a') as (c & Hcu & Hac);
        [by apply Forall2_app|done|].
      apply (free_data m m' _ b1 b b2 fl c x Hr eq_refl Hbf Hw).
      * apply list_elem_of_In. rewrite <- Hub. by apply list_elem_of_In.
      * destruct Hac as (H1 & H2 & _). unfold data, b_end. lia.
  - destruct (Hdata a x Ha) as (c & Hcu & _ & Hcx); [lia|]. split.
    + exists bs, fl, ub. split; [|done].
      apply In_used in Hcu as [Hcb Hcf].
      apply links_rep; [|apply Hr|apply Hr].
      pose proof (heap_rep_links _ _ _ _ HA Hr) as Hl.
      assert (forall y f, In y (ar_head A :: addrs bs) -> 0 <= f < 16 -> st m x v (y + f) = m (y + f)) as Hs1.
      { intros y f Hy Hf. apply st_ne. destruct (addrs_away A m bs fl c y HA Hr Hcb Hy);
          unfold data, away, b_end in *; lia. }
      assert (forall y f, In y (ar_head A :: fl) -> 0 <= f < 24 -> st m x v (y + f) = m (y + f)) as Hs2.
      { intros y f Hy Hf. apply st_ne. pose proof (free_addrs_away A m bs fl c y HA Hr Hcb Hcf Hy).
        unfold data, away, b_end in *; lia. }
      constructor; try apply Hl.
      * apply ring_ext with m; [..|apply Hl]; intros y Hy; apply Hs1; (done || lia).
      * apply ring_ext with m; [..|apply Hl]; intros y Hy; apply Hs2; (done || lia).
      * rewrite Hs1; [apply Hl|by left|lia].
      * pose proof (li_blocks _ _ _ _ Hl) as Hbl. apply Forall_forall. intros d Hd.
        destruct (proj1 (Forall_forall _ _) Hbl d Hd) as [H1 H2].
        assert (In (b_addr d) (ar_head A :: addrs bs))
          by (right; apply In_addrs; exists d; split; [by apply list_elem_of_In|done]).
        split; rewrite Hs1; (done || lia).
    + intros a' x' _ _ _ Hne. apply st_ne. congruence.
Qed.

End Client.

(** ** Freeing by tag *)

Lemma a_free_shape b1 b b2 fl bs' fl' ah :
  a_free b1 b b2 fl = (bs', fl', ah) ->
  exists b1' c b2', bs' = b1' ++ c :: b2' /\ ah = b_addr c /\ is_free c = true /\
    used (b1' ++ [c]) = used b1 /\ used b2' = used b2 /\ (length b2' <= length b2)%nat.
Proof.
  intros Ha. unfold a_free in Ha.
  destruct (free_prev b1 b fl) as [[b1' b'] fl1] eqn:Hp.
  assert (used b1' = used b1 /\ is_free b' = true) as [H1 Hf].
  { unfold free_prev in Hp. destruct b1 as [|a b1 _] using rev_ind.
    - simpl in Hp. by injection Hp as <- <- <-.
    - rewrite last_snoc, removelast_last in Hp.
      destruct (decide (joinable a b)) as [[Hj1 Hj2]|Hj]; injection Hp as <- <- <-; [|done].
      rewrite used_app, used_cons, Hj1. simpl. by rewrite app_nil_r. }
  destruct (free_next b' b2 fl1) as [[b'' b2'] fl2] eqn:Hn. injection Ha as <- <- <-.
  exists b1', b'', b2'. split; [done|]. split; [done|].
  assert (is_free b'' = true /\ used b2' = used b2 /\ (length b2' <= length b2)%nat) as (Hf' & Hu & Hlen).
  { unfold free_next in Hn. destruct b2 as [|c b2]; [by injection Hn as <- <- <-|].
    destruct (decide (is_free c = true /\ b_end b' = b_addr c)) as [[Hj1 Hj2]|Hj];
      injection Hn as <- <- <-; [|done].
    split; [done|]. split; [by rewrite used_cons, Hj1|simpl; lia]. }
  split; [done|]. split; [|done]. rewrite used_app, used_cons, Hf', H1. simpl. apply app_nil_r.
Qed.

Definition not_tagged (tag : Z) (b : block) : bool := negb (bool_decide (b_tag b = Some tag)).

(** What the loop over the blocks of one heap does: the blocks that stay in use
    are those with another tag, with their data. *)
Record tag_freed (A : arena) (tag : Z) (bs : list block) (m m' : words) (bs' : list block)
    (fl' : list Z) : Prop := {
  tf_rep : heap_rep A m' bs' fl';
  tf_used : used bs' = List.filter (not_tagged tag) (used bs);
  tf_inv : coalesced bs -> tiles (ar_lo A) bs (ar_hi A) ->
    coalesced bs' /\ tiles (ar_lo A) bs' (ar_hi A);
  tf_data : forall c x, In c (used bs') -> data c x -> m' x = m x }.

Lemma touched_arena A m bs fl N F x :
  arena_ok A -> heap_rep A m bs fl ->
  (forall y, In y N -> In y (ar_head A :: addrs bs)) ->
  (forall y, In y F -> In y (ar_head A :: addrs bs)) ->
  touched N F x -> arena_words A x.
Proof.
  intros HA Hr HN HF.
  assert (forall y, In y (ar_head A :: addrs bs) -> y <= x < y + 24 -> arena_words A x) as H.
  { intros y [<-|Hy] Hx; [left; lia|right].
    pose proof (node_range A bs (hr_spaced _ _ _ _ Hr) y Hy). lia. }
  intros [(y & Hy & Hx)|(y & Hy & Hx)]; apply (H y); auto. lia.
Qed.

Section Tagged.
Context (malloc_head : Z) (A : arena) (HA : arena_ok A).
Context (Hhead : ar_head A = head_of malloc_head (ar_heap A)).

Lemma tagged_step_block m pre c post fl tag :
  heap_rep A m (pre ++ c :: post) fl ->
  tagged_step malloc_head (ar_head A) tag (m, b_addr c) =
  if not_tagged tag c then Ok (Continue (m, hd (ar_head A) (addrs post)))
  else let '(m', ah) := free_block malloc_head m (b_addr c) in
       Ok (Continue (m', m' (ah + o_next))).
Proof.
  intros Hr. pose proof (heap_rep_links _ _ _ _ HA Hr) as Hl.
  destruct (heap_rep_block _ _ _ _ _ _ Hr) as (Hin & Hok & Hat).
  pose proof (in_NoDup_head _ _ _ (li_NoDup _ _ _ _ Hl) Hin) as Hne.
  destruct Hat as [Hat Htag]. unfold tagged_step. rewrite decide_False by done.
  rewrite Hat, Htag, type_get_mk by (apply HA || apply Hok || by destruct (is_free c)).
  destruct (ring_around A m pre c post _ Hr) as [Hn _].
  unfold not_tagged, is_free. destruct (b_tag c) as [t|]; simpl.
  - destruct (decide (t = tag)) as [->|Ht].
    + rewrite decide_True, bool_decide_true by done. by destruct (free_block _ _ _).
    + rewrite decide_False, bool_decide_false by congruence || tauto. simpl. by rewrite Hn.
  - by rewrite Hn.
Qed.

Lemma tagged_loop fuel m pre post fl tag :
  heap_rep A m (pre ++ post) fl -> (length post < fuel)%nat ->
  Forall (fun b => not_tagged tag b = true) (used pre) ->
  exists m' bs' fl',
    loop fuel (tagged_step malloc_head (ar_head A) tag) (m, hd (ar_head A) (addrs post)) = Ok m' /\
    tag_freed A tag (pre ++ post) m m' bs' fl' /\ (forall x, ~ arena_words A x -> m' x = m x).
Proof.
  revert m pre post fl. induction fuel as [|fuel IH]; intros m pre post fl Hr Hfuel Hpre; [lia|].
  assert (List.filter (not_tagged tag) (used pre) = used pre) as Hpref.
  { apply forallb_filter_id, forallb_forall. intros y Hy.
    by apply (proj1 (Forall_forall _ _) Hpre), list_elem_of_In. }
  destruct post as [|c post].
  - exists m, pre, fl. rewrite app_nil_r in *. split.
    + apply loop_break. simpl. by rewrite decide_True.
    + split; [constructor; done|done].
  - simpl in Hfuel. cbn [addrs map hd].
    pose proof (tagged_step_block m pre c post fl tag Hr) as Hstep.
    destruct (not_tagged tag c) eqn:Hc.
    + rewrite (loop_continue _ _ _ _ Hstep).
      destruct (IH m (pre ++ [c]) post fl) as (m' & bs' & fl' & Hl & Hf & Hfr);
        [by rewrite <- app_assoc|lia| |].
      { rewrite used_app, used_cons. destruct (is_free c); simpl; [by rewrite app_nil_r|].
        apply Forall_app. split; [done|by repeat constructor]. }
      exists m', bs', fl'. split; [done|]. by rewrite <- app_assoc in Hf.
    + assert (is_free c = false) as Hcu.
      { unfold not_tagged in Hc. unfold is_free. destruct (b_tag c); [done|].
        rewrite bool_decide_false in Hc by done. done. }
      destruct (a_free pre c post fl) as [[bs1 fl1] ah] eqn:Ha.
      destruct (free_block_rep malloc_head A HA Hhead m pre c post fl bs1 fl1 ah Hr Hcu Ha)
        as (m1 & Hfb & Hr1 & Hw1). rewrite Hfb in Hstep.
      destruct (a_free_shape _ _ _ _ _ _ _ Ha) as (b1' & d & b2' & -> & -> & Hd & Hu1 & Hu2 & Hlen).
      rewrite (loop_continue _ _ _ _ Hstep).
      destruct (ring_around A m1 b1' d b2' _ Hr1) as [-> _].
      destruct (IH m1 (b1' ++ [d]) b2' fl1) as (m' & bs' & fl' & Hl & Hf & F5);
        [by rewrite <- app_assoc|lia|by rewrite Hu1|].
      rewrite <- app_assoc in Hf. exists m', bs', fl'. split; [done|].
      destruct Hf as [F1 F2 F3 F4]. simpl in F2, F3.
      pose proof (a_free_used _ _ _ _ _ _ _ Ha) as Hua.
      assert (used bs' = List.filter (not_tagged tag) (used (pre ++ c :: post))) as Hub.
      { rewrite F2, Hua, used_app, used_cons, Hcu, !List.filter_app. simpl. by rewrite Hc. }
      split; [constructor; [done|done| |]|].
      * intros Hco Hti. apply F3; by eapply a_free_inv.
      * intros e x He Hx. rewrite (F4 e x He Hx).
        apply (free_data A HA m m1 _ pre c post fl e x Hr eq_refl Hcu Hw1); [|done].
        rewrite F2, Hua in He. by apply filter_In in He as [He _].
      * intros x Hx. rewrite (F5 x Hx). apply Hw1. intros Ht. apply Hx.
        eapply touched_arena; [done|exact Hr| | |exact Ht]; [done|].
        intros y [<-|[<-|Hy]]; [by left|right; apply In_addrs; exists c; split; [apply in_or_app; right; by left|done]|].
        right. by eapply heap_rep_free_In.
Qed.
End Tagged.

End Malloc.
