(* ===== verification/MallocSpec.v ===== *)
(** * The guarantees of the memory allocator

    The properties of the operations of [Malloc]: their refinement of the
    abstract allocator on lists of blocks, the isolation of the allocations of
    a client, the absence of leaks, the initialisation of the two heaps, the
    release of the blocks of one owner, and the request sizes that wrap. *)

From Stdlib Require Import ZArith Lia.
From S2P Require Import Prelude DList Malloc.
Import Malloc.Malloc.

Module MallocSpec.

(** ** Initialisation *)

Lemma heap_rep_empty A m :
  m (ar_head A + o_next) = ar_head A -> m (ar_head A + o_prev) = ar_head A ->
  m (ar_head A + o_next_free) = ar_head A -> m (ar_head A + o_prev_free) = ar_head A ->
  m (ar_head A + o_attrs) = mk_attrs 0 (ar_heap A) ARENA_TYPE_HEAD -> ar_lo A <= ar_hi A ->
  heap_rep A m [] [].
Proof. intros. constructor; done. Qed.

(** The two heaps: [main] is main_heap, [low] is __lowmem_heap and [kb] the
    word at 0x413. *)
Definition main_arena (mh main : Z) : arena :=
  Arena (head_of mh 0) 0 main (main + 0x20000).

Definition low_size (low kb : Z) : Z := (kb * 1024 - low) / 16 * 16.

Definition low_arena (mh low kb : Z) : arena :=
  Arena (head_of mh 1) 1 low (low + low_size low kb).

Definition apart (lo hi lo' hi' : Z) : Prop := hi <= lo' \/ hi' <= lo.

(** The memory map the linker and the BIOS provide. *)
Record layout_ok (mh main low kb : Z) : Prop := {
  lo_main : 64 <= main /\ main + 0x20000 < 0x100000000 /\ main mod 16 = 0;
  lo_low : 64 <= low /\ low + 32 <= kb * 1024 < 0x100000000 /\ low mod 16 = 0;
  lo_heads : apart mh (mh + 64) main (main + 0x20000) /\ apart mh (mh + 64) low (kb * 1024);
  lo_apart : apart main (main + 0x20000) low (kb * 1024) }.

Lemma low_size_bounds low kb :
  low + 32 <= kb * 1024 -> 32 <= low_size low kb <= kb * 1024 - low /\ low_size low kb mod 16 = 0.
Proof. unfold low_size. intros. split; dlia. Qed.

Lemma layout_arenas mh main low kb :
  layout_ok mh main low kb ->
  arena_ok (main_arena mh main) /\ arena_ok (low_arena mh low kb) /\
  forall x, ~ (arena_words (main_arena mh main) x /\ arena_words (low_arena mh low kb) x).
Proof.
  intros [Hm Hl [Hh1 Hh2] Ha]. unfold apart in *. pose proof (low_size_bounds low kb) as Hs.
  split; [|split].
  - constructor; unfold main_arena, head_of; simpl; lia.
  - constructor; unfold low_arena, head_of; simpl; lia.
  - unfold arena_words, main_arena, low_arena, head_of. simpl. lia.
Qed.

(** The header that [mem_init] gives a heap before it injects it. *)
Definition init_hdr (m : words) (p attrs size : Z) : words :=
  upd_attrs ARENA_SIZE_SET (st m (p + o_attrs) attrs) p size.

Lemma init_hdr_other m p attrs size x : x <> p + o_attrs -> init_hdr m p attrs size x = m x.
Proof. intros. unfold init_hdr, upd_attrs. by rewrite !st_ne. Qed.

Lemma init_hdr_attrs m p heap size :
  0 <= heap < 4 -> Z.lor ARENA_TYPE_USED (Z.shiftl heap 2) = mk_attrs 0 heap 0 ->
  init_hdr m p (Z.lor ARENA_TYPE_USED (Z.shiftl heap 2)) size (p + o_attrs) =
    mk_attrs (size - size mod 16) heap ARENA_TYPE_USED.
Proof.
  intros Hh E. unfold init_hdr, upd_attrs. rewrite !st_eq, E.
  assert (ARENA_SIZE_SET (mk_attrs 0 heap 0) size = ARENA_SIZE_SET (mk_attrs 0 heap 0) (size - size mod 16)) as ->.
  { unfold ARENA_SIZE_SET. rewrite !land_not15. f_equal. dlia. }
  apply size_set_mk; (done || dlia).
Qed.

(** Injecting the only block of a heap. *)
Lemma inject_first malloc_head A fuel m r :
  arena_ok A -> ar_head A = head_of malloc_head (ar_heap A) ->
  heap_rep A m [] [] -> (0 < fuel)%nat -> block_ok r -> is_free r = false ->
  block_at m (ar_heap A) r -> ar_lo A <= b_addr r -> b_end r <= ar_hi A ->
  exists m', inject_free_block malloc_head fuel m (b_addr r) = Ok m' /\
    heap_rep A m' [set_tag None r] [b_addr r] /\ forall x, ~ arena_words A x -> m' x = m x.
Proof.
  intros HA Hhead Hr Hfuel Hok Hu Hat Hlo Hhi.
  destruct (inject_rep malloc_head A HA Hhead fuel m [] [] r Hr Hfuel Hok Hu Hat Hlo Hhi)
    as (m' & Hm & [(_ & c & [] & _)|(b1 & b2 & bs' & fl' & ah & Hb & _ & Ha & Hr' & Hf)]).
  symmetry in Hb. apply app_eq_nil in Hb as [-> ->].
  unfold a_free in Ha. simpl in Ha. injection Ha as <- <- <-. eauto.
Qed.

Lemma mem_init_rep mh main low kb fuel m :
  layout_ok mh main low kb -> (0 < fuel)%nat ->
  exists m', mem_init mh fuel main low kb m = Ok m' /\
    heap_rep (main_arena mh main) m' [Block main 0x20000 None] [main] /\
    heap_rep (low_arena mh low kb) m' [Block low (low_size low kb) None] [low].
Proof.
  intros HL Hfuel. destruct (layout_arenas _ _ _ _ HL) as (HA0 & HA1 & Hdis).
  destruct HL as [Hm Hl [Hh1 Hh2] Ha]. unfold apart in *.
  pose proof (low_size_bounds low kb) as Hs. 
  unfold mem_init. fold (init_hdr (init_head mh (init_head mh m 0) 1) main
    (Z.lor ARENA_TYPE_USED (Z.shiftl HEAP_MAIN 2)) (Z.shiftl 128 10)).
  set (m0 := init_head mh (init_head mh m 0) 1).
  assert (forall i f, (i = 0 \/ i = 1) -> (f = 8 \/ f = 12 \/ f = 16 \/ f = 20) ->
    m0 (head_of mh i + f) = head_of mh i) as Hlinks.
  { intros i f Hi Hf. subst m0. unfold init_head, head_of. unfold st.
    repeat (case_decide; [lia|]). exfalso. lia. }
  assert (forall i, (i = 0 \/ i = 1) -> m0 (head_of mh i + o_attrs) = mk_attrs 0 i ARENA_TYPE_HEAD) as Hattr.
  { intros i Hi. subst m0. unfold init_head, head_of, st.
    destruct Hi as [-> | ->]; repeat (case_decide; [done || lia|]); exfalso; lia. }
  clearbody m0. cbv zeta.
  set (m1 := init_hdr m0 main _ _).
  assert (forall x, x <> main + o_attrs -> m1 x = m0 x) as H1 by (intros; by apply init_hdr_other).
  assert (exists m2, inject_free_block mh fuel m1 main = Ok m2 /\
    heap_rep (main_arena mh main) m2 [Block main 0x20000 None] [main] /\
    forall x, ~ arena_words (main_arena mh main) x -> m2 x = m1 x) as (m2 & -> & Hr2 & Hf2).
  { apply (inject_first mh (main_arena mh main) fuel m1
      (Block main 0x20000 (Some (m1 (main + o_tag))))); try done; simpl; try lia.
    - apply heap_rep_empty; simpl; unfold head_of in *; rewrite ?H1 by lia;
        (apply Hlinks || apply Hattr || idtac); auto; lia.
    - split; simpl; [lia|]. split; [done|]. lia.
    - split; [|done]. unfold m1. simpl. rewrite init_hdr_attrs; done. }
  cbn [mbind result_bind]. cbv zeta.
  fold (init_hdr m2 low (Z.lor ARENA_TYPE_USED (Z.shiftl HEAP_LOWMEM 2))
    (u32 (Z.shiftl kb 10 - low))).
  set (m3 := init_hdr m2 low _ _).
  assert (forall x, x <> low + o_attrs -> m3 x = m2 x) as H3 by (intros; by apply init_hdr_other).
  assert (forall x, arena_words (low_arena mh low kb) x -> x <> low + o_attrs -> m3 x = m0 x) as H30.
  { intros x Hx Hne. rewrite H3 by done. rewrite Hf2; [|intros Hx0; by apply (Hdis x)].
    apply H1. intros ->. apply (Hdis (main + o_attrs)). split; [|done]. right. simpl. lia. }
  assert (exists m4, inject_free_block mh fuel m3 low = Ok m4 /\
    heap_rep (low_arena mh low kb) m4 [Block low (low_size low kb) None] [low] /\
    forall x, ~ arena_words (low_arena mh low kb) x -> m4 x = m3 x) as (m4 & -> & Hr4 & Hf4).
  { apply (inject_first mh (low_arena mh low kb) fuel m3
      (Block low (low_size low kb) (Some (m3 (low + o_tag))))); try done; simpl; try lia.
    - apply heap_rep_empty; simpl; unfold head_of in *;
        try (rewrite H30; [|left; unfold low_arena, head_of; simpl; lia|lia]);
        (apply Hlinks || apply Hattr || idtac); auto; lia.
    - split; simpl; lia.
    - split; [|done]. unfold m3. simpl. rewrite init_hdr_attrs; [|lia|done].
      rewrite shiftl_mul by lia. change (2 ^ 10) with 1024. rewrite u32_small by lia.
      f_equal. unfold low_size. dlia. }
  exists m4. split; [done|]. split; [|done].
  apply (heap_rep_frame _ m2); [done| |done].
  intros x Hx. rewrite Hf4 by (intros ?; by apply (Hdis x)). apply H3.
  intros ->. apply (Hdis (low + o_attrs)). split; [done|]. right. simpl. lia.
Qed.

(** ** malloc and free *)

(** C1. An allocation of [n] bytes returns, with fuel for the free chain, the
    payload of the first block of the chain that is big enough, split when the
    rest can hold a free block, and NULL when there is none; the heap stays
    well formed and the data of the blocks in use does not change. *)
Theorem malloc_refines malloc_head A fuel m bs fl n tag :
  arena_ok A -> ar_head A = head_of malloc_head (ar_heap A) -> heap_rep A m bs fl ->
  0 < n <= 0x100000000 - 32 -> (length fl < fuel)%nat ->
  exists m' bs' fl' p,
    _malloc malloc_head fuel m n (ar_heap A) tag = Ok (m', p) /\
    a_malloc (round_size n) tag bs fl bs' fl' p /\ heap_rep A m' bs' fl' /\
    (forall c x, In c (used bs) -> data c x -> m' x = m x) /\
    (forall x, ~ arena_words A x -> m' x = m x).
Proof.
  intros HA Hhead Hr Hn Hfuel.
  destruct (malloc_rep malloc_head A HA Hhead fuel m bs fl n tag Hr Hn Hfuel)
    as (m' & bs' & fl' & p & Hm & Ham & Hr' & Hw).
  exists m', bs', fl', p. split; [done|]. split; [done|]. split; [done|]. split.
  - intros c x. by eapply malloc_data.
  - intros x Hx. apply Hw. intros Ht. apply Hx.
    eapply touched_arena; [done|exact Hr'| | |exact Ht]; [done|].
    intros y [<-|[Hy|Hy]%in_app_or]; [by left| |right; by eapply heap_rep_free_In].
    right. eapply a_malloc_addrs; [exact Ham|]. by eapply heap_rep_free_In.
Qed.

(** C2. Freeing a block in use merges it with the free blocks it touches: the
    heap becomes that of the abstract [a_free], no two free blocks touch, and
    the data of the other blocks in use does not change. *)
Theorem free_refines malloc_head A m b1 b b2 fl bs' fl' ah :
  arena_ok A -> ar_head A = head_of malloc_head (ar_heap A) ->
  heap_rep A m (b1 ++ b :: b2) fl -> is_free b = false -> a_free b1 b b2 fl = (bs', fl', ah) ->
  exists m', free malloc_head m (b_addr b + hdr) = m' /\
    free_block malloc_head m (b_addr b) = (m', ah) /\ heap_rep A m' bs' fl' /\
    used bs' = used b1 ++ used b2 /\ (coalesced (b1 ++ b :: b2) -> coalesced bs') /\
    (forall c x, In c (used bs') -> data c x -> m' x = m x).
Proof.
  intros HA Hhead Hr Hb Ha.
  destruct (free_block_rep malloc_head A HA Hhead m b1 b b2 fl bs' fl' ah Hr Hb Ha)
    as (m' & Hm & Hr' & Hw).
  pose proof (a_free_used _ _ _ _ _ _ _ Ha) as Hu.
  exists m'. split; [|split; [done|split; [done|split; [done|split]]]].
  - unfold free. destruct (spaced_In _ _ _ b (hr_spaced _ _ _ _ Hr)) as (Hlo & _);
      [apply in_or_app; right; by left|].
    rewrite decide_False by (destruct HA; lia).
    replace (b_addr b + hdr - hdr) with (b_addr b) by lia. by rewrite Hm.
  - intros Hc. by eapply a_free_coalesced.
  - intros c x Hc. rewrite Hu in Hc. by eapply free_data.
Qed.

(** ** Clients *)

Section Reachable.
Context (malloc_head : Z) (A : arena) (HA : arena_ok A).
Context (Hhead : ar_head A = head_of malloc_head (ar_heap A)).

(** One step of the client, whatever its label. *)
Definition any_step (s s' : words * list alloc) : Prop :=
  exists o, client_step malloc_head A o s s'.

Lemma reachable_inv s s' :
  rtc any_step s s' -> heap_inv A s.1 s.2 -> heap_inv A s'.1 s'.2.
Proof.
  induction 1 as [|[m L] [m' L'] s'' [o Hstep] _ IH]; [done|]. intros Hi.
  apply IH. by apply (client_step_ok malloc_head A HA Hhead o m L m' L').
Qed.

Lemma Forall2_disjoint m bs fl ub L i j a b :
  heap_rep A m bs fl -> ub ≡ₚ used bs -> Forall2 alloc_of L ub ->
  L !! i = Some a -> L !! j = Some b -> i <> j ->
  a_ptr a + a_size a <= a_ptr b \/ a_ptr b + a_size b <= a_ptr a.
Proof.
  intros Hr Hub HL Ha Hb Hij.
  destruct (Forall2_lookup_l _ _ _ _ _ HL Ha) as (c & Hc & Hc1 & Hc2 & _).
  destruct (Forall2_lookup_l _ _ _ _ _ HL Hb) as (d & Hd & Hd1 & Hd2 & _).
  assert (NoDup (addrs ub)) as Hnd.
  { assert (addrs ub ≡ₚ addrs (used bs)) as -> by (by apply Permutation_map).
    pose proof (spaced_NoDup _ _ _ (hr_spaced _ _ _ _ Hr)) as Hnd. unfold addrs, used in *.
    clear -Hnd. induction bs as [|b bs IH]; [constructor|]. simpl in *.
    apply NoDup_cons in Hnd as [Hb Hnd]. destruct (negb (is_free b)); [|auto].
    simpl. constructor; [|auto]. intros Hin. apply Hb.
    apply list_elem_of_In, in_map_iff in Hin as (c & Hc & [Hc' _]%filter_In).
    apply list_elem_of_In, in_map_iff. eauto. }
  assert (b_addr d <> b_addr c) as Hne.
  { intros E. apply Hij. apply (NoDup_lookup _ i j (b_addr c) Hnd); unfold addrs;
      rewrite list_lookup_fmap; [by rewrite Hc|by rewrite Hd, <- E]. }
  assert (In c bs /\ In d bs) as [Hcb Hdb].
  { apply list_elem_of_lookup_2 in Hc, Hd. rewrite Hub in Hc, Hd.
    apply list_elem_of_In, In_used in Hc as [? _], Hd as [? _]. done. }
  pose proof (away_block _ _ _ c d (hr_spaced _ _ _ _ Hr) Hcb Hdb Hne) as Haw.
  pose proof (away_block _ _ _ d c (hr_spaced _ _ _ _ Hr) Hdb Hcb (not_eq_sym Hne)) as Haw'.
  unfold away, b_end in *. lia.
Qed.
End Reachable.

(** C5. For every sequence of allocations, frees of live allocations and stores
    into live allocations, the live allocations lie in the heap, are aligned
    to 16 bytes and do not overlap, and a step changes the contents of an
    allocation only if it is a store there. *)
Theorem client_isolation malloc_head A m0 m L :
  arena_ok A -> ar_head A = head_of malloc_head (ar_heap A) -> heap_inv A m0 [] ->
  rtc (any_step malloc_head A) (m0, []) (m, L) ->
  (forall i a, L !! i = Some a ->
     ar_lo A + hdr <= a_ptr a /\ a_ptr a mod 16 = 0 /\ a_ptr a + a_size a <= ar_hi A) /\
  (forall i j a b, L !! i = Some a -> L !! j = Some b -> i <> j ->
     a_ptr a + a_size a <= a_ptr b \/ a_ptr b + a_size b <= a_ptr a) /\
  (forall o m' L' a x, client_step malloc_head A o (m, L) (m', L') ->
     In a L -> In a L' -> a_ptr a <= x < a_ptr a + a_size a -> o <> Some x -> m' x = m x).
Proof.
  intros HA Hhead H0 Hreach.
  pose proof (reachable_inv malloc_head A HA Hhead _ _ Hreach H0) as Hinv. simpl in Hinv.
  pose proof Hinv as (bs & fl & ub & Hr & _ & _ & Hub & HL). split; [|split].
  - intros i a Ha. destruct (Forall2_lookup_l _ _ _ _ _ HL Ha) as (c & Hc & Hc1 & Hc2 & _).
    apply list_elem_of_lookup_2 in Hc. rewrite Hub in Hc.
    apply list_elem_of_In, In_used in Hc as [Hc _].
    destruct (spaced_In _ _ _ _ (hr_spaced _ _ _ _ Hr) Hc) as (Hlo & (_ & _ & Hmod) & Hhi).
    unfold b_end in Hhi. split; [lia|]. split; [dlia|lia].
  - intros i j a b. by eapply Forall2_disjoint.
  - intros o m' L' a x Hstep Ha Ha' Hx. 
    by apply (proj2 (client_step_ok malloc_head A HA Hhead o m L m' L' Hinv Hstep) a).
Qed.

(** The only block of a heap is the one that is allocated. *)
Lemma a_malloc_single size tag b fl bs' fl' p :
  a_malloc size tag [b] fl bs' fl' p -> is_free b = true -> size <= b_size b ->
  p = b_addr b + hdr.
Proof.
  intros Ham Hf Hsz. remember [b] as bs eqn:Hbs.
  destruct Ham as [bs fl Hno|b1 c b2 f1 f2 _ _ _|b1 c b2 f1 f2 _ _ _].
  - subst bs. specialize (Hno b (or_introl eq_refl) Hf). lia.
  - destruct b1 as [|? []]; [|discriminate Hbs..]. by injection Hbs as -> _.
  - destruct b1 as [|? []]; [|discriminate Hbs..]. by injection Hbs as -> _.
Qed.

(** C6. When a client has freed everything it allocated, the heap is one free
    block again, and any request that fits into it is granted. *)
Theorem no_leak malloc_head A m0 m n tag :
  arena_ok A -> ar_head A = head_of malloc_head (ar_heap A) -> heap_inv A m0 [] ->
  rtc (any_step malloc_head A) (m0, []) (m, []) ->
  0 < n -> round_size n <= ar_hi A - ar_lo A ->
  heap_rep A m [Block (ar_lo A) (ar_hi A - ar_lo A) None] [ar_lo A] /\
  exists m', _malloc malloc_head 2 m n (ar_heap A) tag = Ok (m', ar_lo A + hdr).
Proof.
  intros HA Hhead H0 Hreach Hn Hfit.
  pose proof (reachable_inv malloc_head A HA Hhead _ _ Hreach H0) as Hinv. simpl in Hinv.
  destruct Hinv as (bs & fl & ub & Hr & Hc & Ht & Hub & HL).
  apply Forall2_nil_inv_l in HL as ->. symmetry in Hub. apply Permutation_nil_r in Hub.
  destruct (round_size_bounds n Hn) as (Hrs & _).
  destruct (all_free_single bs _ _ Hc Ht) as [->|(b & -> & Hlo & Hhi)].
  { apply Forall_forall. intros b Hb. destruct (is_free b) eqn:Hf; [done|].
    assert (In b (used bs)) as Hin by (apply In_used; split; [by apply list_elem_of_In|done]).
    by rewrite Hub in Hin. }
  { simpl in Ht. exfalso. lia. }
  assert (b_tag b = None) as Hfree.
  { rewrite used_cons in Hub. unfold is_free in Hub. by destruct (b_tag b). }
  assert (b = Block (ar_lo A) (ar_hi A - ar_lo A) None) as ->.
  { destruct b as [ba bsz bt]. unfold b_end in Hhi. simpl in *. subst. f_equal. lia. }
  assert (fl = [ar_lo A]) as ->.
  { pose proof (hr_perm _ _ _ _ Hr) as Hp. by apply Permutation_singleton_r in Hp. }
  split; [done|].
  destruct (malloc_rep malloc_head A HA Hhead 2 m _ _ n tag Hr) as (m' & bs' & fl' & p & -> & Ham & _);
    [destruct HA; lia|simpl; lia|]. exists m'. do 2 f_equal.
  by apply (a_malloc_single _ _ _ _ _ _ _ Ham).
Qed.

Lemma heap_inv_init A m size fl :
  heap_rep A m [Block (ar_lo A) size None] fl -> ar_lo A + size = ar_hi A -> heap_inv A m [].
Proof. intros Hr He. exists [Block (ar_lo A) size None], fl, []. by split_and!. Qed.

(** Initialisation sets up both heaps, each with one free block: 128 KB of
    main memory, and what the BIOS reports as free below the limit. *)
Theorem mem_init_ok mh main low kb fuel m :
  layout_ok mh main low kb -> (0 < fuel)%nat ->
  exists m', mem_init mh fuel main low kb m = Ok m' /\
    heap_inv (main_arena mh main) m' [] /\ heap_inv (low_arena mh low kb) m' [] /\
    heap_rep (main_arena mh main) m' [Block main 0x20000 None] [main] /\
    heap_rep (low_arena mh low kb) m' [Block low (low_size low kb) None] [low].
Proof.
  intros HL Hfuel. destruct (mem_init_rep mh main low kb fuel m HL Hfuel) as (m' & Hm & H0 & H1).
  exists m'. split; [done|]. split; [|split; [|done]].
  - by apply (heap_inv_init _ _ _ _ H0).
  - by apply (heap_inv_init _ _ _ _ H1).
Qed.

(** Freeing by tag ends with the fuel of the longer heap; it frees exactly
    the blocks with that tag in both heaps, keeps the heaps well formed and
    coalesced, and the data of the blocks that stay in use. *)
Theorem free_tagged_ok mh A0 A1 m bs0 fl0 bs1 fl1 tag fuel :
  arena_ok A0 -> arena_ok A1 -> ar_head A0 = head_of mh 0 -> ar_head A1 = head_of mh 1 ->
  ar_heap A0 = 0 -> ar_heap A1 = 1 -> (forall x, ~ (arena_words A0 x /\ arena_words A1 x)) ->
  heap_rep A0 m bs0 fl0 -> heap_rep A1 m bs1 fl1 ->
  (length bs0 < fuel)%nat -> (length bs1 < fuel)%nat ->
  exists m' bs0' fl0' bs1' fl1', free_tagged mh fuel m tag = Ok m' /\
    tag_freed A0 tag bs0 m m' bs0' fl0' /\ tag_freed A1 tag bs1 m m' bs1' fl1'.
Proof.
  intros HA0 HA1 Hh0 Hh1 Hp0 Hp1 Hdis Hr0 Hr1 Hf0 Hf1. unfold free_tagged.
  rewrite <- Hh0, <- Hh1, (ring_first _ _ _ _ _ (hr_all _ _ _ _ Hr0)).
  destruct (tagged_loop mh A0 HA0 ltac:(by rewrite Hp0) fuel m [] bs0 fl0 tag Hr0 Hf0)
    as (m1 & bs0' & fl0' & -> & HT0 & Hfr0); [constructor|]. cbn [mbind result_bind].
  assert (heap_rep A1 m1 bs1 fl1) as Hr1'.
  { apply (heap_rep_frame A1 m); [done| |done]. intros x Hx. apply Hfr0. intros Hx0. by apply (Hdis x). }
  rewrite (ring_first _ _ _ _ _ (hr_all _ _ _ _ Hr1')).
  destruct (tagged_loop mh A1 HA1 ltac:(by rewrite Hp1) fuel m1 [] bs1 fl1 tag Hr1' Hf1)
    as (m2 & bs1' & fl1' & Hl1 & HT1 & Hfr1); [constructor|].
  exists m2, bs0', fl0', bs1', fl1'. split; [done|]. simpl in HT0, HT1. 
  assert (forall A m bs fl c x, heap_rep A m bs fl -> In c (used bs) -> data c x ->
    arena_words A x) as Hdw.
  { intros A m' bs fl c x Hr Hc Hx. right. apply In_used in Hc as [Hc _].
    destruct (spaced_In _ _ _ _ (hr_spaced _ _ _ _ Hr) Hc) as (Hlo & _ & Hhi).
    unfold data in Hx. lia. }
  destruct HT0 as [F1 F2 F3 F4], HT1 as [G1 G2 G3 G4]. split; constructor; try done.
  - apply (heap_rep_frame A0 m1); [done| |done]. intros x Hx. apply Hfr1. intros Hx1.
    by apply (Hdis x).
  - intros c x Hc Hx. rewrite Hfr1; [by eapply F4|]. intros Hx1. apply (Hdis x).
    split; [by eapply Hdw|done].
  - intros c x Hc Hx. rewrite (G4 c x Hc Hx). apply Hfr0. intros Hx0. apply (Hdis x).
    split; [done|by eapply Hdw].
Qed.

(** The size computation wraps: a request of more than 2^32 - 16 bytes is
    granted from any first free block, although no block is that big. *)
Theorem malloc_wraps malloc_head A m b1 b b2 fl n tag :
  arena_ok A -> ar_head A = head_of malloc_head (ar_heap A) ->
  heap_rep A m (b1 ++ b :: b2) (b_addr b :: fl) ->
  0x100000000 - 15 <= n < 0x100000000 ->
  b_size b < n /\
  exists m', _malloc malloc_head 1 m n (ar_heap A) tag = Ok (m', b_addr b + hdr).
Proof.
  intros HA Hhead Hr Hn.
  assert (In b (b1 ++ b :: b2)) as Hin by (apply in_or_app; right; by left).
  destruct (spaced_In _ _ _ _ (hr_spaced _ _ _ _ Hr) Hin) as (Hlo & [Hb _] & Hhi).
  split; [unfold b_end in Hhi; destruct HA; lia|].
  unfold _malloc. rewrite decide_False by lia.
  replace (Z.land (u32 (n + 2 * hdr - 1)) (Z.lnot 15)) with 16.
  2: { rewrite land_not15. unfold u32. dlia. }
  rewrite <- Hhead, (ring_first _ _ _ _ _ (hr_free _ _ _ _ Hr)). simpl hd.
  rewrite (loop_break _ _ _ (Some (b_addr b))).
  - simpl. unfold malloc_from_block. by eexists.
  - unfold fit_step. rewrite (size_at A HA _ _ _ _ Hr Hin).
    rewrite decide_False; [by rewrite decide_True by lia|].
    apply (in_NoDup_head _ (b_addr b) _ (li_NoDup _ _ _ _ (heap_rep_links _ _ _ _ HA Hr))).
    apply In_addrs. eauto.
Qed.

(** ** Concrete heaps *)

(** Heads at 0x1000, the low heap from 0x8000 up to 636 KB, main_heap at 1 MB. *)
Lemma demo_layout : layout_ok 0x1000 0x100000 0x8000 636.
Proof. constructor; unfold apart; split_and?; first [done | lia]. Qed.

Definition demo_main : arena := main_arena 0x1000 0x100000.

Lemma demo_main_ok : arena_ok demo_main /\ ar_head demo_main = head_of 0x1000 (ar_heap demo_main).
Proof. split; [constructor; simpl; unfold head_of; lia|done]. Qed.

Lemma mem_init_ok_witness :
  exists m', mem_init 0x1000 5 0x100000 0x8000 636 (fun _ => 7) = Ok m' /\
    heap_inv demo_main m' [].
Proof.
  destruct (mem_init_ok 0x1000 0x100000 0x8000 636 5 (fun _ => 7) demo_layout) as (m' & Hm & Hi & _);
    [lia|]. exists m'. split; [exact Hm|exact Hi].
Defined.

Lemma malloc_refines_witness :
  exists m m' p, heap_rep demo_main m [Block 0x100000 0x20000 None] [0x100000] /\
    _malloc 0x1000 5 m 100 0 MALLOC_CORE = Ok (m', p) /\ p = 0x100000 + hdr.
Proof.
  destruct (mem_init_rep 0x1000 0x100000 0x8000 636 5 (fun _ => 7) demo_layout) as (m & Hm & Hr & _);
    [lia|]. destruct demo_main_ok as [HA Hh].
  destruct (malloc_refines 0x1000 demo_main 5 m _ _ 100 MALLOC_CORE HA Hh Hr)
    as (m' & bs' & fl' & p & Hp & Ha & _); [lia|simpl; lia|].
  exists m, m', p. split; [exact Hr|]. split; [exact Hp|].
  apply (a_malloc_single _ _ _ _ _ _ _ Ha); [reflexivity|].
  vm_compute. discriminate.
Defined.

Lemma malloc_wraps_witness :
  exists m m' p, _malloc 0x1000 1 m 0xffffffff 0 MALLOC_CORE = Ok (m', p) /\ p <> 0.
Proof.
  destruct (mem_init_rep 0x1000 0x100000 0x8000 636 5 (fun _ => 7) demo_layout) as (m & Hm & Hr & _);
    [lia|]. destruct demo_main_ok as [HA Hh].
  destruct (malloc_wraps 0x1000 demo_main m [] (Block 0x100000 0x20000 None) [] [] 0xffffffff
    MALLOC_CORE HA Hh Hr) as (_ & m' & Hm'); [lia|].
  exists m, m', (0x100000 + hdr). split; [exact Hm'|discriminate].
Defined.

(** A heap with an allocation of 100 bytes at its start. *)
Lemma demo_allocated :
  exists m fl, heap_rep demo_main m
    ([] ++ Block 0x100000 128 (Some MALLOC_CORE) :: [Block 0x100080 (0x20000 - 128) None]) fl.
Proof.
  destruct (mem_init_rep 0x1000 0x100000 0x8000 636 5 (fun _ => 7) demo_layout) as (m & Hm & Hr & _);
    [lia|]. destruct demo_main_ok as [HA Hh].
  eexists _, _. 
  apply (split_rep demo_main m [] (Block 0x100000 0x20000 None) [] [] [] 128 MALLOC_CORE HA Hr);
    simpl; done || lia.
Qed.

Lemma free_refines_witness :
  exists m m' fl', free 0x1000 m (0x100000 + hdr) = m' /\
    heap_rep demo_main m' [Block 0x100000 0x20000 None] fl'.
Proof.
  destruct demo_allocated as (m & fl & Hr). destruct demo_main_ok as [HA Hh].
  destruct (free_refines 0x1000 demo_main m [] (Block 0x100000 128 (Some MALLOC_CORE))
    [Block 0x100080 (0x20000 - 128) None] fl _ _ _ HA Hh Hr eq_refl eq_refl)
    as (m' & Hm & _ & Hr' & _).
  exists m, m'. eexists. split; [exact Hm|]. exact Hr'.
Defined.

(** Two steps of a client: allocate 100 bytes and free them. *)
Lemma demo_run :
  exists m m1 L, heap_inv demo_main m [] /\ rtc (any_step 0x1000 demo_main) (m, []) (m1, L) /\
    L = [Alloc (0x100000 + hdr) 100 MALLOC_CORE] /\
    exists m2, rtc (any_step 0x1000 demo_main) (m, []) (m2, []).
Proof.
  destruct (mem_init_rep 0x1000 0x100000 0x8000 636 5 (fun _ => 7) demo_layout) as (m & Hm & Hr & _);
    [lia|]. destruct demo_main_ok as [HA Hh].
  destruct (malloc_rep 0x1000 demo_main HA Hh 5 m _ _ 100 MALLOC_CORE Hr)
    as (m1 & bs' & fl' & p & Hp & Ha & _); [lia|simpl; lia|].
  assert (p = 0x100000 + hdr) as ->.
  { apply (a_malloc_single _ _ _ _ _ _ _ Ha); [done|]. by vm_compute. }
  assert (any_step 0x1000 demo_main (m, []) (m1, [Alloc (0x100000 + hdr) 100 MALLOC_CORE])) as Hs.
  { exists None. apply (cs_malloc _ _ m [] 5); [lia|done|done]. }
  exists m, m1, [Alloc (0x100000 + hdr) 100 MALLOC_CORE].
  split; [exact (heap_inv_init demo_main _ _ _ Hr eq_refl)|].
  split; [by apply rtc_once|]. split; [done|].
  exists (free 0x1000 m1 (0x100000 + hdr)). apply (rtc_l _ _ _ _ Hs), rtc_once.
  exists None. apply (cs_free _ _ m1 [] (Alloc (0x100000 + hdr) 100 MALLOC_CORE) []).
Qed.

Lemma client_isolation_witness :
  exists m L, heap_inv demo_main m [] /\ rtc (any_step 0x1000 demo_main) (m, []) L /\
    (forall i a, L.2 !! i = Some a -> a_ptr a mod 16 = 0).
Proof.
  destruct demo_run as (m & m1 & L & Hi & Hr & _). destruct demo_main_ok as [HA Hh].
  exists m, (m1, L). split; [exact Hi|]. split; [exact Hr|]. intros i a Ha.
  exact (proj1 (proj2 (proj1 (client_isolation 0x1000 demo_main m m1 L HA Hh Hi Hr) i a Ha))).
Defined.

Lemma no_leak_witness :
  exists m m', _malloc 0x1000 2 m 131056 0 MALLOC_CORE = Ok (m', 0x100000 + hdr).
Proof.
  destruct demo_run as (m & _ & _ & Hi & _ & _ & m2 & Hr). destruct demo_main_ok as [HA Hh].
  destruct (no_leak 0x1000 demo_main m m2 131056 MALLOC_CORE HA Hh Hi Hr) as (_ & m' & Hm');
    [lia|vm_compute; discriminate|]. exists m2, m'. exact Hm'.
Defined.

Lemma free_tagged_ok_witness :
  exists m m', free_tagged 0x1000 3 m MALLOC_MODULE = Ok m' /\
    exists bs' fl', heap_rep demo_main m' bs' fl'.
Proof.
  destruct (mem_init_rep 0x1000 0x100000 0x8000 636 5 (fun _ => 7) demo_layout)
    as (m & Hm & Hr & Hr1); [lia|].
  destruct (layout_arenas _ _ _ _ demo_layout) as (HA0 & HA1 & Hd).
  destruct (free_tagged_ok 0x1000 demo_main (low_arena 0x1000 0x8000 636) m _ _ _ _ MALLOC_MODULE 3
    HA0 HA1 eq_refl eq_refl eq_refl eq_refl Hd Hr Hr1)
    as (m' & bs' & fl' & _ & _ & Hf & [H _ _ _] & _); [simpl; lia|simpl; lia|].
  exists m, m'. split; [exact Hf|]. exists bs', fl'. exact H.
Defined.

End MallocSpec.
