(* ===== verification/CStr.v ===== *)
(** * C strings (libcomcore, libcore)

    A pointer to characters is the list of the bytes from it to the end of its
    object; a function that writes gets the buffer and an index in it.  Leaving
    the object is [Undef]. *)

From Stdlib Require Import ZArith Lia.
From S2P Require Import Prelude.

Module CStr.

(** ** Memory *)

(** [buf[i] = c] *)
Definition store (buf : list Z) (i : Z) (c : Z) : result (list Z) :=
  if decide (0 <= i < Z.of_nat (length buf)) then Ok (<[Z.to_nat i := c]> buf) else Undef.

(** ** The functions *)

Fixpoint strlen (s : list Z) : result Z :=
  match s with
  | [] => Undef
  | c :: s => if decide (c = 0) then Ok 0 else n ← strlen s; Ok (n + 1)
  end.

(** The index of the terminating zero is returned. *)
Fixpoint stpcpy (dst : list Z) (q : Z) (src : list Z) : result (list Z * Z) :=
  match src with
  | [] => Undef
  | ch :: src =>
      dst ← store dst q ch;
      if decide (ch = 0) then Ok (dst, q) else stpcpy dst (q + 1) src
  end.

Fixpoint strcpy (dst : list Z) (q : Z) (src : list Z) : result (list Z) :=
  match src with
  | [] => Undef
  | ch :: src =>
      dst ← store dst q ch;
      if decide (ch = 0) then Ok dst else strcpy dst (q + 1) src
  end.

Fixpoint strncpy (dst : list Z) (q : Z) (src : list Z) (n : nat) {struct n} : result (list Z) :=
  match n, src with
  | O, _ => Ok dst
  | S n, [] => Undef
  | S n, ch :: src =>
      dst ← store dst q ch;
      if decide (ch = 0) then Ok dst else strncpy dst (q + 1) src n
  end.

(** The second loop of [strlcat]: [q] is the place, [bytes] the count. *)
Fixpoint copy_bounded (dst : list Z) (q bytes : Z) (src : list Z) (size : Z) : result (list Z * Z) :=
  match src with
  | [] => Undef
  | ch :: src =>
      if decide (ch = 0) then dst ← store dst q 0; Ok (dst, bytes)
      else if decide (bytes < size) then
        dst ← store dst q ch; copy_bounded dst (q + 1) (bytes + 1) src size
      else copy_bounded dst q (bytes + 1) src size
  end.

Definition strlcpy (dst : list Z) (q : Z) (src : list Z) (size : Z) : result (list Z * Z) :=
  copy_bounded dst q 0 src size.

(** [while (bytes < size && *q)]; [n] is the size that is left. *)
Fixpoint skip_string (dst : list Z) (q bytes : Z) (n : nat) : result (Z * Z) :=
  match n with
  | O => Ok (q, bytes)
  | S n => c ← get8 dst q; if decide (c = 0) then Ok (q, bytes) else skip_string dst (q + 1) (bytes + 1) n
  end.

Definition strlcat (dst : list Z) (q : Z) (src : list Z) (size : Z) : result (list Z * Z) :=
  '(q, bytes) ← skip_string dst q 0 (Z.to_nat size);
  copy_bounded dst q bytes src size.

Fixpoint strcmp (s1 s2 : list Z) : result Z :=
  match s1, s2 with
  | ch :: s1, c2 :: s2 => let d := ch - c2 in if decide (d <> 0 \/ ch = 0) then Ok d else strcmp s1 s2
  | _, _ => Undef
  end.

(** [strncmp] and [strncasecmp] are one loop; [f] is applied to the characters. *)
Fixpoint compare_n (f : Z -> Z) (s1 s2 : list Z) (n : nat) {struct n} : result Z :=
  match n with
  | O => Ok 0
  | S n =>
      match s1, s2 with
      | ch :: s1, c2 :: s2 =>
          let d := f ch - f c2 in if decide (d <> 0 \/ ch = 0) then Ok d else compare_n f s1 s2 n
      | _, _ => Undef
      end
  end.

Definition strncmp (s1 s2 : list Z) (n : nat) : result Z := compare_n id s1 s2 n.

Definition toupper (c : Z) : Z := if decide (97 <= c <= 122) then c - 0x20 else c.
Definition tolower (c : Z) : Z := if decide (65 <= c <= 90) then c + 0x20 else c.

Definition strncasecmp (s1 s2 : list Z) (n : nat) : result Z := compare_n toupper s1 s2 n.

(** The count is [(size_t)-1]: no string is as long. *)
Definition strcasecmp (s1 s2 : list Z) : result Z := strncasecmp s1 s2 (S (length s1)).

(** The rest of the string from the character on. *)
Fixpoint strchr (s : list Z) (c : Z) : result (option (list Z)) :=
  match s with
  | [] => Undef
  | x :: s' =>
      if decide (x = c) then Ok (Some s)
      else if decide (x = 0) then Ok None
      else strchr s' c
  end.

Fixpoint memcmp (s1 s2 : list Z) (n : nat) {struct n} : result Z :=
  match n with
  | O => Ok 0
  | S n =>
      match s1, s2 with
      | c1 :: s1, c2 :: s2 => let d := c1 - c2 in if decide (d <> 0) then Ok d else memcmp s1 s2 n
      | _, _ => Undef
      end
  end.

(** ** Strings *)

(** The characters of a string: no zero. *)
Abbreviation chars s := (Forall (fun c => c <> 0) s).

Lemma store_length buf i c buf' : store buf i c = Ok buf' -> length buf' = length buf.
Proof. unfold store. case_decide; [|done]. intros [= <-]. apply length_insert. Qed.

(** Storing at the end of the part that is written. *)
Lemma store_app l x t c q : q = Z.of_nat (length l) -> store (l ++ x :: t) q c = Ok (l ++ c :: t).
Proof.
  intros ->. unfold store. rewrite decide_True by (rewrite length_app; simpl; lia).
  rewrite Nat2Z.id, insert_app_r_alt, Nat.sub_diag by lia. done.
Qed.

Lemma store_outside buf i c : Z.of_nat (length buf) <= i -> store buf i c = Undef.
Proof. intros. unfold store. by rewrite decide_False by lia. Qed.

Lemma strlen_ok s rest : chars s -> strlen (s ++ 0 :: rest) = Ok (Z.of_nat (length s)).
Proof.
  induction 1 as [|c s Hc _ IH]; [done|]. cbn [strlen app length]. rewrite decide_False, IH by done.
  cbn [mbind result_bind]. f_equal. lia.
Qed.

Lemma stpcpy_ok s rest l old q t :
  chars s -> q = Z.of_nat (length l) -> length old = S (length s) ->
  stpcpy (l ++ old ++ t) q (s ++ 0 :: rest) = Ok (l ++ s ++ 0 :: t, q + Z.of_nat (length s)).
Proof.
  intros Hs. revert l old q. induction Hs as [|c s Hc _ IH]; intros l old q Hq Hold;
    (destruct old as [|o old]; [done|]); cbn [app stpcpy]; rewrite store_app by done; cbn [mbind result_bind].
  - destruct old; [|done]. rewrite decide_True by done. simpl. f_equal. f_equal. lia.
  - rewrite decide_False by done. simpl in Hold.
    specialize (IH (l ++ [c]) old (q + 1)). rewrite <- !app_assoc in IH. cbn [app] in IH. rewrite IH.
    + f_equal. f_equal. simpl. lia.
    + rewrite length_app. simpl. lia.
    + lia.
Qed.

Lemma strcpy_stpcpy dst q src : strcpy dst q src = fst <$> stpcpy dst q src.
Proof.
  revert dst q. induction src as [|c src IH]; intros dst q; [done|]. cbn [strcpy stpcpy].
  destruct (store dst q c) as [dst'| |]; [|done..]. cbn [mbind result_bind]. case_decide; [done|apply IH].
Qed.

(** Copying with a bound on the count. *)
Lemma copy_bounded_ok s rest l old q bytes size t :
  chars s -> q = Z.of_nat (length l) ->
  Z.of_nat (length old) = Z.min (Z.of_nat (length s)) (Z.max 0 (size - bytes)) + 1 ->
  copy_bounded (l ++ old ++ t) q bytes (s ++ 0 :: rest) size =
    Ok (l ++ take (Z.to_nat (size - bytes)) s ++ 0 :: t, bytes + Z.of_nat (length s)).
Proof.
  intros Hs. revert l old q bytes. induction Hs as [|c s Hc _ IH]; intros l old q bytes Hq Hold;
    (destruct old as [|o old]; [simpl in Hold; lia|]); cbn [app copy_bounded].
  - simpl in Hold. assert (old = []) as -> by (destruct old; [done|simpl in Hold; lia]).
    rewrite decide_True by done. rewrite store_app by done. rewrite take_nil. simpl. f_equal. f_equal. lia.
  - rewrite decide_False by done. case_decide as Hb.
    + rewrite store_app by done. cbn [mbind result_bind].
      specialize (IH (l ++ [c]) old (q + 1) (bytes + 1)). rewrite <- !app_assoc in IH. cbn [app] in IH. rewrite IH.
      * replace (Z.to_nat (size - bytes)) with (S (Z.to_nat (size - (bytes + 1)))) by lia.
        simpl. f_equal. f_equal. lia.
      * rewrite length_app. simpl. lia.
      * simpl in Hold. lia.
    + specialize (IH l (o :: old) q (bytes + 1)). cbn [app] in IH. rewrite IH by (done || simpl in *; lia).
      rewrite !Z2Nat.nonpos by lia. simpl. f_equal. f_equal. lia.
Qed.

(** With the count at its bound nothing is written but the zero. *)
Lemma copy_bounded_full s rest l q bytes size :
  chars s -> size <= bytes -> 0 <= q ->
  copy_bounded l q bytes (s ++ 0 :: rest) size =
    l' ← store l q 0; Ok (l', bytes + Z.of_nat (length s)).
Proof.
  intros Hs. revert bytes. induction Hs as [|c s Hc _ IH]; intros bytes Hb Hq; cbn [app copy_bounded].
  - rewrite decide_True by done. simpl. by rewrite Z.add_0_r.
  - rewrite !decide_False, IH by (done || lia). destruct (store l q 0); [|done..].
    simpl. f_equal. f_equal. lia.
Qed.

(** A buffer of [size] bytes is too short for a string of [size] characters:
    the terminating zero is written after it. *)
Lemma copy_bounded_overflow s rest l q bytes size :
  chars s -> Z.of_nat (length l) = q + (size - bytes) -> 0 <= q -> bytes <= size <= bytes + Z.of_nat (length s) ->
  copy_bounded l q bytes (s ++ 0 :: rest) size = Undef.
Proof.
  intros Hs. revert l q bytes. induction Hs as [|c s Hc Hs IH]; intros l q bytes Hl Hq Hb.
  - simpl in Hb. cbn [app copy_bounded]. by rewrite decide_True, store_outside by lia.
  - destruct (decide (bytes < size)) as [Hlt|Hge].
    + cbn [app copy_bounded]. rewrite decide_False, decide_True by done.
      destruct (store l q c) as [l'| |] eqn:E; [|done|unfold store in E; case_decide; done].
      cbn [mbind result_bind]. apply store_length in E. apply IH; simpl in Hb; lia.
    + rewrite copy_bounded_full by (by constructor || lia). by rewrite store_outside by lia.
Qed.

(** [strncpy] of a shorter string does not fill the rest with zeros. *)
Lemma strncpy_ok s rest l old q n t :
  chars s -> q = Z.of_nat (length l) -> (length s < n)%nat -> length old = S (length s) ->
  strncpy (l ++ old ++ t) q (s ++ 0 :: rest) n = Ok (l ++ s ++ 0 :: t).
Proof.
  intros Hs. revert l old q n. induction Hs as [|c s Hc _ IH]; intros l old q n Hq Hn Hold;
    (destruct old as [|o old]; [done|]); (destruct n as [|n]; [simpl in Hn; lia|]); cbn [app strncpy];
    rewrite store_app by done; cbn [mbind result_bind].
  - destruct old; [|done]. by rewrite decide_True.
  - rewrite decide_False by done. simpl in Hold, Hn.
    specialize (IH (l ++ [c]) old (q + 1) n). rewrite <- !app_assoc in IH. cbn [app] in IH. apply IH; [|lia..].
    rewrite length_app. simpl. lia.
Qed.

Lemma skip_string_ok s l t q bytes n :
  chars s -> q = Z.of_nat (length l) ->
  skip_string (l ++ s ++ 0 :: t) q bytes n =
    Ok (q + Z.of_nat (min n (length s)), bytes + Z.of_nat (min n (length s))).
Proof.
  intros Hs. revert l q bytes n. induction Hs as [|c s Hc _ IH]; intros l q bytes n Hq;
    (destruct n as [|n]; [simpl; f_equal; f_equal; lia|]); cbn [app skip_string]; unfold get8;
    rewrite decide_True, list_lookup_middle by lia; cbn [of_option mbind result_bind].
  - rewrite decide_True by done. simpl. f_equal. f_equal; lia.
  - rewrite decide_False by done. specialize (IH (l ++ [c]) (q + 1) (bytes + 1) n).
    rewrite <- app_assoc in IH. cbn [app] in IH. rewrite IH by (rewrite length_app; simpl; lia).
    f_equal. cbn [length Nat.min]. f_equal; lia.
Qed.

(** ** Comparison *)

(** The place of the first difference of two strings decides. *)
Lemma compare_n_ok f s1 s2 r1 r2 n :
  Forall (fun c => f c <> f 0) s1 -> Forall (fun c => f c <> f 0) s2 ->
  exists d, compare_n f (s1 ++ 0 :: r1) (s2 ++ 0 :: r2) n = Ok d /\
    (d = 0 <-> f <$> take n (s1 ++ [0]) = f <$> take n (s2 ++ [0])).
Proof.
  intros H1 H2. revert s2 n H2. induction H1 as [|c1 s1 Hc1 _ IH]; intros s2 n H2;
    (destruct n as [|n]; [by exists 0|]);
    (destruct H2 as [|c2 s2 Hc2 H2]; cbn [app compare_n take fmap list_fmap]).
  - rewrite decide_True by lia. exists (f 0 - f 0). rewrite !take_nil. split; [done|]. split; [done|lia].
  - rewrite decide_True by lia. eexists. split; [done|]. split; [lia|intros [=]; lia].
  - rewrite decide_True by lia. eexists. split; [done|]. split; [lia|intros [=]; lia].
  - destruct (decide (f c1 = f c2)) as [E|E].
    + rewrite decide_False by (intros [?| ->]; [lia|done]). destruct (IH s2 n H2) as (d & -> & Hd).
      exists d. split; [done|]. rewrite Hd, E. split; [by intros ->|by intros [=]].
    + rewrite decide_True by lia. eexists. split; [done|]. split; [lia|intros [=]; lia].
Qed.

(** [strcmp] never meets the bound of [strncmp]. *)
Lemma strcmp_strncmp s1 s2 : strcmp s1 s2 = strncmp s1 s2 (S (length s1)).
Proof.
  unfold strncmp. revert s2. induction s1 as [|c s1 IH]; intros s2; [done|].
  destruct s2 as [|c2 s2]; [done|]. cbn [strcmp compare_n length id]. case_decide; [done|apply IH].
Qed.

Lemma toupper_zero c : toupper c = toupper 0 -> c = 0.
Proof. unfold toupper. intros H. repeat case_decide; lia. Qed.

Lemma toupper_chars s : chars s -> Forall (fun c => toupper c <> toupper 0) s.
Proof. intros Hs. eapply Forall_impl; [exact Hs|]. intros c Hc E. by apply Hc, toupper_zero. Qed.

Lemma strchr_ok s1 c s2 rest : chars s1 -> ~ c ∈ s1 -> strchr (s1 ++ c :: s2 ++ 0 :: rest) c = Ok (Some (c :: s2 ++ 0 :: rest)).
Proof.
  intros Hs. induction Hs as [|x s Hx _ IH]; intros Hc; cbn [app strchr]; [by rewrite decide_True|].
  rewrite not_elem_of_cons in Hc. rewrite !decide_False by intuition congruence. apply IH. tauto.
Qed.

Lemma strchr_none s c rest : chars s -> ~ c ∈ s -> c <> 0 -> strchr (s ++ 0 :: rest) c = Ok None.
Proof.
  intros Hs. induction Hs as [|x s Hx _ IH]; intros Hc H0; cbn [app strchr].
  - by rewrite decide_False, decide_True by done.
  - rewrite not_elem_of_cons in Hc. rewrite !decide_False by intuition congruence. apply IH; tauto.
Qed.

Lemma memcmp_ok s1 s2 r1 r2 n : length s1 = n -> length s2 = n ->
  exists d, memcmp (s1 ++ r1) (s2 ++ r2) n = Ok d /\ (d = 0 <-> s1 = s2).
Proof.
  revert s1 s2. induction n as [|n IH]; intros s1 s2 H1 H2; (destruct s1 as [|c1 s1], s2 as [|c2 s2]; try done). { by exists 0. }
  apply Nat.succ_inj in H1, H2.
  cbn [app memcmp]. destruct (decide (c1 = c2)) as [->|Hne].
  - rewrite decide_False by lia. destruct (IH s1 s2) as (d & -> & Hd); [done..|].
    exists d. split; [done|]. rewrite Hd. split; [by intros ->|by intros [=]].
  - rewrite decide_True by lia. eexists. split; [done|]. split; [lia|intros [=]; lia].
Qed.

(** ** The bounded functions *)

(** [strlcpy] copies at most [size] characters of the source, ends them with
    a zero and returns the length of the source; the rest of the buffer is
    unchanged.  The buffer must have one byte more than [size] when the source
    is as long. *)
Theorem strlcpy_spec s rest old t size :
  chars s -> 0 <= size -> Z.of_nat (length old) = Z.min (Z.of_nat (length s)) size + 1 ->
  strlcpy (old ++ t) 0 (s ++ 0 :: rest) size =
    Ok (take (Z.to_nat size) s ++ 0 :: t, Z.of_nat (length s)).
Proof.
  intros Hs Hsize Hold. unfold strlcpy.
  pose proof (copy_bounded_ok s rest [] old 0 0 size t Hs) as E. cbn [app] in E.
  rewrite E by (simpl; lia). by rewrite Z.sub_0_r.
Qed.

Lemma strlcpy_spec_witness :
  strlcpy ([9; 9; 9] ++ [8]) 0 ([65; 66; 67] ++ 0 :: []) 2 = Ok ([65; 66] ++ 0 :: [8], 3).
Proof. apply (strlcpy_spec [65; 66; 67] [] [9; 9; 9] [8] 2); [repeat constructor; done|lia|done]. Defined.

(** With a buffer of [size] bytes, as the callers of the BSD function have, a
    source that does not fit is undefined behaviour. *)
Lemma strlcpy_overflow s rest dst :
  chars s -> (length dst <= length s)%nat -> strlcpy dst 0 (s ++ 0 :: rest) (Z.of_nat (length dst)) = Undef.
Proof. intros. apply copy_bounded_overflow; [done|lia..]. Qed.

(** [strlcat] appends to the string in the buffer as much of the source as
    the bound leaves, and returns the length of the whole. *)
Theorem strlcat_spec s0 s rest old t size :
  chars s0 -> chars s -> Z.of_nat (length s0) <= size ->
  Z.of_nat (length old) = Z.min (Z.of_nat (length s)) (size - Z.of_nat (length s0)) ->
  strlcat (s0 ++ 0 :: old ++ t) 0 (s ++ 0 :: rest) size =
    Ok (s0 ++ take (Z.to_nat size - length s0) s ++ 0 :: t, Z.of_nat (length s0 + length s)).
Proof.
  intros H0 Hs Hsize Hold. unfold strlcat. pose proof (skip_string_ok s0 [] (old ++ t) 0 0 (Z.to_nat size) H0) as E0.
  cbn [app] in E0. rewrite E0 by done. clear E0. cbn [mbind result_bind]. rewrite Nat.min_r by lia.
  pose proof (copy_bounded_ok s rest s0 (0 :: old) (0 + Z.of_nat (length s0)) (0 + Z.of_nat (length s0)) size t Hs)
    as E. cbn [app] in E. rewrite E by (simpl; lia). f_equal. f_equal; [|lia]. do 3 f_equal. lia.
Qed.

Lemma strlcat_spec_witness :
  strlcat ([65] ++ 0 :: [9; 9] ++ [8]) 0 ([66; 67; 68] ++ 0 :: []) 3 = Ok ([65] ++ [66; 67] ++ 0 :: [8], 4).
Proof.
  apply (strlcat_spec [65] [66; 67; 68] [] [9; 9] [8] 3); [repeat constructor; done..|simpl; lia|done].
Defined.

(** [strcasecmp] answers 0 exactly for strings that are equal up to the
    case of the ASCII letters, and always answers. *)
Theorem strcasecmp_eq s1 s2 r1 r2 :
  chars s1 -> chars s2 ->
  exists d, strcasecmp (s1 ++ 0 :: r1) (s2 ++ 0 :: r2) = Ok d /\
    (d = 0 <-> toupper <$> s1 = toupper <$> s2).
Proof.
  intros H1 H2. unfold strcasecmp, strncasecmp.
  set (n := S _). assert (length s1 < n)%nat as Hn by (unfold n; rewrite length_app; simpl; lia). clearbody n.
  destruct (compare_n_ok toupper s1 s2 r1 r2 n (toupper_chars s1 H1) (toupper_chars s2 H2)) as (d & E & Hd).
  exists d. split; [done|]. rewrite Hd. clear d E Hd. rewrite (take_ge (s1 ++ _)) by (rewrite length_app; simpl; lia). split.
  - intros E. assert (length s2 < n)%nat as Hn2.
    { destruct (decide (length s2 < n)%nat); [done|]. exfalso.
      rewrite take_app_le in E by lia. assert (toupper 0 ∈ toupper <$> take n s2) as Hin.
      { rewrite <- E, fmap_app. apply elem_of_app. right. by apply list_elem_of_singleton. }
      apply list_elem_of_fmap in Hin as (c & Hc & Hin). rewrite Forall_forall in H2.
      apply (H2 c); [|by apply toupper_zero]. by eapply elem_of_take in Hin as [? [? _]]; eapply list_elem_of_lookup_2. }
    rewrite (take_ge (s2 ++ _)), !fmap_app in E by (rewrite length_app; simpl; lia). by apply app_inj_2 in E as [? _].
  - intros E. assert (length s1 = length s2) by (rewrite <- (length_fmap toupper s1), E; apply length_fmap).
    rewrite (take_ge (s2 ++ _)), !fmap_app by (rewrite length_app; simpl; lia). by rewrite E.
Qed.

Lemma strcasecmp_eq_witness :
  exists d, strcasecmp ([65; 98] ++ 0 :: []) ([97; 66] ++ 0 :: []) = Ok d /\
    (d = 0 <-> toupper <$> [65; 98] = toupper <$> [97; 66]).
Proof. apply strcasecmp_eq; repeat constructor; done. Defined.

End CStr.
