(* ===== verification/Dirent.v ===== *)
(** * Directory entries (libcore/include/sys/dirent.h)

    What the file systems tell about a file: its type, and the entry that
    [readdir] makes. *)

From Stdlib Require Import ZArith.
From S2P Require Import Prelude.

Module Dirent.

Inductive dirent_type :=
  DT_UNKNOWN | DT_FIFO | DT_CHR | DT_DIR | DT_BLK | DT_REG | DT_LNK | DT_SOCK | DT_WHT.

#[export] Instance dirent_type_eq_dec : EqDecision dirent_type.
Proof. solve_decision. Defined.

(** The values of the enumeration. *)
Definition dt_value (t : dirent_type) : Z :=
  match t with
  | DT_UNKNOWN => 0 | DT_FIFO => 1 | DT_CHR => 2 | DT_DIR => 4 | DT_BLK => 6
  | DT_REG => 8 | DT_LNK => 10 | DT_SOCK => 12 | DT_WHT => 14
  end.

(** The file type of a stat mode, as a value of the enumeration. *)
Definition IFTODT (mode : Z) : Z := Z.shiftr (Z.land mode 0xf000) 12.

(** [d_name] is without its terminating zero; [d_type] is the value. *)
Record dirent := Dirent_ {
  d_ino : Z; d_off : Z; d_reclen : Z; d_type : Z; d_name : list Z }.

Definition NAME_MAX : Z := 255.

(** offsetof(struct dirent, d_name) *)
Definition d_name_offset : Z := 12.

End Dirent.
