(* ===== verification/Mangle.v ===== *)
(** * Mangling of file names (libcore/fs/lib/mangle.c, libcore/fs/fat/fat.c)

    Before a name is looked up it is copied to a buffer of [FILENAME_MAX] bytes
    without redundant slashes and trailing slashes, up to the first white
    space.  [Mangle] has the generic function and the one of FAT; both agree
    with one specification that differs in what a redundant slash is. *)

From Stdlib Require Import ZArith Lia.
From S2P Require Import Prelude CStr.
Import CStr.CStr.

Module Mangle.

Definition FILENAME_MAX : Z := 256.
Definition slash : Z := 0x2f.
Definition backslash : Z := 0x5c.

Definition not_whitespace (c : Z) : bool := bool_decide (0x20 < c).

(** ** The functions

    [d] is the index [dst - p]. *)

(** The first loop of [generic_mangle_name]. *)
Fixpoint generic_copy (src : list Z) (buf : list Z) (d i : Z) : result (list Z * Z * Z) :=
  match src with
  | [] => Undef
  | c :: src' =>
      if not_whitespace c then
        next ← (if decide (c = slash) then of_option (src' !! 0%nat) else Ok 0);
        if decide (c = slash /\ next = slash) then generic_copy src' buf d (i - 1)
        else buf ← store buf d c; generic_copy src' buf (d + 1) (i - 1)
      else Ok (buf, d, i)
  end.

(** The second loop: trailing slashes are dropped, but not a sole one; [fuel]
    is at least the index. *)
Fixpoint trim (fuel : nat) (buf : list Z) (d i : Z) : result (Z * Z) :=
  match fuel with
  | O => NoFuel
  | S fuel =>
      if decide (d = 0) then Ok (d, i) else
      c ← get8 buf (d - 1);
      if decide (c <> slash) then Ok (d, i)
      else if decide (d - 1 = 0) then Ok (d, i)
      else trim fuel buf (d - 1) (i + 1)
  end.

(** The last loop: [n] zeros. *)
Fixpoint zero_fill (n : nat) (buf : list Z) (d : Z) : result (list Z) :=
  match n with
  | O => Ok buf
  | S n => buf ← store buf d 0; zero_fill n buf (d + 1)
  end.

(** The part that the two functions have in common. *)
Definition finish (r : list Z * Z * Z) : result (list Z) :=
  let '(buf, d, i) := r in
  '(d, i) ← trim (S (Z.to_nat d)) buf d i;
  zero_fill (Z.to_nat (i + 1)) buf d.

Definition generic_mangle_name (dst src : list Z) : result (list Z) :=
  r ← generic_copy src dst 0 (FILENAME_MAX - 1); finish r.

(** The first loop of [vfat_mangle_name]: a backslash counts as a slash, but it
    is the character of the source that is stored. *)
Fixpoint vfat_copy (src : list Z) (buf : list Z) (d i : Z) : result (list Z * Z * Z) :=
  match src with
  | [] => Undef
  | c0 :: src' =>
      if not_whitespace c0 then
        let c := if decide (c0 = backslash) then slash else c0 in
        next ← (if decide (c = slash) then of_option (src' !! 0%nat) else Ok 0);
        if decide (c = slash /\ (next = slash \/ next = backslash)) then vfat_copy src' buf d (i - 1)
        else buf ← store buf d c0; vfat_copy src' buf (d + 1) (i - 1)
      else Ok (buf, d, i)
  end.

Definition vfat_mangle_name (dst src : list Z) : result (list Z) :=
  r ← vfat_copy src dst 0 (FILENAME_MAX - 1); finish r.

(** ** Specification *)

Section Spec.
(** What counts as a slash. *)
Context (sep : Z -> bool).

(** Of a run of slashes the last one stays. *)
Fixpoint collapse (l : list Z) : list Z :=
  match l with
  | [] => []
  | c :: l' =>
      match l' with
      | n :: _ => if sep c && sep n then collapse l' else c :: collapse l'
      | [] => [c]
      end
  end.

(** Without the trailing slash, unless it is all. *)
Definition strip (l : list Z) : list Z :=
  match reverse l with
  | c :: r => if bool_decide (c = slash /\ r <> []) then reverse r else l
  | [] => l
  end.

(** The number of characters that were dropped as redundant. *)
Definition redundant (l : list Z) : nat := length l - length (collapse l).

Definition mangled (l : list Z) : list Z := strip (collapse l).

End Spec.

(** The names of a path. *)
Fixpoint split_path (cur : list Z) (l : list Z) : list (list Z) :=
  match l with
  | [] => [cur]
  | c :: l => if decide (c = slash) then cur :: split_path [] l else split_path (cur ++ [c]) l
  end.

Definition components (l : list Z) : list (list Z) :=
  filter (fun s => s <> []) (split_path [] l).

Definition slash_only (c : Z) : bool := bool_decide (c = slash).
Definition slash_or_back (c : Z) : bool := bool_decide (c = slash \/ c = backslash).

(** ** The first loop *)

(** Both copies are this one. *)
Fixpoint sep_copy (sep : Z -> bool) (src : list Z) (buf : list Z) (d i : Z) : result (list Z * Z * Z) :=
  match src with
  | [] => Undef
  | c :: src' =>
      if not_whitespace c then
        next ← (if sep c then of_option (src' !! 0%nat) else Ok 0);
        if sep c && sep next then sep_copy sep src' buf d (i - 1)
        else buf ← store buf d c; sep_copy sep src' buf (d + 1) (i - 1)
      else Ok (buf, d, i)
  end.

Lemma sep_copy_ext sep src buf d i (copy : list Z -> list Z -> Z -> Z -> result (list Z * Z * Z)) :
  (forall buf d i, copy [] buf d i = Undef) ->
  (forall c src buf d i, copy (c :: src) buf d i =
     if not_whitespace c then
       next ← (if sep c then of_option (src !! 0%nat) else Ok 0);
       if sep c && sep next then copy src buf d (i - 1)
       else buf ← store buf d c; copy src buf (d + 1) (i - 1)
     else Ok (buf, d, i)) ->
  copy src buf d i = sep_copy sep src buf d i.
Proof.
  intros H0 H1. revert buf d i. induction src as [|c src IH]; intros buf d i; [apply H0|].
  rewrite H1. cbn [sep_copy]. destruct (not_whitespace c); [|done].
  destruct (if sep c then _ else _) as [n| |]; cbn [mbind result_bind]; [|done..].
  destruct (sep c && sep n); [apply IH|]. destruct (store buf d c); [apply IH|done..].
Qed.

Lemma generic_copy_sep src buf d i : generic_copy src buf d i = sep_copy slash_only src buf d i.
Proof.
  apply (sep_copy_ext _ _ _ _ _ generic_copy); [done|]. clear. intros c src buf d i. cbn [generic_copy].
  destruct (not_whitespace c); [|done]. unfold slash_only.
  destruct (decide (c = slash)) as [Hc|Hc].
  2: { rewrite bool_decide_false by done. cbn [mbind result_bind andb]. by rewrite decide_False by tauto. }
  rewrite (bool_decide_true (c = slash)) by done.
  destruct (of_option (src !! 0%nat)) as [n| |]; cbn [mbind result_bind andb]; [|done..].
  destruct (decide (n = slash)); [rewrite decide_True, bool_decide_true|rewrite decide_False, bool_decide_false]; tauto.
Qed.

Lemma vfat_copy_sep src buf d i : vfat_copy src buf d i = sep_copy slash_or_back src buf d i.
Proof.
  apply (sep_copy_ext _ _ _ _ _ vfat_copy); [done|]. clear. intros c src buf d i. cbn [vfat_copy].
  destruct (not_whitespace c); [|done]. unfold slash_or_back.
  set (c' := if decide (c = backslash) then slash else c).
  assert (c' = slash <-> c = slash \/ c = backslash) as Hc' 
    by (unfold c'; case_decide; intuition congruence).
  destruct (decide (c' = slash)) as [Hc|Hc].
  2: { rewrite bool_decide_false by tauto. cbn [mbind result_bind andb]. by rewrite decide_False by tauto. }
  rewrite (bool_decide_true (c = slash \/ c = backslash)) by tauto.
  destruct (of_option (src !! 0%nat)) as [n| |]; cbn [mbind result_bind andb]; [|done..].
  destruct (decide (n = slash \/ n = backslash));
    [rewrite decide_True, bool_decide_true|rewrite decide_False, bool_decide_false]; tauto.
Qed.

Section Copy.
Context (sep : Z -> bool) (sep_slash : sep slash = true)
  (sep_white : forall c, sep c = true -> not_whitespace c = true).

Lemma collapse_cons2 c n l :
  collapse sep (c :: n :: l) = if sep c && sep n then collapse sep (n :: l) else c :: collapse sep (n :: l).
Proof. done. Qed.

Lemma collapse_length l : (length (collapse sep l) <= length l)%nat.
Proof.
  induction l as [|c [|n l] IH]; [done..|]. rewrite collapse_cons2. case_match; simpl in *; lia.
Qed.

Lemma sep_copy_ok l w rest m old t d i :
  Forall (fun c => not_whitespace c = true) l -> not_whitespace w = false ->
  d = Z.of_nat (length m) -> length old = length (collapse sep l) ->
  sep_copy sep (l ++ w :: rest) (m ++ old ++ t) d i =
    Ok (m ++ collapse sep l ++ t, d + Z.of_nat (length (collapse sep l)), i - Z.of_nat (length l)).
Proof.
  intros Hl Hw. revert m old d i. induction Hl as [|c l Hc Hl IH]; intros m old d i Hd Hold.
  - destruct old; [|done]. cbn [app sep_copy]. rewrite Hw. simpl. do 2 f_equal; [f_equal|]; lia.
  - cbn [app sep_copy]. rewrite Hc.
    assert (exists n, ((if sep c then of_option ((l ++ w :: rest) !! 0%nat) else Ok 0) : result Z) = Ok n /\
      (sep c && sep n = true -> exists l', l = n :: l') /\
      collapse sep (c :: l) = if sep c && sep n then collapse sep l else c :: collapse sep l) as (n & -> & Hn & Ecol).
    { destruct (sep c) eqn:Es; [|exists 0; splits; try done; by destruct l; simpl; rewrite ?Es].
      destruct l as [|n l]; [exists w|exists n].
      - assert (sep w = false) as -> by (destruct (sep w) eqn:E; [apply sep_white in E; congruence|done]).
        splits; done.
      - splits; [done|eauto|]. by rewrite collapse_cons2, Es. }
    cbn [mbind result_bind]. destruct (sep c && sep n).
    + rewrite IH, Ecol by (done || congruence). cbn [length]. do 2 f_equal. lia.
    + rewrite Ecol in *. destruct old as [|o old]; [done|]. cbn [app]. rewrite store_app by done.
      cbn [mbind result_bind]. specialize (IH (m ++ [c]) old (d + 1) (i - 1)).
      rewrite <- !app_assoc in IH. cbn [app] in IH. simpl in Hold.
      rewrite IH by (rewrite ?length_app; simpl; lia). cbn [length app]. do 2 f_equal; [f_equal|]; lia.
Qed.

Lemma collapse_head c l : sep c = false -> exists r, collapse sep (c :: l) = c :: r.
Proof. intros Hc. destruct l as [|n l]; [by exists []|]. rewrite collapse_cons2, Hc. by eexists. Qed.

(** No two slashes at the end. *)
Lemma collapse_end l r : ~ (collapse sep l = r ++ [slash; slash]).
Proof.
  revert r. induction l as [|c [|n l] IH]; intros r; [by destruct r|by destruct r as [|? [|]]|].
  rewrite collapse_cons2. destruct (sep c && sep n) eqn:E; [apply IH|]. destruct r as [|x r].
  - intros H. cbn [app] in H. assert (c = slash) as -> by congruence. assert (collapse sep (n :: l) = [slash]) as Ht by congruence.
    clear H. rewrite sep_slash in E. destruct (collapse_head n l E) as [r' E']. rewrite E' in Ht.
    assert (n = slash) as -> by congruence. simpl in E. congruence.
  - intros H. cbn [app] in H. apply (IH r). congruence.
Qed.

End Copy.

(** ** The other loops *)

Lemma strip_slash r : r <> [] -> strip (r ++ [slash]) = r.
Proof.
  intros Hr. unfold strip. rewrite reverse_app. change (reverse [slash]) with [slash]. cbn [app].
  rewrite bool_decide_true, reverse_involutive; [done|]. split; [done|]. intros E.
  apply Hr. rewrite <- (reverse_involutive r), E. done.
Qed.

Lemma strip_other l : (forall r, r <> [] -> l <> r ++ [slash]) -> strip l = l.
Proof.
  intros H. unfold strip. destruct (reverse l) as [|c r] eqn:E; [done|]. case_bool_decide as Hc; [|done].
  exfalso. destruct Hc as [-> Hr]. apply (H (reverse r)).
  - intros E'. apply Hr. rewrite <- (reverse_involutive r), E'. done.
  - rewrite <- (reverse_involutive l), E. by rewrite reverse_cons.
Qed.

Lemma get8_last r c t : get8 ((r ++ [c]) ++ t) (Z.of_nat (length (r ++ [c])) - 1) = Ok c.
Proof.
  unfold get8. rewrite length_app. simpl. rewrite decide_True by lia.
  replace (Z.to_nat _) with (length r) by lia. rewrite <- app_assoc. cbn [app]. by rewrite list_lookup_middle.
Qed.

Lemma trim_stop m t i fuel : (forall r, m <> r ++ [slash]) -> trim (S fuel) (m ++ t) (Z.of_nat (length m)) i = Ok (Z.of_nat (length m), i).
Proof.
  intros Hm. cbn [trim]. destruct m as [|c r _] using rev_ind; [done|].
  rewrite decide_False by (rewrite length_app; simpl; lia). rewrite get8_last. cbn [mbind result_bind].
  rewrite decide_True; [done|]. intros ->. by eapply Hm.
Qed.

Lemma trim_ok m t i : (forall r, m <> r ++ [slash; slash]) ->
  trim (S (length m)) (m ++ t) (Z.of_nat (length m)) i =
    Ok (Z.of_nat (length (strip m)), i + Z.of_nat (length m) - Z.of_nat (length (strip m))).
Proof.
  intros Hm. destruct m as [|c r _] using rev_ind; [simpl; do 2 f_equal; lia|].
  destruct (decide (c = slash)) as [->|Hc].
  2: { assert (forall r', r ++ [c] <> r' ++ [slash]) as Hn by (intros r' E; apply app_inj_2 in E as [_ [=]]; done).
       rewrite trim_stop, strip_other by done. do 2 f_equal. lia. }
  destruct (decide (r = [])) as [->|Hr]; [simpl; do 2 f_equal; lia|]. rewrite strip_slash by done.
  assert (0 < length r)%nat by (destruct r; [done|simpl; lia]).
  cbn [trim]. rewrite decide_False by (rewrite length_app; simpl; lia). rewrite get8_last. cbn [mbind result_bind].
  rewrite decide_False by tauto. rewrite decide_False by (rewrite length_app; simpl; lia).
  rewrite length_app. cbn [length]. replace (Z.of_nat (length r + 1) - 1) with (Z.of_nat (length r)) by lia.
  replace (length r + 1)%nat with (S (length r)) by lia. rewrite <- app_assoc, trim_stop.
  - do 2 f_equal. lia.
  - intros r' ->. apply (Hm r'). by rewrite <- app_assoc.
Qed.

Lemma zero_fill_ok n m old t d :
  d = Z.of_nat (length m) -> length old = n -> zero_fill n (m ++ old ++ t) d = Ok (m ++ replicate n 0 ++ t).
Proof.
  revert m old d. induction n as [|n IH]; intros m old d Hd Hold; [by destruct old|].
  destruct old as [|o old]; [done|]. cbn [zero_fill app]. rewrite store_app by done. cbn [mbind result_bind].
  specialize (IH (m ++ [0]) old (d + 1)). rewrite <- !app_assoc in IH. cbn [app] in IH.
  simpl in Hold. rewrite IH by (rewrite ?length_app; simpl; lia). done.
Qed.

Lemma strip_prefix m : exists s, m = strip m ++ s.
Proof.
  destruct m as [|c r _] using rev_ind; [by exists []|]. destruct (decide (c = slash /\ r <> [])) as [[-> Hr]|Hn].
  - exists [slash]. by rewrite strip_slash.
  - exists []. rewrite strip_other, app_nil_r; [done|]. intros r' Hr' E. apply app_inj_2 in E as [-> [= ->]]; tauto.
Qed.

(** The common end of the two functions. *)
Lemma sep_mangle_ok sep l w rest dst :
  sep slash = true -> (forall c, sep c = true -> not_whitespace c = true) ->
  Forall (fun c => not_whitespace c = true) l -> not_whitespace w = false ->
  Z.of_nat (length l) < FILENAME_MAX <= Z.of_nat (length dst) ->
  let m := mangled sep l in
  let n := (Z.to_nat FILENAME_MAX - redundant sep l)%nat in
  (r ← sep_copy sep (l ++ w :: rest) dst 0 (FILENAME_MAX - 1); finish r) =
    Ok (m ++ replicate (n - length m) 0 ++ drop n dst).
Proof.
  intros Hs Hsw Hl Hw Hlen m n. pose proof (collapse_length sep l) as Hcl.
  unfold FILENAME_MAX in *. set (col := collapse sep l) in *.
  pose proof (sep_copy_ok sep Hsw l w rest [] (take (length col) dst) (drop (length col) dst) 0 255 Hl Hw eq_refl) as E.
  cbn [app] in E. rewrite take_drop in E. change (256 - 1) with 255. rewrite E by (rewrite length_take; fold col; lia).
  clear E. fold col. cbn [mbind result_bind finish]. rewrite Z.add_0_l, Nat2Z.id.
  rewrite trim_ok by (intros r; by apply collapse_end).
  cbn [mbind result_bind]. destruct (strip_prefix col) as [s Es]. change (strip col) with m in *.
  assert (length col = length m + length s)%nat as Hlc by (rewrite Es at 1; apply length_app).
  assert (n = 256 - (length l - length col))%nat as En by done.
  assert (col ++ drop (length col) dst = m ++ s ++ drop (length col) dst) as ->
    by (rewrite Es at 1; by rewrite <- app_assoc).
  set (t := s ++ drop (length col) dst).
  replace (Z.to_nat _) with (n - length m)%nat by lia.
  assert (t = take (n - length m) t ++ drop (n - length m) t) as -> by by rewrite take_drop.
  assert (length t = length s + (length dst - length col))%nat as Ht
    by (unfold t; rewrite length_app, length_drop; done).
  rewrite zero_fill_ok by (rewrite ?length_take; lia). do 3 f_equal. unfold t.
  rewrite drop_app_ge, drop_drop by lia. f_equal. lia.
Qed.

(** ** The names of the path *)

Lemma split_path_slash cur r : split_path cur (r ++ [slash]) = split_path cur r ++ [[]].
Proof.
  revert cur. induction r as [|c r IH]; intros cur; [done|]. cbn [app split_path].
  case_decide; by rewrite IH.
Qed.

Lemma collapse_components cur l :
  filter (fun s => s <> []) (split_path cur (collapse slash_only l)) = filter (fun s => s <> []) (split_path cur l).
Proof.
  revert cur. induction l as [|c [|n l] IH]; intros cur; [done..|]. rewrite collapse_cons2.
  destruct (slash_only c && slash_only n) eqn:E.
  - apply andb_true_iff in E as [Ec En]. apply bool_decide_eq_true in Ec, En. subst c n. rewrite IH.
    cbn [split_path]. rewrite !decide_True by done. by rewrite !filter_cons, (decide_False (P := [] <> [])) by tauto.
  - cbn [split_path] in *. destruct (decide (c = slash)); [|apply IH].
    rewrite !filter_cons. by rewrite IH.
Qed.

(** For a name without backslashes the two functions agree. *)
Lemma mangled_no_backslash l : Forall (fun c => c <> backslash) l -> mangled slash_or_back l = mangled slash_only l.
Proof.
  intros H. unfold mangled. f_equal. assert (forall c, c <> backslash -> slash_or_back c = slash_only c) as E.
  { intros c Hc. unfold slash_or_back, slash_only. apply bool_decide_ext. tauto. }
  induction H as [|c l Hc Hl IH]; [done|]. cbn [collapse]. destruct l as [|n l]; [done|].
  rewrite IH, !E by (done || by inversion Hl). done.
Qed.

Lemma mangled_components l : components (mangled slash_only l) = components l.
Proof.
  unfold components. rewrite <- (collapse_components [] l). unfold mangled. set (c := collapse _ l). clearbody c.
  destruct c as [|x r _] using rev_ind; [done|]. destruct (decide (x = slash /\ r <> [])) as [[-> Hr]|Hn].
  - rewrite strip_slash, split_path_slash, filter_app by done. symmetry. apply app_nil_r.
  - rewrite strip_other; [done|]. intros r' Hr' E. apply app_inj_2 in E as [-> [= ->]]; tauto.
Qed.

(** The mangled name is not longer, keeps to the characters, and is not
    empty. *)
Lemma mangled_sub sep l : (length (mangled sep l) <= length (collapse sep l) <= length l)%nat /\
  (forall c, c ∈ mangled sep l -> c ∈ l) /\ (l <> [] -> mangled sep l <> []).
Proof.
  unfold mangled. destruct (strip_prefix (collapse sep l)) as [t Et].
  assert (length (collapse sep l) = length (strip (collapse sep l)) + length t)%nat as El
    by (rewrite Et at 1; apply length_app).
  pose proof (collapse_length sep l) as Hcl.
  assert (forall c, c ∈ collapse sep l -> c ∈ l) as Hsub.
  { clear. induction l as [|c [|n l] IH]; [done..|]. intros x. rewrite collapse_cons2.
    destruct (sep c && sep n); intros Hx; [apply elem_of_cons; right; by apply IH|].
    apply elem_of_cons in Hx as [->|Hx]; apply elem_of_cons; [by left|right; by apply IH]. }
  assert (l <> [] -> collapse sep l <> []) as Hne.
  { clear. induction l as [|c [|n l] IH]; [done..|]. intros _. rewrite collapse_cons2.
    destruct (sep c && sep n); [by apply IH|done]. }
  split_and!; [lia|lia| |].
  - intros c Hc. apply Hsub. rewrite Et. apply elem_of_app. auto.
  - intros Hl Hs. specialize (Hne Hl). destruct (collapse sep l) as [|c r _] using rev_ind; [done|].
    destruct (decide (c = slash /\ r <> [])) as [[-> Hr]|Hn]; [by rewrite strip_slash in Hs|].
    rewrite strip_other in Hs; [by destruct r|]. intros r' Hr' E. apply app_inj_2 in E as [-> [= ->]]; tauto.
Qed.

(** What the two functions leave is a string: the mangled name of a name
    without white space. *)
Lemma mangled_string sep name t : name <> [] -> Forall (fun c => not_whitespace c = true) name ->
  Z.of_nat (length name) < FILENAME_MAX ->
  let m := mangled sep name in
  let n := (Z.to_nat FILENAME_MAX - redundant sep name)%nat in
  (exists r, m ++ replicate (n - length m) 0 ++ t = m ++ 0 :: r) /\
  m <> [] /\ Forall (fun c => c <> 0) m /\ (length m <= length name)%nat.
Proof.
  intros Hne Hname Hlen m n. destruct (mangled_sub sep name) as ([Hl1 Hl2] & Hsub & Hmne). fold m in Hl1, Hsub, Hmne.
  unfold FILENAME_MAX in *. split_and!; [|by apply Hmne| |lia].
  - destruct (n - length m)%nat eqn:E; [|by eexists]. unfold n, redundant in E. lia.
  - apply Forall_forall. intros c Hc%Hsub. rewrite Forall_forall in Hname.
    specialize (Hname c Hc). apply bool_decide_eq_true in Hname. lia.
Qed.

Lemma mangle_name_ok l w rest dst :
  Forall (fun c => not_whitespace c = true) l -> not_whitespace w = false ->
  Z.of_nat (length l) < FILENAME_MAX <= Z.of_nat (length dst) ->
  let m := mangled slash_only l in
  let n := (Z.to_nat FILENAME_MAX - redundant slash_only l)%nat in
  generic_mangle_name dst (l ++ w :: rest) = Ok (m ++ replicate (n - length m) 0 ++ drop n dst).
Proof.
  intros Hl Hw Hlen m n. unfold generic_mangle_name. rewrite generic_copy_sep. apply sep_mangle_ok; try done.
  intros c Hc. apply bool_decide_eq_true in Hc as ->. done.
Qed.

Lemma vfat_mangle_name_ok l w rest dst :
  Forall (fun c => not_whitespace c = true) l -> not_whitespace w = false ->
  Z.of_nat (length l) < FILENAME_MAX <= Z.of_nat (length dst) ->
  let m := mangled slash_or_back l in
  let n := (Z.to_nat FILENAME_MAX - redundant slash_or_back l)%nat in
  vfat_mangle_name dst (l ++ w :: rest) = Ok (m ++ replicate (n - length m) 0 ++ drop n dst).
Proof.
  intros Hl Hw Hlen m n. unfold vfat_mangle_name. rewrite vfat_copy_sep. apply sep_mangle_ok; try done.
  intros c Hc. apply bool_decide_eq_true in Hc as [-> | ->]; done.
Qed.

(** A name of less than 256 characters is copied without redundant
    and trailing slashes and filled up with zeros; the bytes of the buffer behind
    the 256 bytes, less one for each slash that was dropped, are unchanged.  The
    result names the same components. *)
Theorem generic_mangle_ok l w rest dst :
  Forall (fun c => not_whitespace c = true) l -> not_whitespace w = false ->
  Z.of_nat (length l) < FILENAME_MAX <= Z.of_nat (length dst) ->
  let m := mangled slash_only l in
  let n := (Z.to_nat FILENAME_MAX - redundant slash_only l)%nat in
  generic_mangle_name dst (l ++ w :: rest) = Ok (m ++ replicate (n - length m) 0 ++ drop n dst) /\
  components m = components l.
Proof.
  intros Hl Hw Hlen m n. split; [by apply mangle_name_ok|apply mangled_components].
Qed.

Lemma generic_mangle_ok_witness :
  let l := [47; 97; 47; 47; 98; 47] in
  let m := mangled slash_only l in
  let n := (Z.to_nat FILENAME_MAX - redundant slash_only l)%nat in
  generic_mangle_name (replicate 256 9) (l ++ 32 :: [99; 0]) = Ok (m ++ replicate (n - length m) 0 ++ drop n (replicate 256 9)) /\
  components m = components l.
Proof.
  apply (generic_mangle_ok [47; 97; 47; 47; 98; 47] 32 [99; 0] (replicate 256 9));
    [repeat constructor|done|vm_compute; split; [done|discriminate]].
Defined.

Example mangle_example : generic_mangle_name (replicate 256 9) [47; 97; 47; 47; 98; 47; 32] =
  Ok ([47; 97; 47; 98] ++ replicate 251 0 ++ [9]).
Proof. vm_compute. done. Qed.

(** On FAT a run of slashes and backslashes is a redundant slash as well:
    its last character stays, and it stays a backslash. *)
Theorem vfat_mangle_ok l w rest dst :
  Forall (fun c => not_whitespace c = true) l -> not_whitespace w = false ->
  Z.of_nat (length l) < FILENAME_MAX <= Z.of_nat (length dst) ->
  let m := mangled slash_or_back l in
  let n := (Z.to_nat FILENAME_MAX - redundant slash_or_back l)%nat in
  vfat_mangle_name dst (l ++ w :: rest) = Ok (m ++ replicate (n - length m) 0 ++ drop n dst).
Proof.
  intros Hl Hw Hlen. by apply vfat_mangle_name_ok.
Qed.

Lemma vfat_mangle_ok_witness :
  let l := [97; 92; 98] in
  let m := mangled slash_or_back l in
  let n := (Z.to_nat FILENAME_MAX - redundant slash_or_back l)%nat in
  vfat_mangle_name (replicate 256 9) (l ++ 0 :: []) = Ok (m ++ replicate (n - length m) 0 ++ drop n (replicate 256 9)).
Proof.
  apply (vfat_mangle_ok [97; 92; 98] 0 [] (replicate 256 9));
    [repeat constructor|done|vm_compute; split; [done|discriminate]].
Defined.

(** The comment of [vfat_mangle_name] says that backslashes become slashes. *)
Lemma backslash_stays : mangled slash_or_back [97; 92; 98] = [97; 92; 98].
Proof. vm_compute. done. Qed.

(** The length is not checked, against the comments: a name of 256 characters
    has no terminating zero, a longer one is written behind the buffer. *)
Lemma mangle_no_zero : generic_mangle_name (replicate 256 9) (replicate 256 97 ++ [0]) = Ok (replicate 256 97).
Proof. vm_compute. done. Qed.

Lemma mangle_overflow : generic_mangle_name (replicate 256 9) (replicate 257 97 ++ [0]) = Undef.
Proof. vm_compute. done. Qed.

End Mangle.
