(* ===== verification/Cache.v ===== *)
(** * The block cache (libcore/fs/cache.c)

    The cache descriptors are linked in the order of their last use, and the
    descriptor that heads the ring is the next victim.  The descriptors live in
    a word memory (DList); [dev_bufs] holds the contents of the block buffers.
    What the file systems rely on is at the end: [get_cache] returns a buffer
    with the contents of the block on the disk, and that buffer stays valid
    until as many other requests have been made as there are unlocked
    descriptors, minus one. *)

From Stdlib Require Import ZArith Lia.
From S2P Require Import Prelude DList.

(** ** The disk, as the cache sees it

    [getoneblk block size old] is the contents of the buffer after the block
    was read into it; [disk_block] the contents of the block on the disk. *)
Class BlockDevice := {
  getoneblk : Z -> Z -> list Z -> list Z;
  disk_block : Z -> Z -> list Z;
  getoneblk_ok block size old : getoneblk block size old = disk_block block size }.

Module Cache.

(** Offsets of the fields of struct cache, and its size. *)
Abbreviation c_block := 0.
Abbreviation c_prev := 8.
Abbreviation c_next := 12.
Abbreviation c_data := 16.
Abbreviation sizeof_cache := 20.

(** The block number -1, of descriptors without a block. *)
Definition NOBLOCK : Z := u64 (-1).

Record device := Device {
  dev_words : words;                     (* the cache descriptors *)
  dev_bufs : Z -> list Z;                (* the block at each data pointer *)
  cache_data : Z;
  cache_head : Z;                        (* 0 is NULL *)
  cache_block_size : Z;
  cache_entries : Z;
  cache_size : Z }.

Definition set_words (d : device) (m : words) : device :=
  Device m (dev_bufs d) (cache_data d) (cache_head d) (cache_block_size d) (cache_entries d)
    (cache_size d).

(** ** cache_init *)

(** [for (i = 0; i < dev->cache_entries; i++)], with [n] iterations to go. *)
Fixpoint init_entries (n : nat) (block_size : Z) (m : words) (cur prev data : Z) : words :=
  match n with
  | O => m
  | S n' =>
      let m := st m (cur + c_data) data in
      let m := st m (cur + c_block) NOBLOCK in
      let m := st m (cur + c_prev) prev in
      let m := st m (prev + c_next) cur in
      init_entries n' block_size m (cur + sizeof_cache) cur (data + block_size)
  end.

Definition cache_init (d : device) (block_size_shift : Z) : device :=
  let block_size := u16 (Z.shiftl 1 block_size_shift) in
  if decide (cache_size d < block_size + 2 * sizeof_cache) then
    Device (dev_words d) (dev_bufs d) (cache_data d) 0 block_size (cache_entries d) (cache_size d)
  else
    let entries := u16 ((cache_size d - sizeof_cache) / (block_size + sizeof_cache)) in
    let head := cache_data d + Z.shiftl entries block_size_shift in
    let cache := head + sizeof_cache in
    let m := dev_words d in
    let m := st m (head + c_prev) (cache + sizeof_cache * (entries - 1)) in
    let m := st m (m (head + c_prev) + c_next) head in
    let m := st m (head + c_block) NOBLOCK in
    let m := st m (head + c_data) 0 in
    let m := init_entries (Z.to_nat entries) block_size m cache head (cache_data d) in
    Device m (dev_bufs d) (cache_data d) head block_size entries (cache_size d).

(** ** The other operations *)

(** Takes a descriptor out of the chain. *)
Definition unchain (m : words) (cs : Z) : words :=
  let m := st m (m (cs + c_prev) + c_next) (m (cs + c_next)) in
  st m (m (cs + c_next) + c_prev) (m (cs + c_prev)).

Definition cache_lock_block (d : device) (cs : Z) : device :=
  let m := unchain (dev_words d) cs in
  let m := st m (cs + c_prev) 0 in
  set_words d (st m (cs + c_next) 0).

(** The search: [None] when no descriptor has the block. *)
Fixpoint find_block (n : nat) (m : words) (cs block : Z) : option Z :=
  match n with
  | O => None
  | S n' => if decide (m (cs + c_block) = block) then Some cs
            else find_block n' m (cs + sizeof_cache) block
  end.

(** Moves a descriptor to the end of the LRU chain. *)
Definition touch (m : words) (head cs : Z) : words :=
  let m := unchain m cs in
  let m := st m (cs + c_prev) (m (head + c_prev)) in
  let m := st m (m (head + c_prev) + c_next) cs in
  let m := st m (cs + c_next) head in
  st m (head + c_prev) cs.

Definition _get_cache_block (d : device) (block : Z) : device * Z :=
  let head := cache_head d in
  let m := dev_words d in
  let cs := match find_block (Z.to_nat (cache_entries d)) m (head + sizeof_cache) block with
            | Some cs => cs
            | None => m (head + c_next)      (* pick a victim *)
            end in
  if decide (m (cs + c_next) <> 0) then (set_words d (touch m head cs), cs) else (d, cs).

Section GetCache.
Context `{BD : BlockDevice}.

Definition get_cache (d : device) (block : Z) : device * Z :=
  let '(d, cs) := _get_cache_block d block in
  let m := dev_words d in
  if decide (m (cs + c_block) <> block) then
    let m := st m (cs + c_block) block in
    let p := m (cs + c_data) in
    let buf := getoneblk block (cache_block_size d) (dev_bufs d p) in
    (Device m (fun q => if decide (q = p) then buf else dev_bufs d q) (cache_data d)
       (cache_head d) (cache_block_size d) (cache_entries d) (cache_size d), p)
  else (d, m (cs + c_data)).

(** ext2_fs_init's use of the cache: "force block zero to all zero". *)
Definition lock_zero_block (d : device) : device :=
  let '(d, cs) := _get_cache_block d 0 in
  let p := dev_words d (cs + c_data) in
  let d := Device (dev_words d)
             (fun q => if decide (q = p) then replicate (Z.to_nat (cache_block_size d)) 0
                       else dev_bufs d q)
             (cache_data d) (cache_head d) (cache_block_size d) (cache_entries d) (cache_size d) in
  cache_lock_block d cs.
End GetCache.

(** ** The state of the cache *)

(** The address of the i-th descriptor and its buffer. *)
Definition entry (d : device) (i : nat) : Z := cache_head d + sizeof_cache * (Z.of_nat i + 1).
Definition buffer (d : device) (i : nat) : Z := cache_data d + cache_block_size d * Z.of_nat i.

Definition entries (d : device) : list Z :=
  entry d <$> seq 0 (Z.to_nat (cache_entries d)).

(** [lru] are the unlocked descriptors, the next victim first. *)
Record cache_rep `{BlockDevice} (d : device) (lru locked : list Z) : Prop := {
  cr_head : 0 < cache_head d;
  cr_size : 0 < cache_block_size d;
  cr_ring : ring c_next c_prev (dev_words d) (cache_head d) lru;
  cr_perm : lru ++ locked ≡ₚ entries d;
  cr_locked : forall e, In e locked -> dev_words d (e + c_next) = 0;
  cr_data : forall i, (i < Z.to_nat (cache_entries d))%nat ->
    dev_words d (entry d i + c_data) = buffer d i;
  cr_coherent : forall e, In e (entries d) -> dev_words d (e + c_block) <> NOBLOCK ->
    dev_bufs d (dev_words d (e + c_data)) =
      disk_block (dev_words d (e + c_block)) (cache_block_size d);
  cr_unique : forall e e', In e (entries d) -> In e' (entries d) ->
    dev_words d (e + c_block) = dev_words d (e' + c_block) ->
    dev_words d (e + c_block) <> NOBLOCK -> e = e' }.

(** *** The descriptors *)

Section Entries.
Context (d : device).

Lemma In_entries e :
  In e (entries d) <-> exists i, (i < Z.to_nat (cache_entries d))%nat /\ e = entry d i.
Proof.
  unfold entries. rewrite <- list_elem_of_In, list_elem_of_fmap. split.
  - intros (i & -> & Hi%elem_of_seq). exists i. split; [lia|done].
  - intros (i & Hi & ->). exists i. split; [done|]. apply elem_of_seq. lia.
Qed.

Lemma entries_NoDup : NoDup (cache_head d :: entries d).
Proof.
  constructor.
  - intros (i & Hi & E)%list_elem_of_In%In_entries. unfold entry in E. lia.
  - unfold entries. apply NoDup_fmap_2_strong; [|apply NoDup_seq].
    intros i j _ _. unfold entry. lia.
Qed.

Lemma entries_sep x y :
  In x (cache_head d :: entries d) -> In y (cache_head d :: entries d) -> sepn sizeof_cache x y.
Proof.
  unfold sepn. intros [<-|(i & _ & ->)%In_entries] [<-|(j & _ & ->)%In_entries];
    unfold entry; lia.
Qed.
End Entries.

Lemma find_block_spec n m cs block :
  match find_block n m cs block with
  | Some e => m (e + c_block) = block /\ exists i, (i < n)%nat /\ e = cs + sizeof_cache * Z.of_nat i
  | None => forall i, (i < n)%nat -> m (cs + sizeof_cache * Z.of_nat i + c_block) <> block
  end.
Proof.
  revert cs. induction n as [|n IH]; intros cs; simpl; [lia|]. case_decide as Hd.
  - split; [done|]. exists 0%nat. split; lia.
  - specialize (IH (cs + sizeof_cache)). destruct (find_block n m _ block) as [e|].
    + destruct IH as (He & i & Hi & ->). split; [done|]. exists (S i). split; lia.
    + intros [|i] Hi; [by replace (cs + sizeof_cache * Z.of_nat 0) with cs by lia|].
      replace (cs + sizeof_cache * Z.of_nat (S i)) with (cs + sizeof_cache + sizeof_cache * Z.of_nat i) by lia.
      apply IH. lia.
Qed.

Section Rep.
Context `{BD : BlockDevice}.

Lemma rep_NoDup d lru locked :
  cache_rep d lru locked -> NoDup (cache_head d :: lru) /\ NoDup (lru ++ locked).
Proof.
  intros Hr. pose proof (entries_NoDup d) as Hnd. apply NoDup_cons in Hnd as [Hh Hnd].
  pose proof (cr_perm _ _ _ Hr) as Hp. rewrite <- Hp in Hnd, Hh. split; [|done].
  apply NoDup_app in Hnd as (Hnd & _). constructor; [|done].
  intros Hin. apply Hh, elem_of_app. by left.
Qed.

Lemma rep_In d lru locked e : cache_rep d lru locked -> In e lru \/ In e locked -> In e (entries d).
Proof.
  intros Hr He. apply list_elem_of_In. rewrite <- (cr_perm _ _ _ Hr).
  apply elem_of_app. destruct He as [He|He]; [left|right]; by apply list_elem_of_In.
Qed.

Lemma rep_sub d lru locked e :
  cache_rep d lru locked -> In e (cache_head d :: lru) -> In e (cache_head d :: entries d).
Proof. intros Hr [<-|He]; [by left|right]. eapply rep_In; [done|by left]. Qed.

(** The links of an unlocked descriptor are not NULL. *)
Lemma rep_linked d lru locked e :
  cache_rep d lru locked -> In e lru -> dev_words d (e + c_next) <> 0.
Proof.
  intros Hr (l1 & l2 & ->)%in_split.
  destruct (ring_links _ _ _ _ _ _ _ (cr_ring _ _ _ Hr)) as [-> _].
  destruct l2 as [|x l2]; simpl; [pose proof (cr_head _ _ _ Hr); lia|].
  assert (In x (entries d)) as (i & _ & ->)%In_entries.
  { eapply rep_In; [done|left]. apply in_or_app. right. right. by left. }
  unfold entry. pose proof (cr_head _ _ _ Hr). lia.
Qed.

(** Only the links of unlocked descriptors and of the head differ. *)
Definition links_only (d : device) (m m' : words) : Prop :=
  wsame (fun x => exists e, In e (cache_head d :: entries d) /\ (x = e + c_next \/ x = e + c_prev)) m m'.

Lemma links_only_block d m m' e :
  links_only d m m' -> In e (entries d) ->
  m' (e + c_block) = m (e + c_block) /\ m' (e + c_data) = m (e + c_data).
Proof.
  intros Hw He. split; apply Hw; intros (f & Hf & Hx);
    pose proof (entries_sep d e f (or_intror He) Hf) as Hs; unfold sepn in Hs; lia.
Qed.

Lemma rep_links d m' lru lru' locked :
  cache_rep d lru locked -> lru' ≡ₚ lru -> links_only d (dev_words d) m' ->
  ring c_next c_prev m' (cache_head d) lru' ->
  (forall e, In e locked -> m' (e + c_next) = 0) ->
  cache_rep (set_words d m') lru' locked.
Proof.
  intros Hr Hp Hw Hring Hlk.
  assert (forall e, In e (entries d) -> m' (e + c_block) = dev_words d (e + c_block) /\
    m' (e + c_data) = dev_words d (e + c_data)) as Hs
    by (intros e He; by apply (links_only_block d)).
  constructor; simpl; try apply Hr; try done.
  - rewrite Hp. apply Hr.
  - intros i Hi. change (m' (entry d i + c_data) = buffer d i).
    rewrite <- (cr_data _ _ _ Hr i Hi).
    apply Hs, In_entries. eauto.
  - intros e He. destruct (Hs e He) as [-> ->]. by apply Hr.
  - intros e e' He He'. destruct (Hs e He) as [-> _], (Hs e' He') as [-> _]. by apply Hr.
Qed.

(** *** Moving descriptors on the chain *)

Lemma links_only_trans d m1 m2 m3 :
  links_only d m1 m2 -> links_only d m2 m3 -> links_only d m1 m3.
Proof. apply wsame_trans. Qed.

Lemma links_only_next d m m' e v :
  links_only d m m' -> In e (cache_head d :: entries d) -> links_only d m (st m' (e + c_next) v).
Proof. intros Hm He. apply wsame_st; [done|]. exists e. auto. Qed.

Lemma links_only_prev d m m' e v :
  links_only d m m' -> In e (cache_head d :: entries d) -> links_only d m (st m' (e + c_prev) v).
Proof. intros Hm He. apply wsame_st; [done|]. exists e. auto. Qed.

(** The descriptors around [cs]. *)
Record around (d : device) (l1 : list Z) (cs : Z) (l2 : list Z) (p n : Z) : Prop := {
  ar_p : In p (cache_head d :: l1 ++ l2);
  ar_n : In n (cache_head d :: l1 ++ l2);
  ar_cs : In cs (entries d);
  ar_in : forall e, In e (cache_head d :: l1 ++ l2) -> In e (cache_head d :: entries d);
  ar_ne : forall e, In e (cache_head d :: l1 ++ l2) -> cs <> e;
  ar_prev : dev_words d (cs + c_prev) = p;
  ar_next : dev_words d (cs + c_next) = n }.

Lemma rep_around d l1 cs l2 locked :
  cache_rep d (l1 ++ cs :: l2) locked ->
  around d l1 cs l2 (List.last l1 (cache_head d)) (hd (cache_head d) l2).
Proof.
  intros Hr. destruct (ring_links _ _ _ _ _ _ _ (cr_ring _ _ _ Hr)) as [En Ep].
  destruct (rep_NoDup _ _ _ Hr) as [Hnd _]. destruct (NoDup_sub3 _ l1 [cs] l2 Hnd) as [_ Hcs].
  constructor; try done.
  - destruct l1 as [|y l1 _] using rev_ind; [by left|right]. rewrite last_last.
    apply in_or_app. left. apply in_or_app. right. by left.
  - destruct l2; [by left|right]. apply in_or_app. right. by left.
  - eapply rep_In; [done|left]. apply in_or_app. right. by left.
  - intros e He. eapply rep_sub; [done|]. destruct He as [<-|He]; [by left|right].
    apply in_app_or in He as [?|?]; apply in_or_app; [by left|right; by right].
  - intros e He <-. apply (Hcs _ He). by left.
Qed.

(** Locked descriptors are not on the chain. *)
Lemma locked_apart d lru locked e y :
  cache_rep d lru locked -> In e locked -> In y (cache_head d :: lru) -> e <> y.
Proof.
  intros Hr He [<-|Hy] ->.
  - pose proof (entries_NoDup d) as [Hh _]%NoDup_cons. apply Hh, list_elem_of_In.
    eapply rep_In; [done|by right].
  - destruct (rep_NoDup _ _ _ Hr) as [_ Hnd]. apply NoDup_app in Hnd as (_ & Hnd & _).
    apply (Hnd y); by apply list_elem_of_In.
Qed.

Lemma unchain_ok d l1 cs l2 locked :
  cache_rep d (l1 ++ cs :: l2) locked ->
  let m' := unchain (dev_words d) cs in
  ring c_next c_prev m' (cache_head d) (l1 ++ l2) /\ links_only d (dev_words d) m'.
Proof.
  intros Hr m'. destruct (rep_around _ _ _ _ _ Hr) as [HpI HnI Hcs Hin Hne Ep En].
  set (p := List.last l1 _) in *. set (n := hd _ l2) in *. set (m := dev_words d) in *.
  pose proof (entries_sep d cs p (or_intror Hcs) (Hin _ HpI)) as S1.
  pose proof (entries_sep d p n (Hin _ HpI) (Hin _ HnI)) as S3.
  pose proof (Hne _ HpI) as Hp. unfold sepn in S1, S3.
  assert (m' = st (st m (p + c_next) n) (n + c_prev) p) as ->.
  { unfold m', unchain. by rewrite Ep, En, !st_ne, Ep, En by lia. }
  split.
  - destruct (rep_NoDup _ _ _ Hr) as [Hnd _].
    apply (ring_remove c_next c_prev sizeof_cache ltac:(lia) ltac:(lia) ltac:(lia) m _ _ l1 cs l2);
      try done; [|apply Hr|..]; rewrite ?En, ?Ep.
    + intros y z Hy Hz. apply (entries_sep d); by eapply rep_sub.
    + repeat apply wsame_st; auto. done.
    + by rewrite st_ne, st_eq by lia.
    + by rewrite st_eq.
  - apply links_only_prev; [apply links_only_next; [done|]|]; auto.
Qed.

(** The second half of [touch]. *)
Lemma append_ok d m1 l cs :
  ring c_next c_prev m1 (cache_head d) l -> NoDup (cache_head d :: l ++ [cs]) ->
  (forall e, In e (cache_head d :: l ++ [cs]) -> In e (cache_head d :: entries d)) ->
  let h := cache_head d in
  let q := m1 (h + c_prev) in
  let m' := st (st (st (st m1 (cs + c_prev) q) (q + c_next) cs) (cs + c_next) h) (h + c_prev) cs in
  In q (h :: l) /\ ring c_next c_prev m' h (l ++ [cs]) /\ links_only d m1 m'.
Proof.
  intros Hr Hnd Hin h q m'.
  assert (In q (h :: l)) as Hq.
  { unfold q, h. rewrite (ring_last _ _ _ _ _ Hr).
    destruct l as [|y l _] using rev_ind; [by left|right]. rewrite last_last.
    apply in_or_app. right. by left. }
  assert (forall e, In e (h :: l) -> In e (h :: entries d) /\ cs <> e) as Hl.
  { intros e He. split.
    - apply Hin. destruct He as [<-|He]; [by left|right]. apply in_or_app. by left.
    - intros <-. rewrite app_comm_cons in Hnd. apply NoDup_app in Hnd as (_ & Hnd & _).
      apply (Hnd cs); [by apply list_elem_of_In|by left]. }
  assert (In cs (h :: entries d)) as HcN by (apply Hin; right; apply in_or_app; right; by left).
  destruct (Hl q Hq) as [HqN Hqc]. destruct (Hl h) as [HhN Hhc]; [by left|].
  pose proof (entries_sep d _ _ HcN HqN) as S1. pose proof (entries_sep d _ _ HcN HhN) as S2.
  pose proof (entries_sep d _ _ HqN HhN) as S3. unfold sepn in S1, S2, S3. fold h in S2, S3.
  split; [done|]. split.
  - apply (ring_push_back c_next c_prev sizeof_cache ltac:(lia) ltac:(lia) ltac:(lia) m1); try done;
      fold q; unfold m'.
    + intros y z Hy Hz. apply (entries_sep d); auto.
    + do 4 (apply wsame_st; [|auto]). done.
    + by rewrite st_ne, st_ne, st_eq by lia.
    + by rewrite st_eq.
    + by rewrite st_ne, st_eq by lia.
    + by rewrite !st_ne, st_eq by lia.
  - unfold m'. apply links_only_prev; [|done]. apply links_only_next; [|done].
    apply links_only_next; [|done]. by apply links_only_prev.
Qed.

(** Links of locked descriptors stay NULL. *)
Lemma locked_links d lru locked m' L :
  cache_rep d lru locked -> (forall y, In y L -> In y (cache_head d :: lru)) ->
  wsame (fun x => exists y, In y L /\ (x = y + c_next \/ x = y + c_prev)) (dev_words d) m' ->
  forall e, In e locked -> m' (e + c_next) = 0.
Proof.
  intros Hr HL Hw e He. rewrite <- (cr_locked _ _ _ Hr e He). apply Hw. intros (y & Hy & Hx).
  pose proof (locked_apart _ _ _ _ _ Hr He (HL y Hy)) as Hne.
  pose proof (entries_sep d e y (or_intror (rep_In _ _ _ _ Hr (or_intror He)))
    (rep_sub _ _ _ _ Hr (HL y Hy))) as S.
  unfold sepn in S. lia.
Qed.

Lemma touch_rep d l1 cs l2 locked :
  cache_rep d (l1 ++ cs :: l2) locked ->
  let m' := touch (dev_words d) (cache_head d) cs in
  cache_rep (set_words d m') (l1 ++ l2 ++ [cs]) locked /\ links_only d (dev_words d) m'.
Proof.
  intros Hr m'. set (h := cache_head d) in *.
  pose proof (rep_around _ _ _ _ _ Hr) as Har.
  destruct (unchain_ok _ _ _ _ _ Hr) as [Hr1 Hw1]. set (m1 := unchain (dev_words d) cs) in *.
  assert (NoDup (h :: (l1 ++ l2) ++ [cs])) as Hnd.
  { destruct (rep_NoDup _ _ _ Hr) as [Hnd _]. destruct (NoDup_sub3 _ l1 [cs] l2 Hnd) as [Hnd' _].
    rewrite app_comm_cons. apply NoDup_app. split; [done|]. split; [|apply NoDup_singleton].
    intros y Hy%list_elem_of_In ->%list_elem_of_singleton. by apply (ar_ne _ _ _ _ _ _ Har cs). }
  assert (forall e, In e (h :: (l1 ++ l2) ++ [cs]) -> In e (h :: entries d)) as Hin.
  { intros e [<-|[He|[<-|[]]]%in_app_or]; [by left| |right; apply Har].
    apply Har. by right. }
  destruct (append_ok d m1 (l1 ++ l2) cs Hr1 Hnd Hin) as (Hq & Hr2 & Hw2). fold h in Hq, Hr2, Hw2.
  assert (m' = st (st (st (st m1 (cs + c_prev) (m1 (h + c_prev))) (m1 (h + c_prev) + c_next) cs)
    (cs + c_next) h) (h + c_prev) cs) as Hm'.
  { pose proof (entries_sep d cs h (or_intror (ar_cs _ _ _ _ _ _ Har)) (or_introl eq_refl)) as S.
    pose proof (ar_ne _ _ _ _ _ _ Har h (or_introl eq_refl)). unfold sepn in S. fold h in S.
    unfold m', touch. fold m1. by rewrite (st_ne m1 (cs + c_prev) _ (h + c_prev)) by lia. }
  rewrite Hm'. split; [|eapply links_only_trans; done].
  apply (rep_links d _ (l1 ++ cs :: l2)); try done.
  - rewrite app_assoc, Permutation_app_comm. simpl. by rewrite Permutation_middle.
  - by eapply links_only_trans.
  - by rewrite app_assoc.
  - apply (locked_links d _ locked _ (h :: l1 ++ cs :: l2) Hr); [done|].
    set (L := h :: l1 ++ cs :: l2).
    assert (forall y, In y (h :: l1 ++ l2) -> In y L) as HL.
    { intros y [<-|Hy]; [by left|right]. apply in_app_or in Hy as [?|?]; apply in_or_app;
        [by left|right; by right]. }
    assert (In cs L) as HcL by (right; apply in_or_app; right; by left).
    destruct Har as [HpI HnI Hcs Har1 Har2 Ep En]. fold h in HpI, HnI, Ep, En.
    assert (wsame (fun x => exists y, In y L /\ (x = y + c_next \/ x = y + c_prev)) (dev_words d) m1) as Hm1.
    { unfold m1, unchain. rewrite Ep, En.
      pose proof (entries_sep d cs _ (or_intror Hcs) (Har1 _ HpI)) as S. unfold sepn in S.
      pose proof (Har2 _ HpI). rewrite !st_ne, Ep, En by lia.
      apply wsame_st; [apply wsame_st; [done|]|]; eexists;
        [split; [apply HL, HpI|auto]|split; [apply HL, HnI|auto]]. }
    apply wsame_st; [|exists h; split; [by left|auto]].
    apply wsame_st; [|exists cs; split; [done|auto]].
    apply wsame_st; [|exists (m1 (h + c_prev)); split; [by apply HL|auto]].
    apply wsame_st; [done|exists cs; split; [done|auto]].
Qed.

(** *** The operations *)

(** How a request for a block changes the chain: the descriptor [cs] moves to
    the end, unless it is locked. *)
Definition lru_step (lru : list Z) (cs : Z) (lru' : list Z) : Prop :=
  (~ In cs lru /\ lru' = lru) \/ exists l1 l2, lru = l1 ++ cs :: l2 /\ lru' = l1 ++ l2 ++ [cs].

Lemma find_entry d block :
  match find_block (Z.to_nat (cache_entries d)) (dev_words d) (cache_head d + sizeof_cache) block with
  | Some e => In e (entries d) /\ dev_words d (e + c_block) = block
  | None => forall e, In e (entries d) -> dev_words d (e + c_block) <> block
  end.
Proof.
  pose proof (find_block_spec (Z.to_nat (cache_entries d)) (dev_words d)
    (cache_head d + sizeof_cache) block) as H.
  destruct (find_block _ _ _ _) as [e|].
  - destruct H as (He & i & Hi & ->). split; [|done]. apply In_entries. exists i.
    split; [done|]. unfold entry. lia.
  - intros e (i & Hi & ->)%In_entries E. apply (H i Hi). rewrite <- E. unfold entry.
    f_equal. lia.
Qed.

(** The descriptor found or the victim chosen, and the new state. *)
Record chosen (d : device) (lru locked : list Z) (block : Z) (d' : device) (cs : Z)
    (lru' : list Z) : Prop := {
  ch_rep : cache_rep d' lru' locked;
  ch_state : exists m', d' = set_words d m' /\ links_only d (dev_words d) m';
  ch_in : In cs (entries d);
  ch_step : lru_step lru cs lru';
  ch_hit : dev_words d (cs + c_block) = block \/
    ((forall e, In e (entries d) -> dev_words d (e + c_block) <> block) /\ hd_error lru = Some cs) }.

Lemma get_block_ok d lru locked block :
  cache_rep d lru locked -> lru <> [] ->
  let '(d', cs) := _get_cache_block d block in exists lru', chosen d lru locked block d' cs lru'.
Proof.
  intros Hr Hne. unfold _get_cache_block. pose proof (find_entry d block) as Hf.
  set (cs := match find_block _ _ _ _ with Some cs => cs | None => _ end).
  assert (In cs (entries d) /\ (dev_words d (cs + c_block) = block \/
    ((forall e, In e (entries d) -> dev_words d (e + c_block) <> block) /\ hd_error lru = Some cs))) as [Hin Hhit].
  { unfold cs. destruct (find_block _ _ _ _) as [e|]; [tauto|].
    rewrite (ring_first _ _ _ _ _ (cr_ring _ _ _ Hr)). destruct lru as [|e lru]; [done|]. simpl.
    split; [|by right]. eapply rep_In; [done|left; by left]. }
  assert (In cs lru \/ In cs locked) as Hcs.
  { apply list_elem_of_In in Hin. rewrite <- (cr_perm _ _ _ Hr) in Hin.
    apply elem_of_app in Hin as [H|H]; [left|right]; by apply list_elem_of_In. }
  clearbody cs. case_decide as Hnull.
  - destruct Hcs as [Hcs|Hcs]; [|by rewrite (cr_locked _ _ _ Hr _ Hcs) in Hnull].
    apply in_split in Hcs as (l1 & l2 & ->).
    destruct (touch_rep d l1 cs l2 locked Hr) as [Hr' Hw].
    exists (l1 ++ l2 ++ [cs]). constructor; eauto. right. eauto.
  - exists lru. constructor; try done.
    + exists (dev_words d). split; [by destruct d|]. by apply wsame_refl.
    + left. split; [|done]. intros Hl. exact (rep_linked _ _ _ _ Hr Hl Hnull).
Qed.

(** Filling a descriptor. *)
Lemma buffer_inj d lru locked e e' :
  cache_rep d lru locked -> In e (entries d) -> In e' (entries d) ->
  dev_words d (e + c_data) = dev_words d (e' + c_data) -> e = e'.
Proof.
  intros Hr (i & Hi & ->)%In_entries (j & Hj & ->)%In_entries.
  rewrite !(cr_data _ _ _ Hr) by done. unfold buffer. pose proof (cr_size _ _ _ Hr).
  intros E. assert (i = j) as -> by nia. done.
Qed.

Definition fill (d : device) (cs block : Z) : device :=
  let p := dev_words d (cs + c_data) in
  Device (st (dev_words d) (cs + c_block) block)
    (fun q => if decide (q = p) then disk_block block (cache_block_size d) else dev_bufs d q)
    (cache_data d) (cache_head d) (cache_block_size d) (cache_entries d) (cache_size d).

Lemma fill_rep d lru locked cs block :
  cache_rep d lru locked -> In cs (entries d) ->
  (forall e, In e (entries d) -> dev_words d (e + c_block) <> block) ->
  cache_rep (fill d cs block) lru locked.
Proof.
  intros Hr Hcs Hno. set (m' := dev_words (fill d cs block)).
  assert (forall e f, In e (cache_head d :: entries d) -> 0 < f < 20 ->
    m' (e + f) = dev_words d (e + f)) as Hf.
  { intros e f He Hf. apply st_ne.
    pose proof (entries_sep d e cs He (or_intror Hcs)) as S. unfold sepn in S. lia. }
  assert (forall e, In e (entries d) -> e <> cs -> m' (e + c_block) = dev_words d (e + c_block)) as Ht.
  { intros e He Hne. apply st_ne.
    pose proof (entries_sep d e cs (or_intror He) (or_intror Hcs)) as S. unfold sepn in S. lia. }
  assert (m' (cs + c_block) = block) as Htc by apply st_eq.
  constructor; try apply Hr; fold m'.
  - apply ring_ext with (dev_words d); [..|apply Hr]; intros y Hy; apply Hf;
      try lia; by eapply rep_sub.
  - intros e He. rewrite Hf; [by apply Hr|right; eapply rep_In; [done|by right]|lia].
  - intros i Hi. change (m' (entry d i + c_data) = buffer d i).
    rewrite Hf; [by apply Hr|right; apply In_entries; eauto|lia].
  - change (entries (fill d cs block)) with (entries d). intros e He Htag.
    rewrite (Hf e c_data) by (try lia; by right). simpl in *.
    destruct (decide (e = cs)) as [->|Hne].
    + rewrite Htc. by rewrite decide_True.
    + rewrite Ht in * by done. rewrite decide_False; [by apply Hr|].
      intros E. apply Hne. by eapply buffer_inj.
  - change (entries (fill d cs block)) with (entries d). intros e e' He He' E Hn.
    destruct (decide (e = cs)) as [->|Hne], (decide (e' = cs)) as [->|Hne']; [done|..].
    + rewrite Htc, Ht in E by done. by destruct (Hno e' He').
    + rewrite Htc, Ht in E by done. by destruct (Hno e He).
    + rewrite !Ht in * by done. by apply (cr_unique _ _ _ Hr).
Qed.

(** What a request guarantees. *)
Record fetched (d : device) (lru locked : list Z) (block : Z) (d' : device) (p : Z) (cs : Z)
    (lru' : list Z) : Prop := {
  fe_rep : cache_rep d' lru' locked;
  fe_step : lru_step lru cs lru';
  fe_in : In cs (entries d);
  fe_entries : entries d' = entries d /\ cache_block_size d' = cache_block_size d;
  fe_ptr : p = dev_words d' (cs + c_data);
  fe_tag : dev_words d' (cs + c_block) = block;
  fe_data : forall e, In e (entries d) -> dev_words d' (e + c_data) = dev_words d (e + c_data);
  fe_other : forall e, In e (entries d) -> e <> cs ->
    dev_words d' (e + c_block) = dev_words d (e + c_block);
  (** a block that is cached is not read again; otherwise the descriptor used
      longest ago is refilled *)
  fe_read : (dev_bufs d' = dev_bufs d /\ dev_words d (cs + c_block) = block) \/
    ((forall e, In e (entries d) -> dev_words d (e + c_block) <> block) /\
     hd_error lru = Some cs /\ forall q, q <> p -> dev_bufs d' q = dev_bufs d q) }.

Lemma get_cache_fetched d lru locked block :
  cache_rep d lru locked -> lru <> [] ->
  let '(d', p) := get_cache d block in
  exists cs lru', fetched d lru locked block d' p cs lru'.
Proof.
  intros Hr Hne. unfold get_cache. pose proof (get_block_ok d lru locked block Hr Hne) as Hc.
  destruct (_get_cache_block d block) as [d1 cs]. destruct Hc as (lru' & [Hr1 (m1 & -> & Hw) Hin Hstep Hhit]).
  assert (forall e, In e (entries d) -> m1 (e + c_block) = dev_words d (e + c_block) /\
    m1 (e + c_data) = dev_words d (e + c_data)) as Hs by (intros e He; by apply (links_only_block d)).
  cbn [set_words dev_words dev_bufs cache_block_size cache_data cache_head cache_entries cache_size].
  destruct (Hs cs Hin) as [Htag Hdata]. case_decide as Hd.
  - rewrite Htag in Hd. destruct Hhit as [?|[Hno Hhd]]; [done|].
    exists cs, lru'.
    assert (Device (st m1 (cs + c_block) block)
      (fun q => if decide (q = st m1 (cs + c_block) block (cs + c_data))
                then getoneblk block (cache_block_size d) (dev_bufs d (st m1 (cs + c_block) block (cs + c_data)))
                else dev_bufs d q)
      (cache_data d) (cache_head d) (cache_block_size d) (cache_entries d) (cache_size d) =
      fill (set_words d m1) cs block) as ->.
    { unfold fill. cbn [set_words dev_words dev_bufs cache_block_size cache_data cache_head cache_entries cache_size].
      rewrite getoneblk_ok, st_ne by lia. done. }
    assert (forall e, In e (entries d) -> st m1 (cs + c_block) block (e + c_data) = m1 (e + c_data)) as Hsd.
    { intros e He. apply st_ne.
      pose proof (entries_sep d e cs (or_intror He) (or_intror Hin)) as S. unfold sepn in S. lia. }
    constructor; try done.
    + apply fill_rep; [done|done|]. intros e He. destruct (Hs e He) as [E _]. simpl. rewrite E. by apply Hno.
    + simpl. by rewrite st_eq.
    + intros e He. simpl. rewrite Hsd by done. by apply Hs.
    + intros e He Hec. simpl. rewrite st_ne; [by apply Hs|].
      pose proof (entries_sep d e cs (or_intror He) (or_intror Hin)) as S. unfold sepn in S. lia.
    + right. split; [done|]. split; [done|]. intros q Hq. simpl. rewrite Hsd in Hq by done.
      by rewrite decide_False.
  - exists cs, lru'. constructor; try done.
    + intros e He. by apply Hs.
    + intros e He _. by apply Hs.
    + left. split; [done|]. by rewrite <- Htag.
Qed.

(** The requested block is in the buffer. *)
Lemma fetched_block d lru locked block d' p cs lru' :
  fetched d lru locked block d' p cs lru' -> block <> NOBLOCK ->
  dev_bufs d' p = disk_block block (cache_block_size d).
Proof.
  intros [Hr _ Hin [He Hb] Hp Ht _ _ _] Hn. subst p.
  rewrite (cr_coherent _ _ _ Hr cs), Ht, Hb; [done|by rewrite He|by rewrite Ht].
Qed.

(** A descriptor that is followed by enough others on the chain, or locked,
    keeps its block during [n] requests. *)
Definition stays (lru locked : list Z) (e : Z) (n : nat) : Prop :=
  In e locked \/ exists l1 l2, lru = l1 ++ e :: l2 /\ (n <= length l1)%nat.

Lemma lru_step_length lru cs lru' : lru_step lru cs lru' -> length lru' = length lru.
Proof.
  intros [[_ ->]|(l1 & l2 & -> & ->)]; [done|]. rewrite !length_app. simpl. lia.
Qed.

Lemma stays_step d lru locked e n block d' p cs lru' :
  cache_rep d lru locked -> fetched d lru locked block d' p cs lru' ->
  In e (entries d) -> dev_words d (e + c_block) <> NOBLOCK -> stays lru locked e (S n) ->
  stays lru' locked e n /\ dev_words d' (e + c_block) = dev_words d (e + c_block).
Proof.
  intros Hr Hf He Hn Hst. destruct Hf as [_ Hstep Hin _ _ Htag _ Hother Hread].
  assert (cs = e -> dev_words d (e + c_block) = block) as Hce.
  { intros ->. destruct Hread as [[_ ?]|(_ & Hhd & _)]; [done|].
    exfalso. destruct (rep_NoDup _ _ _ Hr) as [_ Hnd].
    destruct lru as [|x lru]; [done|]. simpl in Hhd. injection Hhd as ->.
    destruct Hst as [Hl|(l1 & l2 & El & Hlen)].
    - apply NoDup_app in Hnd as (_ & Hnd & _). apply (Hnd e); [by left|by apply list_elem_of_In].
    - destruct l1 as [|y l1]; simpl in *; [lia|]. injection El as -> ->.
      apply NoDup_cons in Hnd as [Hnd _]. apply Hnd, elem_of_app. left. apply elem_of_app. right. by left. }
  split.
  - destruct Hst as [Hl|(l1 & l2 & -> & Hlen)]; [by left|]. right.
    destruct Hstep as [[_ ->]|(k1 & k2 & El & ->)]; [exists l1, l2; split; [done|lia]|].
    destruct (decide (cs = e)) as [->|Hne].
    + exists (k1 ++ k2), []. rewrite <- app_assoc. split; [done|].
      assert (length (k1 ++ e :: k2) = length (l1 ++ e :: l2)) as Hl by (by rewrite El).
      rewrite !length_app in *. simpl in Hl. lia.
    + assert (In cs (l1 ++ e :: l2)) as Hcs by (rewrite El; apply in_or_app; right; by left).
      pose proof (proj2 (rep_NoDup _ _ _ Hr)) as Hnd. apply NoDup_app in Hnd as (Hnd & _).
      assert (forall a b a' b', NoDup (a ++ cs :: b) -> a ++ cs :: b = a' ++ cs :: b' -> a = a' /\ b = b') as Huniq.
      { clear. induction a as [|x a IH]; intros b [|x' a'] b' Hnd E; simpl in *.
        - by injection E as ->.
        - injection E as -> ->. apply NoDup_cons in Hnd as [Hnd _].
          exfalso. apply Hnd, elem_of_app. right. by left.
        - injection E as -> E. apply NoDup_cons in Hnd as [Hnd _].
          exfalso. apply Hnd, elem_of_app. right. by left.
        - injection E as -> E. apply NoDup_cons in Hnd as [_ Hnd].
          by destruct (IH _ _ _ Hnd E) as [-> ->]. }
      apply in_app_or in Hcs as [Hcs|[?|Hcs]]; [|done|].
      * apply in_split in Hcs as (a & b & ->). rewrite <- app_assoc in El, Hnd. simpl in El, Hnd.
        destruct (Huniq _ _ _ _ Hnd El) as [<- <-].
        exists (a ++ b), (l2 ++ [cs]). rewrite <- !app_assoc. split; [done|].
        rewrite !length_app in *. simpl in Hlen. lia.
      * apply in_split in Hcs as (a & b & ->).
        replace (l1 ++ e :: a ++ cs :: b) with ((l1 ++ e :: a) ++ cs :: b) in El, Hnd
          by (by rewrite <- app_assoc).
        destruct (Huniq _ _ _ _ Hnd El) as [<- <-].
        exists l1, (a ++ b ++ [cs]). rewrite <- !app_assoc. split; [done|lia].
  - destruct (decide (e = cs)) as [->|Hne]; [|by apply Hother]. rewrite Htag. by rewrite Hce.
Qed.

(** A series of requests. *)
Definition get_all (d : device) (blocks : list Z) : device :=
  fold_left (fun d b => (get_cache d b).1) blocks d.

Lemma get_all_stays blocks d lru locked e p :
  cache_rep d lru locked -> lru <> [] -> In e (entries d) ->
  dev_words d (e + c_block) <> NOBLOCK -> p = dev_words d (e + c_data) ->
  stays lru locked e (length blocks) ->
  dev_bufs (get_all d blocks) p = disk_block (dev_words d (e + c_block)) (cache_block_size d).
Proof.
  revert d lru. induction blocks as [|b blocks IH]; intros d lru Hr Hne He Hn Hp Hst; simpl.
  - subst p. by apply Hr.
  - pose proof (get_cache_fetched d lru locked b Hr Hne) as Hf.
    destruct (get_cache d b) as [d' p']. destruct Hf as (cs & lru' & Hf). simpl.
    destruct (stays_step _ _ _ _ _ _ _ _ _ _ Hr Hf He Hn Hst) as [Hst' Htag].
    destruct (fe_entries _ _ _ _ _ _ _ _ Hf) as [Hen Hb].
    rewrite (IH d' lru'); rewrite ?Htag, ?Hb, ?Hen; try done.
    + apply Hf.
    + pose proof (lru_step_length _ _ _ (fe_step _ _ _ _ _ _ _ _ Hf)) as Hl.
      intros ->. destruct lru; done.
    + rewrite (fe_data _ _ _ _ _ _ _ _ Hf e He). done.
Qed.

End Rep.

End Cache.
