(* ===== verification/CacheSpec.v ===== *)
(** * The guarantees of the block cache

    Initialisation, the contents of the buffer that a request returns, how long
    such a buffer stays valid, locked descriptors, and what locking a zeroed
    descriptor for block zero (as ext2 does) amounts to. *)

From Stdlib Require Import ZArith Lia.
From S2P Require Import Prelude DList Cache.
Import Cache.Cache.

Module CacheSpec.

Section Spec.
Context `{BD : BlockDevice}.

(** ** cache_init *)

(** The first [n] descriptors after [prev]. *)
Definition descs (cur : Z) (n : nat) : list Z := (fun i => cur + sizeof_cache * Z.of_nat i) <$> seq 0 n.

Lemma descs_S cur n : descs cur (S n) = cur :: descs (cur + sizeof_cache) n.
Proof.
  unfold descs. simpl. f_equal; [lia|]. rewrite <- fmap_S_seq, <- list_fmap_compose.
  apply list_fmap_ext. intros i x Hx. simpl. lia.
Qed.

Lemma descs_snoc cur n : descs cur (S n) = descs cur n ++ [cur + sizeof_cache * Z.of_nat n].
Proof. unfold descs. by rewrite seq_S, fmap_app. Qed.

Lemma init_entries_spec n bs m cur prev data :
  prev + sizeof_cache <= cur ->
  let m' := init_entries n bs m cur prev data in
  chain c_next c_prev m' (prev :: descs cur n) /\
  (forall i, (i < n)%nat -> m' (cur + sizeof_cache * Z.of_nat i + c_data) = data + bs * Z.of_nat i /\
     m' (cur + sizeof_cache * Z.of_nat i + c_block) = NOBLOCK) /\
  (forall x, x <> prev + c_next -> ~ (cur <= x < cur + sizeof_cache * Z.of_nat n) -> m' x = m x) /\
  ((0 < n)%nat -> m' (cur + sizeof_cache * (Z.of_nat n - 1) + c_next) =
     m (cur + sizeof_cache * (Z.of_nat n - 1) + c_next)).
Proof.
  revert m cur prev data. induction n as [|n IH]; intros m cur prev data Hpc m'.
  { split; [done|]. split; [lia|]. split; [done|lia]. }
  subst m'. simpl init_entries.
  set (m1 := st (st (st (st m _ _) _ _) _ _) _ _).
  destruct (IH m1 (cur + sizeof_cache) cur (data + bs) ltac:(lia)) as (Hch & Hf & Hs & Hl).
  set (m' := init_entries n bs m1 _ _ _) in *.
  assert (m' (prev + c_next) = cur) as Hpn.
  { rewrite Hs by lia. unfold m1. by rewrite st_eq. }
  assert (m' (cur + c_prev) = prev) as Hcp.
  { rewrite Hs by lia. unfold m1. by rewrite st_ne, st_eq by lia. }
  split; [|split; [|split]].
  - rewrite descs_S. split; [done|]. split; [done|]. done.
  - intros [|i] Hi.
    + replace (cur + sizeof_cache * Z.of_nat 0) with cur by lia. rewrite !Hs by lia. unfold m1.
      rewrite (st_ne _ _ _ (cur + c_data)), (st_ne _ _ _ (cur + c_data)), (st_ne _ _ _ (cur + c_data)), st_eq by lia.
      rewrite (st_ne _ _ _ (cur + c_block)), (st_ne _ _ _ (cur + c_block)), st_eq by lia.
      split; [lia|done].
    + replace (cur + sizeof_cache * Z.of_nat (S i)) with (cur + sizeof_cache + sizeof_cache * Z.of_nat i) by lia.
      destruct (Hf i ltac:(lia)) as [-> ->]. split; [lia|done].
  - intros x Hx Hr. rewrite Hs by lia. unfold m1. by rewrite !st_ne by lia.
  - intros _. destruct n as [|n].
    + replace (cur + sizeof_cache * (Z.of_nat 1 - 1)) with cur by lia.
      unfold m', m1. simpl. by rewrite !st_ne by lia.
    + replace (cur + sizeof_cache * (Z.of_nat (S (S n)) - 1))
        with (cur + sizeof_cache + sizeof_cache * (Z.of_nat (S n) - 1)) by lia.
      rewrite Hl by lia. unfold m1. by rewrite !st_ne by lia.
Qed.

Lemma chain_close (on op : Z) m h l z :
  chain on op m (h :: l) -> m (List.last l h + on) = z -> m (z + op) = List.last l h ->
  chain on op m (h :: l ++ [z]).
Proof.
  revert h. induction l as [|x l IH]; intros h Hc H1 H2; simpl in *; [done|].
  destruct Hc as (C1 & C2 & C3). split; [done|]. split; [done|].
  assert (List.last l x = match l with [] => x | _ :: _ => List.last l h end) as E.
  { destruct l; [done|]. clear. revert z0. induction l as [|y l IH]; intros; [done|]. apply IH. }
  apply IH; [done|by rewrite E|by rewrite E].
Qed.

Lemma descs_last cur prev n :
  (0 < n)%nat -> List.last (descs cur n) prev = cur + sizeof_cache * (Z.of_nat n - 1).
Proof.
  destruct n as [|n]; [lia|]. intros _. rewrite descs_snoc, last_last. lia.
Qed.

Lemma entries_descs d : entries d = descs (cache_head d + sizeof_cache) (Z.to_nat (cache_entries d)).
Proof. unfold entries, descs. apply list_fmap_ext. intros i x Hx. unfold entry. lia. Qed.

(** The arguments for which the cache is usable. *)
Record init_ok (d : device) (shift : Z) : Prop := {
  io_shift : 0 <= shift < 16;
  io_data : 0 < cache_data d;
  io_size : 2 ^ shift + 2 * sizeof_cache <= cache_size d;
  io_count : (cache_size d - sizeof_cache) / (2 ^ shift + sizeof_cache) < 0x10000 }.

Lemma cache_init_rep d shift :
  init_ok d shift ->
  let d' := cache_init d shift in
  cache_block_size d' = 2 ^ shift /\
  cache_entries d' = (cache_size d - sizeof_cache) / (2 ^ shift + sizeof_cache) /\
  0 < cache_entries d' /\
  cache_head d' = cache_data d + cache_entries d' * 2 ^ shift /\
  cache_rep d' (entries d') [] /\
  (forall e, In e (entries d') -> dev_words d' (e + c_block) = NOBLOCK).
Proof.
  intros [Hsh Hdata Hsize Hcount] d'.
  assert (0 < 2 ^ shift <= 2 ^ 15) as Hpow by (split; [lia|apply Z.pow_le_mono_r; lia]).
  change (2 ^ 15) with 32768 in Hpow.
  assert (1 <= (cache_size d - sizeof_cache) / (2 ^ shift + sizeof_cache)) as Hge
    by (apply Z.div_le_lower_bound; lia).
  set (n := (cache_size d - sizeof_cache) / (2 ^ shift + sizeof_cache)) in *.
  subst d'. unfold cache_init. rewrite shiftl_mul, Z.mul_1_l, (u16_small (2 ^ shift)) by lia.
  rewrite decide_False by lia. fold n. rewrite (u16_small n), (shiftl_mul n) by lia.
  set (head := cache_data d + n * 2 ^ shift).
  set (m0 := st (st (st _ _ _) _ _) (head + c_data) 0).
  assert (0 < head) as Hh by (unfold head; nia).
  destruct (init_entries_spec (Z.to_nat n) (2 ^ shift) m0 (head + sizeof_cache) head (cache_data d)
    ltac:(lia)) as (Hch & Hf & Hs & Hl).
  set (m' := init_entries _ _ m0 _ _ _) in *. rewrite Z2Nat.id in Hs, Hl by lia.
  assert (m0 (head + sizeof_cache + sizeof_cache * (n - 1) + c_next) = head) as H0.
  { unfold m0. by rewrite st_ne, st_ne, !st_eq by lia. }
  assert (m0 (head + c_prev) = head + sizeof_cache + sizeof_cache * (n - 1)) as H1.
  { unfold m0. rewrite st_ne, st_ne, st_eq by lia. by rewrite st_ne, st_eq by lia. }
  cbn [cache_block_size cache_entries cache_head dev_words].
  split; [done|]. split; [done|]. split; [lia|]. split; [done|].
  rewrite entries_descs. cbn [cache_entries cache_head].
  assert (forall e, In e (descs (head + sizeof_cache) (Z.to_nat n)) -> m' (e + c_block) = NOBLOCK) as Hno.
  { unfold descs. intros e (i & -> & Hi%elem_of_seq)%list_elem_of_In%list_elem_of_fmap. apply Hf. lia. }
  split; [|done].
  constructor; cbn [cache_head cache_block_size dev_words dev_bufs cache_entries]; try done; try lia.
  - unfold ring. apply chain_close; [done|..]; rewrite descs_last, Z2Nat.id by lia.
    + rewrite Hl by lia. done.
    + rewrite Hs by lia. done.
  - rewrite app_nil_r, entries_descs. done.
  - intros i Hi. unfold entry, buffer. cbn [cache_head cache_data cache_block_size].
    replace (head + sizeof_cache * (Z.of_nat i + 1)) with (head + sizeof_cache + sizeof_cache * Z.of_nat i) by lia.
    by apply Hf.
  - intros e He. rewrite entries_descs in He. intros Hn. destruct Hn. by apply Hno.
  - intros e e' He _ _ Hn. rewrite entries_descs in He. destruct Hn. by apply Hno.
Qed.

(** ** Locking *)

Lemma cache_lock_rep d l1 cs l2 locked :
  cache_rep d (l1 ++ cs :: l2) locked ->
  cache_rep (cache_lock_block d cs) (l1 ++ l2) (cs :: locked) /\
  links_only d (dev_words d) (dev_words (cache_lock_block d cs)).
Proof.
  intros Hr. destruct (unchain_ok _ _ _ _ _ Hr) as [Hr1 Hw1].
  pose proof (rep_around _ _ _ _ _ Hr) as [HpI HnI Hcs Hin Hne Ep En].
  set (h := cache_head d) in *. set (m1 := unchain (dev_words d) cs) in *.
  set (m' := dev_words (cache_lock_block d cs)).
  assert (m' = st (st m1 (cs + c_prev) 0) (cs + c_next) 0) as Hm' by done.
  assert (links_only d (dev_words d) m') as Hw.
  { rewrite Hm'. apply links_only_next; [apply links_only_prev; [done|]|]; by right. }
  split; [|done].
  assert (forall e, In e (entries d) -> m' (e + c_block) = dev_words d (e + c_block) /\
    m' (e + c_data) = dev_words d (e + c_data)) as Hs
    by (intros e He; by apply (links_only_block d)).
  constructor; try apply Hr; fold m'; change (cache_head (cache_lock_block d cs)) with h;
    change (entries (cache_lock_block d cs)) with (entries d).
  - apply ring_ext with m1; [..|done]; intros y Hy; rewrite Hm', !st_ne; try done;
      pose proof (Hne y Hy); pose proof (entries_sep d _ _ (Hin y Hy) (or_intror Hcs)) as S;
      unfold sepn in S; lia.
  - rewrite <- (cr_perm _ _ _ Hr), <- !app_assoc. apply Permutation_app_head. simpl.
    symmetry. apply Permutation_middle.
  - intros e [<-|He]; [by rewrite Hm', st_eq|].
    assert (e <> cs) as Hec.
    { eapply locked_apart; [done|done|]. right. apply in_or_app. right. by left. }
    assert (In e (entries d)) as HeE by (eapply rep_In; [done|by right]).
    pose proof (entries_sep d e cs (or_intror HeE) (or_intror Hcs)) as S. unfold sepn in S.
    rewrite Hm', !st_ne by lia. rewrite <- (cr_locked _ _ _ Hr e He).
    unfold m1, unchain. rewrite Ep, En.
    pose proof (entries_sep d cs _ (or_intror Hcs) (Hin _ HpI)) as S1. unfold sepn in S1.
    pose proof (Hne _ HpI). rewrite (st_ne _ _ _ (cs + c_next)), (st_ne _ _ _ (cs + c_prev)), Ep, En by lia.
    assert (forall y, In y (h :: l1 ++ l2) -> e <> y) as Hey.
    { intros y Hy. eapply locked_apart; [done|done|]. destruct Hy as [<-|Hy]; [by left|right].
      apply in_app_or in Hy as [?|?]; apply in_or_app; [by left|right; by right]. }
    pose proof (Hey _ HpI). pose proof (Hey _ HnI).
    pose proof (entries_sep d e _ (or_intror HeE) (Hin _ HpI)) as S2.
    pose proof (entries_sep d e _ (or_intror HeE) (Hin _ HnI)) as S3. unfold sepn in S2, S3.
    by rewrite !st_ne by lia.
  - intros i Hi. change (m' (entry d i + c_data) = buffer d i). rewrite <- (cr_data _ _ _ Hr i Hi).
    apply Hs, In_entries. eauto.
  - intros e He. destruct (Hs e He) as [-> ->]. by apply Hr.
  - intros e e' He He'. destruct (Hs e He) as [-> _], (Hs e' He') as [-> _]. by apply Hr.
Qed.

(** ** Properties *)

(** C37. Initialisation of a big enough area makes a cache of as many blocks as
    fit, all of them unlocked and empty; the buffers and the descriptors lie in
    the area. *)
Theorem cache_init_ok d shift :
  init_ok d shift ->
  let d' := cache_init d shift in
  cache_rep d' (entries d') [] /\ (0 < length (entries d'))%nat /\
  cache_entries d' = (cache_size d - sizeof_cache) / (cache_block_size d' + sizeof_cache) /\
  (forall i, (i < length (entries d'))%nat ->
     cache_data d <= buffer d' i /\ buffer d' i + cache_block_size d' <= cache_head d' /\
     entry d' i + sizeof_cache <= cache_data d + cache_size d) /\
  (forall e, In e (entries d') -> dev_words d' (e + c_block) = NOBLOCK).
Proof.
  intros Hio d'. destruct (cache_init_rep d shift Hio) as (Hb & Hn & Hpos & Hh & Hr & Hno).
  fold d' in Hb, Hn, Hpos, Hh, Hr, Hno.
  assert (length (entries d') = Z.to_nat (cache_entries d')) as Hlen
    by (unfold entries; by rewrite length_fmap, length_seq).
  destruct Hio as [Hsh Hdata Hsize _]. assert (0 < 2 ^ shift) by lia.
  assert (cache_entries d' * (2 ^ shift + sizeof_cache) <= cache_size d - sizeof_cache) as Hfit.
  { rewrite Hn. rewrite Z.mul_comm. apply Z.mul_div_le. lia. }
  split; [done|]. split; [lia|]. split; [by rewrite Hb|]. split; [|done].
  intros i Hi. unfold buffer, entry. rewrite Hb, Hh.
  assert (cache_data d' = cache_data d) as ->.
  { unfold d', cache_init. by case_decide. }
  assert (Z.of_nat i < cache_entries d') by lia. nia.
Qed.

(** C7. A request returns a buffer that holds the block as it is on the disk;
    the cache stays coherent, a cached block is not read again, and only the
    descriptor that was used longest ago is given another block. *)
Theorem get_cache_correct d lru locked block :
  cache_rep d lru locked -> lru <> [] -> block <> NOBLOCK ->
  let '(d', p) := get_cache d block in
  dev_bufs d' p = disk_block block (cache_block_size d) /\
  exists cs lru', cache_rep d' lru' locked /\ lru_step lru cs lru' /\
    ((dev_bufs d' = dev_bufs d /\ dev_words d (cs + c_block) = block) \/
     ((forall e, In e (entries d) -> dev_words d (e + c_block) <> block) /\
      hd_error lru = Some cs /\ forall q, q <> p -> dev_bufs d' q = dev_bufs d q)).
Proof.
  intros Hr Hne Hb. pose proof (get_cache_fetched d lru locked block Hr Hne) as Hf.
  destruct (get_cache d block) as [d' p]. destruct Hf as (cs & lru' & Hf).
  split; [by eapply fetched_block|]. exists cs, lru'. destruct Hf. auto.
Qed.

(** C31. The buffer a request returns keeps the block during fewer further
    requests than there are unlocked descriptors. *)
Theorem cache_pointer_valid d lru locked block blocks :
  cache_rep d lru locked -> block <> NOBLOCK -> (length blocks < length lru)%nat ->
  let '(d', p) := get_cache d block in
  dev_bufs (get_all d' blocks) p = disk_block block (cache_block_size d).
Proof.
  intros Hr Hb Hlen. assert (lru <> []) as Hne by (intros ->; simpl in Hlen; lia).
  pose proof (get_cache_fetched d lru locked block Hr Hne) as Hf.
  destruct (get_cache d block) as [d' p]. destruct Hf as (cs & lru' & Hf).
  pose proof (lru_step_length _ _ _ (fe_step _ _ _ _ _ _ _ _ Hf)) as Hl.
  destruct (fe_entries _ _ _ _ _ _ _ _ Hf) as [Hen Hbs].
  rewrite (get_all_stays blocks d' lru' locked cs p), (fe_tag _ _ _ _ _ _ _ _ Hf), Hbs; try done.
  - apply Hf.
  - intros ->. simpl in Hl. lia.
  - rewrite Hen. by apply (fe_in _ _ _ _ _ _ _ _ Hf).
  - by rewrite (fe_tag _ _ _ _ _ _ _ _ Hf).
  - by apply (fe_ptr _ _ _ _ _ _ _ _ Hf).
  - destruct (fe_step _ _ _ _ _ _ _ _ Hf) as [[Hno ->]|(l1 & l2 & -> & ->)].
    + left. pose proof (fe_in _ _ _ _ _ _ _ _ Hf) as Hin. apply list_elem_of_In in Hin.
      rewrite <- (cr_perm _ _ _ Hr) in Hin. apply elem_of_app in Hin as [H|H].
      * by apply list_elem_of_In in H.
      * by apply list_elem_of_In.
    + right. exists (l1 ++ l2), []. rewrite <- app_assoc. split; [done|].
      rewrite !length_app in *. simpl in Hlen. lia.
Qed.

(** A locked descriptor keeps its block whatever is requested. *)
Theorem locked_block_stays d l1 cs l2 locked blocks :
  cache_rep d (l1 ++ cs :: l2) locked -> l1 ++ l2 <> [] ->
  dev_words d (cs + c_block) <> NOBLOCK ->
  dev_bufs (get_all (cache_lock_block d cs) blocks) (dev_words d (cs + c_data)) =
    disk_block (dev_words d (cs + c_block)) (cache_block_size d).
Proof.
  intros Hr Hne Hn. destruct (cache_lock_rep _ _ _ _ _ Hr) as [Hr' Hw].
  assert (In cs (entries d)) as Hcs.
  { eapply rep_In; [done|left]. apply in_or_app. right. by left. }
  destruct (links_only_block d _ _ cs Hw Hcs) as [Et Ed].
  rewrite (get_all_stays blocks _ (l1 ++ l2) (cs :: locked) cs); rewrite ?Et, ?Ed; try done.
  left. by left.
Qed.

(** ext2 zeroes and locks a descriptor "to force block zero to all zero",
    but does not give it the block number: the next request for block zero
    reads it from the disk. *)
Theorem zero_block_not_forced d shift :
  init_ok d shift -> (1 < length (entries (cache_init d shift)))%nat ->
  let '(d', p) := get_cache (lock_zero_block (cache_init d shift)) 0 in
  dev_bufs d' p = disk_block 0 (2 ^ shift).
Proof.
  intros Hio Hlen. destruct (cache_init_rep d shift Hio) as (Hb & _ & _ & _ & Hr & Hno).
  set (d0 := cache_init d shift) in *. unfold lock_zero_block.
  assert (entries d0 <> []) as Hne by (intros E; rewrite E in Hlen; simpl in Hlen; lia).
  pose proof (get_block_ok d0 _ [] 0 Hr Hne) as Hg.
  destruct (_get_cache_block d0 0) as [d1 cs]. destruct Hg as (lru' & [Hr1 (m1 & -> & Hw) Hin Hst Hhit]).
  assert (exists l1 l2, lru' = l1 ++ cs :: l2 /\ (0 < length (l1 ++ l2))%nat) as (l1 & l2 & El & Hl).
  { pose proof (lru_step_length _ _ _ Hst) as Hll.
    destruct Hst as [[Hx _]|(k1 & k2 & E & ->)]; [done|].
    exists (k1 ++ k2), []. rewrite <- app_assoc. split; [done|].
    rewrite E, !length_app in Hlen. simpl in Hlen. rewrite app_nil_r, length_app. lia. }
  set (bufs := fun q => if decide (q = _) then _ else _).
  set (d2 := Device _ bufs _ _ _ _ _).
  assert (cache_rep d2 lru' []) as Hr2.
  { constructor; try apply Hr1. intros e He Hn. destruct Hn. change (m1 (e + c_block) = NOBLOCK).
    destruct (links_only_block d0 _ _ e Hw He) as [-> _]. by apply Hno. }
  rewrite El in Hr2. destruct (cache_lock_rep _ _ _ _ _ Hr2) as [Hr3 _].
  assert (l1 ++ l2 <> []) as Hne3 by (intros E; rewrite E in Hl; simpl in Hl; lia).
  pose proof (get_cache_fetched _ _ _ 0 Hr3 Hne3) as Hf.
  destruct (get_cache (cache_lock_block d2 cs) 0) as [d' p]. destruct Hf as (cs' & lru'' & Hf).
  rewrite (fetched_block _ _ _ _ _ _ _ _ Hf); [|done]. change (cache_block_size _) with (cache_block_size d0).
  by rewrite Hb.
Qed.

End Spec.

(** ** A concrete cache *)

(** A disk whose block [b] is filled with the byte [b + 1]. *)
#[local] Program Instance demo_disk : BlockDevice := {
  getoneblk block size _ := replicate (Z.to_nat size) (u8 (block + 1));
  disk_block block size := replicate (Z.to_nat size) (u8 (block + 1)) }.
Next Obligation. done. Qed.

Definition demo_device : device := Device (fun _ => 0) (fun _ => []) 0x1000 0 0 0 300.

Lemma demo_init_ok : init_ok demo_device 4.
Proof. constructor; [lia|reflexivity|vm_compute; discriminate|reflexivity]. Qed.

Lemma cache_init_ok_witness :
  cache_rep (cache_init demo_device 4) (entries (cache_init demo_device 4)) [] /\
  cache_entries (cache_init demo_device 4) = 7.
Proof. split; [apply (cache_init_ok demo_device 4 demo_init_ok)|reflexivity]. Defined.

Lemma get_cache_correct_witness :
  let '(d', p) := get_cache (cache_init demo_device 4) 5 in
  dev_bufs d' p = replicate 16 6.
Proof.
  destruct (cache_init_rep demo_device 4 demo_init_ok) as (_ & _ & _ & _ & Hr & _).
  assert (entries (cache_init demo_device 4) <> []) as Hne by (vm_compute; discriminate).
  pose proof (get_cache_correct _ _ _ 5 Hr Hne ltac:(vm_compute; discriminate)) as H.
  destruct (get_cache _ 5) as [d' p]. destruct H as [H _]. exact H.
Defined.

Lemma cache_pointer_valid_witness :
  let '(d', p) := get_cache (cache_init demo_device 4) 5 in
  dev_bufs (get_all d' [1; 2; 3; 4; 6; 7]) p = replicate 16 6.
Proof.
  destruct (cache_init_rep demo_device 4 demo_init_ok) as (_ & _ & _ & _ & Hr & _).
  pose proof (cache_pointer_valid _ _ _ 5 [1; 2; 3; 4; 6; 7] Hr ltac:(vm_compute; discriminate)
    ltac:(vm_compute; lia)) as H.
  destruct (get_cache _ 5) as [d' p]. exact H.
Defined.

Lemma locked_block_stays_witness :
  exists d cs, dev_bufs (get_all (cache_lock_block d cs) [1; 2; 3; 4; 6; 7; 8; 9; 10])
    (dev_words d (cs + c_data)) = replicate 16 6.
Proof.
  destruct (cache_init_rep demo_device 4 demo_init_ok) as (_ & _ & _ & _ & Hr & _).
  assert (entries (cache_init demo_device 4) <> []) as Hne by (vm_compute; discriminate).
  pose proof (get_cache_fetched _ _ _ 5 Hr Hne) as Hf.
  destruct (get_cache (cache_init demo_device 4) 5) as [d' p] eqn:Hg.
  destruct Hf as (cs & lru' & [Hr' Hst Hin [_ Hbs] _ Htag _ _ _]).
  destruct Hst as [[Hno _]|(l1 & l2 & El & ->)]; [by destruct Hno|].
  rewrite app_assoc in Hr'.
  assert ((l1 ++ l2) ++ [] <> []) as Hne'.
  { assert (length (entries (cache_init demo_device 4)) = 7%nat) as Hlen by reflexivity.
    rewrite El, length_app in Hlen. simpl in Hlen. rewrite app_nil_r.
    intros E. apply (f_equal length) in E. rewrite length_app in E. simpl in E. lia. }
  exists d', cs.
  rewrite (locked_block_stays d' _ cs [] [] [1; 2; 3; 4; 6; 7; 8; 9; 10] Hr' Hne');
    rewrite Htag; [by rewrite Hbs|by vm_compute].
Defined.

Lemma zero_block_not_forced_witness :
  let '(d', p) := get_cache (lock_zero_block (cache_init demo_device 4)) 0 in
  dev_bufs d' p = replicate 16 1.
Proof.
  pose proof (zero_block_not_forced demo_device 4 demo_init_ok ltac:(vm_compute; lia)) as H.
  destruct (get_cache (lock_zero_block _) 0) as [d' p]. exact H.
Defined.

End CacheSpec.
