(* ===== verification/GetFsSec.v ===== *)
(** * Reading a file by extents (libcore/fs/getfssec.c)

    [generic_getfssec] reads whole sectors of an open file through the
    next_extent method of the file system, which maps a run of the file's
    sectors to a run of sectors of the partition.  It keeps the current and the
    next run in the inode, and coalesces runs that are adjacent on the disk so
    that they are read with one request.

    Two interfaces separate it from its neighbours: [SectorDevice] is what the
    disk driver promises, [ExtentFS] what a file system does.  The main theorem
    says that the bytes read are the bytes of the file. *)

From Stdlib Require Import ZArith Lia.
From S2P Require Import Prelude.

(** ** Interfaces *)

(** The disk: [rdwr_sectors start count old] is the contents, after the
    transfer, of the [count] sectors of memory whose contents was [old].
    [valid_sector] says which sectors the partition has. *)
Class SectorDevice := {
  sector_shift : Z;
  sector_shift_range : 0 <= sector_shift <= 16;
  disk_sector : Z -> list Z;
  disk_sector_length p : Z.of_nat (length (disk_sector p)) = 2 ^ sector_shift;
  rdwr_sectors : Z -> Z -> list Z -> list Z;
  valid_sector : Z -> Prop;
  rdwr_sectors_ok start count old :
    0 <= count -> count * 2 ^ sector_shift <= 0x80000000 ->
    (forall j, 0 <= j < count -> valid_sector (start + j)) ->
    Z.of_nat (length old) = count * 2 ^ sector_shift ->
    rdwr_sectors start count old = concat (disk_sector <$> seqZ start count) }.

(** struct extent *)
Record extent := Extent { pstart : Z; lstart : Z; len : Z }.

#[export] Instance extent_eq_dec : EqDecision extent.
Proof. solve_decision. Defined.

Definition EXTENT_ZERO : Z := u64 (-1).
Definition EXTENT_VOID : Z := u64 (-2).
Definition EXTENT_SPECIAL (x : Z) : bool := bool_decide (EXTENT_VOID <= x).

Module GetFsSec.

Definition next_psector (psector skip : Z) : Z :=
  if EXTENT_SPECIAL psector then psector else u64 (psector + skip).

Definition next_pstart (e : extent) : Z := next_psector (pstart e) (len e).

(** The extents describe the map [sector_map] from the sectors of a file to
    those of the partition ([EXTENT_ZERO] for a hole). *)
Definition extent_maps (sector_map : Z -> option Z) (e : extent) : Prop :=
  0 <= lstart e /\ 0 <= len e /\ lstart e + len e < 0x100000000 /\
  (0 < len e -> pstart e = EXTENT_ZERO \/ 0 <= pstart e /\ pstart e + len e <= EXTENT_VOID) /\
  forall i, 0 <= i < len e -> sector_map (lstart e + i) = Some (next_psector (pstart e) i).

End GetFsSec.
Import GetFsSec.

(** What the code uses of a file: the next_extent method of its file system and
    its size.  [next_extent s e l] is given the file system's own state, the
    extent [inode->next_extent] and the sector to map; it returns the new ones
    and whether it failed. *)
Class ExtentOps (S : Type) := {
  next_extent : S -> extent -> Z -> result (S * extent * bool);
  inode_size : Z }.

(** What the method promises.  [sector_map] is where the sectors of the file
    are, [None] where the method fails.  [fs_at s l] says that the state can be
    asked for sector [l]: for any one where a block or cluster starts, or only
    for the one after the last extent. *)
Class ExtentFS `{SectorDevice} (S : Type) := {
  extent_ops :: ExtentOps S;
  fs_at : S -> Z -> Prop;
  inode_size_range : 0 <= inode_size <= 0x100000000 - 2 ^ sector_shift;
  sector_map : Z -> option Z;
  sector_map_valid l p : sector_map l = Some p -> p = EXTENT_ZERO \/ valid_sector p;
  next_extent_ok s e l :
    fs_at s l -> (0 < len e -> extent_maps sector_map e) ->
    0 <= l -> l * 2 ^ sector_shift < inode_size ->
    exists s' e' err, next_extent s e l = Ok (s', e', err) /\
    if err || bool_decide (len e' = 0) then sector_map l = None /\ fs_at s' l
    else extent_maps sector_map (Extent (pstart e') l (len e')) /\ fs_at s' (l + len e') }.

Module ReadFile.

(** ** The code *)

Section Code.
Context `{SD : SectorDevice} {S : Type} `{EO : !ExtentOps S}.

(** The inode, with the state of the file system. *)
Record inode := Inode { this_extent : extent; next_ext : extent; pvt : S }.

Definition get_next_extent (i : inode) : result inode :=
  let l := u32 (lstart (this_extent i) + len (this_extent i)) in
  '(s, e, err) ← next_extent (pvt i) (next_ext i) l;
  Ok (Inode (this_extent i) (Extent (pstart e) l (if (err : bool) then 0 else len e)) s).

(** The [while (sectors > inode->this_extent.len)] loop; the result has the
    new value of [sectors]. *)
Definition coalesce_step (st : inode * Z) : result (ctl (inode * Z) (inode * Z)) :=
  let '(i, sectors) := st in
  if decide (sectors > len (this_extent i)) then
    i ← (if decide (len (next_ext i) = 0 \/
                    lstart (next_ext i) <> u32 (lstart (this_extent i) + len (this_extent i)))
         then get_next_extent i else Ok i);
    if decide (len (this_extent i) = 0) then
      let i := Inode (next_ext i) (next_ext i) (pvt i) in
      if decide (len (next_ext i) = 0) then Ok (Break (i, 0)) else Ok (Continue (i, sectors))
    else if decide (len (next_ext i) <> 0 /\ pstart (next_ext i) = next_pstart (this_extent i)) then
      let t := this_extent i in
      Ok (Continue (Inode (Extent (pstart t) (lstart t) (u32 (len t + len (next_ext i))))
                          (next_ext i) (pvt i), sectors))
    else Ok (Break (i, sectors))
  else Ok (Break (i, sectors)).

(** Memory writes into the caller's buffer, [undefined] outside it. *)
Definition transfer (f : list Z -> list Z) (buf : list Z) (pos n : Z) : result (list Z) :=
  if decide (pos + n <= Z.of_nat (length buf)) then
    Ok (take (Z.to_nat pos) buf ++ f (take (Z.to_nat n) (drop (Z.to_nat pos) buf))
          ++ drop (Z.to_nat (pos + n)) buf)
  else Undef.

(** One iteration of [while (sectors)]: the variables are the inode, the
    buffer, the position in it, [sectors] and [bytes_read]. *)
Definition read_step (fuel : nat) (st : inode * list Z * Z * Z * Z) :
    result (ctl (inode * list Z * Z * Z * Z) (inode * list Z * Z)) :=
  let '(i, buf, pos, sectors, bytes_read) := st in
  if decide (sectors = 0) then Ok (Break (i, buf, bytes_read)) else
  '(i, sectors) ← loop fuel coalesce_step (i, sectors);
  let t := this_extent i in
  let chunk := Z.min sectors (len t) in
  let n := u32 (Z.shiftl chunk sector_shift) in
  '(buf, p) ←
    (if decide (pstart t = EXTENT_ZERO) then
       b ← transfer (fun old => replicate (length old) 0) buf pos n; mret (b, pstart t)
     else
       b ← transfer (rdwr_sectors (pstart t) chunk) buf pos n; mret (b, u64 (pstart t + chunk)));
  let t := Extent p (u32 (lstart t + chunk)) (u32 (len t - chunk)) in
  Ok (Continue (Inode t (next_ext i) (pvt i), buf, pos + n, sectors - chunk, u32 (bytes_read + n))).

(** The extent has a given sector. *)
Definition usable (e : extent) (lsector : Z) : bool :=
  negb (bool_decide (lsector < lstart e) || bool_decide (lsector >= u32 (lstart e + len e))).

(** Makes [this_extent] start at the sector to read, or empties it. *)
Definition seek_extent (i : inode) (lsector : Z) : inode :=
  let t := if usable (this_extent i) lsector then this_extent i else next_ext i in
  if usable t lsector then
    let delta := lsector - lstart t in
    Inode (Extent (next_psector (pstart t) delta) lsector (u32 (len t - delta))) (next_ext i) (pvt i)
  else Inode (Extent (pstart t) lsector 0) (next_ext i) (pvt i).

(** The result: inode, buffer, file offset, [*have_more] ([None] when it is not
    written) and the number of bytes read. *)
Definition generic_getfssec (fuel : nat) (i : inode) (offset : Z) (buf : list Z) (sectors : Z) :
    result (inode * list Z * Z * option bool * Z) :=
  let bytes_left := u32 (inode_size - offset) in
  let sectors_left := Z.shiftr (u32 (bytes_left + 2 ^ sector_shift - 1)) sector_shift in
  let sectors := if decide (u32 sectors > sectors_left) then sectors_left else sectors in
  if decide (sectors = 0) then Ok (i, buf, offset, None, 0) else
  let lsector := Z.shiftr offset sector_shift in
  let i := seek_extent i lsector in
  '(i, buf, bytes_read) ← loop fuel (read_step fuel) (i, buf, 0, sectors, 0);
  let bytes_read := Z.min bytes_read bytes_left in
  Ok (i, buf, u32 (offset + bytes_read), Some (bool_decide (bytes_read < bytes_left)), bytes_read).

End Code.

(** ** The specification *)

Section ReadFile.
Context `{SD : SectorDevice} {S : Type} `{FS : !ExtentFS S}.

Abbreviation inode := (inode (S := S)).

(** What a sector of the file reads as. *)
Definition file_sector (l : Z) : list Z :=
  match sector_map l with
  | Some p => if decide (p = EXTENT_ZERO) then replicate (Z.to_nat (2 ^ sector_shift)) 0
              else disk_sector p
  | None => replicate (Z.to_nat (2 ^ sector_shift)) 0
  end.

(** The number of sectors of the file, and its bytes. *)
Definition file_sectors : Z := (inode_size + 2 ^ sector_shift - 1) / 2 ^ sector_shift.
Definition file_bytes : list Z :=
  take (Z.to_nat inode_size) (concat (file_sector <$> seqZ 0 file_sectors)).

Definition ext_end (e : extent) : Z := lstart e + len e.

(** What the inode and the file system's state satisfy between calls: the
    state can go on after [next_extent], and, when that is not what follows
    [this_extent], after [this_extent]. *)
Definition inode_ok (i : inode) : Prop :=
  (0 <= lstart (this_extent i) < 0x100000000 /\ 0 <= len (this_extent i) < 0x100000000 /\
   (0 < len (this_extent i) -> extent_maps sector_map (this_extent i))) /\
  (0 <= lstart (next_ext i) < 0x100000000 /\ 0 <= len (next_ext i) < 0x100000000 /\
   (0 < len (next_ext i) -> extent_maps sector_map (next_ext i) /\ fs_at (pvt i) (ext_end (next_ext i)))) /\
  (len (next_ext i) = 0 \/ lstart (next_ext i) <> ext_end (this_extent i) ->
   fs_at (pvt i) (ext_end (this_extent i))).

(** ** Extents *)

Lemma next_psector_normal p d :
  0 <= p -> 0 <= d -> p + d < 0x10000000000000000 -> p < EXTENT_VOID -> next_psector p d = p + d.
Proof.
  intros. unfold next_psector, EXTENT_SPECIAL. rewrite bool_decide_false by lia.
  apply u64_small. lia.
Qed.

Lemma next_psector_zero d : next_psector EXTENT_ZERO d = EXTENT_ZERO.
Proof. reflexivity. Qed.

Lemma special_values : EXTENT_ZERO = 0xffffffffffffffff /\ EXTENT_VOID = 0xfffffffffffffffe.
Proof. by vm_compute. Qed.

(** The rest of an extent. *)
Lemma extent_maps_advance (mp : Z -> option Z) e d :
  extent_maps mp e -> 0 <= d <= len e -> 0 < len e ->
  extent_maps mp (Extent (next_psector (pstart e) d) (lstart e + d) (len e - d)).
Proof.
  intros (H1 & H2 & H3 & Hp & Hm) Hd Hl. destruct special_values as [Ez Ev].
  specialize (Hp Hl). unfold extent_maps; simpl. do 3 (split; [lia|]).
  destruct Hp as [Hp|Hp].
  - rewrite Hp, next_psector_zero. split; [auto|]. intros i Hi. rewrite next_psector_zero.
    replace (lstart e + d + i) with (lstart e + (d + i)) by lia.
    rewrite Hm, Hp by lia. done.
  - rewrite next_psector_normal by lia. split; [intros; right; lia|]. intros i Hi.
    replace (lstart e + d + i) with (lstart e + (d + i)) by lia.
    rewrite Hm, !next_psector_normal by lia. f_equal. lia.
Qed.

(** Two extents that follow each other in the file and on the disk. *)
Lemma extent_maps_coalesce (mp : Z -> option Z) e1 e2 :
  extent_maps mp e1 -> extent_maps mp e2 -> 0 < len e1 -> 0 < len e2 ->
  lstart e2 = lstart e1 + len e1 -> pstart e2 = next_pstart e1 ->
  extent_maps mp (Extent (pstart e1) (lstart e1) (len e1 + len e2)).
Proof.
  intros (A1 & A2 & A3 & Ap & Am) (B1 & B2 & B3 & Bp & Bm) HA HB El Ep.
  destruct special_values as [Ez Ev]. specialize (Ap HA). specialize (Bp HB).
  unfold next_pstart in Ep. unfold extent_maps; simpl. do 3 (split; [lia|]).
  assert (pstart e1 = EXTENT_ZERO /\ pstart e2 = EXTENT_ZERO \/
    0 <= pstart e1 /\ pstart e2 = pstart e1 + len e1 /\ pstart e1 + len e1 + len e2 <= EXTENT_VOID) as Hc.
  { destruct Ap as [Ap|Ap].
    - rewrite Ap, next_psector_zero in Ep. auto.
    - rewrite next_psector_normal in Ep by lia. right. lia. }
  split; [intros; lia|]. intros i Hi. destruct (Z.lt_ge_cases i (len e1)).
  - apply Am. lia.
  - replace (lstart e1 + i) with (lstart e2 + (i - len e1)) by lia. rewrite Bm by lia.
    destruct Hc as [[-> ->]|Hc]; [done|]. rewrite !next_psector_normal by lia. f_equal. lia.
Qed.

(** ** Looking for the next extent *)

(** [this_extent] starts at sector [cur]. *)
Definition at_sector (i : inode) (cur : Z) : Prop :=
  inode_ok i /\ lstart (this_extent i) = cur.

Definition in_file (l : Z) : Prop := l * 2 ^ sector_shift < inode_size.

Lemma shift_pos : 1 <= 2 ^ sector_shift.
Proof. pose proof sector_shift_range. pose proof (Z.pow_pos_nonneg 2 sector_shift). lia. Qed.

Lemma in_file_mono l l' : in_file l' -> l <= l' -> in_file l.
Proof. unfold in_file. pose proof shift_pos. nia. Qed.

Lemma in_file_range l : in_file l -> l + 1 < 0x100000000.
Proof. unfold in_file. pose proof shift_pos. pose proof inode_size_range. nia. Qed.

Lemma get_next_extent_ok i cur :
  at_sector i cur -> in_file (cur + len (this_extent i)) ->
  len (next_ext i) = 0 \/ lstart (next_ext i) <> cur + len (this_extent i) ->
  exists i', get_next_extent i = Ok i' /\
  at_sector i' cur /\ this_extent i' = this_extent i /\
  lstart (next_ext i') = cur + len (this_extent i) /\
  (len (next_ext i') = 0 -> sector_map (cur + len (this_extent i)) = None).
Proof.
  intros [((Ht1 & Ht2 & Ht3) & (Hn1 & Hn2 & Hn3) & Hat) Hcur] Hl Hne. unfold ext_end in *. rewrite Hcur in *.
  pose proof (in_file_range _ Hl) as Hr. unfold get_next_extent. rewrite Hcur, u32_small by lia.
  destruct (next_extent_ok (pvt i) (next_ext i) (cur + len (this_extent i))) as (s & e & err & E & He);
    [by apply Hat|apply Hn3|lia|exact Hl|]. rewrite E. eexists. split; [reflexivity|].
  unfold at_sector, inode_ok, ext_end; simpl. rewrite Hcur.
  case_bool_decide as Hz; [rewrite orb_true_r in He|rewrite orb_false_r in He].
  - rewrite Hz. replace (if err then 0 else 0) with 0 by (by destruct err). destruct He. splits; auto; lia.
  - destruct err; [destruct He; splits; auto; lia|]. destruct He as [He Hg]. pose proof He as (? & ? & ? & _). simpl in *.
    splits; try lia; try done.
Qed.

(** The inner loop finds an extent for the sectors to read, or there is none. *)
Lemma coalesce_loop fuel i cur sectors :
  at_sector i cur -> 0 < sectors -> in_file (cur + sectors - 1) ->
  (Z.to_nat (sectors + 1) < fuel)%nat ->
  exists i' sectors', loop fuel coalesce_step (i, sectors) = Ok (i', sectors') /\
    at_sector i' cur /\
    (sectors' = sectors /\ 0 < len (this_extent i') \/
     sectors' = 0 /\ len (this_extent i') = 0 /\ sector_map cur = None).
Proof.
  intros Hat Hs Hf Hfuel.
  edestruct (fun Hstep => loop_total (fun st : inode * Z => at_sector (fst st) cur /\ snd st = sectors)
    (fun r : inode * Z => at_sector (fst r) cur /\
      (snd r = sectors /\ 0 < len (this_extent (fst r)) \/
       snd r = 0 /\ len (this_extent (fst r)) = 0 /\ sector_map cur = None))
    (fun st => Z.to_nat (sectors + 1 - Z.min (sectors + 1) (len (this_extent (fst st))))) coalesce_step Hstep fuel (i, sectors))
    as ([i' s'] & Hl & HQ).
  2: split; [exact Hat|reflexivity].
  2: { destruct Hat as [((_ & ? & _) & _) _]. simpl. lia. }
  2: { rewrite Hl. exists i', s'. split; [done|]. apply HQ. }
  clear i Hat Hfuel. intros [i s] [Hat Es]. cbn [fst snd] in *. subst s. unfold coalesce_step.
  case_decide as Hgt; [|simpl; split; [done|left; split; [done|]; lia]].
  assert (in_file (cur + len (this_extent i))) as Hin by (eapply in_file_mono; [exact Hf|lia]).
  set (c := decide (len (next_ext i) = 0 \/ _)).
  assert (exists i1, (if c then get_next_extent i else Ok i) = Ok i1 /\
    at_sector i1 cur /\ this_extent i1 = this_extent i /\
    lstart (next_ext i1) = cur + len (this_extent i) /\
    (len (next_ext i1) = 0 -> sector_map (cur + len (this_extent i)) = None)) as (i1 & -> & Hat1 & Et & Eln & Hz).
  { pose proof (in_file_range _ Hin). pose proof Hat as [(Ht & _) E]. unfold c. rewrite E, u32_small by lia.
    case_decide as Hc; [by apply get_next_extent_ok|]. exists i. splits; try done; lia. }
  clear c. cbn [mbind result_bind]. cbv zeta. rewrite Et.
  destruct Hat1 as [((Ht1 & Ht2 & Ht3) & (Hn1 & Hn2 & Hn3) & Hs3) Ecur]. unfold ext_end in *. rewrite Et in *.
  case_decide as H0; [rewrite H0, Z.add_0_r in *; case_decide as Hn0; cbn [step_ok fst snd this_extent next_ext pvt] in *|].
  - unfold at_sector, inode_ok, ext_end; simpl. split; [|right; auto].
    splits; try done; try lia. intros _. rewrite Hn0, Z.add_0_r, Eln, <- Ecur. apply Hs3. by left.
  - unfold at_sector, inode_ok, ext_end; cbn [this_extent next_ext pvt lstart len] in *. split; [|lia].
    splits; try done; try lia; intros; apply Hn3; lia.
  - case_decide as Hc; cbn [step_ok fst snd this_extent next_ext pvt].
    + destruct Hc as [Hn0 Ep].
      assert (extent_maps sector_map (Extent (pstart (this_extent i)) (lstart (this_extent i))
                (len (this_extent i) + len (next_ext i1)))) as Hm.
      { apply extent_maps_coalesce; try lia; [apply Ht3|apply Hn3]; lia. }
      pose proof Hm as (? & ? & ? & _); simpl in *. rewrite u32_small by lia.
      unfold at_sector, inode_ok, ext_end; cbn [this_extent next_ext pvt lstart len] in *. split; [|lia].
      splits; try done; try lia. intros _. destruct Hn3 as [_ Hg]; [lia|]. rewrite Eln in Hg.
      by replace (lstart (this_extent i) + (len (this_extent i) + len (next_ext i1)))
        with (cur + len (this_extent i) + len (next_ext i1)) by lia.
    + unfold at_sector, inode_ok, ext_end. rewrite Et. split; [auto 10|left; split; [done|lia]].
Qed.

(** ** Sectors in memory *)

(** The contents of [n] sectors of the file from sector [l]. *)
Definition sectors_data (l n : Z) : list Z := concat (file_sector <$> seqZ l n).

Lemma fmap_seqZ_shift {A} (f g : Z -> A) a b n :
  (forall j, 0 <= j < n -> f (a + j) = g (b + j)) -> f <$> seqZ a n = g <$> seqZ b n.
Proof.
  intros H. unfold seqZ. rewrite <- !list_fmap_compose. apply list_fmap_ext.
  intros i x [-> Hi]%lookup_seq. simpl. rewrite (Z.add_comm _ a), (Z.add_comm _ b). apply H. lia.
Qed.

Lemma length_concat_fmap (f : Z -> list Z) a n k :
  0 <= n -> (forall j, Z.of_nat (length (f j)) = k) ->
  Z.of_nat (length (concat (f <$> seqZ a n))) = n * k.
Proof.
  intros Hn Hf. unfold seqZ. replace n with (Z.of_nat (Z.to_nat n)) at 2 by lia.
  generalize (Z.to_nat n). clear n Hn. intros n. generalize 0%nat.
  induction n as [|n IH]; intros o; [done|]. cbn [seq fmap list_fmap concat].
  rewrite length_app, Nat2Z.inj_add, Hf, IH. lia.
Qed.

Lemma concat_replicate n (k : nat) (x : Z) a :
  0 <= n -> concat ((fun _ => replicate k x) <$> seqZ a n) = replicate (Z.to_nat n * k) x.
Proof.
  intros Hn. unfold seqZ. generalize (Z.to_nat n). clear n Hn. intros n. generalize 0%nat.
  induction n as [|n IH]; intros o; [done|]. cbn [seq fmap list_fmap concat Nat.mul].
  by rewrite IH, replicate_add.
Qed.

Lemma file_sector_length l : Z.of_nat (length (file_sector l)) = 2 ^ sector_shift.
Proof.
  pose proof shift_pos. unfold file_sector.
  destruct (sector_map l); [case_decide|]; rewrite ?length_replicate, ?disk_sector_length; lia.
Qed.

Lemma sectors_data_length l n : 0 <= n -> Z.of_nat (length (sectors_data l n)) = n * 2 ^ sector_shift.
Proof. intros. apply length_concat_fmap; [done|apply file_sector_length]. Qed.

Lemma sectors_data_app l n m :
  0 <= n -> 0 <= m -> sectors_data l (n + m) = sectors_data l n ++ sectors_data (l + n) m.
Proof.
  intros. unfold sectors_data. by rewrite seqZ_app, fmap_app, concat_app by lia.
Qed.

(** A file made of groups of [k] sectors. *)
Lemma sectors_groups (f : Z -> list Z) k n : 0 <= k -> 0 <= n ->
  (forall j, 0 <= j < n -> f j = sectors_data (j * k) k) -> concat (f <$> seqZ 0 n) = sectors_data 0 (n * k).
Proof.
  intros Hk Hn. replace n with (Z.of_nat (Z.to_nat n)) by lia. generalize (Z.to_nat n). clear n Hn.
  intros n. induction n as [|n IH]; intros Hf; [done|]. replace (Z.of_nat (Datatypes.S n)) with (Z.of_nat n + 1) in * by lia.
  rewrite seqZ_app, fmap_app, concat_app, IH, Z.mul_add_distr_r, Z.mul_1_l by (lia || (intros; apply Hf; lia)).
  rewrite sectors_data_app by lia. f_equal. change (seqZ (0 + Z.of_nat n) 1) with [Z.of_nat n]. simpl.
  rewrite app_nil_r. apply Hf. lia.
Qed.

Lemma file_bytes_take n : file_sectors <= n -> take (Z.to_nat inode_size) (sectors_data 0 n) = file_bytes.
Proof.
  intros Hn. unfold file_bytes. change (concat _) with (sectors_data 0 file_sectors).
  pose proof inode_size_range. pose proof shift_pos. unfold file_sectors in *.
  pose proof (Z.div_mod (inode_size + 2 ^ sector_shift - 1) (2 ^ sector_shift)) as Ed.
  pose proof (Z.mod_pos_bound (inode_size + 2 ^ sector_shift - 1) (2 ^ sector_shift)).
  pose proof (Z.div_pos (inode_size + 2 ^ sector_shift - 1) (2 ^ sector_shift)).
  set (m := _ / _) in *. replace n with (m + (n - m)) by lia. rewrite sectors_data_app by lia.
  apply take_app_le. pose proof (sectors_data_length 0 m ltac:(lia)). nia.
Qed.

(** The sectors of an extent, read from the disk or zeroed. *)
Lemma extent_data e n :
  extent_maps sector_map e -> 0 < len e -> 0 <= n <= len e ->
  sectors_data (lstart e) n =
    if decide (pstart e = EXTENT_ZERO) then replicate (Z.to_nat (n * 2 ^ sector_shift)) 0
    else concat (disk_sector <$> seqZ (pstart e) n).
Proof.
  intros (_ & _ & _ & Hp & Hm) Hl Hn. specialize (Hp Hl). destruct special_values as [Ez Ev].
  pose proof shift_pos. unfold sectors_data. case_decide as Hz.
  - rewrite (fmap_seqZ_shift _ (fun _ => replicate (Z.to_nat (2 ^ sector_shift)) 0) _ 0).
    + rewrite concat_replicate by lia. f_equal. lia.
    + intros j Hj. unfold file_sector. rewrite Hm, Hz, next_psector_zero by lia. by rewrite decide_True.
  - destruct Hp as [Hp|Hp]; [done|]. f_equal. apply fmap_seqZ_shift. intros j Hj.
    unfold file_sector. rewrite Hm, next_psector_normal, decide_False by lia. done.
Qed.

Lemma transfer_ok (f : list Z -> list Z) buf pos n (d : list Z) :
  0 <= pos -> 0 <= n -> pos + n <= Z.of_nat (length buf) ->
  (forall old, Z.of_nat (length old) = n -> f old = d) -> Z.of_nat (length d) = n ->
  exists buf', transfer f buf pos n = Ok buf' /\ length buf' = length buf /\
    take (Z.to_nat (pos + n)) buf' = take (Z.to_nat pos) buf ++ d /\
    forall k, pos + n <= k -> drop (Z.to_nat k) buf' = drop (Z.to_nat k) buf.
Proof.
  intros Hp Hn Hb Hf Hd. unfold transfer. rewrite decide_True by done. eexists. split; [done|].
  rewrite Hf by (rewrite length_take, length_drop; lia).
  assert (length (take (Z.to_nat pos) buf) = Z.to_nat pos) as Ht by (rewrite length_take; lia).
  assert (length (take (Z.to_nat pos) buf ++ d) = Z.to_nat (pos + n)) as Ha by (rewrite length_app; lia).
  rewrite !app_assoc. splits.
  - rewrite length_app, length_drop. lia.
  - by rewrite <- Ha, take_app_length.
  - intros k Hk. rewrite drop_app_ge by lia. rewrite drop_drop. f_equal. lia.
Qed.

(** ** The outer loop *)

(** [done] of [total] sectors have been read, from sector [l0] of the file. *)
Record read_inv (buf0 : list Z) (l0 total : Z) (done : Z) (i : inode) (buf : list Z)
    (bytes : Z) : Prop := {
  ri_done : 0 <= done <= total;
  ri_at : at_sector i (l0 + done);
  ri_bytes : bytes = done * 2 ^ sector_shift;
  ri_length : length buf = length buf0;
  ri_data : take (Z.to_nat (done * 2 ^ sector_shift)) buf = sectors_data l0 done;
  ri_rest : drop (Z.to_nat (total * 2 ^ sector_shift)) buf = drop (Z.to_nat (total * 2 ^ sector_shift)) buf0;
  ri_map : forall j, 0 <= j < done -> sector_map (l0 + j) <> None }.

(** An extent after its first [chunk] sectors were read. *)
Lemma advance_ok i cur chunk :
  at_sector i cur -> 0 < chunk <= len (this_extent i) -> cur + chunk < 0x100000000 ->
  let t := this_extent i in
  let p := if decide (pstart t = EXTENT_ZERO) then pstart t else u64 (pstart t + chunk) in
  at_sector (Inode (Extent p (u32 (lstart t + chunk)) (u32 (len t - chunk))) (next_ext i) (pvt i))
    (cur + chunk).
Proof.
  intros [((Ht1 & Ht2 & Ht3) & Hn & Hs) <-] Hc Hr. cbv zeta. unfold ext_end in Hs.
  set (t := this_extent i) in *. specialize (Ht3 ltac:(lia)).
  assert ((if decide (pstart t = EXTENT_ZERO) then pstart t else u64 (pstart t + chunk)) =
    next_psector (pstart t) chunk) as ->.
  { destruct special_values as [Ez Ev]. destruct Ht3 as (_ & _ & _ & Hp & _).
    case_decide as Hz; [by rewrite Hz|]. destruct Hp as [?|Hp]; [lia|done|].
    unfold next_psector, EXTENT_SPECIAL. by rewrite bool_decide_false by lia. }
  unfold at_sector, inode_ok, ext_end. cbn [this_extent next_ext pvt lstart len]. rewrite !u32_small by lia.
  replace (lstart t + chunk + (len t - chunk)) with (lstart t + len t) by lia.
  splits; try lia; try done; try apply Hn.
  intros _. apply extent_maps_advance; [done|lia|lia].
Qed.

(** What [chunk] sectors at the start of an extent are transferred as. *)
Lemma chunk_transfer t l chunk buf pos :
  0 <= chunk -> chunk * 2 ^ sector_shift <= 0x80000000 ->
  lstart t = l -> (0 < chunk -> extent_maps sector_map t /\ chunk <= len t) ->
  0 <= pos -> pos + chunk * 2 ^ sector_shift <= Z.of_nat (length buf) ->
  let n := chunk * 2 ^ sector_shift in
  let p := if decide (pstart t = EXTENT_ZERO) then pstart t else u64 (pstart t + chunk) in
  exists buf',
    (if decide (pstart t = EXTENT_ZERO) then
       b ← transfer (fun old => replicate (length old) 0) buf pos n; mret (b, pstart t)
     else
       b ← transfer (rdwr_sectors (pstart t) chunk) buf pos n; mret (b, u64 (pstart t + chunk)))
      = Ok (buf', p) /\
    length buf' = length buf /\
    take (Z.to_nat (pos + n)) buf' = take (Z.to_nat pos) buf ++ sectors_data l chunk /\
    forall k, pos + n <= k -> drop (Z.to_nat k) buf' = drop (Z.to_nat k) buf.
Proof.
  intros Hc Hc31 <- Hm Hpos Hlen n p. pose proof shift_pos.
  set (f := if decide (pstart t = EXTENT_ZERO) then fun old : list Z => replicate (length old) 0
            else rdwr_sectors (pstart t) chunk).
  assert (forall old, Z.of_nat (length old) = n -> f old = sectors_data (lstart t) chunk) as Hf.
  { intros old Hold. destruct (decide (chunk = 0)) as [E0|E0].
    - assert (n = 0) as En by (unfold n; lia). rewrite En in Hold.
      destruct old; [|simpl in Hold; lia]. rewrite E0. unfold f. case_decide; [done|].
      rewrite rdwr_sectors_ok by (try (simpl; lia); intros; lia). rewrite E0. done.
    - destruct Hm as [Hm Hl]; [lia|].
      rewrite (extent_data t chunk Hm) by lia. unfold f. case_decide.
      + by replace (length old) with (Z.to_nat n) by lia.
      + apply rdwr_sectors_ok; [done|done| |done]. intros j Hj.
        destruct Hm as (_ & _ & _ & Hp & Hm). destruct special_values as [Ez Ev].
        destruct Hp as [?|Hp]; [lia|done|].
        specialize (Hm j ltac:(lia)). rewrite next_psector_normal in Hm by lia.
        apply sector_map_valid in Hm as [?|?]; [lia|done]. }
  destruct (transfer_ok f buf pos n (sectors_data (lstart t) chunk)) as (buf' & Hb & ?);
    [done|unfold n; nia|done|done|by apply sectors_data_length|].
  exists buf'. split; [|done]. unfold f, p in *. case_decide; by rewrite Hb.
Qed.

Section Loop.
Context (buf0 : list Z) (l0 total : Z).
Context (Hl0 : 0 <= l0) (Htotal : 0 < total) (Hfile : in_file (l0 + total - 1)).
Context (Hbytes : total * 2 ^ sector_shift <= 0x80000000).
Context (Hbuf : total * 2 ^ sector_shift <= Z.of_nat (length buf0)).

Lemma read_step_ok fuel i buf done :
  read_inv buf0 l0 total done i buf (done * 2 ^ sector_shift) -> done < total ->
  (Z.to_nat (total + 1) < fuel)%nat ->
  exists i' buf' chunk s',
    read_step fuel (i, buf, done * 2 ^ sector_shift, total - done, done * 2 ^ sector_shift) =
      Ok (Continue (i', buf', (done + chunk) * 2 ^ sector_shift, s', (done + chunk) * 2 ^ sector_shift)) /\
    read_inv buf0 l0 total (done + chunk) i' buf' ((done + chunk) * 2 ^ sector_shift) /\
    (s' = total - (done + chunk) /\ 0 < chunk \/
     s' = 0 /\ chunk = 0 /\ sector_map (l0 + done) = None).
Proof.
  intros [Hd Hat _ Hlen Hdata Hrest Hmap] Hlt Hfuel. pose proof shift_pos. pose proof sector_shift_range.
  destruct (coalesce_loop fuel i (l0 + done) (total - done)) as (i1 & s1 & Hloop & Hat1 & Hs1);
    [done|lia|by replace (l0 + done + (total - done) - 1) with (l0 + total - 1) by lia|lia|].
  unfold read_step. rewrite decide_False, Hloop by lia. cbn [mbind result_bind].
  set (t := this_extent i1) in *. set (chunk := Z.min s1 (len t)).
  pose proof Hat1 as [((Ht1 & Ht2 & Ht3) & Hn & Hs) Hcur]. fold t in Ht1, Ht2, Ht3, Hs, Hcur.
  assert (0 <= chunk <= total - done) as Hchunk by (unfold chunk; lia).
  assert (0 <= chunk * 2 ^ sector_shift < 0x100000000) as Hn32 by (clear - Hchunk Hbytes H Hd; nia).
  rewrite shiftl_mul, (u32_small (chunk * _)) by lia.
  destruct (chunk_transfer t (l0 + done) chunk buf (done * 2 ^ sector_shift)) as (buf' & Hb & Hl' & Ht' & Hr');
    [lia|nia|done|intros; split; [apply Ht3|]; lia|nia|nia|].
  rewrite Hb. cbn [mbind result_bind].
  exists (Inode (Extent (if decide (pstart t = EXTENT_ZERO) then pstart t else u64 (pstart t + chunk))
      (u32 (lstart t + chunk)) (u32 (len t - chunk))) (next_ext i1) (pvt i1)), buf', chunk, (s1 - chunk).
  assert (done * 2 ^ sector_shift + chunk * 2 ^ sector_shift = (done + chunk) * 2 ^ sector_shift) as Eb by lia.
  rewrite Eb in Ht', Hr' |- *. rewrite (u32_small ((done + chunk) * _)) by nia. split; [done|].
  split; [|clearbody t; destruct Hs1 as [[-> ?]|(-> & ? & ?)]; [left|right]; unfold chunk; auto with lia].
  constructor; try done; [lia| |congruence| | |].
  - pose proof (in_file_range _ Hfile). destruct (decide (chunk = 0)) as [E0|E0].
    + rewrite E0, !Z.add_0_r, !Z.sub_0_r, !u32_small by lia. unfold at_sector, inode_ok, ext_end in *.
      cbn [this_extent next_ext pvt lstart len]. splits; try lia; try done; apply Hn.
    + replace (l0 + (done + chunk)) with (l0 + done + chunk) by lia. apply advance_ok; [done|fold t; lia|lia].
  - rewrite Ht', Hdata, <- sectors_data_app by lia. done.
  - rewrite Hr' by nia. done.
  - intros j Hj. destruct (Z.lt_ge_cases j done); [apply Hmap; lia|].
    destruct Ht3 as (_ & _ & _ & _ & Hm); [lia|].
    replace (l0 + j) with (lstart t + (j - done)) by lia. by rewrite Hm by lia.
Qed.

(** The whole loop: [n] sectors were read, and either all are read or the next
    one is not mapped. *)
Lemma read_loop fuel i :
  at_sector i l0 -> (Z.to_nat (total + 1) < fuel)%nat ->
  exists i' buf' n, loop fuel (read_step fuel) (i, buf0, 0, total, 0) =
      Ok (i', buf', n * 2 ^ sector_shift) /\
    read_inv buf0 l0 total n i' buf' (n * 2 ^ sector_shift) /\
    (n = total \/ sector_map (l0 + n) = None).
Proof.
  intros Hat Hfuel.
  edestruct (fun Hstep => loop_total
    (fun st : inode * list Z * Z * Z * Z => exists i buf n s,
       st = (i, buf, n * 2 ^ sector_shift, s, n * 2 ^ sector_shift) /\
       read_inv buf0 l0 total n i buf (n * 2 ^ sector_shift) /\
       (s = total - n \/ s = 0 /\ sector_map (l0 + n) = None))
    (fun r : inode * list Z * Z => exists i buf n, r = (i, buf, n * 2 ^ sector_shift) /\
       read_inv buf0 l0 total n i buf (n * 2 ^ sector_shift) /\
       (n = total \/ sector_map (l0 + n) = None))
    (fun st => Z.to_nat (snd (fst st))) (read_step fuel) Hstep fuel (i, buf0, 0, total, 0))
    as (r & Hl & i' & buf' & n & -> & Hr).
  - intros st (i1 & buf1 & n & s & -> & Hinv & Hs).
  destruct (decide (s = 0)) as [->|Hs0].
    + unfold read_step. rewrite decide_True by done. simpl. exists i1, buf1, n. split; [done|].
    split; [done|]. destruct Hs as [?|[_ ?]]; [left; lia|by right].
    + destruct Hs as [->|[? _]]; [|done]. pose proof (ri_done _ _ _ _ _ _ _ Hinv).
    destruct (read_step_ok fuel i1 buf1 n Hinv) as (i2 & buf2 & chunk & s2 & -> & Hinv2 & Hs2); [lia|lia|].
    cbn [step_ok fst snd]. split; [|lia].
    exists i2, buf2, (n + chunk), s2. split; [done|]. split; [done|].
    destruct Hs2 as [[? ?]|(? & -> & ?)]; [left; lia|right; by rewrite Z.add_0_r].
  - exists i, buf0, 0, total. split; [done|]. split; [|left; lia].
    constructor; try done; [lia|by rewrite Z.add_0_r|lia].
  - simpl. lia.
  - eauto 10.
Qed.
End Loop.

(** ** The whole function *)

Lemma usable_ok (mp : Prop) e l :
  0 <= len e < 0x100000000 -> (0 < len e -> extent_maps sector_map e /\ mp) -> 0 <= l ->
  usable e l = true -> 0 <= lstart e < 0x100000000 ->
  extent_maps sector_map e /\ mp /\ lstart e <= l < lstart e + len e.
Proof.
  intros Hl Hm Hl0 Hu Hs. apply negb_true_iff, orb_false_iff in Hu as [Hu1 Hu2].
  rewrite bool_decide_eq_false in Hu1, Hu2. destruct (decide (len e = 0)) as [E|E].
  - rewrite E, Z.add_0_r, u32_small in Hu2 by lia. lia.
  - destruct (Hm ltac:(lia)) as [Hm' ?]. pose proof Hm' as (_ & _ & Hr & _).
    rewrite u32_small in Hu2 by lia. splits; try done; lia.
Qed.

(** The call continues where the last one stopped, or starts where the file
    system can be asked. *)
Definition seek_ok (i : inode) (l : Z) : Prop := fs_at (pvt i) l \/ lstart (this_extent i) = l.

Lemma seek_extent_ok i l :
  inode_ok i -> seek_ok i l -> 0 <= l -> in_file l -> at_sector (seek_extent i l) l.
Proof.
  intros ((Ht1 & Ht2 & Ht3) & Hn & Hat) Hseek Hl Hf. pose proof (in_file_range _ Hf). unfold ext_end in *.
  unfold seek_extent. cbv zeta. destruct (usable (this_extent i) l) eqn:Eu.
  { rewrite Eu. pose proof Eu as E. apply (usable_ok True) in E as (Hm & _ & Hb); [|done|by intros; split; [apply Ht3|]|done|done].
    pose proof (extent_maps_advance sector_map _ (l - lstart (this_extent i)) Hm ltac:(lia) ltac:(lia)) as Hadv.
    replace (lstart (this_extent i) + (l - lstart (this_extent i))) with l in Hadv by lia.
    unfold at_sector, inode_ok, ext_end. cbn [this_extent next_ext pvt lstart len]. rewrite u32_small by lia.
    replace (l + (len (this_extent i) - (l - lstart (this_extent i)))) with (lstart (this_extent i) + len (this_extent i)) by lia.
    splits; try done; try lia; apply Hn. }
  destruct (usable (next_ext i) l) eqn:En.
  - apply (usable_ok (fs_at (pvt i) (lstart (next_ext i) + len (next_ext i)))) in En as (Hm & Ha & Hb); [|apply Hn..|done|apply Hn].
    pose proof (extent_maps_advance sector_map _ (l - lstart (next_ext i)) Hm ltac:(lia) ltac:(lia)) as Hadv.
    replace (lstart (next_ext i) + (l - lstart (next_ext i))) with l in Hadv by lia.
    unfold at_sector, inode_ok, ext_end. cbn [this_extent next_ext pvt lstart len]. rewrite u32_small by lia.
    replace (l + (len (next_ext i) - (l - lstart (next_ext i)))) with (lstart (next_ext i) + len (next_ext i)) by lia.
    splits; try done; try lia; apply Hn.
  - unfold at_sector, inode_ok, ext_end. cbn [this_extent next_ext pvt lstart len]. rewrite Z.add_0_r.
    splits; try done; try lia; try apply Hn. intros Hne. destruct Hseek as [?|Hs]; [done|].
    destruct (decide (len (this_extent i) = 0)) as [E|E].
    + rewrite E, Z.add_0_r, Hs in Hat. by apply Hat.
    + exfalso. pose proof (Ht3 ltac:(lia)) as (_ & _ & Hr & _). unfold usable in Eu.
      rewrite bool_decide_false, bool_decide_false in Eu by (rewrite ?u32_small; lia). done.
Qed.

Lemma file_bytes_read l n k :
  0 <= l -> 0 <= n -> l + n <= file_sectors -> 0 <= k <= n * 2 ^ sector_shift ->
  l * 2 ^ sector_shift + k <= inode_size ->
  take (Z.to_nat k) (drop (Z.to_nat (l * 2 ^ sector_shift)) file_bytes) =
  take (Z.to_nat k) (sectors_data l n).
Proof.
  intros Hl Hn Hf Hk Hs. pose proof shift_pos. unfold file_bytes.
  change (concat _) with (sectors_data 0 file_sectors).
  rewrite take_drop_commute, take_take, Nat.min_l, <- take_drop_commute by lia.
  replace file_sectors with (l + (n + (file_sectors - l - n))) by lia.
  rewrite !sectors_data_app, Z.add_0_l by lia.
  pose proof (sectors_data_length 0 l Hl). pose proof (sectors_data_length l n Hn).
  rewrite drop_app_length' by lia. by rewrite take_app_le by lia.
Qed.

Context (i : inode) (offset sectors : Z) (buf : list Z).

(** The sectors that are read, from the arguments of the call. *)
Definition request : Z :=
  Z.min sectors ((inode_size - offset + 2 ^ sector_shift - 1) / 2 ^ sector_shift).

(** A call as the clients make it: at a sector boundary, where the last call
    stopped or where the file system can go on, and with a large enough buffer. *)
Record call_ok : Prop := {
  co_inode : inode_ok i;
  co_seek : seek_ok i (offset / 2 ^ sector_shift);
  co_sectors : 0 <= sectors < 0x80000000;
  co_offset : 0 <= offset <= inode_size;
  co_aligned : (2 ^ sector_shift | offset);
  co_small : request * 2 ^ sector_shift <= 0x80000000;
  co_buf : request * 2 ^ sector_shift <= Z.of_nat (length buf) }.

(** What [n] bytes of the file in the buffer mean. *)
Record read_ok (n : Z) (i' : inode) (buf' : list Z) : Prop := {
  ro_inode : inode_ok i';
  ro_seek : n = 0 /\ i' = i \/ lstart (this_extent i') * 2 ^ sector_shift = offset + n \/ offset + n = inode_size;
  ro_bytes : 0 <= n /\ offset + n <= inode_size;
  ro_length : length buf' = length buf;
  ro_data : take (Z.to_nat n) buf' = take (Z.to_nat n) (drop (Z.to_nat offset) file_bytes);
  ro_rest : drop (Z.to_nat (request * 2 ^ sector_shift)) buf' =
    drop (Z.to_nat (request * 2 ^ sector_shift)) buf }.

Lemma request_bounds : call_ok ->
  0 <= request <= sectors /\ offset / 2 ^ sector_shift + request <= file_sectors /\
  request * 2 ^ sector_shift < inode_size - offset + 2 ^ sector_shift /\
  (request < sectors -> inode_size - offset <= request * 2 ^ sector_shift) /\
  offset / 2 ^ sector_shift * 2 ^ sector_shift = offset.
Proof.
  intros [_ _ Hs Ho [q Hq] _ _]. pose proof shift_pos. unfold request, file_sectors. rewrite Hq in *.
  rewrite Z.div_mul by lia.
  replace (inode_size + 2 ^ sector_shift - 1)
    with (inode_size - q * 2 ^ sector_shift + 2 ^ sector_shift - 1 + q * 2 ^ sector_shift) by lia.
  rewrite Z.div_add by lia.
  pose proof (Z.div_mod (inode_size - q * 2 ^ sector_shift + 2 ^ sector_shift - 1) (2 ^ sector_shift)).
  pose proof (Z.mod_pos_bound (inode_size - q * 2 ^ sector_shift + 2 ^ sector_shift - 1) (2 ^ sector_shift)).
  pose proof (Z.div_pos (inode_size - q * 2 ^ sector_shift + 2 ^ sector_shift - 1) (2 ^ sector_shift)).
  set (d := _ / _) in *. nia.
Qed.

(** A call reads the sectors up to the first one that is not mapped. *)
Lemma getfssec_rep fuel : call_ok -> (Z.to_nat (sectors + 1) < fuel)%nat ->
  exists i' buf' k, 0 <= k <= request /\
    let n := Z.min (k * 2 ^ sector_shift) (inode_size - offset) in
    generic_getfssec fuel i offset buf sectors =
      Ok (i', buf', offset + n,
          if decide (request = 0) then None else Some (bool_decide (n < inode_size - offset)), n) /\
    read_ok n i' buf' /\
    (forall j, 0 <= j < k -> sector_map (offset / 2 ^ sector_shift + j) <> None) /\
    (k = request \/ sector_map (offset / 2 ^ sector_shift + k) = None).
Proof.
  intros Hc Hfuel. destruct (request_bounds Hc) as (Hr & Hfs & Hb & Hlt & Hal).
  destruct Hc as [Hi Hsk Hs Ho _ Hsm Hbuf]. pose proof shift_pos. pose proof sector_shift_range.
  pose proof inode_size_range. unfold generic_getfssec.
  rewrite (u32_small (inode_size - offset)), (u32_small (inode_size - offset + _ - 1)), (u32_small sectors) by lia.
  rewrite !shiftr_div by lia. set (left := (_ + _ - 1) / _).
  replace (if decide (sectors > left) then left else sectors) with request
    by (unfold request; case_decide; lia).
  destruct (decide (request = 0)) as [E0|E0].
  - exists i, buf, 0. split; [lia|]. rewrite Z.mul_0_l, Z.min_l, Z.add_0_r by lia.
    splits; [done| |lia|by left]. constructor; try done; [left; split; [lia|done]|lia].
  - set (l0 := offset / 2 ^ sector_shift) in *. clear left.
    assert (in_file (l0 + request - 1)) as Hin by (unfold in_file; nia).
    assert (0 <= l0) as Hl0 by nia.
    destruct (read_loop buf l0 request Hl0 ltac:(lia) Hin Hsm Hbuf fuel (seek_extent i l0))
      as (i' & buf' & k & -> & [Hk Hat Eb Hlen Hdata Hrest Hmap] & Hor);
      [apply seek_extent_ok; [done|done|done|eapply in_file_mono; [exact Hin|lia]]|lia|].
    cbn [mbind result_bind]. exists i', buf', k. split; [lia|]. cbv zeta.
    set (n := Z.min _ _). assert (0 <= n /\ offset + n <= inode_size) as Hn by (unfold n; lia).
    rewrite (u32_small (offset + n)) by lia. splits; try done.
    constructor; try done; [apply Hat|destruct Hat as [_ ->]; unfold n; nia|].
    rewrite <- Hal at 1. rewrite (file_bytes_read l0 k) by (unfold n; lia).
    rewrite <- Hdata, take_take. f_equal. unfold n. lia.
Qed.

(** The read of a file whose sectors are all mapped. *)
Lemma getfssec_full fuel :
  call_ok -> (Z.to_nat (sectors + 1) < fuel)%nat ->
  (forall j, 0 <= j < request -> sector_map (offset / 2 ^ sector_shift + j) <> None) ->
  let n := Z.min (sectors * 2 ^ sector_shift) (inode_size - offset) in
  exists i' buf', read_ok n i' buf' /\
    generic_getfssec fuel i offset buf sectors =
      Ok (i', buf', offset + n,
          if decide (request = 0) then None else Some (bool_decide (n < inode_size - offset)), n).
Proof.
  intros Hc Hfuel Hmap n. destruct (request_bounds Hc) as (Hr & _ & _ & Hlt & _).
  destruct (getfssec_rep fuel Hc Hfuel) as (i' & buf' & k & Hk & He & Hok & _ & Hor).
  assert (k = request) as -> by (destruct Hor as [|Hnone]; [done|];
    destruct (decide (k = request)); [done|by apply Hmap in Hnone; [|lia]]).
  replace (Z.min (request * 2 ^ sector_shift) (inode_size - offset)) with n in * by (unfold n; nia).
  eauto.
Qed.

(** C32. A read of a file whose sectors are all mapped returns exactly the bytes
    of the file from the current offset, as many as were asked for or as are
    left, advances the offset by their number, says whether there are more,
    and leaves an inode from which the next call can go on; nothing is written
    after the requested sectors. *)
Theorem getfssec_reads_file fuel :
  call_ok -> (Z.to_nat (sectors + 1) < fuel)%nat ->
  (forall j, 0 <= j < request -> sector_map (offset / 2 ^ sector_shift + j) <> None) ->
  let n := Z.min (sectors * 2 ^ sector_shift) (inode_size - offset) in
  exists i' buf', read_ok n i' buf' /\
    generic_getfssec fuel i offset buf sectors =
      Ok (i', buf', offset + n,
          if decide (request = 0) then None else Some (bool_decide (n < inode_size - offset)), n).
Proof. apply getfssec_full. Qed.

(** C33. When a sector of the request is not mapped, the read stops there: the
    bytes returned are those of the sectors before the first such one, and
    the caller is told that there are more. *)
Theorem getfssec_stops_at_hole fuel k :
  call_ok -> (Z.to_nat (sectors + 1) < fuel)%nat ->
  0 <= k < request -> sector_map (offset / 2 ^ sector_shift + k) = None ->
  (forall j, 0 <= j < k -> sector_map (offset / 2 ^ sector_shift + j) <> None) ->
  let n := k * 2 ^ sector_shift in
  exists i' buf', read_ok n i' buf' /\
    generic_getfssec fuel i offset buf sectors = Ok (i', buf', offset + n, Some true, n).
Proof.
  intros Hc Hfuel Hk Hnone Hmap n. destruct (request_bounds Hc) as (Hr & _ & Hb & _). pose proof shift_pos.
  destruct (getfssec_rep fuel Hc Hfuel) as (i' & buf' & k' & Hk' & He & Hok & Hmap' & Hor).
  assert (k' = k) as ->.
  { destruct (Z.lt_trichotomy k' k) as [?|[?|?]]; [|done|by apply Hmap' in Hnone; [|lia]].
    destruct Hor as [?|Hn']; [lia|by apply Hmap in Hn'; [|lia]]. }
  rewrite Z.min_l, (decide_False (P := request = 0)), bool_decide_true in * by (unfold n in *; nia). eauto.
Qed.

End ReadFile.

(** ** An example

    Two-byte sectors, and a file of five bytes in two extents, the second of
    which is a hole or, when the file system is damaged, missing. *)

#[local] Instance demo_device : SectorDevice.
Proof.
  refine {| sector_shift := 1; disk_sector p := [p; p + 100]; valid_sector _ := True;
            rdwr_sectors start count old := concat ((fun p => [p; p + 100]) <$> seqZ start count) |};
    [lia|done|done].
Defined.

Definition demo_map (damaged : bool) (l : Z) : option Z :=
  if decide (0 <= l < 2) then Some (10 + l)
  else if decide (l = 2 /\ damaged = false) then Some EXTENT_ZERO else None.

#[local] Instance demo_fs (damaged : bool) : ExtentFS unit.
Proof.
  refine {| extent_ops :=
              {| next_extent s e l :=
                   if decide (0 <= l < 2) then Ok (s, Extent (10 + l) 0 (2 - l), false)
                   else if decide (l = 2 /\ damaged = false) then Ok (s, Extent EXTENT_ZERO 0 1, false)
                   else Ok (s, e, true);
                 inode_size := 5 |};
            fs_at _ _ := True; sector_map := demo_map damaged |};
    [simpl; lia|by right|].
  intros s e l _ _ H0 _. cbn [next_extent]. unfold demo_map. case_decide as H1; [|case_decide as H2];
    do 3 eexists; (split; [reflexivity|]); simpl; try done.
  - rewrite bool_decide_false by lia. split; [|done].
    destruct special_values as [Ez Ev]. unfold extent_maps; simpl. splits; try lia. intros i Hi. rewrite decide_True, next_psector_normal by lia. f_equal. lia.
  - destruct H2 as [-> ->]. split; [|done]. unfold extent_maps; simpl. splits; try lia.
    intros i Hi. by replace (2 + i) with 2 by lia.
Defined.

Definition demo_inode : inode (S := unit) := Inode (Extent 0 0 0) (Extent 0 0 0) tt.
Definition demo_buf : list Z := replicate 9 255.

Lemma demo_call damaged : call_ok (FS := demo_fs damaged) demo_inode 0 4 demo_buf.
Proof.
  constructor.
  - unfold inode_ok. simpl. splits; try done; lia.
  - by left.
  - lia.
  - simpl. lia.
  - exists 0. reflexivity.
  - vm_compute. discriminate.
  - vm_compute. discriminate.
Qed.

Example demo_read :
  generic_getfssec (EO := extent_ops (ExtentFS := demo_fs false)) 20 demo_inode 0 demo_buf 4 =
    Ok (Inode (Extent EXTENT_ZERO 3 0) (Extent EXTENT_ZERO 2 1) tt,
        [10; 110; 11; 111; 0; 0; 255; 255; 255], 5, Some false, 5).
Proof. by vm_compute. Qed.

Lemma getfssec_reads_file_witness :
  exists i' buf', read_ok (FS := demo_fs false) demo_inode 0 4 demo_buf 5 i' buf' /\
    generic_getfssec (EO := extent_ops (ExtentFS := demo_fs false)) 20 demo_inode 0 demo_buf 4 =
      Ok (i', buf', 5, Some false, 5).
Proof.
  apply (getfssec_reads_file (FS := demo_fs false) demo_inode 0 4 demo_buf 20 (demo_call false)).
  - vm_compute. lia.
  - intros j Hj. change (0 <= j < 3) in Hj. change (demo_map false (0 + j) <> None).
    assert (j = 0 \/ j = 1 \/ j = 2) as [-> | [-> | ->]] by lia; discriminate.
Defined.

Lemma getfssec_stops_at_hole_witness :
  exists i' buf', read_ok (FS := demo_fs true) demo_inode 0 4 demo_buf 4 i' buf' /\
    generic_getfssec (EO := extent_ops (ExtentFS := demo_fs true)) 20 demo_inode 0 demo_buf 4 =
      Ok (i', buf', 4, Some true, 4).
Proof.
  apply (getfssec_stops_at_hole (FS := demo_fs true) demo_inode 0 4 demo_buf 20 2 (demo_call true)).
  - vm_compute. lia.
  - vm_compute. split; [discriminate|reflexivity].
  - reflexivity.
  - intros j Hj. change (demo_map true (0 + j) <> None).
    assert (j = 0 \/ j = 1) as [-> | ->] by lia; discriminate.
Defined.

End ReadFile.
