(* ===== verification/DiskIO.v ===== *)
(** * Disk input and output (libcore/fs/diskio.c)

    The two drivers, by cylinder/head/sector and by the extended (EDD) calls of
    the BIOS, the initialisation of the disk and device structures, and [getoneblk].

    The BIOS is a parameter: [int13] is the effect of interrupt 0x13 on the
    state of the BIOS and on memory; what it documents about its disk services
    is the class [BiosDisk].  The BIOS may fail any request, any number of
    times, and says so in the carry flag. *)

From Stdlib Require Import ZArith Lia.
From S2P Require Import Prelude DList Cache.

(** ** Memory, registers and structures *)

Abbreviation memory := (Z -> Z).

Definition mread (m : memory) (a n : Z) : list Z := (fun i => m (a + i)) <$> seqZ 0 n.

Definition mwrite (m : memory) (a : Z) (l : list Z) : memory := fun x =>
  if decide (a <= x < a + Z.of_nat (length l)) then nth (Z.to_nat (x - a)) l 0 else m x.

Definition memcpy (m : memory) (dst src n : Z) : memory := mwrite m dst (mread m src n).

(** The part of com32sys_t that the drivers use. *)
Record com32sys_t := Regs {
  al : Z; ah : Z; bx : Z; cl : Z; ch : Z; dl : Z; dh : Z; es : Z; cf : bool }.

Definition zero_regs : com32sys_t := Regs 0 0 0 0 0 0 0 0 false.

(** struct edd_rdwr_packet *)
Record edd_rdwr_packet := Packet {
  pkt_size : Z; pkt_blocks : Z; pkt_offs : Z; pkt_seg : Z; pkt_lba : Z }.

(** The fields of struct edd_disk_params that are used. *)
Record edd_disk_params := EddParams { edd_len : Z; edd_sector_size : Z }.

Inductive driver := CHS | EDD.

#[export] Instance driver_eq_dec : EqDecision driver.
Proof. solve_decision. Defined.

(** struct disk *)
Record disk := Disk {
  disk_number : Z; sector_size : Z; disk_shift : Z; maxtransfer : Z;
  heads : Z; secs : Z; secpercyl : Z; part_start : Z; rdwr : driver }.

Definition set_maxtransfer (d : disk) (n : Z) : disk :=
  Disk (disk_number d) (sector_size d) (disk_shift d) n (heads d) (secs d) (secpercyl d)
    (part_start d) (rdwr d).

Definition set_rdwr (d : disk) (r : driver) : disk :=
  Disk (disk_number d) (sector_size d) (disk_shift d) (maxtransfer d) (heads d) (secs d)
    (secpercyl d) (part_start d) r.

Definition SEG (p : Z) : Z := u16 (Z.shiftr p 4).
Definition OFFS (p : Z) : Z := Z.land (u16 p) 0xf.

Definition RETRY_COUNT : Z := 6.
Definition b2z (b : bool) : Z := if b then 1 else 0.

Module DiskIO.
Section Code.
Context {B : Type}.
Context (int13 : B -> memory -> option edd_rdwr_packet -> com32sys_t -> B * memory * com32sys_t).
Context (core_xfer_buf : Z).

Definition chs_max (d : disk) : Z := u64 (Z.shiftl (secpercyl d) 10).

(** Where to transfer to: the buffer itself when the BIOS can address it, or
    the transfer buffer; with the number of sectors up to the end of the 64K
    segment. *)
Definition pick_buffer (low : bool) (ptr shift : Z) : Z * Z :=
  let freeseg := Z.shiftr (0x10000 - Z.land ptr 0xffff) shift in
  if low && negb (bool_decide (freeseg = 0)) then (ptr, freeseg)
  else (core_xfer_buf, Z.shiftr (0x10000 - Z.land core_xfer_buf 0xffff) shift).

(** The variables of a [for (;;)] loop of retries. *)
Record attempt := Attempt { at_b : B; at_m : memory; at_chunk : Z; at_max : Z; at_retry : Z }.

(** After an error: [None] is the total failure. *)
Definition next_attempt (b : B) (m : memory) (chunk max retry : Z) (recover : B -> memory -> B * memory) :
    attempt + B * memory :=
  if decide (retry <> 0) then inl (Attempt b m chunk max (retry - 1))
  else
    let '(b, m) := recover b m in
    let chunk := Z.shiftr chunk 1 in
    if decide (chunk <> 0) then inl (Attempt b m chunk chunk RETRY_COUNT)
    else inr (b, m).

(** One iteration of a [for (;;)] loop: [call] issues the request for a number
    of sectors.  The loop is left with the final values of the variables, or
    with the total failure. *)
Definition attempt_step (call : B -> memory -> Z -> B * memory * com32sys_t) (recover : B -> memory -> B * memory)
    (a : attempt) : result (ctl attempt (attempt + B * memory)) :=
  let '(b, m, oreg) := call (at_b a) (at_m a) (at_chunk a) in
  if negb (cf oreg) then Ok (Break (inl (Attempt b m (at_chunk a) (at_max a) (at_retry a))))
  else match next_attempt b m (at_chunk a) (at_max a) (at_retry a) recover with
       | inl a => Ok (Continue a)
       | inr bm => Ok (Break (inr bm))
       end.

(** *** Cylinder, head and sector *)

Definition chs_call (ireg : com32sys_t) (b : B) (m : memory) (chunk : Z) : B * memory * com32sys_t :=
  int13 b m None (Regs (u8 chunk) (ah ireg) (bx ireg) (cl ireg) (ch ireg) (dl ireg) (dh ireg)
                       (es ireg) (cf ireg)).

Definition chs_try (c : Z) (ireg : com32sys_t) (a : attempt) :
    result (ctl attempt (attempt + B * memory)) :=
  if decide (c < 1024) then attempt_step (chs_call ireg) (fun b m => (b, m)) a
  else Ok (Break (inr (at_b a, at_m a))).

(** The variables of the outer loops. *)
Record transfer := Transfer {
  tr_b : B; tr_m : memory; tr_disk : disk; tr_ptr : Z; tr_lba : Z; tr_count : Z; tr_done : Z;
  tr_max : Z }.

Definition chs_step (fuel : nat) (buf : Z) (is_write : bool) (t : transfer) :
    result (ctl transfer (B * memory * disk * Z)) :=
  let '(Transfer b m d ptr xlba count done maxtransfer) := t in
  if decide (count = 0) then Ok (Break (b, m, d, done)) else
  let shift := disk_shift d in
  let chunk := Z.min count maxtransfer in
  let '(tptr, freeseg) := pick_buffer (bool_decide (buf <= 0xf0000)) ptr shift in
  let chunk := Z.min chunk freeseg in
  let s := xlba mod secs d in
  let t := xlba / secs d in
  let h := t mod heads d in
  let c := t / heads d in
  let chunk := Z.min chunk (secs d - s) in
  let bytes := u32 (Z.shiftl chunk shift) in
  let m := if bool_decide (tptr <> ptr) && is_write then memcpy m tptr ptr bytes else m in
  let ireg := Regs (u8 chunk) (0x02 + b2z is_write) (OFFS tptr)
                (u8 (Z.lor (Z.shiftr (Z.land c 0x300) 2) (s + 1))) (u8 c) (u8 (disk_number d)) (u8 h)
                (SEG tptr) false in
  r ← loop fuel (chs_try c ireg) (Attempt b m chunk maxtransfer RETRY_COUNT);
  match r with
  | inr (b, m) => Ok (Break (b, m, d, done))
  | inl (Attempt b m chunk maxtransfer _) =>
      let bytes := u32 (Z.shiftl chunk shift) in
      let m := if bool_decide (tptr <> ptr) && negb is_write then memcpy m ptr tptr bytes else m in
      Ok (Continue (Transfer b m (set_maxtransfer d maxtransfer) (u32 (ptr + bytes)) (u32 (xlba + chunk))
                      (count - chunk) (done + chunk) maxtransfer))
  end.

Definition chs_rdwr_sectors (fuel : nat) (b : B) (m : memory) (d : disk) (buf lba count : Z)
    (is_write : bool) : result (B * memory * disk * Z) :=
  if decide (u64 (lba + part_start d) >= chs_max d) then Ok (b, m, d, 0) else
  loop fuel (chs_step fuel buf is_write)
    (Transfer b m d buf (u32 (lba + part_start d)) count 0 (maxtransfer d)).

(** *** The extended calls *)

Definition edd_call (ireg : com32sys_t) (tptr lba : Z) (b : B) (m : memory) (chunk : Z) : B * memory * com32sys_t :=
  int13 b m (Some (Packet 16 (u16 chunk) (OFFS tptr) (SEG tptr) lba)) ireg.

(** A failed EDD call is followed by a reset. *)
Definition edd_try (ireg : com32sys_t) (tptr lba : Z) (a : attempt) :
    result (ctl attempt (attempt + B * memory)) :=
  attempt_step (edd_call ireg tptr lba) (fun b m => fst (int13 b m None zero_regs)) a.

Definition edd_step (fuel : nat) (buf : Z) (is_write : bool) (t : transfer) :
    result (ctl transfer (B * memory * disk * Z)) :=
  let '(Transfer b m d ptr lba count done maxtransfer) := t in
  if decide (count = 0) then Ok (Break (b, m, d, done)) else
  let shift := disk_shift d in
  let chunk := Z.min count maxtransfer in
  let '(tptr, freeseg) := pick_buffer (bool_decide (ptr <= 0xf0000)) ptr shift in
  let chunk := Z.min chunk freeseg in
  let bytes := u32 (Z.shiftl chunk shift) in
  let m := if bool_decide (tptr <> ptr) && is_write then memcpy m tptr ptr bytes else m in
  let ireg := Regs 0 (0x42 + b2z is_write) 0 0 0 (u8 (disk_number d)) 0 0 false in
  r ← loop fuel (edd_try ireg tptr lba) (Attempt b m chunk maxtransfer RETRY_COUNT);
  match r with
  | inr (b, m) =>
      '(b, m, d, done) ← chs_rdwr_sectors fuel b m d buf (u64 (lba - part_start d)) count is_write;
      if decide (done = u32 (Z.shiftl count shift)) then Ok (Break (b, m, set_rdwr d CHS, done))
      else Ok (Break (b, m, d, done))
  | inl (Attempt b m chunk maxtransfer _) =>
      let bytes := u32 (Z.shiftl chunk shift) in
      let m := if bool_decide (tptr <> ptr) && negb is_write then memcpy m ptr tptr bytes else m in
      Ok (Continue (Transfer b m (set_maxtransfer d maxtransfer) (u32 (ptr + bytes)) (u64 (lba + chunk))
                      (count - chunk) (done + chunk) maxtransfer))
  end.

Definition edd_rdwr_sectors (fuel : nat) (b : B) (m : memory) (d : disk) (buf lba count : Z)
    (is_write : bool) : result (B * memory * disk * Z) :=
  loop fuel (edd_step fuel buf is_write)
    (Transfer b m d buf (u64 (lba + part_start d)) count 0 (maxtransfer d)).

(** *** Both drivers *)

(** The call [disk->rdwr_sectors(disk, ...)]. *)
Definition disk_rdwr (fuel : nat) (b : B) (m : memory) (d : disk) (buf lba count : Z)
    (is_write : bool) : result (B * memory * disk * Z) :=
  match rdwr d with
  | CHS => chs_rdwr_sectors fuel b m d buf lba count is_write
  | EDD => edd_rdwr_sectors fuel b m d buf lba count is_write
  end.

Definition getoneblk (fuel : nat) (b : B) (m : memory) (d : disk) (buf block block_size : Z) :
    result (B * memory * disk) :=
  let sec_per_block := block_size / sector_size d in
  '(b, m, d, _) ← disk_rdwr fuel b m d buf (u64 (block * sec_per_block)) sec_per_block false;
  Ok (b, m, d).

End Code.

(** ** Initialisation *)

Definition is_power_of_2 (x : Z) : bool := bool_decide (Z.land x (x - 1) = 0).

Abbreviation sizeof_edd_params := 74.

(** The sector size the BIOS reports: the [memset] clears what the BIOS did not
    fill in, and the field is at offset 24. *)
Definition reported_sector_size (p : edd_disk_params) : Z :=
  if decide (edd_len p < sizeof_edd_params) then
    if decide (edd_len p <= 24) then 0
    else if decide (edd_len p = 25) then Z.land (edd_sector_size p) 0xff
    else edd_sector_size p
  else edd_sector_size p.

Section Init.
Context {B : Type}.
(** Interrupt 0x13 for the calls that ask for parameters: DS:SI points to the
    second argument. *)
Context (int13_info : B -> edd_disk_params -> com32sys_t -> B * edd_disk_params * com32sys_t).

(** The result of the questions to the BIOS: the geometry, whether there are
    EDD calls, the sector size and the largest transfer. *)
Record geometry := Geometry { g_h : Z; g_s : Z; g_ebios : bool; g_size : Z; g_max : Z }.

Definition ask_bios (b : B) (devno bsHeads bsSecPerTrack : Z) : B * geometry :=
  let p0 := EddParams 0 0 in
  let ireg := Regs 0 0 0 0 0 (u8 devno) 0 0 false in
  (* (int8_t)devno < 0: a hard disk *)
  let '(b, h, s, ireg) :=
    if bool_decide (0x80 <= u8 devno) then
      let ireg := Regs 0 0x08 0 0 0 (u8 devno) 0 0 false in
      let '(b, _, oreg) := int13_info b p0 ireg in
      if negb (cf oreg) then (b, dh oreg + 1, Z.land (cl oreg) 63, ireg)
      else (b, bsHeads, bsSecPerTrack, ireg)
    else (b, bsHeads, bsSecPerTrack, ireg) in
  let ireg := Regs 0 0x41 0x55aa 0 0 (u8 devno) 0 0 true in
  let '(b, _, oreg) := int13_info b p0 ireg in
  if negb (cf oreg) && bool_decide (bx oreg = 0xaa55) && bool_decide (Z.land (cl oreg) 1 <> 0) then
    let ireg := Regs 0 0x48 0x55aa 0 0 (u8 devno) 0 0 true in
    let '(b, p, oreg) := int13_info b (EddParams sizeof_edd_params 0) ireg in
    let size :=
      if negb (cf oreg) && bool_decide (ah oreg = 0) then
        let n := reported_sector_size p in
        if bool_decide (n >= 512) && is_power_of_2 n then n else 512
      else 512 in
    (b, Geometry h s true size 127)
  else (b, Geometry h s false 512 63).

(** [d0] is the static disk structure before the call. *)
Definition disk_init (b : B) (d0 : disk) (devno : Z) (cdrom : bool) (part_start : Z)
    (bsHeads bsSecPerTrack MaxTransfer : Z) : B * disk :=
  let '(b, g) :=
    if cdrom then (b, Geometry (heads d0) (secs d0) true 2048 32)
    else ask_bios b devno bsHeads bsSecPerTrack in
  let MaxTransfer :=
    if decide (MaxTransfer = 0 \/ MaxTransfer > g_max g) then g_max g else MaxTransfer in
  (b, Disk devno (g_size g) (Z.log2 (g_size g)) MaxTransfer (g_h g) (g_s g) (u32 (g_h g * g_s g))
        part_start (if g_ebios g then EDD else CHS)).

(** [dev] and [diskcache] are the static structure and the static buffer. *)
Definition device_init (b : B) (d0 : disk) (dev : Cache.device) (diskcache devno : Z) (cdrom : bool)
    (part_start bsHeads bsSecPerTrack MaxTransfer : Z) : B * disk * Cache.device :=
  let '(b, d) := disk_init b d0 devno cdrom part_start bsHeads bsSecPerTrack MaxTransfer in
  (b, d, Cache.Device (Cache.dev_words dev) (Cache.dev_bufs dev) diskcache (Cache.cache_head dev)
           (Cache.cache_block_size dev) (Cache.cache_entries dev) (128 * 1024)).

End Init.

(** ** What the BIOS documents

    [absolute] sectors are counted from the start of the disk.  A request is
    legal when it names existing sectors of one track, and a transfer area
    below 1 MB that does not cross a 64K boundary.  A legal request that
    succeeds has transferred the sectors, and one that fails has only touched
    the transfer area. *)

Definition legal_area (a bytes : Z) : Prop :=
  0 <= a /\ a mod 0x10000 + bytes <= 0x10000 /\ a + bytes <= 0x100000.

Definition chs_read_request (drive H S shift : Z) (r : com32sys_t) (a n lba : Z) : Prop :=
  ah r = 0x02 /\ dl r = drive /\ al r = n /\ 1 <= n /\
  16 * es r + bx r = a /\ legal_area a (n * 2 ^ shift) /\
  exists c hd sec, 0 <= c < 1024 /\ 0 <= hd < H /\ 0 <= sec /\ sec + n <= S /\
    ch r = u8 c /\ cl r = u8 (Z.lor (Z.shiftr (Z.land c 0x300) 2) (sec + 1)) /\ dh r = hd /\
    lba = (c * H + hd) * S + sec.

Definition edd_read_request (drive shift : Z) (p : edd_rdwr_packet) (r : com32sys_t) (a n lba : Z) : Prop :=
  ah r = 0x42 /\ dl r = drive /\ pkt_size p = 16 /\ pkt_blocks p = n /\ 1 <= n <= 127 /\
  16 * pkt_seg p + pkt_offs p = a /\ legal_area a (n * 2 ^ shift) /\ pkt_lba p = lba.

Class BiosDisk {B : Type} (int13 : B -> memory -> option edd_rdwr_packet -> com32sys_t -> B * memory * com32sys_t)
    (drive H S shift : Z) := {
  absolute : Z -> list Z;
  absolute_length p : Z.of_nat (length (absolute p)) = 2 ^ shift;
  bios_chs_read b m r a n lba b' m' o :
    chs_read_request drive H S shift r a n lba -> int13 b m None r = (b', m', o) ->
    (forall x, ~ (a <= x < a + n * 2 ^ shift) -> m' x = m x) /\
    (cf o = false -> mread m' a (n * 2 ^ shift) = concat (absolute <$> seqZ lba n));
  bios_edd_read b m p r a n lba b' m' o :
    edd_read_request drive shift p r a n lba -> int13 b m (Some p) r = (b', m', o) ->
    (forall x, ~ (a <= x < a + n * 2 ^ shift) -> m' x = m x) /\
    (cf o = false -> mread m' a (n * 2 ^ shift) = concat (absolute <$> seqZ lba n));
  bios_reset b m : snd (fst (int13 b m None zero_regs)) = m }.

(** ** Memory *)

Lemma mread_length m a n : 0 <= n -> Z.of_nat (length (mread m a n)) = n.
Proof. intros. unfold mread. rewrite length_fmap, length_seqZ. lia. Qed.

Lemma mread_ext m m' a a' n :
  (forall i, 0 <= i < n -> m' (a' + i) = m (a + i)) -> mread m' a' n = mread m a n.
Proof.
  intros H. unfold mread. apply list_fmap_ext. intros i x [-> Hi]%lookup_seqZ. apply H. lia.
Qed.

Lemma mread_app m a n1 n2 :
  0 <= n1 -> 0 <= n2 -> mread m a (n1 + n2) = mread m a n1 ++ mread m (a + n1) n2.
Proof.
  intros. unfold mread. rewrite seqZ_app, fmap_app by lia. f_equal. rewrite Z.add_0_l.
  unfold seqZ. rewrite <- !list_fmap_compose. apply list_fmap_ext. intros i x _. simpl. f_equal. lia.
Qed.

Lemma mwrite_in m a l i : 0 <= i < Z.of_nat (length l) -> mwrite m a l (a + i) = nth (Z.to_nat i) l 0.
Proof. intros. unfold mwrite. rewrite decide_True by lia. do 2 f_equal. lia. Qed.

Lemma mwrite_out m a l x : ~ (a <= x < a + Z.of_nat (length l)) -> mwrite m a l x = m x.
Proof. intros. unfold mwrite. by rewrite decide_False. Qed.

Lemma memcpy_in m dst src n i : 0 <= i < n -> memcpy m dst src n (dst + i) = m (src + i).
Proof.
  intros. unfold memcpy. rewrite mwrite_in by (rewrite mread_length; lia).
  rewrite nth_lookup. unfold mread. rewrite list_lookup_fmap, lookup_seqZ_lt by lia. simpl. f_equal. lia.
Qed.

Lemma memcpy_out m dst src n x : 0 <= n -> ~ (dst <= x < dst + n) -> memcpy m dst src n x = m x.
Proof. intros. apply mwrite_out. by rewrite mread_length. Qed.

Lemma mread_memcpy m dst src n : mread (memcpy m dst src n) dst n = mread m src n.
Proof. apply mread_ext. intros. by apply memcpy_in. Qed.

Lemma seg_offs t : 0 <= t < 0x100000 -> 16 * SEG t + OFFS t = t.
Proof.
  intros. unfold SEG, OFFS. change 0xf with (2 ^ 4 - 1). rewrite land_ones_mod, shiftr_div by lia.
  unfold u16. change (2 ^ 4) with 16. dlia.
Qed.

Lemma concat_seqZ_app (f : Z -> list Z) a n m :
  0 <= n -> 0 <= m -> concat (f <$> seqZ a (n + m)) = concat (f <$> seqZ a n) ++ concat (f <$> seqZ (a + n) m).
Proof. intros. by rewrite seqZ_app, fmap_app, concat_app by lia. Qed.

(** ** Retrying *)

Section Retry.
Context {B : Type} (ss a n lba : Z) (absolute : Z -> list Z).
Context (call : B -> memory -> Z -> B * memory * com32sys_t) (recover : B -> memory -> B * memory).

(** Only the transfer area may change. *)
Definition area_only (m m' : memory) : Prop := forall x, ~ (a <= x < a + n * ss) -> m' x = m x.

Hypothesis call_ok : forall b m chunk b' m' o,
  1 <= chunk <= n -> call b m chunk = (b', m', o) ->
  area_only m m' /\
  (cf o = false -> mread m' a (chunk * ss) = concat (absolute <$> seqZ lba chunk)).
Hypothesis recover_ok : forall b m, snd (recover b m) = m.

(** The last resort, a single sector, never fails. *)
Definition last_resort : Prop := forall b m, cf (snd (call b m 1)) = false.

Lemma attempts_ok fuel b m mx :
  1 <= n <= mx -> (Z.to_nat (7 * n + 6) < fuel)%nat ->
  exists r, loop fuel (attempt_step call recover) (Attempt b m n mx RETRY_COUNT) = Ok r /\
    match r with
    | inl t => 1 <= at_chunk t <= n /\ 1 <= at_max t <= mx /\ area_only m (at_m t) /\
               mread (at_m t) a (at_chunk t * ss) = concat (absolute <$> seqZ lba (at_chunk t))
    | inr (_, m') => area_only m m' /\ ~ last_resort
    end.
Proof.
  intros Hn Hfuel. apply (loop_total
    (fun t => 1 <= at_chunk t <= n /\ 1 <= at_max t <= mx /\ 0 <= at_retry t <= 6 /\ area_only m (at_m t))
    _ (fun t => Z.to_nat (7 * at_chunk t + at_retry t))).
  2: { cbn [at_chunk at_max at_retry at_m]. unfold RETRY_COUNT. splits; try lia. by intros ? ?. }
  2: { cbn [at_chunk at_retry]. unfold RETRY_COUNT. lia. }
  clear Hfuel b. intros [b m1 chunk max retry] (H1 & H2 & H3 & H4).
  cbn [at_chunk at_max at_retry at_m] in *. unfold attempt_step. cbn [at_b at_chunk at_max at_retry at_m].
  destruct (call b m1 chunk) as [[b' m'] o] eqn:E. pose proof (call_ok _ _ _ _ _ _ H1 E) as [Hs Hd].
  assert (area_only m m') as Hs' by (intros x Hx; rewrite Hs by done; by apply H4).
  destruct (cf o) eqn:Ecf; cbn [negb step_ok at_chunk at_max at_retry at_m]; [|auto].
  unfold next_attempt. case_decide as Hr; cbn [step_ok at_chunk at_max at_retry at_m].
  { splits; try lia; done. }
  pose proof (recover_ok b' m') as Er. destruct (recover b' m') as [b2 m2]. simpl in Er. subst m2.
  rewrite shiftr_div by lia. change (2 ^ 1) with 2.
  case_decide as Hc; cbn [step_ok at_chunk at_max at_retry at_m].
  - unfold RETRY_COUNT. splits; try done; dlia.
  - split; [done|]. intros Hl. assert (chunk = 1) as -> by dlia. specialize (Hl b m1).
    rewrite E in Hl. simpl in Hl. congruence.
Qed.

End Retry.

(** ** Transfers *)

Section Transfers.
Context {B : Type} (int13 : B -> memory -> option edd_rdwr_packet -> com32sys_t -> B * memory * com32sys_t).
Context (drive H S shift : Z) `{BD : !BiosDisk int13 drive H S shift}.
Context (core_xfer_buf : Z).
Hypothesis shift_range : 0 <= shift <= 16.
Hypothesis geometry_range : 1 <= H <= 256 /\ 1 <= S <= 63 /\ 0 <= drive < 256.
Hypothesis xfer_range :
  core_xfer_buf mod 0x10000 = 0 /\ 0 <= core_xfer_buf /\ core_xfer_buf + 0x10000 <= 0x100000.

Abbreviation ss := (2 ^ shift).

Lemma ss_pos : 1 <= ss <= 0x10000.
Proof.
  change 0x10000 with (2 ^ 16). split; [|apply Z.pow_le_mono_r; lia].
  pose proof (Z.pow_pos_nonneg 2 shift). lia.
Qed.

Lemma freeseg_ok ptr : 0 <= ptr -> let f := Z.shiftr (0x10000 - Z.land ptr 0xffff) shift in
  0 <= f /\ ptr mod 0x10000 + f * ss <= 0x10000.
Proof.
  intros Hp. change 0xffff with (2 ^ 16 - 1). rewrite land_ones_mod, shiftr_div by lia.
  change (2 ^ 16) with 0x10000. pose proof ss_pos. cbv zeta.
  pose proof (Z.mod_pos_bound ptr 0x10000).
  pose proof (Z.mul_div_le (0x10000 - ptr mod 0x10000) ss ltac:(lia)).
  pose proof (Z.div_pos (0x10000 - ptr mod 0x10000) ss ltac:(lia) ltac:(lia)). lia.
Qed.

Lemma pick_buffer_ok low ptr :
  0 <= ptr < 0x100000000 -> (low = true -> ptr < 0x100000) ->
  let '(tptr, f) := pick_buffer core_xfer_buf low ptr shift in
  (tptr = ptr \/ tptr = core_xfer_buf) /\ 1 <= f /\ legal_area tptr (f * ss).
Proof.
  intros Hp Hlow. unfold pick_buffer. pose proof ss_pos. pose proof (freeseg_ok ptr ltac:(lia)) as [Hf1 Hf2].
  destruct xfer_range as (Hx1 & Hx2 & Hx3).
  destruct (low && negb (bool_decide _)) eqn:E.
  - apply andb_true_iff in E as [-> E%negb_true_iff%bool_decide_eq_false].
    specialize (Hlow eq_refl). splits; [by left|lia|]. unfold legal_area. splits; [lia|done|]. dlia.
  - pose proof (freeseg_ok core_xfer_buf ltac:(lia)) as [Hg1 Hg2].
    assert (1 <= Z.shiftr (0x10000 - Z.land core_xfer_buf 0xffff) shift) as Hg.
    { change 0xffff with (2 ^ 16 - 1). rewrite land_ones_mod, shiftr_div by lia.
      change (2 ^ 16) with 0x10000. rewrite Hx1. apply Z.div_le_lower_bound; lia. }
    splits; [by right|done|]. unfold legal_area. splits; [lia|done|lia].
Qed.

Lemma legal_area_le a n n' : legal_area a (n * ss) -> n' <= n -> legal_area a (n' * ss).
Proof. intros (? & ? & ?) ?. pose proof ss_pos. unfold legal_area. splits; nia. Qed.

(** *** What has been read so far *)

Section Buffer.
Context (m0 : memory) (buf lba0 total : Z).

(** [done] sectors from [lba0] are in the buffer, and nothing outside it
    and the transfer buffer has changed. *)
Record filled (m : memory) (done : Z) : Prop := {
  fi_data : mread m buf (done * ss) = concat (absolute <$> seqZ lba0 done);
  fi_same : forall x, ~ (buf <= x < buf + total * ss) ->
    ~ (core_xfer_buf <= x < core_xfer_buf + 0x10000) -> m x = m0 x }.

Hypothesis apart : buf + total * ss <= core_xfer_buf \/ core_xfer_buf + 0x10000 <= buf.

(** A chunk arrived at [tptr], in an area of [n] sectors, and is copied to its
    place if that is elsewhere. *)
Lemma filled_step m m1 done tptr n chunk :
  filled m done -> 0 <= done -> 0 <= chunk <= n -> done + n <= total ->
  let ptr := buf + done * ss in
  tptr = ptr \/ tptr = core_xfer_buf /\ n * ss <= 0x10000 ->
  area_only ss tptr n m m1 ->
  mread m1 tptr (chunk * ss) = concat (absolute <$> seqZ (lba0 + done) chunk) ->
  filled (if bool_decide (tptr <> ptr) then memcpy m1 ptr tptr (chunk * ss) else m1) (done + chunk).
Proof.
  intros [Hd Hs] Hdone Hchunk Htot ptr Ht Ha Hm. pose proof ss_pos.
  set (m2 := if bool_decide _ then _ else _).
  assert (mread m2 ptr (chunk * ss) = mread m1 tptr (chunk * ss)) as E2.
  { unfold m2. case_bool_decide as Hne; [apply mread_memcpy|].
    destruct (decide (tptr = ptr)) as [->|]; [done|by destruct Hne]. }
  assert (forall x, ~ (tptr <= x < tptr + n * ss) -> ~ (ptr <= x < ptr + chunk * ss) -> m2 x = m x) as Hout.
  { intros x Hx1 Hx2. unfold m2. case_bool_decide; [rewrite memcpy_out by (nia || done)|]; by apply Ha. }
  clearbody m2. constructor.
  - rewrite Z.mul_add_distr_r, mread_app, concat_seqZ_app by nia. fold ptr. f_equal; [|congruence].
    rewrite <- Hd. apply mread_ext. intros i Hi. apply Hout; destruct Ht as [->|[-> ?]]; nia.
  - intros x Hx1 Hx2. rewrite <- Hs by done. apply Hout; destruct Ht as [->|[-> ?]]; nia.
Qed.

(** A failed chunk leaves what was read. *)
Lemma filled_failed m m1 done tptr n :
  filled m done -> 0 <= done -> 0 <= n -> done + n <= total ->
  tptr = buf + done * ss \/ tptr = core_xfer_buf /\ n * ss <= 0x10000 ->
  area_only ss tptr n m m1 -> filled m1 done.
Proof.
  intros [Hd Hs] Hdone Hn Htot Ht Ha. pose proof ss_pos. constructor.
  - rewrite <- Hd. apply mread_ext. intros i Hi. apply Ha. destruct Ht as [->|[-> ?]]; nia.
  - intros x Hx1 Hx2. rewrite <- Hs by done. apply Ha. destruct Ht as [->|[-> ?]]; nia.
Qed.

(** *** Reading by cylinder, head and sector *)

(** The disk structure fits the BIOS's disk. *)
Record disk_ok (d : disk) : Prop := {
  dk_number : disk_number d = drive;
  dk_shift : disk_shift d = shift;
  dk_heads : heads d = H;
  dk_secs : secs d = S;
  dk_secpercyl : secpercyl d = H * S;
  dk_max : 1 <= maxtransfer d <= 127;
  dk_part : 0 <= part_start d < 0x10000000000000000 }.

(** [d'] is [d] up to a smaller transfer limit. *)
Definition same_disk (d d' : disk) : Prop :=
  d' = set_maxtransfer d (maxtransfer d') /\ 1 <= maxtransfer d' <= maxtransfer d.

Lemma same_disk_ok d d' : same_disk d d' -> disk_ok d -> disk_ok d'.
Proof. intros [E Hm] []. rewrite E. constructor; simpl; try done. lia. Qed.

Lemma same_disk_set d d' n : same_disk d d' -> 1 <= n <= maxtransfer d' -> same_disk d (set_maxtransfer d' n).
Proof. intros [E Hm] Hn. rewrite E. split; [done|]. simpl. lia. Qed.

(** The buffer the client passes. *)
Definition buffer_ok : Prop :=
  0 <= buf /\ 0 <= total /\ buf + total * ss < 0x100000000 /\
  (buf + total * ss <= 0x100000 \/ 0xf0000 < buf).

(** The BIOS never fails to read one of the sectors alone. *)
Definition chs_reliable : Prop := forall b m r a lba,
  chs_read_request drive H S shift r a 1 lba -> lba0 <= lba < lba0 + total ->
  cf (snd (int13 b m None r)) = false.

(** The outcome of a read: [n] sectors are in the buffer, all of them if
    [reliable] holds. *)
Definition read_outcome (reliable : Prop) (d0 : disk) (r : B * memory * disk * Z) : Prop :=
  let '(_, m, d, n) := r in
  0 <= n <= total /\ filled m n /\ same_disk d0 d /\ (reliable -> n = total).

Record tr_inv (d0 : disk) (t : transfer (B := B)) : Prop := {
  ti_count : tr_done t + tr_count t = total /\ 0 <= tr_done t /\ 0 <= tr_count t;
  ti_ptr : tr_ptr t = buf + tr_done t * ss;
  ti_lba : tr_lba t = lba0 + tr_done t;
  ti_max : 1 <= tr_max t <= maxtransfer (tr_disk t);
  ti_disk : same_disk d0 (tr_disk t);
  ti_filled : filled (tr_m t) (tr_done t) }.

(** The position of a sector on the disk. *)
Lemma chs_position xlba : 0 <= xlba ->
  let s := xlba mod S in let t := xlba / S in let h := t mod H in let c := t / H in
  0 <= s < S /\ 0 <= h < H /\ 0 <= c /\ xlba = (c * H + h) * S + s.
Proof.
  intros Hx. cbv zeta. destruct geometry_range as (? & ? & _). set (t := xlba / S).
  pose proof (Z.mod_pos_bound xlba S ltac:(lia)). pose proof (Z.mod_pos_bound t H ltac:(lia)).
  assert (0 <= t) as Ht by (apply Z.div_pos; lia). pose proof (Z.div_pos t H Ht ltac:(lia)).
  pose proof (Z.div_mod xlba S ltac:(lia)) as E. pose proof (Z.div_mod t H ltac:(lia)). fold t in E.
  splits; lia.
Qed.

(** The requests of the loop are legal, for the chunk and everything smaller. *)
Lemma chs_request_legal xlba tptr n k :
  0 <= xlba -> xlba / S / H < 1024 -> legal_area tptr (n * ss) -> 1 <= k <= n ->
  xlba mod S + n <= S -> 0 <= tptr ->
  chs_read_request drive H S shift
    (Regs (u8 k) (0x02 + b2z false) (OFFS tptr)
       (u8 (Z.lor (Z.shiftr (Z.land (xlba / S / H) 0x300) 2) (xlba mod S + 1))) (u8 (xlba / S / H))
       (u8 drive) (u8 ((xlba / S) mod H)) (SEG tptr) false) tptr k xlba.
Proof.
  intros Hx Hc Ha Hk Hn Ht. destruct (chs_position xlba Hx) as (Hs & Hh & Hc0 & Hl).
  destruct geometry_range as (? & ? & ?). pose proof ss_pos.
  unfold chs_read_request; cbn [al ah bx cl ch dl dh es].
  assert (tptr < 0x100000) by (destruct Ha as (? & ? & ?); nia).
  splits; [done|apply u8_small; lia|apply u8_small; lia|lia|by apply seg_offs|by eapply legal_area_le; [|apply Hk]|].
  exists (xlba / S / H), ((xlba / S) mod H), (xlba mod S).
  splits; try lia; try done. apply u8_small. lia.
Qed.

Section Chs.
Context (d0 : disk) (Hd0 : disk_ok d0) (Hbuf : buffer_ok) (Hlba0 : 0 <= lba0).

Definition chs_all_reliable : Prop := chs_reliable /\ lba0 + total <= 1024 * H * S.

Lemma chs_step_ok fuel t :
  tr_inv d0 t -> tr_lba t <= 1024 * H * S -> (Z.to_nat 1000 <= fuel)%nat ->
  step_ok (fun t => tr_inv d0 t /\ tr_lba t <= 1024 * H * S) (read_outcome chs_all_reliable d0)
    (fun t => Z.to_nat (tr_count t)) t (chs_step int13 core_xfer_buf fuel buf false t).
Proof.
  intros [(Hc1 & Hc2 & Hc3) Hptr Hlba Hmax Hdisk Hfill] Hlim Hfuel.
  destruct t as [b m d ptr xlba count done mx].
  cbn [tr_b tr_m tr_disk tr_ptr tr_lba tr_count tr_done tr_max] in *.
  pose proof ss_pos as Hss. destruct geometry_range as (Hg1 & Hg2 & Hg3). destruct Hbuf as (Hb1 & Hb2 & Hb3 & Hb4).
  destruct (same_disk_ok _ _ Hdisk Hd0) as [En Es Eh Ese _ Hmx _].
  unfold chs_step. case_decide as Hzero.
  { cbn [step_ok read_outcome]. splits; try done; lia. }
  rewrite En, Es, Eh, Ese.
  pose proof (pick_buffer_ok (bool_decide (buf <= 0xf0000)) ptr) as Hpick.
  destruct (pick_buffer _ _ ptr shift) as [tptr f].
  destruct Hpick as (Htp & Hf & Harea); [nia|intros ?%bool_decide_eq_true; nia|].
  destruct (chs_position xlba ltac:(lia)) as (Hs1 & Hs2 & Hs3 & _).
  set (n := Z.min (Z.min (Z.min count mx) f) (S - xlba mod S)).
  assert (1 <= n <= count /\ n <= mx /\ n <= f /\ xlba mod S + n <= S) as (Hn1 & Hn2 & Hn3 & Hn4) by lia.
  clearbody n. cbv zeta. rewrite andb_false_r.
  pose proof (legal_area_le _ _ n Harea Hn3) as Hlegal.
  set (ireg := Regs _ _ _ _ _ _ _ _ _).
  assert (0 <= tptr) as Htp0 by apply Harea.
  assert (tptr = buf + done * ss \/ tptr = core_xfer_buf /\ n * ss <= 0x10000) as Ht.
  { destruct Htp as [->| ->]; [by left|right]. split; [done|]. destruct Hlegal as (_ & ? & _).
    destruct xfer_range as (E & _). lia. }
  unfold chs_try. destruct (decide (xlba / S / H < 1024)) as [Hcyl|Hcyl]; last first.
  { destruct fuel as [|fuel]; [lia|].
    rewrite (loop_break _ _ _ (inr (b, m))) by done. cbn [mbind result_bind].
    cbn [step_ok read_outcome at_b at_m].
    splits; try done; try lia. intros [_ Hr]. exfalso. apply Hcyl.
    apply Z.div_lt_upper_bound; [lia|]. apply Z.div_lt_upper_bound; [lia|]. lia. }
  destruct (attempts_ok ss tptr n xlba absolute (chs_call int13 ireg) (fun b m => (b, m))) with
    (fuel := fuel) (b := b) (m := m) (mx := mx) as (r & Hloop & Hr); try lia; try done.
  { intros b1 m1 k b2 m2 o Hk Hcall. unfold chs_call in Hcall.
    pose proof (chs_request_legal xlba tptr n k ltac:(lia) Hcyl Hlegal Hk Hn4 Htp0) as Hreq.
    destruct (bios_chs_read _ _ _ _ _ _ _ _ _ Hreq Hcall) as [Hsame Hdata].
    split; [|done]. intros x Hx. apply Hsame. nia. }
  change (fun a : attempt => attempt_step (chs_call int13 ireg) _ a)
    with (attempt_step (chs_call int13 ireg) (fun (b : B) (m : memory) => (b, m))).
  rewrite Hloop. cbn [mbind result_bind]. destruct r as [[b1 m1 k mx1 rt]|[b1 m1]].
  - cbn [at_chunk at_max at_m] in Hr. destruct Hr as (Hk & Hmx1 & Ha & Hdata).
    assert (0 <= k * ss /\ done * ss + k * ss <= total * ss) as [Hks1 Hks2]
      by (clear - Hk Hn1 Hc1 Hc2 Hss; nia).
    assert (0 <= xlba + k /\ xlba + k <= 1024 * H * S < 0x100000000) as [Hx1 Hx2].
    { split; [lia|]. split; [|clear - Hg1 Hg2; nia].
      assert (xlba mod S + k <= S) as Hk' by lia.
      destruct (chs_position xlba ltac:(lia)) as (_ & _ & _ & Hl).
      set (c := xlba / S / H) in *. set (h := (xlba / S) mod H) in *.
      assert ((c * H + h + 1) * S <= 1024 * H * S)
        by (clear - Hs2 Hs3 Hcyl Hg1 Hg2; apply Z.mul_le_mono_nonneg_r; nia). lia. }
    rewrite shiftl_mul, (u32_small (k * ss)), andb_true_r by lia.
    rewrite (u32_small (ptr + _)), (u32_small (xlba + _)) by lia.
    cbn [step_ok tr_b tr_m tr_disk tr_ptr tr_lba tr_count tr_done tr_max].
    split; [|lia]. split.
    + constructor; cbn [tr_b tr_m tr_disk tr_ptr tr_lba tr_count tr_done tr_max].
      * lia.
      * lia.
      * lia.
      * simpl. lia.
      * apply same_disk_set; [done|lia].
      * rewrite Hptr in *. eapply filled_step; try done; try lia. by rewrite <- Hlba.
    + lia.
  - destruct Hr as [Ha Hl]. cbn [step_ok read_outcome]. splits; try done; try lia.
    + apply (filled_failed m m1 done tptr n); try done; lia.
    + intros [Hr _]. exfalso. apply Hl. intros b2 m2.
      apply (Hr _ _ _ tptr xlba); [|lia]. apply (chs_request_legal xlba tptr n); try done; lia.
Qed.

Lemma chs_rep fuel b lba :
  lba0 = u64 (lba + part_start d0) -> (Z.to_nat (1000 + total) <= fuel)%nat ->
  exists r, chs_rdwr_sectors int13 core_xfer_buf fuel b m0 d0 buf lba total false = Ok r /\
    read_outcome chs_all_reliable d0 r.
Proof.
  intros El Hfuel. unfold chs_rdwr_sectors, chs_max. rewrite <- El.
  destruct Hd0 as [_ _ _ _ Esp Hmx _]. rewrite Esp, shiftl_mul by lia. change (2 ^ 10) with 1024.
  destruct geometry_range as (Hg1 & Hg2 & _). destruct Hbuf as (Hb1 & Hb2 & Hb3 & _).
  rewrite (u64_small (H * S * 1024)) by nia.
  assert (same_disk d0 d0) as Hsame by (split; [by destruct d0|lia]).
  assert (filled m0 0) as Hf0 by (by constructor).
  case_decide as Hge.
  - eexists. split; [done|]. simpl. splits; try done; try lia. intros [_ ?]. lia.
  - assert (u32 (lba + part_start d0) = lba0) as ->.
    { rewrite <- (u32_small lba0) by nia. rewrite El. unfold u32, u64. dlia. }
    apply (loop_total (fun t => tr_inv d0 t /\ tr_lba t <= 1024 * H * S) _
      (fun t => Z.to_nat (tr_count t))).
    + intros t [Ht Hl]. apply chs_step_ok; [done|done|lia].
    + simpl. split; [|lia]. constructor; simpl; try done; lia.
    + simpl. lia.
Qed.

End Chs.

(** *** Reading with the extended calls *)

Definition edd_reliable : Prop := forall b m p r a lba,
  edd_read_request drive shift p r a 1 lba -> lba0 <= lba < lba0 + total ->
  cf (snd (int13 b m (Some p) r)) = false.

Lemma edd_request_legal lba tptr n k :
  legal_area tptr (n * ss) -> 1 <= k <= n -> n <= 127 ->
  edd_read_request drive shift (Packet 16 (u16 k) (OFFS tptr) (SEG tptr) lba)
    (Regs 0 (0x42 + b2z false) 0 0 0 (u8 drive) 0 0 false) tptr k lba.
Proof.
  intros Ha Hk Hn. destruct geometry_range as (? & ? & ?). pose proof ss_pos.
  unfold edd_read_request; cbn [ah dl pkt_size pkt_blocks pkt_seg pkt_offs pkt_lba].
  splits; try done; try lia; [apply u8_small; lia|apply u16_small; lia| |by eapply legal_area_le; [|apply Hk]].
  apply seg_offs. destruct Ha as (? & ? & ?). nia.
Qed.

Section Edd.
Context (d0 : disk) (Hd0 : disk_ok d0) (Hbuf : buffer_ok).
Context (Hlba0 : 0 <= lba0) (Hlba1 : lba0 + total < 0x10000000000000000).

Lemma edd_step_ok fuel t :
  edd_reliable -> tr_inv d0 t -> (Z.to_nat 1000 <= fuel)%nat ->
  step_ok (tr_inv d0) (read_outcome edd_reliable d0)
    (fun t => Z.to_nat (tr_count t)) t (edd_step int13 core_xfer_buf fuel buf false t).
Proof.
  intros Hrel [(Hc1 & Hc2 & Hc3) Hptr Hlba Hmax Hdisk Hfill] Hfuel.
  destruct t as [b m d ptr xlba count done mx].
  cbn [tr_b tr_m tr_disk tr_ptr tr_lba tr_count tr_done tr_max] in *.
  pose proof ss_pos as Hss. destruct Hbuf as (Hb1 & Hb2 & Hb3 & Hb4).
  destruct (same_disk_ok _ _ Hdisk Hd0) as [En Es _ _ _ Hmx _].
  unfold edd_step. case_decide as Hzero.
  { cbn [step_ok read_outcome]. splits; try done; lia. }
  rewrite En, Es.
  pose proof (pick_buffer_ok (bool_decide (ptr <= 0xf0000)) ptr) as Hpick.
  destruct (pick_buffer _ _ ptr shift) as [tptr f].
  destruct Hpick as (Htp & Hf & Harea); [nia|intros ?%bool_decide_eq_true; lia|].
  set (n := Z.min (Z.min count mx) f).
  assert (1 <= n <= count /\ n <= mx /\ n <= f) as (Hn1 & Hn2 & Hn3) by lia.
  clearbody n. cbv zeta. rewrite andb_false_r.
  pose proof (legal_area_le _ _ n Harea Hn3) as Hlegal.
  set (ireg := Regs _ _ _ _ _ _ _ _ _).
  assert (tptr = buf + done * ss \/ tptr = core_xfer_buf /\ n * ss <= 0x10000) as Ht.
  { destruct Htp as [->| ->]; [by left|right]. split; [done|]. destruct Hlegal as (_ & ? & _).
    destruct xfer_range as (E & _). lia. }
  unfold edd_try. change (fun a : attempt => attempt_step ?c ?r a) with (attempt_step c r).
  destruct (attempts_ok ss tptr n xlba absolute (edd_call int13 ireg tptr xlba)
    (fun b m => fst (int13 b m None zero_regs))) with
    (fuel := fuel) (b := b) (m := m) (mx := mx) as (r & Hloop & Hr); try lia.
  { intros b1 m1 k b2 m2 o Hk Hcall. unfold edd_call in Hcall.
    pose proof (edd_request_legal xlba tptr n k Hlegal Hk ltac:(lia)) as Hreq.
    destruct (bios_edd_read _ _ _ _ _ _ _ _ _ _ Hreq Hcall) as [Hsame Hdata].
    split; [|exact Hdata]. intros x Hx. apply Hsame. clear - Hx Hk Hss; nia. }
  { intros. apply bios_reset. }
  change (fun a : attempt => attempt_step (edd_call int13 ireg tptr xlba) ?r a)
    with (attempt_step (edd_call int13 ireg tptr xlba) r).
  rewrite Hloop. cbn [mbind result_bind]. destruct r as [[b1 m1 k mx1 rt]|[b1 m1]].
  - cbn [at_chunk at_max at_m] in Hr. destruct Hr as (Hk & Hmx1 & Ha & Hdata).
    assert (0 <= k * ss /\ done * ss + k * ss <= total * ss) as [Hks1 Hks2]
      by (clear - Hk Hn1 Hc1 Hc2 Hss; nia).
    rewrite shiftl_mul, (u32_small (k * ss)), andb_true_r by lia.
    rewrite (u32_small (ptr + _)), (u64_small (xlba + _)) by lia.
    cbn [step_ok tr_b tr_m tr_disk tr_ptr tr_lba tr_count tr_done tr_max].
    split; [|lia]. constructor; cbn [tr_b tr_m tr_disk tr_ptr tr_lba tr_count tr_done tr_max]; try lia.
    + simpl. lia.
    + apply same_disk_set; [done|lia].
    + rewrite Hptr in *. eapply filled_step; try done; try lia. by rewrite <- Hlba.
  - destruct Hr as [Ha Hl]. exfalso. apply Hl. intros b2 m2.
    apply (Hrel _ _ _ _ tptr xlba); [|lia]. apply (edd_request_legal xlba tptr n); try done; lia.
Qed.

Lemma edd_rep fuel b lba :
  edd_reliable -> lba0 = u64 (lba + part_start d0) -> (Z.to_nat (1000 + total) <= fuel)%nat ->
  exists r, edd_rdwr_sectors int13 core_xfer_buf fuel b m0 d0 buf lba total false = Ok r /\
    read_outcome edd_reliable d0 r.
Proof.
  intros Hrel El Hfuel. unfold edd_rdwr_sectors. rewrite <- El.
  destruct Hd0 as [_ _ _ _ _ Hmx _]. destruct Hbuf as (Hb1 & Hb2 & _).
  apply (loop_total (tr_inv d0) _ (fun t => Z.to_nat (tr_count t))).
  - intros t Ht. apply edd_step_ok; [done|done|lia].
  - constructor; simpl; try done; try lia. split; [by destruct d0|lia].
  - simpl. lia.
Qed.
End Edd.

End Buffer.

(** ** The drivers *)

Section Drivers.
Context (d : disk) (m : memory) (buf lba total : Z).

Definition abs_lba : Z := u64 (lba + part_start d).

(** A call as the file systems make it. *)
Record read_call : Prop := {
  rc_disk : disk_ok d;
  rc_buffer : buffer_ok buf total;
  rc_apart : buf + total * ss <= core_xfer_buf \/ core_xfer_buf + 0x10000 <= buf;
  rc_lba : 0 <= lba;
  rc_end : abs_lba + total < 0x10000000000000000 }.

(** C34. Reading by cylinder, head and sector, whatever the BIOS does: the
    driver returns, the sectors it reports are in the buffer, in order, and
    no other memory has changed but the rest of the buffer and the transfer
    buffer; it reports all of them when the BIOS can read each of them
    alone, however often it fails to read several at once. *)
Theorem chs_reads fuel b :
  read_call -> (Z.to_nat (1000 + total) <= fuel)%nat ->
  exists b' m' d' n,
    chs_rdwr_sectors int13 core_xfer_buf fuel b m d buf lba total false = Ok (b', m', d', n) /\
    0 <= n <= total /\ same_disk d d' /\
    mread m' buf (n * ss) = concat (absolute <$> seqZ abs_lba n) /\
    (forall x, ~ (buf <= x < buf + total * ss) ->
       ~ (core_xfer_buf <= x < core_xfer_buf + 0x10000) -> m' x = m x) /\
    (chs_reliable abs_lba total -> abs_lba + total <= 1024 * H * S -> n = total).
Proof.
  intros [Hd Hb Ha Hl _] Hfuel. pose proof (u64_range (lba + part_start d)) as Hr.
  destruct (chs_rep m buf abs_lba total Ha d Hd Hb ltac:(unfold abs_lba; lia) fuel b lba eq_refl Hfuel)
    as ([[[b' m'] d'] n] & E & Hn & [Hm Hs] & Hsd & Hrel).
  exists b', m', d', n. splits; try done; try lia. intros. by apply Hrel.
Qed.

(** Reading with the extended calls, from a BIOS that can read each sector
    alone: all the sectors are in the buffer, in order, and no other memory
    has changed but the transfer buffer. *)
Theorem edd_reads fuel b :
  read_call -> edd_reliable abs_lba total -> (Z.to_nat (1000 + total) <= fuel)%nat ->
  exists b' m' d',
    edd_rdwr_sectors int13 core_xfer_buf fuel b m d buf lba total false = Ok (b', m', d', total) /\
    same_disk d d' /\
    mread m' buf (total * ss) = concat (absolute <$> seqZ abs_lba total) /\
    forall x, ~ (buf <= x < buf + total * ss) ->
      ~ (core_xfer_buf <= x < core_xfer_buf + 0x10000) -> m' x = m x.
Proof.
  intros [Hd Hb Ha Hl He] Hr Hfuel. pose proof (u64_range (lba + part_start d)) as Hr0.
  destruct (edd_rep m buf abs_lba total Ha d Hd Hb ltac:(unfold abs_lba; lia) He fuel b lba Hr eq_refl Hfuel)
    as ([[[b' m'] d'] n] & E & Hn & [Hm Hs] & Hsd & Hrel).
  specialize (Hrel Hr). subst n. exists b', m', d'. splits; done.
Qed.

(** [getoneblk] reads one block, through either driver. *)
Lemma getoneblk_ok fuel b block block_size :
  read_call -> sector_size d = ss -> 0 <= block_size -> block_size / ss = total ->
  0 <= block -> lba = block * total -> lba < 0x10000000000000000 ->
  edd_reliable abs_lba total -> chs_reliable abs_lba total -> abs_lba + total <= 1024 * H * S ->
  (Z.to_nat (1000 + total) <= fuel)%nat ->
  exists b' m' d', getoneblk int13 core_xfer_buf fuel b m d buf block block_size = Ok (b', m', d') /\
    same_disk d d' /\ mread m' buf (total * ss) = concat (absolute <$> seqZ abs_lba total).
Proof.
  intros [Hd Hb Ha Hl He] Ess Hbs Etot Hblk El Hl64 Hre Hrc Hcap Hfuel.
  unfold getoneblk. rewrite Ess, Etot, <- El, u64_small by lia. unfold disk_rdwr.
  pose proof (u64_range (lba + part_start d)) as Hr.
  destruct (rdwr d).
  - destruct (chs_rep m buf abs_lba total Ha d Hd Hb ltac:(unfold abs_lba; lia) fuel b lba eq_refl Hfuel)
      as ([[[b' m'] d'] n] & -> & Hn & [Hm Hs] & Hsd & Hrel).
    rewrite (Hrel (conj Hrc Hcap)) in *. exists b', m', d'. done.
  - destruct (edd_rep m buf abs_lba total Ha d Hd Hb ltac:(unfold abs_lba; lia) He fuel b lba Hre eq_refl Hfuel)
      as ([[[b' m'] d'] n] & -> & Hn & [Hm Hs] & Hsd & Hrel).
    rewrite (Hrel Hre) in *. exists b', m', d'. done.
Qed.
End Drivers.

End Transfers.

(** ** disk_init *)

(** What the answers of the BIOS are made of. *)
Record regs_range (r : com32sys_t) : Prop := {
  rr_dh : 0 <= dh r < 0x100;
  rr_cl : 0 <= cl r < 0x100 }.

Section InitOk.
Context {B : Type} (int13_info : B -> edd_disk_params -> com32sys_t -> B * edd_disk_params * com32sys_t).
Hypothesis info_range : forall b p r, regs_range (snd (int13_info b p r)) /\
  0 <= edd_sector_size (snd (fst (int13_info b p r))) < 0x10000.

(** [x & (x - 1)] is zero for the powers of two only. *)
Lemma is_power_of_2_ok x : 0 < x -> is_power_of_2 x = true -> exists k, 0 <= k /\ x = 2 ^ k.
Proof.
  intros Hx H%bool_decide_eq_true. exists (Z.log2 x). split; [apply Z.log2_nonneg|].
  destruct (Z.log2_spec x Hx) as [Hl Hu]. pose proof (Z.log2_nonneg x) as Hk.
  rewrite Z.pow_succ_r in Hu by lia. set (k := Z.log2 x) in *.
  destruct (decide (x = 2 ^ k)) as [|Hne]; [done|]. exfalso.
  assert (Z.log2 (x - 1) = k) as Hk' by (apply Z.log2_unique; [done|]; rewrite Z.pow_succ_r by lia; lia).
  assert (Z.testbit (Z.land x (x - 1)) k = true) as Hb; [|by rewrite H, Z.bits_0 in Hb].
  rewrite Z.land_spec, andb_true_iff. split; [by apply Z.bit_log2|].
  rewrite <- Hk'. apply Z.bit_log2. pose proof (Z.pow_pos_nonneg 2 k). lia.
Qed.

(** The largest transfer and the driver go together. *)
Definition geometry_ok (g : geometry) : Prop :=
  (exists k, 9 <= k <= 15 /\ g_size g = 2 ^ k) /\
  (g_max g = 32 /\ g_ebios g = true \/ g_max g = 127 /\ g_ebios g = true \/
   g_max g = 63 /\ g_ebios g = false /\ g_size g = 512).

Lemma sector_size_ok n :
  0 <= n < 0x10000 -> n >= 512 -> is_power_of_2 n = true -> exists k, 9 <= k <= 15 /\ n = 2 ^ k.
Proof.
  intros Hn H5 Hp. destruct (is_power_of_2_ok n ltac:(lia) Hp) as (k & Hk & ->).
  exists k. split; [|done]. change 0x10000 with (2 ^ 16) in Hn. change 512 with (2 ^ 9) in H5.
  destruct Hn as [_ Hn]. apply Z.pow_lt_mono_r_iff in Hn; [|lia|lia].
  destruct (Z.lt_ge_cases k 9) as [Hlt|]; [|lia].
  apply (Z.pow_lt_mono_r 2 k 9) in Hlt; lia.
Qed.

Lemma reported_range p : 0 <= edd_sector_size p < 0x10000 -> 0 <= reported_sector_size p < 0x10000.
Proof.
  intros Hp. unfold reported_sector_size. repeat case_decide; try lia.
  change 0xff with (2 ^ 8 - 1). rewrite land_ones_mod by lia. change (2 ^ 8) with 256. dlia.
Qed.

Lemma ask_bios_ok b devno bsHeads bsSecPerTrack :
  let g := snd (ask_bios int13_info b devno bsHeads bsSecPerTrack) in
  geometry_ok g /\
  (g_h g = bsHeads /\ g_s g = bsSecPerTrack \/ 1 <= g_h g <= 256 /\ 0 <= g_s g <= 63).
Proof.
  unfold ask_bios. set (q := if bool_decide _ then _ else _).
  assert (forall hs : Z * Z, hs = (snd (fst (fst q)), snd (fst q)) ->
    fst hs = bsHeads /\ snd hs = bsSecPerTrack \/ 1 <= fst hs <= 256 /\ 0 <= snd hs <= 63) as Hq.
  { intros hs ->. unfold q. case_bool_decide; [|by left]. cbv zeta.
    match goal with |- context [int13_info ?b ?p ?r] =>
      pose proof (info_range b p r) as [[Hdh Hcl] _]; destruct (int13_info b p r) as [[b1 p1] o1] end.
    cbn [fst snd] in *. destruct (negb (cf o1)); [right|by left]. cbn [fst snd]. split; [lia|].
    change 63 with (2 ^ 6 - 1) at 1 2. rewrite land_ones_mod by lia. change (2 ^ 6) with 64. dlia. }
  specialize (Hq _ eq_refl). clearbody q. destruct q as [[[b1 h] s] r1]. cbn [fst snd] in Hq. cbv zeta.
  match goal with |- context [int13_info ?b ?p ?r] => destruct (int13_info b p r) as [[b2 p2] o2] end.
  destruct (_ && _); [|split; [|exact Hq]; split; [by exists 9|right; right; done]].
  match goal with |- context [int13_info ?b ?p ?r] =>
    pose proof (info_range b p r) as [_ Hsz]; destruct (int13_info b p r) as [[b3 p3] o3] end.
  cbn [fst snd] in *. split; [|exact Hq]. split; [|right; left; done]. cbn [g_size].
  destruct (_ && _); [|by exists 9].
  destruct (bool_decide (_ >= 512) && _) eqn:E; [|by exists 9].
  apply andb_true_iff in E as [E1%bool_decide_eq_true E2].
  apply sector_size_ok; [|done|done]. by apply reported_range.
Qed.

(** C40. Whatever the BIOS answers, the disk structure that [disk_init] fills in
    is one the drivers can use: the sector size is a power of two from 512 to
    32768 and agrees with the shift, the transfer limit is positive and at
    most what the driver supports and what was asked for, and the geometry is
    the one of the BIOS or of the boot sector. *)
Theorem disk_init_ok b d0 devno cdrom part bsHeads bsSecPerTrack MaxTransfer :
  0 <= bsHeads < 0x10000 -> 0 <= bsSecPerTrack < 0x10000 -> 0 <= MaxTransfer ->
  let d := snd (disk_init int13_info b d0 devno cdrom part bsHeads bsSecPerTrack MaxTransfer) in
  9 <= disk_shift d <= 15 /\ sector_size d = 2 ^ disk_shift d /\
  1 <= maxtransfer d <= (match rdwr d with CHS => 63 | EDD => 127 end) /\
  (0 < MaxTransfer -> maxtransfer d <= MaxTransfer) /\
  (cdrom = true -> rdwr d = EDD /\ sector_size d = 2048) /\
  (cdrom = false ->
     (heads d = bsHeads /\ secs d = bsSecPerTrack \/ 1 <= heads d <= 256 /\ 0 <= secs d <= 63) /\
     secpercyl d = heads d * secs d) /\
  disk_number d = devno /\ part_start d = part.
Proof.
  intros Hh Hs Hm. unfold disk_init.
  pose proof (ask_bios_ok b devno bsHeads bsSecPerTrack) as Hask. cbv zeta in Hask.
  destruct cdrom; [|destruct (ask_bios _ _ _ _ _) as [b1 g]; cbn [snd] in Hask;
                    destruct Hask as [[(k & Hk & Ek) Hg] Hgeo]]; cbv zeta;
    cbn [snd disk_shift sector_size maxtransfer rdwr heads secs secpercyl disk_number part_start
         g_size g_max g_ebios g_h g_s].
  - change (Z.log2 2048) with 11. splits; try done; case_decide; lia.
  - rewrite Ek, Z.log2_pow2 by lia. splits; try done; try lia.
    + case_decide; lia.
    + destruct Hg as [[-> ->]|[[-> ->]|(-> & -> & _)]]; case_decide; lia.
    + intros. case_decide; lia.
    + intros _. split; [done|]. apply u32_small. destruct Hgeo as [[-> ->]|?]; nia.
Qed.

End InitOk.

(** ** An example

    A disk of two heads and three two-byte sectors per track, whose BIOS
    transfers one sector at a time, and by the extended calls only those below
    sector [lim]. *)

Definition demo_sector (p : Z) : list Z := [p; p + 100].

Definition demo_int13 (lim : Z) (b : unit) (m : memory) (pkt : option edd_rdwr_packet) (r : com32sys_t) :
    unit * memory * com32sys_t :=
  let error := Regs 0 1 0 0 0 0 0 0 true in
  if decide (ah r = 0x02) then
    let lba := ((ch r + 256 * (cl r / 64)) * 2 + dh r) * 3 + (cl r mod 64 - 1) in
    if decide (al r = 1) then (tt, mwrite m (16 * es r + bx r) (demo_sector lba), zero_regs)
    else (tt, m, error)
  else match pkt with
       | Some p =>
           if decide (pkt_blocks p = 1 /\ pkt_lba p < lim) then
             (tt, mwrite m (16 * pkt_seg p + pkt_offs p) (demo_sector (pkt_lba p)), zero_regs)
           else (tt, m, error)
       | None => (tt, m, zero_regs)
       end.

(** The cylinder and the sector are found in the registers. *)
Lemma demo_decode c sec : 0 <= c < 1024 -> 0 <= sec < 3 ->
  let x := u8 (Z.lor (Z.shiftr (Z.land c 0x300) 2) (sec + 1)) in
  u8 c + 256 * (x / 64) = c /\ x mod 64 = sec + 1.
Proof.
  intros Hc Hs. set (cyl := fun c sec => u8 (Z.lor (Z.shiftr (Z.land c 0x300) 2) (sec + 1))).
  assert (Forall (fun c => Forall (fun sec => u8 c + 256 * (cyl c sec / 64) = c /\ cyl c sec mod 64 = sec + 1)
    (seqZ 0 3)) (seqZ 0 1024)) as H by by_compute.
  rewrite Forall_forall in H. specialize (H c). rewrite Forall_forall in H.
  apply H; apply elem_of_seqZ; lia.
Qed.

Lemma drv_read m a lba :
  (forall x, ~ (a <= x < a + 1 * 2) -> mwrite m a (demo_sector lba) x = m x) /\
  mread (mwrite m a (demo_sector lba)) a (1 * 2) = concat (demo_sector <$> seqZ lba 1).
Proof.
  split; [intros x Hx; apply mwrite_out; simpl; lia|].
  change (seqZ lba 1) with [lba]. 
  assert (mread (mwrite m a (demo_sector lba)) a (1 * 2) =
    [mwrite m a (demo_sector lba) (a + 0); mwrite m a (demo_sector lba) (a + 1)]) as -> by done.
  by rewrite !mwrite_in by (simpl; lia).
Qed.

#[local] Instance demo_bios lim : BiosDisk (demo_int13 lim) 0 2 3 1.
Proof.
  refine {| absolute := demo_sector |}.
  - done.
  - intros b m r a n lba b' m' o (Eah & _ & Eal & Hn & Ea & _ & c & hd & sec & Hc & Hhd & Hsec & Hsn & Ech & Ecl & Edh & El).
    unfold demo_int13. rewrite decide_True by done. rewrite Ea, Ech, Ecl, Edh.
    destruct (demo_decode c sec) as [-> ->]; [done|lia|]. replace (sec + 1 - 1) with sec by lia. rewrite <- El.
    case_decide; intros [= <- <- <-]; [|split; intros; simpl in *; congruence].
    replace n with 1 by congruence. destruct (drv_read m a lba) as [H1 H2]. split; [exact H1|intros _; exact H2].
  - intros b m p r a n lba b' m' o (Eah & _ & _ & Ebl & Hn & Ea & _ & El).
    unfold demo_int13. rewrite decide_False by lia. rewrite Ebl, El, Ea.
    case_decide as Hd; intros [= <- <- <-]; [|split; intros; simpl in *; congruence]. destruct Hd as [-> _].
    destruct (drv_read m a lba) as [H1 H2]. split; [exact H1|intros _; exact H2].
  - done.
Defined.

Definition demo_disk : disk := Disk 0 2 1 4 2 3 6 1 EDD.
Definition demo_mem : memory := fun _ => 255.

Lemma demo_geometry : 1 <= 2 <= 256 /\ 1 <= 3 <= 63 /\ 0 <= 0 < 256.
Proof. lia. Qed.

Lemma demo_xfer : 0x10000 mod 0x10000 = 0 /\ 0 <= 0x10000 /\ 0x10000 + 0x10000 <= 0x100000.
Proof. done. Qed.

Lemma drv_call : read_call 0 2 3 1 0x10000 demo_disk 0x200000 2 5.
Proof.
  constructor; [constructor; simpl; lia|unfold buffer_ok; lia|lia|lia|vm_compute; reflexivity].
Qed.

(** Five sectors are read, though every request for several fails. *)
Lemma chs_reads_witness :
  exists b' m' d' n,
    chs_rdwr_sectors (demo_int13 0) 0x10000 2000 tt demo_mem demo_disk 0x200000 2 5 false = Ok (b', m', d', n) /\
    0 <= n <= 5 /\ same_disk demo_disk d' /\
    mread m' 0x200000 (n * 2 ^ 1) = concat (demo_sector <$> seqZ (abs_lba demo_disk 2) n) /\
    (forall x, ~ (0x200000 <= x < 0x200000 + 5 * 2 ^ 1) -> ~ (0x10000 <= x < 0x10000 + 0x10000) ->
       m' x = demo_mem x) /\
    (chs_reliable (demo_int13 0) 0 2 3 1 (abs_lba demo_disk 2) 5 ->
     abs_lba demo_disk 2 + 5 <= 1024 * 2 * 3 -> n = 5).
Proof.
  apply (chs_reads (demo_int13 0) 0 2 3 1 (BD := demo_bios 0) 0x10000 ltac:(lia) demo_geometry demo_xfer
           demo_disk demo_mem 0x200000 2 5 2000 tt drv_call). lia.
Defined.

Lemma edd_reads_witness :
  exists b' m' d',
    edd_rdwr_sectors (demo_int13 100) 0x10000 2000 tt demo_mem demo_disk 0x200000 2 5 false = Ok (b', m', d', 5) /\
    same_disk demo_disk d' /\
    mread m' 0x200000 (5 * 2 ^ 1) = concat (demo_sector <$> seqZ (abs_lba demo_disk 2) 5) /\
    forall x, ~ (0x200000 <= x < 0x200000 + 5 * 2 ^ 1) -> ~ (0x10000 <= x < 0x10000 + 0x10000) ->
       m' x = demo_mem x.
Proof.
  apply (edd_reads (demo_int13 100) 0 2 3 1 (BD := demo_bios 100) 0x10000 ltac:(lia) demo_geometry demo_xfer
           demo_disk demo_mem 0x200000 2 5 2000 tt drv_call).
  - intros b m p r a lba (Eah & _ & _ & Ebl & _ & _ & _ & El) Hl. unfold demo_int13.
    rewrite decide_False by lia. rewrite Ebl, El. change (abs_lba _ _) with 3 in Hl.
    by rewrite decide_True by lia.
  - lia.
Defined.

Definition demo_info (b : unit) (p : edd_disk_params) (r : com32sys_t) : unit * edd_disk_params * com32sys_t :=
  (b, EddParams 0 0, Regs 0 1 0 0 0 0 0 0 true).

Lemma disk_init_ok_witness :
  9 <= disk_shift (snd (disk_init demo_info tt demo_disk 0 false 7 2 18 20)) <= 15.
Proof.
  refine (proj1 (disk_init_ok demo_info _ tt demo_disk 0 false 7 2 18 20 _ _ _)); try lia.
  intros. simpl. split; [by constructor|done].
Defined.

(** When the extended calls stop working in the middle of a read, the driver
    falls back to the other one, which reads the rest of the sectors to the
    start of the buffer; and it compares sectors with bytes, so that it does not
    remember that the other driver works. *)
Theorem edd_fallback :
  match edd_rdwr_sectors (demo_int13 5) 0x10000 2000 tt demo_mem demo_disk 0x200000 2 5 false with
  | Ok (_, m, d, n) =>
      mread m 0x200000 10 = concat (demo_sector <$> [5; 6; 7]) ++ [255; 255; 255; 255] /\
      n = 3 /\ rdwr d = EDD
  | _ => False
  end.
Proof. vm_compute. auto. Qed.

End DiskIO.
