(* ===== verification/DiskDevice.v ===== *)
(** * The disk drivers as a sector device

    What the extent reader assumes of [disk->rdwr_sectors], proved of the
    drivers of diskio.c: reading sectors of the partition, from a BIOS that can
    read each of them alone, gives their contents. *)

From Stdlib Require Import ZArith Lia.
From S2P Require Import Prelude GetFsSec DiskIO.
Import DiskIO.DiskIO.

Module DiskDevice.
Section Device.
Context {B : Type} (int13 : B -> memory -> option edd_rdwr_packet -> com32sys_t -> B * memory * com32sys_t).
Context (drive H S shift : Z) `{BD : !BiosDisk int13 drive H S shift} (core_xfer_buf : Z).
Context (shift_range : 0 <= shift <= 16).
Context (geometry_range : 1 <= H <= 256 /\ 1 <= S <= 63 /\ 0 <= drive < 256).
Context (xfer_range :
  core_xfer_buf mod 0x10000 = 0 /\ 0 <= core_xfer_buf /\ core_xfer_buf + 0x10000 <= 0x100000).

(** The disk structure, the size of the partition, and the state before a
    read; the buffer is at 1 MB. *)
Context (d : disk) (sectors : Z) (b : B) (m : memory).
Context (d_ok : disk_ok drive H S shift d) (sectors_range : 0 <= sectors).
Context (part_range : part_start d + sectors < 0x10000000000000000).

Definition reliable : Prop :=
  match rdwr d with
  | CHS => part_start d + sectors <= 1024 * H * S /\
           chs_reliable int13 drive H S shift (part_start d) sectors
  | EDD => edd_reliable int13 drive shift (part_start d) sectors
  end.
Context (disk_reliable : reliable).

Abbreviation buf := 0x100000.

Definition read (start count : Z) (old : list Z) : list Z :=
  match disk_rdwr int13 core_xfer_buf (Z.to_nat (1000 + count)) b (mwrite m buf old) d buf start count false with
  | Ok (_, m', _, _) => mread m' buf (count * 2 ^ shift)
  | _ => []
  end.

Definition partition_sector (p : Z) : list Z := absolute (part_start d + p).

Lemma partition_sector_length p : Z.of_nat (length (partition_sector p)) = 2 ^ shift.
Proof. apply absolute_length. Qed.

Lemma read_ok start count old :
  0 <= count -> count * 2 ^ shift <= 0x80000000 ->
  (forall j, 0 <= j < count -> 0 <= start + j < sectors) ->
  Z.of_nat (length old) = count * 2 ^ shift ->
  read start count old = concat (partition_sector <$> seqZ start count).
Proof.
  intros Hc Hsize Hvalid _. unfold read, disk_rdwr.
  assert (buffer_ok shift buf count) as Hbuf by (unfold buffer_ok; lia).
  pose proof (u64_range (start + part_start d)) as Hr.
  assert (buf + count * 2 ^ shift <= core_xfer_buf \/ core_xfer_buf + 0x10000 <= buf) as Ha by lia.
  pose proof (dk_part _ _ _ _ _ d_ok) as Hpart.
  destruct (decide (count = 0)) as [->|Hne].
  { destruct (Z.to_nat (1000 + 0)) as [|fuel] eqn:E; [lia|]. destruct (rdwr d); [unfold chs_rdwr_sectors; case_decide; [done|]|unfold edd_rdwr_sectors];
      by rewrite (loop_break _ _ _ (b, mwrite m buf old, d, 0)) by done. }
  assert (0 <= start /\ start + count <= sectors) as [Hs1 Hs2].
  { pose proof (Hvalid 0 ltac:(lia)). pose proof (Hvalid (count - 1) ltac:(lia)). lia. }
  assert (u64 (start + part_start d) = part_start d + start) as El by (rewrite u64_small; lia).
  assert (concat (partition_sector <$> seqZ start count) =
    concat (absolute <$> seqZ (u64 (start + part_start d)) count)) as ->.
  { f_equal. apply ReadFile.fmap_seqZ_shift. intros j Hj. unfold partition_sector. f_equal. lia. }
  unfold reliable in disk_reliable. destruct (rdwr d).
  - destruct disk_reliable as [Hcap Hrel].
    destruct (chs_rep int13 drive H S shift core_xfer_buf shift_range geometry_range xfer_range
      (mwrite m buf old) buf (u64 (start + part_start d)) count Ha d d_ok Hbuf ltac:(lia)
      (Z.to_nat (1000 + count)) b start eq_refl
      ltac:(lia)) as ([[[b' m'] d'] n] & -> & _ & [Hm _] & _ & Hall).
    rewrite <- Hall; [done|]. split; [|lia]. intros b1 m1 r a lba Hreq Hlba. eapply Hrel; [done|lia].
  - destruct (edd_rep int13 drive H S shift core_xfer_buf shift_range geometry_range xfer_range
      (mwrite m buf old) buf (u64 (start + part_start d)) count Ha d d_ok Hbuf ltac:(lia) ltac:(lia)
      (Z.to_nat (1000 + count)) b start) as ([[[b' m'] d'] n] & -> & _ & [Hm _] & _ & Hall);
      [|done|lia|].
    + intros b1 m1 p r a lba Hreq Hlba. eapply disk_reliable; [done|lia].
    + rewrite <- Hall; [done|]. intros b1 m1 p r a lba Hreq Hlba. eapply disk_reliable; [done|lia].
Qed.

#[export] Instance driver_device : SectorDevice := {|
  sector_shift := shift; sector_shift_range := shift_range;
  disk_sector := partition_sector; disk_sector_length := partition_sector_length;
  rdwr_sectors := read; valid_sector p := 0 <= p < sectors; rdwr_sectors_ok := read_ok |}.

End Device.
End DiskDevice.
