(* ===== verification/BlockCache.v ===== *)
(** * What the file systems use of the block cache

    The file systems ask the cache for a block and look at the bytes at the
    pointer they get.  [BlockCache] is that interface; the cache of cache.c
    implements it (instance [device_cache]), on a disk whose blocks have the
    size of a block and hold bytes. *)

From Stdlib Require Import ZArith Lia.
From S2P Require Import Prelude DList Cache.

(** [cblock c b] is the new state of the cache and the contents of block [b]. *)
Class BlockCache (C : Type) := {
  cblock : C -> Z -> C * list Z;
  cinv : C -> Prop;
  cdata : Z -> list Z;
  csize : Z;
  csize_pos : 0 < csize;
  cdata_length b : Z.of_nat (length (cdata b)) = csize;
  cdata_bytes b : Forall byte_ok (cdata b);
  cblock_ok c b : cinv c -> 0 <= b < u64 (-1) ->
    snd (cblock c b) = cdata b /\ cinv (fst (cblock c b)) }.

(** ** The cache of cache.c *)

Section Device.
Context `{BD : BlockDevice} (size : Z).
Context (size_pos : 0 < size).
Context (block_length : forall b, Z.of_nat (length (disk_block b size)) = size).
Context (block_bytes : forall b, Forall byte_ok (disk_block b size)).

Definition device_inv (d : Cache.device) : Prop :=
  Cache.cache_block_size d = size /\ exists lru locked, lru <> [] /\ Cache.cache_rep d lru locked.

Definition device_block (d : Cache.device) (b : Z) : Cache.device * list Z :=
  let '(d', p) := Cache.get_cache d b in (d', Cache.dev_bufs d' p).

Lemma device_block_ok d b :
  device_inv d -> 0 <= b < u64 (-1) ->
  snd (device_block d b) = disk_block b size /\ device_inv (fst (device_block d b)).
Proof.
  intros [Hsize (lru & locked & Hne & Hr)] Hb. unfold device_block.
  pose proof (Cache.get_cache_fetched d lru locked b Hr Hne) as Hf.
  destruct (Cache.get_cache d b) as [d' p]. destruct Hf as (cs & lru' & Hf). simpl. split.
  - rewrite <- Hsize. eapply Cache.fetched_block; [exact Hf|]. unfold Cache.NOBLOCK. lia.
  - destruct (Cache.fe_entries _ _ _ _ _ _ _ _ Hf) as [_ Hbs]. split; [congruence|].
    exists lru', locked. split; [|apply Hf]. intros ->.
    pose proof (Cache.lru_step_length _ _ _ (Cache.fe_step _ _ _ _ _ _ _ _ Hf)) as E.
    by destruct lru.
Qed.

#[export] Instance device_cache : BlockCache Cache.device := {|
  cblock := device_block; cinv := device_inv; cdata b := disk_block b size; csize := size;
  csize_pos := size_pos; cdata_length := block_length; cdata_bytes := block_bytes;
  cblock_ok := device_block_ok |}.
End Device.

(** ** Fields of a block *)

Lemma getle_ok n l i :
  0 <= i -> i + Z.of_nat n <= Z.of_nat (length l) -> getle n l i = Ok (le_num (sub l i n)).
Proof. intros. unfold getle. by rewrite decide_True. Qed.

Lemma get8_ok l i : 0 <= i < Z.of_nat (length l) -> exists v, get8 l i = Ok v /\ l !! Z.to_nat i = Some v.
Proof.
  intros Hi. unfold get8. rewrite decide_True by lia.
  destruct (lookup_lt_is_Some_2 l (Z.to_nat i) ltac:(lia)) as [v Hv]. rewrite Hv. by exists v.
Qed.

Lemma sub_length l i n : 0 <= i -> i + Z.of_nat n <= Z.of_nat (length l) -> length (sub l i n) = n.
Proof. intros. unfold sub. rewrite length_take, length_drop. lia. Qed.

Lemma sub_bytes l i n : Forall byte_ok l -> Forall byte_ok (sub l i n).
Proof. intros. unfold sub. by apply Forall_take, Forall_drop. Qed.

Lemma getle_range n l i v :
  Forall byte_ok l -> getle n l i = Ok v -> 0 <= v < 2 ^ (8 * Z.of_nat n).
Proof.
  intros Hl. unfold getle. case_decide as Hd; [|done]. intros [= <-].
  pose proof (le_num_range (sub l i n) (sub_bytes _ _ _ Hl)) as H.
  by rewrite sub_length in H by lia.
Qed.

(** A field of a part of the bytes is a field of the whole. *)
Lemma sub_app_l l1 l2 i n :
  0 <= i -> i + Z.of_nat n <= Z.of_nat (length l1) -> sub (l1 ++ l2) i n = sub l1 i n.
Proof.
  intros. unfold sub. rewrite drop_app_le by lia. rewrite take_app_le; [done|].
  rewrite length_drop. lia.
Qed.

Lemma sub_app_r l1 l2 i n :
  0 <= i -> sub (l1 ++ l2) (Z.of_nat (length l1) + i) n = sub l2 i n.
Proof.
  intros. unfold sub. rewrite drop_app_ge by lia. do 2 f_equal. lia.
Qed.

Lemma sub_split l i n m : 0 <= i ->
  sub l i (n + m) = sub l i n ++ sub l (i + Z.of_nat n) m.
Proof.
  intros. unfold sub. rewrite Z2Nat.inj_add, Nat2Z.id by lia. rewrite <- drop_drop.
  by rewrite take_take_drop.
Qed.

(** Consecutive blocks of [k] bytes. *)
Section Blocks.
Context (f : Z -> list Z) (k : Z) (f_length : forall p, Z.of_nat (length (f p)) = k) (k_pos : 0 < k).

Definition region (a n : Z) : list Z := concat (f <$> seqZ a n).

Lemma region_app a n m : 0 <= n -> 0 <= m -> region a (n + m) = region a n ++ region (a + n) m.
Proof. intros. unfold region. by rewrite seqZ_app, fmap_app, concat_app by lia. Qed.

Lemma region_1 a : region a 1 = f a.
Proof. unfold region. change (seqZ a 1) with [a]. simpl. apply app_nil_r. Qed.

Lemma region_length a n : 0 <= n -> Z.of_nat (length (region a n)) = n * k.
Proof.
  intros Hn. unfold region, seqZ. replace n with (Z.of_nat (Z.to_nat n)) at 2 by lia.
  generalize (Z.to_nat n). clear n Hn. intros n. generalize 0%nat.
  induction n as [|n IH]; intros o; [done|]. cbn [seq fmap list_fmap concat].
  rewrite length_app, Nat2Z.inj_add, f_length, IH. lia.
Qed.

Lemma region_bytes a n : (forall p, Forall byte_ok (f p)) -> Forall byte_ok (region a n).
Proof. intros H. apply Forall_concat, Forall_fmap, Forall_true. intros. apply H. Qed.

Lemma sub_region a n q r w :
  0 <= q < n -> 0 <= r -> r + Z.of_nat w <= k ->
  sub (region a n) (q * k + r) w = sub (f (a + q)) r w.
Proof.
  intros Hq Hr Hw. replace n with (q + (1 + (n - q - 1))) by lia.
  rewrite !region_app, region_1 by lia.
  pose proof (region_length a q ltac:(lia)) as Hl. pose proof (f_length (a + q)) as Hf.
  rewrite <- Hl, sub_app_r, sub_app_l by lia. done.
Qed.
End Blocks.

(** A field as a part of the number that all the bytes make. *)
Lemma le_num_sub l i n :
  Forall byte_ok l -> 0 <= i -> i + Z.of_nat n <= Z.of_nat (length l) ->
  le_num (sub l i n) = (le_num l / 2 ^ (8 * i)) mod 2 ^ (8 * Z.of_nat n).
Proof.
  intros Hl Hi Hn.
  assert (l = take (Z.to_nat i) l ++ sub l i n ++ drop n (drop (Z.to_nat i) l)) as E.
  { unfold sub. by rewrite take_drop, take_drop. }
  assert (Forall byte_ok (take (Z.to_nat i) l)) as H1 by (by apply Forall_take).
  pose proof (le_num_range _ H1) as R1. pose proof (le_num_range _ (sub_bytes l i n Hl)) as R2.
  rewrite sub_length in R2 by lia. rewrite length_take in R1.
  replace (8 * Z.of_nat (Z.to_nat i `min` length l)) with (8 * i) in R1 by lia.
  rewrite E at 2. rewrite !le_num_app, sub_length, length_take by lia.
  replace (8 * Z.of_nat (Z.to_nat i `min` length l)) with (8 * i) by lia.
  set (rest := le_num (drop n _)). rewrite Z.mul_comm, Z.div_add by lia.
  rewrite Z.div_small by lia. rewrite Z.add_0_l, (Z.mul_comm (2 ^ _) rest), Z.mod_add by lia.
  by rewrite Z.mod_small.
Qed.

Lemma le_num_1 b : le_num [b] = b.
Proof. simpl. lia. Qed.

Lemma sub_1 l i b : 0 <= i -> l !! Z.to_nat i = Some b -> sub l i 1 = [b].
Proof.
  intros Hi Hb. unfold sub. by rewrite (drop_S _ _ _ Hb).
Qed.

Lemma get8_getle l i : 0 <= i < Z.of_nat (length l) -> get8 l i = getle 1 l i.
Proof.
  intros Hi. destruct (get8_ok l i Hi) as (v & Hv & Hl).
  by rewrite Hv, getle_ok, (sub_1 l i v), le_num_1 by (done || lia).
Qed.
