(* ===== verification/Runs.v ===== *)
(** * Files that are lists of runs

    A run is a number of sectors that follow each other on the disk.  What the
    file systems that keep such lists need of [ExtentFS]: the map of a list, its
    extents, and that a read gives the bytes of its runs. *)

From Stdlib Require Import ZArith Lia.
From S2P Require Import Prelude BlockCache GetFsSec.
Import GetFsSec.

Module Runs.

(** The first sector and the number of sectors. *)
Record sector_run := SRun { sr_first : Z; sr_count : Z }.

(** The sectors of a list. *)
Fixpoint total (l : list sector_run) : Z := match l with [] => 0 | r :: l => sr_count r + total l end.

(** Where sector [x] of a list is. *)
Fixpoint runs_map (l : list sector_run) (x : Z) : option Z :=
  match l with
  | [] => None
  | r :: l => if decide (0 <= x < sr_count r) then Some (sr_first r + x) else runs_map l (x - sr_count r)
  end.

Section Runs.
Context `{SD : SectorDevice}.

Definition run_wf (r : sector_run) : Prop :=
  0 < sr_count r /\ 0 <= sr_first r /\ sr_first r + sr_count r < 2 ^ 63 /\
  forall p, sr_first r <= p < sr_first r + sr_count r -> valid_sector p.

Lemma total_app l1 l2 : total (l1 ++ l2) = total l1 + total l2.
Proof. induction l1 as [|r l1 IH]; cbn [app total]; lia. Qed.

Lemma total_nonneg l : Forall run_wf l -> 0 <= total l.
Proof. induction 1 as [|r l [Hr _] _ IH]; cbn [total]; lia. Qed.

Lemma runs_map_app l1 l2 x : Forall run_wf l1 -> 0 <= x -> runs_map (l1 ++ l2) (total l1 + x) = runs_map l2 x.
Proof.
  intros H. revert x. induction H as [|r l1 [Hr _] Hl IH]; intros x Hx; [done|]. cbn [app runs_map total].
  pose proof (total_nonneg l1 Hl). rewrite decide_False by lia.
  replace (sr_count r + total l1 + x - sr_count r) with (total l1 + x) by lia. by apply IH.
Qed.

Lemma runs_map_valid l x p : Forall run_wf l -> runs_map l x = Some p -> valid_sector p.
Proof.
  intros H. revert x. induction H as [|r l (_ & _ & _ & Hv) _ IH]; intros x; [done|]. cbn [runs_map].
  case_decide as Hd; [|apply IH]. intros [= <-]. apply Hv. lia.
Qed.

Lemma runs_map_total l x : 0 <= x < total l -> runs_map l x <> None.
Proof.
  revert x. induction l as [|r l IH]; intros x Hx; cbn [total runs_map] in *; [lia|].
  case_decide as Hd; [done|]. apply IH. lia.
Qed.

(** A run is an extent. *)
Lemma runs_extent before r rest : Forall run_wf (before ++ r :: rest) -> total (before ++ r :: rest) < 0x100000000 ->
  extent_maps (runs_map (before ++ r :: rest)) (Extent (sr_first r) (total before) (sr_count r)).
Proof.
  intros [Hb [Hr Hrest]%Forall_cons]%Forall_app. rewrite total_app. cbn [total]. intros Ht.
  pose proof (total_nonneg before Hb). pose proof (total_nonneg rest Hrest). destruct Hr as (Hc & Hf & Hm & _).
  destruct ReadFile.special_values as [Ez Ev]. change (2 ^ 63) with 0x8000000000000000 in *.
  unfold extent_maps. cbn [len pstart lstart]. splits; try lia. intros j Hj.
  rewrite runs_map_app by (done || lia). cbn [runs_map]. rewrite decide_True by lia.
  by rewrite ReadFile.next_psector_normal by lia.
Qed.

(** The bytes of a list. *)
Definition run_data (r : sector_run) : list Z := region disk_sector (sr_first r) (sr_count r).
Definition contents (l : list sector_run) : list Z := concat (run_data <$> l).

(** ** Reading *)

Section Read.
Context {S : Type} `{FS : !ExtentFS S}.
Context (rs : list sector_run) (map_eq : sector_map = runs_map rs).
Context (runs_wf : Forall run_wf rs) (covered : inode_size <= total rs * 2 ^ sector_shift).

Lemma runs_data before rest : rs = before ++ rest -> contents rest = ReadFile.sectors_data (total before) (total rest).
Proof.
  revert before. induction rest as [|r rest IH]; intros before E; [done|].
  pose proof runs_wf as Hwf. rewrite E in Hwf. apply Forall_app in Hwf as [Hb [Hr Hrest]%Forall_cons].
  unfold contents in *. cbn [fmap list_fmap concat total]. pose proof Hr as (Hc & Hf & Hm & _). pose proof (total_nonneg rest Hrest).
  rewrite ReadFile.sectors_data_app by lia. rewrite (IH (before ++ [r])) by by rewrite <- app_assoc.
  rewrite total_app. cbn [total]. rewrite Z.add_0_r. f_equal.
  unfold run_data, region, ReadFile.sectors_data. f_equal. apply ReadFile.fmap_seqZ_shift. intros j Hj.
  unfold ReadFile.file_sector. rewrite map_eq, E, runs_map_app by (done || lia). cbn [runs_map].
  rewrite decide_True by lia. rewrite decide_False; [done|].
  destruct ReadFile.special_values as [-> _]. change (2 ^ 63) with 0x8000000000000000 in *. lia.
Qed.

Lemma file_sectors_total : ReadFile.file_sectors <= total rs.
Proof.
  unfold ReadFile.file_sectors. pose proof sector_shift_range. pose proof (Z.pow_pos_nonneg 2 sector_shift).
  apply Z.lt_succ_r. apply Z.div_lt_upper_bound; nia.
Qed.

Lemma contents_eq : take (Z.to_nat inode_size) (contents rs) = ReadFile.file_bytes.
Proof. rewrite (runs_data [] rs eq_refl). apply ReadFile.file_bytes_take, file_sectors_total. Qed.

(** A read gives the bytes of the runs. *)
Lemma runs_read fuel f offset sectors buf : ReadFile.call_ok f offset sectors buf -> (Z.to_nat (sectors + 1) < fuel)%nat ->
  let n := Z.min (sectors * 2 ^ sector_shift) (inode_size - offset) in
  exists f' buf' more, ReadFile.generic_getfssec fuel f offset buf sectors = Ok (f', buf', offset + n, more, n) /\
    ReadFile.inode_ok f' /\ length buf' = length buf /\
    take (Z.to_nat n) buf' = take (Z.to_nat n) (drop (Z.to_nat offset) (take (Z.to_nat inode_size) (contents rs))).
Proof.
  intros Hc Hf n. destruct (ReadFile.request_bounds _ _ _ _ Hc) as (Hr & Hfs & _ & _ & Hal).
  pose proof file_sectors_total as Htot. pose proof sector_shift_range.
  assert (0 < 2 ^ sector_shift) by (apply Z.pow_pos_nonneg; lia).
  destruct (ReadFile.getfssec_full f offset sectors buf fuel Hc Hf) as (f' & buf' & [Hi _ _ Hlen Hd _] & He).
  - intros j Hj. rewrite map_eq. apply runs_map_total. pose proof (ReadFile.co_offset _ _ _ _ Hc).
    assert (0 <= offset / 2 ^ sector_shift) by (apply Z.div_pos; lia). lia.
  - exists f', buf'. eexists. split; [exact He|]. rewrite contents_eq. done.
Qed.
End Read.
End Runs.
End Runs.
