(* ===== verification/Fat.v ===== *)
(** * The FAT file system (libcore/fs/fat)

    The allocation table, the extents of a file, the sectors of a directory,
    names, directory search and listing, and the initialisation from the boot
    sector.  Blocks are read through [BlockCache]; the code page tables are a
    parameter. *)

From Stdlib Require Import ZArith Lia.
From S2P Require Import Prelude BlockCache GetFsSec Dirent.
Import Dirent.Dirent.

Module Fat.

(** ** Data (fat_fs.h) *)

Inductive fat_type := FAT12 | FAT16 | FAT32.

Record fat_sb_info := SB {
  sb_fat : Z; sb_root : Z; sb_data : Z;       (* sectors *)
  clusters : Z; root_cluster : Z; root_size : Z;
  clust_shift : Z; clust_byte_shift : Z; clust_mask : Z; clust_size : Z;
  sb_type : fat_type }.

(** struct fat_pvt_inode *)
Record fat_pvt_inode := Pvt { start_cluster : Z; p_start : Z; p_offset : Z; p_here : Z }.

Definition FAT_ATTR_DIRECTORY : Z := 0x10.
Definition LCASE_BASE : Z := 8.
Definition LCASE_EXT : Z := 16.

(** A directory entry is its 32 bytes; the fields of struct fat_dir_entry and
    of struct fat_long_name_entry are read at their offsets. *)
Abbreviation dir_entry := (list Z).
Definition de_name (de : dir_entry) : list Z := sub de 0 11.
Definition de_byte (de : dir_entry) (i : Z) : Z := nth (Z.to_nat i) de 0.
Definition de_attr (de : dir_entry) : Z := de_byte de 11.
Definition de_lcase (de : dir_entry) : Z := de_byte de 12.
Definition de_cluster_high (de : dir_entry) : Z := le_num (sub de 20 2).
Definition de_cluster_low (de : dir_entry) : Z := le_num (sub de 26 2).
Definition de_size (de : dir_entry) : Z := le_num (sub de 28 4).
Definition le_id (de : dir_entry) : Z := de_byte de 0.
Definition le_checksum (de : dir_entry) : Z := de_byte de 13.

(** struct codepage: [uni] is the two tables [uni[0]] and [uni[1]] of 256
    entries, one after the other, as the code also reads them. *)
Record codepage := Codepage { cp_upper : Z -> Z; cp_lower : Z -> Z; cp_uni : Z -> Z }.

(** ** The allocation table *)

Section Code.
Context {C : Type} `{BC : !BlockCache C}.
Context (shift : Z) (sbi : fat_sb_info).

Definition get_fat_sector (c : C) (sector : Z) : C * list Z := cblock c (u64 (sb_fat sbi + sector)).

Definition get_next_cluster (c : C) (clust_num : Z) : result (C * Z) :=
  let sector_mask := 2 ^ shift - 1 in
  match sb_type sbi with
  | FAT12 =>
      let offset := u32 (clust_num + Z.shiftr clust_num 1) in
      let fat_sector := Z.shiftr offset shift in
      let offset := Z.land offset sector_mask in
      let '(c, data) := get_fat_sector c fat_sector in
      '(c, next_cluster) ←
        (if decide (offset = sector_mask) then
           lo ← get8 data offset;
           let '(c, data) := get_fat_sector c (fat_sector + 1) in
           hi ← get8 data 0;
           mret (c, lo + Z.shiftl hi 8)
         else v ← get16 data offset; mret (c, v));
      mret (c, if decide (Z.land clust_num 1 <> 0) then Z.shiftr next_cluster 4
               else Z.land next_cluster 0x0fff)
  | FAT16 =>
      let offset := u32 (Z.shiftl clust_num 1) in
      let fat_sector := Z.shiftr offset shift in
      let offset := Z.land offset sector_mask in
      let '(c, data) := get_fat_sector c fat_sector in
      next_cluster ← get16 data offset;
      mret (c, next_cluster)
  | FAT32 =>
      let offset := u32 (Z.shiftl clust_num 2) in
      let fat_sector := Z.shiftr offset shift in
      let offset := Z.land offset sector_mask in
      let '(c, data) := get_fat_sector c fat_sector in
      next_cluster ← get32 data offset;
      mret (c, Z.land next_cluster 0x0fffffff)
  end.

(** ** Extents *)

(** The state of an open file: the cache, the private part of the inode and
    the size that the inode has. *)
Record fat_inode := FatInode { fi_cache : C; fi_pvt : fat_pvt_inode; fi_size : Z }.

(** [for (;;)]: walks the chain to cluster [mcluster] of the file.  The result
    is the physical cluster, or [None] when the chain leaves the volume. *)
Definition walk_step (mcluster : Z) (st : C * Z * Z) : result (ctl (C * Z * Z) (C * Z * option Z)) :=
  let '(c, lcluster, pcluster) := st in
  if decide (u32 (pcluster - 2) >= clusters sbi) then Ok (Break (c, lcluster, None))
  else if decide (lcluster >= mcluster) then Ok (Break (c, lcluster, Some pcluster))
  else '(c, p) ← get_next_cluster c pcluster; Ok (Continue (c, u32 (lcluster + 1), p)).

(** [while (++lcluster < tcluster)]: extends the extent over the clusters that
    follow each other on the disk. *)
Definition run_step (tcluster cluster_secs : Z) (st : C * Z * Z * Z * Z) :
    result (ctl (C * Z * Z * Z * Z) (C * Z * Z * Z)) :=
  let '(c, lcluster, pcluster, xcluster, elen) := st in
  let lcluster := u32 (lcluster + 1) in
  if decide (lcluster < tcluster) then
    '(c, xcluster) ← get_next_cluster c pcluster;
    let pcluster := u32 (pcluster + 1) in
    if decide (xcluster <> pcluster) then Ok (Break (c, lcluster, xcluster, elen))
    else Ok (Continue (c, lcluster, pcluster, xcluster, u32 (elen + cluster_secs)))
  else Ok (Break (c, lcluster, xcluster, elen)).

Definition fat_next_extent (fuel : nat) (i : fat_inode) (e : extent) (lstart : Z) :
    result (fat_inode * extent * bool) :=
  let mcluster := Z.shiftr lstart (clust_shift sbi) in
  let cluster_bytes := u32 (Z.shiftl 1 (clust_byte_shift sbi)) in
  let cluster_secs := u32 (Z.shiftl 1 (clust_shift sbi)) in
  let data_area := sb_data sbi in
  let pv := fi_pvt i in
  let tcluster := Z.shiftr (u32 (fi_size i + cluster_bytes - 1)) (clust_byte_shift sbi) in
  if decide (mcluster >= tcluster) then Ok (i, e, true) else
  let lcluster := u32 (Z.shiftr (p_offset pv) (clust_shift sbi)) in
  let pcluster := u32 (Z.shiftr (u64 (p_here pv - data_area)) (clust_shift sbi) + 2) in
  let '(lcluster, pcluster) :=
    if decide (lcluster > mcluster \/ p_here pv < data_area) then (0, start_cluster pv)
    else (lcluster, pcluster) in
  '(c, lcluster, p) ← loop fuel (walk_step mcluster) (fi_cache i, lcluster, pcluster);
  match p with
  | None => Ok (FatInode c pv (u32 (Z.shiftl lcluster (clust_shift sbi))), e, true)
  | Some pcluster =>
      let pstart := u64 (Z.shiftl (u32 (pcluster - 2)) (clust_shift sbi) + data_area) in
      '(c, lcluster, xcluster, elen) ←
        loop fuel (run_step tcluster cluster_secs) (c, lcluster, pcluster, 0, cluster_secs);
      let pv := Pvt (start_cluster pv) (p_start pv) (u32 (Z.shiftl lcluster (clust_shift sbi)))
                  (u64 (u32 (Z.shiftl (u32 (xcluster - 2)) (clust_shift sbi)) + data_area)) in
      Ok (FatInode c pv (fi_size i), Extent pstart (GetFsSec.lstart e) elen, false)
  end.

(** ** The sectors of a directory *)

Definition get_next_sector (c : C) (sector : Z) : result (C * Z) :=
  let sector := u32 sector in
  let data_area := sb_data sbi in
  if decide (sector < data_area) then
    let sector := u32 (sector + 1) in
    Ok (c, if decide (sector >= data_area) then 0 else sector)
  else
    let data_sector := sector - data_area in
    if decide (Z.land (data_sector + 1) (clust_mask sbi) <> 0) then Ok (c, u32 (sector + 1))
    else
      let cluster := u32 (Z.shiftr data_sector (clust_shift sbi)) in
      '(c, next) ← get_next_cluster c (u32 (cluster + 2));
      let cluster := u32 (next - 2) in
      if decide (cluster >= clusters sbi) then Ok (c, 0)
      else Ok (c, u32 (u32 (Z.shiftl cluster (clust_shift sbi)) + data_area)).

(** [while (where < sector_pos)] *)
Definition seek_step (sector_pos : Z) (st : C * Z * Z) : result (ctl (C * Z * Z) (C * Z)) :=
  let '(c, where_, sector) := st in
  if decide (where_ < sector_pos) then
    '(c, sector) ← get_next_sector c sector; Ok (Continue (c, u32 (where_ + 1), sector))
  else Ok (Break (c, sector)).

Definition get_the_right_sector (fuel : nat) (c : C) (pv : fat_pvt_inode) (offset : Z) :
    result (C * fat_pvt_inode * Z) :=
  let sector_pos := Z.shiftr offset shift in
  let '(where_, sector) :=
    if decide (sector_pos < p_offset pv) then (0, p_start pv) else (u32 (p_offset pv), p_here pv) in
  '(c, sector) ← loop fuel (seek_step sector_pos) (c, where_, sector);
  Ok (c, Pvt (start_cluster pv) (p_start pv) sector_pos sector, sector).

Definition next_sector (c : C) (pv : fat_pvt_inode) : result (C * fat_pvt_inode * Z) :=
  '(c, sector) ← get_next_sector c (p_here pv);
  Ok (c, Pvt (start_cluster pv) (p_start pv) (u64 (p_offset pv + 1)) sector, sector).

Definition first_sector (dir : dir_entry) : Z :=
  let first_clust := u64 (s32 (Z.shiftl (de_cluster_high dir) 16 + de_cluster_low dir)) in
  if decide (first_clust = 0) then sb_root sbi
  else u64 (Z.shiftl (first_clust - 2) (clust_shift sbi) + sb_data sbi).

Definition get_inode_mode (attr : Z) : dirent_type :=
  if decide (Z.land attr FAT_ATTR_DIRECTORY <> 0) then DT_DIR else DT_REG.

End Code.
End Fat.
