(* ===== verification/FatSpec.v ===== *)
(** * FAT: the allocation table and the contents of files

    The allocation table is a sequence of numbers of 12, 16 or 32 bits that are
    packed in the sectors of the FAT; [get_next_cluster] reads them.  A file is a
    chain of clusters, and [fat_next_extent] maps its sectors, so that reading
    the file gives the contents of the clusters of its chain. *)

From Stdlib Require Import ZArith Lia.
From S2P Require Import Prelude BlockCache GetFsSec Fat.
Import GetFsSec.GetFsSec Fat.Fat.

Module FatSpec.

Section Table.
Context {C : Type} `{BC : !BlockCache C}.
Context (shift : Z) (sbi : fat_sb_info) (fat_secs : Z).

Definition entry_bits : Z := match sb_type sbi with FAT12 => 12 | FAT16 => 16 | FAT32 => 32 end.

(** The bytes of the table, and its entries. *)
Definition fat_bytes : list Z := region cdata (sb_fat sbi) fat_secs.

Definition fat_entry (n : Z) : Z :=
  let e := (le_num fat_bytes / 2 ^ (entry_bits * n)) mod 2 ^ entry_bits in
  match sb_type sbi with FAT32 => e mod 2 ^ 28 | _ => e end.

(** The layout of the volume. *)
Record layout_ok : Prop := {
  lo_shift : 2 <= shift <= 16;
  lo_csize : csize = 2 ^ shift;
  lo_fat : 0 <= sb_fat sbi /\ 0 <= fat_secs /\ sb_fat sbi + fat_secs < u64 (-1);
  lo_clusters : 0 <= clusters sbi <= 0x0ffffff4;
  lo_cover : entry_bits * (clusters sbi + 2) <= 8 * (2 ^ shift * fat_secs);
  lo_clust : 0 <= clust_shift sbi <= 7;
  lo_bytes : clust_byte_shift sbi = clust_shift sbi + shift;
  lo_mask : clust_mask sbi = 2 ^ clust_shift sbi - 1;
  lo_data : 0 <= sb_data sbi;
  lo_end : sb_data sbi + clusters sbi * 2 ^ clust_shift sbi < 0x100000000 }.

Context (Hlay : layout_ok).

Lemma sector_pos : 4 <= 2 ^ shift <= 0x10000.
Proof.
  destruct Hlay as [[H1 H2] _ _ _ _ _ _ _ _ _]. change 4 with (2 ^ 2). change 0x10000 with (2 ^ 16).
  split; apply Z.pow_le_mono_r; lia.
Qed.

Lemma fat_bytes_length : Z.of_nat (length fat_bytes) = 2 ^ shift * fat_secs.
Proof.
  pose proof (lo_fat Hlay). unfold fat_bytes. rewrite (region_length cdata csize cdata_length) by lia.
  rewrite (lo_csize Hlay). lia.
Qed.

Lemma fat_bytes_ok : Forall byte_ok fat_bytes.
Proof. apply region_bytes, cdata_bytes. Qed.

(** The sector and the offset in it of byte [o] of the table. *)
Lemma fat_position o : 0 <= o < 2 ^ shift * fat_secs ->
  0 <= Z.shiftr o shift < fat_secs /\ 0 <= Z.land o (2 ^ shift - 1) < 2 ^ shift /\
  o = Z.shiftr o shift * 2 ^ shift + Z.land o (2 ^ shift - 1).
Proof.
  intros Ho. pose proof sector_pos. pose proof (lo_shift Hlay).
  rewrite shiftr_div, land_ones_mod by lia.
  pose proof (Z.mod_pos_bound o (2 ^ shift)). pose proof (Z.div_mod o (2 ^ shift)).
  pose proof (Z.div_pos o (2 ^ shift)). splits; try lia. apply Z.div_lt_upper_bound; lia.
Qed.

Lemma get_fat_sector_ok c s : cinv c -> 0 <= s < fat_secs ->
  exists c', get_fat_sector sbi c s = (c', cdata (sb_fat sbi + s)) /\ cinv c'.
Proof.
  intros Hc Hs. pose proof (lo_fat Hlay) as Hf. change (u64 (-1)) with 0xffffffffffffffff in Hf.
  unfold get_fat_sector. rewrite u64_small by lia.
  destruct (cblock_ok c (sb_fat sbi + s) Hc) as [H1 H2];
    [change (u64 (-1)) with 0xffffffffffffffff; lia|].
  destruct (cblock c _) as [c' l]. simpl in *. subst l. eauto.
Qed.

(** A field that does not cross a sector boundary. *)
Lemma fat_field o n :
  0 <= o -> o + Z.of_nat n <= 2 ^ shift * fat_secs ->
  Z.land o (2 ^ shift - 1) + Z.of_nat n <= 2 ^ shift ->
  (0 < n)%nat ->
  getle n (cdata (sb_fat sbi + Z.shiftr o shift)) (Z.land o (2 ^ shift - 1)) =
    Ok ((le_num fat_bytes / 2 ^ (8 * o)) mod 2 ^ (8 * Z.of_nat n)).
Proof.
  intros Ho Hn Hb H0. destruct (fat_position o ltac:(lia)) as (Hs & Hr & Eo).
  pose proof sector_pos. pose proof (cdata_length (sb_fat sbi + Z.shiftr o shift)) as Hl.
  rewrite (lo_csize Hlay) in Hl. rewrite getle_ok by lia. f_equal.
  rewrite <- le_num_sub; [|apply fat_bytes_ok|lia|rewrite fat_bytes_length; lia].
  rewrite Eo at 3. unfold fat_bytes.
  rewrite (sub_region cdata (2 ^ shift)); [done| |lia|lia|lia].
  intros p. rewrite cdata_length. apply (lo_csize Hlay).
Qed.

(** A 16-bit field is made of two bytes, even on two sectors. *)
Lemma word_of_bytes L o : 0 <= o ->
  (L / 2 ^ (8 * o)) mod 2 ^ 16 =
  (L / 2 ^ (8 * o)) mod 2 ^ 8 + Z.shiftl ((L / 2 ^ (8 * (o + 1))) mod 2 ^ 8) 8.
Proof.
  intros Ho. rewrite shiftl_mul by lia.
  replace (8 * (o + 1)) with (8 * o + 8) by lia. rewrite Z.pow_add_r by lia.
  rewrite <- Z.div_div by (try apply Z.pow_nonzero; lia). set (x := L / 2 ^ (8 * o)).
  change (2 ^ 16) with (2 ^ 8 * 2 ^ 8). change (2 ^ 8) with 256. dlia.
Qed.

Lemma entry12_even L n : 0 <= n -> n mod 2 = 0 ->
  Z.land ((L / 2 ^ (8 * (n + n / 2))) mod 2 ^ 16) 0x0fff = (L / 2 ^ (12 * n)) mod 2 ^ 12.
Proof.
  intros Hn He. change 0x0fff with (2 ^ 12 - 1). rewrite land_ones_mod by lia.
  replace (8 * (n + n / 2)) with (12 * n) by dlia.
  change (2 ^ 16) with (2 ^ 12 * 2 ^ 4). rewrite Z.rem_mul_r by lia.
  rewrite (Z.mul_comm (2 ^ 12) _), Z.mod_add by lia. by rewrite Z.mod_mod.
Qed.

Lemma entry12_odd L n : 0 <= n -> n mod 2 = 1 ->
  Z.shiftr ((L / 2 ^ (8 * (n + n / 2))) mod 2 ^ 16) 4 = (L / 2 ^ (12 * n)) mod 2 ^ 12.
Proof.
  intros Hn Ho. rewrite shiftr_div by lia.
  replace (12 * n) with (8 * (n + n / 2) + 4) by dlia.
  rewrite Z.pow_add_r by dlia. rewrite <- Z.div_div by (try apply Z.pow_nonzero; dlia).
  set (x := L / _). change (2 ^ 16) with (2 ^ 4 * 2 ^ 12). rewrite Z.rem_mul_r by lia.
  rewrite (Z.mul_comm (2 ^ 4) _), Z.div_add by lia. rewrite (Z.div_small (x mod _)) by (apply Z.mod_pos_bound; lia). done.
Qed.

Lemma land_1_mod n : Z.land n 1 = n mod 2.
Proof. change 1 with (2 ^ 1 - 1) at 1. by rewrite land_ones_mod by lia. Qed.

Lemma shiftl_aligned n k : 0 <= k <= shift -> 0 <= n ->
  Z.land (Z.shiftl n k) (2 ^ shift - 1) + 2 ^ k <= 2 ^ shift.
Proof.
  intros Hk Hn. rewrite land_ones_mod, shiftl_mul by lia.
  replace (2 ^ shift) with (2 ^ (shift - k) * 2 ^ k) by (rewrite <- Z.pow_add_r by lia; f_equal; lia).
  rewrite Z.mul_mod_distr_r by (try apply Z.pow_nonzero; lia).
  pose proof (Z.mod_pos_bound n (2 ^ (shift - k)) ltac:(apply Z.pow_pos_nonneg; lia)).
  pose proof (Z.pow_pos_nonneg 2 k). nia.
Qed.

Lemma get_next_cluster_ok c n : cinv c -> 0 <= n < clusters sbi + 2 ->
  exists c', get_next_cluster shift sbi c n = Ok (c', fat_entry n) /\ cinv c'.
Proof.
  intros Hc Hn. pose proof sector_pos as Hss. pose proof (lo_shift Hlay) as Hsh.
  pose proof (lo_clusters Hlay) as Hcl. pose proof (lo_cover Hlay) as Hcov.
  unfold get_next_cluster, fat_entry, entry_bits in *. destruct (sb_type sbi).
  - rewrite (shiftr_div n 1) by lia. change (2 ^ 1) with 2. rewrite (u32_small (n + n / 2)) by (clear - Hn Hcl; dlia).
    set (o := n + n / 2). assert (0 <= o /\ o + 2 <= 2 ^ shift * fat_secs) as [Ho Ho2] by (clear - Hcov Hn; unfold o; dlia).
    destruct (fat_position o ltac:(lia)) as (Hs & Hr & Eo).
    destruct (get_fat_sector_ok c (Z.shiftr o shift) Hc Hs) as (c1 & -> & Hc1).
    assert (exists c', (if decide (Z.land o (2 ^ shift - 1) = 2 ^ shift - 1) then
         lo ← get8 (cdata (sb_fat sbi + Z.shiftr o shift)) (Z.land o (2 ^ shift - 1));
         let '(c, data) := get_fat_sector sbi c1 (Z.shiftr o shift + 1) in
         hi ← get8 data 0; mret (c, lo + Z.shiftl hi 8)
       else v ← get16 (cdata (sb_fat sbi + Z.shiftr o shift)) (Z.land o (2 ^ shift - 1)); mret (c1, v)) =
       Ok (c', (le_num fat_bytes / 2 ^ (8 * o)) mod 2 ^ 16) /\ cinv c') as (c2 & -> & Hc2).
    { case_decide as Hd.
      - destruct (fat_position (o + 1) ltac:(lia)) as (Hs1 & Hr1 & Eo1).
        assert (Z.land (o + 1) (2 ^ shift - 1) = 0 /\ Z.shiftr (o + 1) shift = Z.shiftr o shift + 1) as [El Es].
        { assert (o + 1 = (Z.shiftr o shift + 1) * 2 ^ shift) as E by lia.
          rewrite E. set (q := Z.shiftr o shift). rewrite shiftr_div, land_ones_mod, Z.mod_mul, Z.div_mul by lia. done. }
        rewrite get8_getle by (rewrite cdata_length, (lo_csize Hlay); lia).
        rewrite (fat_field o 1) by lia. cbn [mbind result_bind].
        destruct (get_fat_sector_ok c1 (Z.shiftr o shift + 1) Hc1 ltac:(lia)) as (c2 & -> & Hc2).
        rewrite get8_getle by (rewrite cdata_length, (lo_csize Hlay); lia).
        pose proof (fat_field (o + 1) 1 ltac:(lia) ltac:(lia) ltac:(lia) ltac:(lia)) as Hf.
        rewrite El, Es in Hf. rewrite Hf. cbn [mbind result_bind].
        exists c2. split; [|done]. rewrite word_of_bytes by lia. done.
      - rewrite fat_field by lia. cbn [mbind result_bind]. eauto. }
    cbn [mbind result_bind]. exists c2. split; [|done]. rewrite land_1_mod. unfold o.
    case_decide; [rewrite entry12_odd by dlia|rewrite entry12_even by dlia]; done.
  - rewrite u32_small by (rewrite shiftl_mul by lia; change (2 ^ 1) with 2; lia).
    set (o := Z.shiftl n 1). assert (o = n * 2) as Eo by (unfold o; rewrite shiftl_mul by lia; done).
    destruct (fat_position o ltac:(lia)) as (Hs & Hr & _).
    destruct (get_fat_sector_ok c (Z.shiftr o shift) Hc Hs) as (c1 & -> & Hc1).
    rewrite fat_field by (try lia; apply (shiftl_aligned n 1); lia). cbn [mbind result_bind].
    exists c1. split; [|done]. by replace (8 * o) with (16 * n) by lia.
  - rewrite u32_small by (rewrite shiftl_mul by lia; change (2 ^ 2) with 4; lia).
    set (o := Z.shiftl n 2). assert (o = n * 4) as Eo by (unfold o; rewrite shiftl_mul by lia; done).
    destruct (fat_position o ltac:(lia)) as (Hs & Hr & _).
    destruct (get_fat_sector_ok c (Z.shiftr o shift) Hc Hs) as (c1 & -> & Hc1).
    rewrite fat_field by (try lia; apply (shiftl_aligned n 2); lia). cbn [mbind result_bind].
    exists c1. split; [|done]. change 0x0fffffff with (2 ^ 28 - 1). rewrite land_ones_mod by lia.
    by replace (8 * o) with (32 * n) by lia.
Qed.

(** C19. The next cluster that is read from the table, through the cache and
    whatever the width of the entries, is the entry of the table as a packed
    sequence of 12, 16 or 32-bit numbers, also where a 12-bit entry is split
    between two sectors. *)
Theorem get_next_cluster_entry c n :
  cinv c -> 0 <= n < clusters sbi + 2 ->
  exists c', get_next_cluster shift sbi c n = Ok (c', fat_entry n) /\ cinv c'.
Proof. apply get_next_cluster_ok. Qed.

(** ** Files *)

Section File.
(** The first cluster and the size of a file whose chain stays inside the
    volume. *)
Context (start size : Z).

Abbreviation secs := (2 ^ clust_shift sbi).
Definition cluster_bytes : Z := 2 ^ clust_byte_shift sbi.
Definition file_clusters : Z := (size + cluster_bytes - 1) / cluster_bytes.

(** The [k]-th cluster of the chain. *)
Definition cluster_at (k : Z) : Z := Nat.iter (Z.to_nat k) fat_entry start.

Definition cluster_sector (n : Z) : Z := sb_data sbi + (n - 2) * secs.

(** Where the sectors of the file are. *)
Definition fat_map (l : Z) : option Z :=
  if decide (0 <= l /\ l / secs < file_clusters)
  then Some (cluster_sector (cluster_at (l / secs)) + l mod secs) else None.

Context (size_ok : 0 <= size <= 0x100000000 - cluster_bytes).
Context (chain_ok : forall k, 0 <= k < file_clusters -> 2 <= cluster_at k < clusters sbi + 2).

Lemma secs_range : 1 <= secs <= 128.
Proof.
  pose proof (lo_clust Hlay). pose proof (Z.pow_pos_nonneg 2 (clust_shift sbi)).
  change 128 with (2 ^ 7). split; [lia|]. apply Z.pow_le_mono_r; lia.
Qed.

Lemma cluster_bytes_eq : cluster_bytes = secs * 2 ^ shift.
Proof.
  unfold cluster_bytes. pose proof (lo_clust Hlay). pose proof (lo_shift Hlay).
  rewrite (lo_bytes Hlay), Z.pow_add_r by lia. done.
Qed.

Lemma cluster_bytes_range : 4 <= cluster_bytes <= 0x800000.
Proof. rewrite cluster_bytes_eq. pose proof secs_range. pose proof sector_pos. nia. Qed.

Lemma file_clusters_range : 0 <= file_clusters /\ file_clusters * cluster_bytes < 0x100000000 /\
  size <= file_clusters * cluster_bytes.
Proof.
  pose proof cluster_bytes_range. unfold file_clusters.
  pose proof (Z.div_mod (size + cluster_bytes - 1) cluster_bytes).
  pose proof (Z.mod_pos_bound (size + cluster_bytes - 1) cluster_bytes).
  pose proof (Z.div_pos (size + cluster_bytes - 1) cluster_bytes). splits; lia.
Qed.

Lemma cluster_at_succ k : 0 <= k -> cluster_at (k + 1) = fat_entry (cluster_at k).
Proof. intros. unfold cluster_at. by replace (Z.to_nat (k + 1)) with (S (Z.to_nat k)) by lia. Qed.

(** The walk along the chain. *)
Lemma walk_ok fuel c k m :
  cinv c -> 0 <= k <= m -> m < file_clusters -> (Z.to_nat (m - k) < fuel)%nat ->
  exists c', loop fuel (walk_step shift sbi m) (c, k, cluster_at k) = Ok (c', m, Some (cluster_at m)) /\
    cinv c'.
Proof.
  intros Hc Hk Hm Hfuel. pose proof file_clusters_range as (_ & Hfc & _). pose proof cluster_bytes_range.
  pose proof (lo_clusters Hlay).
  edestruct (fun Hstep => loop_total
    (fun st : C * Z * Z => exists c k, st = (c, k, cluster_at k) /\ cinv c /\ 0 <= k <= m)
    (fun r : C * Z * option Z => exists c, r = (c, m, Some (cluster_at m)) /\ cinv c)
    (fun st => Z.to_nat (m - st.1.2)) (walk_step shift sbi m) Hstep fuel (c, k, cluster_at k))
    as (r & Hl & c' & -> & Hc'); [| by exists c, k|done|by exists c'].
  intros st (c1 & k1 & -> & Hc1 & Hk1). unfold walk_step.
  pose proof (chain_ok k1 ltac:(lia)) as Hr. rewrite u32_small, decide_False by lia.
  case_decide; [simpl; exists c1; by replace k1 with m by lia|].
  destruct (get_next_cluster_ok c1 (cluster_at k1) Hc1 ltac:(lia)) as (c2 & -> & Hc2).
  cbn [mbind result_bind step_ok]. rewrite u32_small by nia. simpl. split; [|lia].
  exists c2, (k1 + 1). splits; try done; try lia. f_equal. symmetry. apply cluster_at_succ. lia.
Qed.

(** The run of consecutive clusters. *)
Definition consecutive (m k : Z) : Prop :=
  forall j, m <= j < k -> cluster_at j = cluster_at m + (j - m).

Lemma run_ok fuel c m :
  cinv c -> 0 <= m < file_clusters -> (Z.to_nat (file_clusters - m) < fuel)%nat ->
  exists c' k x, loop fuel (run_step shift sbi file_clusters secs) (c, m, cluster_at m, 0, secs) =
      Ok (c', k, x, (k - m) * secs) /\
    cinv c' /\ m < k <= file_clusters /\ consecutive m k /\ (k < file_clusters -> x = cluster_at k).
Proof.
  intros Hc Hm Hfuel. pose proof file_clusters_range as (_ & Hfc & _). pose proof cluster_bytes_range.
  pose proof (lo_clusters Hlay). pose proof secs_range. pose proof sector_pos.
  assert (file_clusters * secs < 0x100000000) as Hfs by (rewrite cluster_bytes_eq in Hfc; nia).
  edestruct (fun Hstep => loop_total
    (fun st : C * Z * Z * Z * Z => exists c k x, st = (c, k, cluster_at k, x, (k + 1 - m) * secs) /\ cinv c /\
       m <= k < file_clusters /\ consecutive m (k + 1))
    (fun r : C * Z * Z * Z => exists c k x, r = (c, k, x, (k - m) * secs) /\ cinv c /\
       m < k <= file_clusters /\ consecutive m k /\ (k < file_clusters -> x = cluster_at k))
    (fun st => Z.to_nat (file_clusters - st.1.1.1.2)) (run_step shift sbi file_clusters secs) Hstep fuel
    (c, m, cluster_at m, 0, secs)) as (r & Hl & c' & k & x & -> & Hr); [| |done|by exists c', k, x].
  2: { exists c, m, 0. splits; try done; try lia; [do 2 f_equal; lia|]. intros j Hj.
       replace j with m by lia. lia. }
  intros st (c1 & k1 & x1 & -> & Hc1 & Hk1 & Hcons). unfold run_step.
  pose proof (chain_ok k1 ltac:(lia)) as Hr. rewrite (u32_small (k1 + 1)) by nia.
  case_decide as Hlt; [|simpl; exists c1, (k1 + 1), x1; splits; try done; lia].
  destruct (get_next_cluster_ok c1 (cluster_at k1) Hc1 ltac:(lia)) as (c2 & -> & Hc2).
  cbn [mbind result_bind step_ok]. rewrite <- cluster_at_succ by lia. rewrite (u32_small (cluster_at k1 + 1)) by lia.
  case_decide as Hx; simpl.
  - exists c2, (k1 + 1), (cluster_at (k1 + 1)). splits; try done; lia.
  - split; [|lia]. rewrite u32_small by nia. exists c2, (k1 + 1), (cluster_at (k1 + 1)).
    assert (cluster_at (k1 + 1) = cluster_at k1 + 1) as E by (clear - Hx; lia).
    splits; try done; try lia; [rewrite E; tuple_lia|].
    intros j Hj. destruct (decide (j = k1 + 1)) as [->|]; [|apply Hcons; lia].
    rewrite (Hcons k1) in Hx by lia. lia.
Qed.

(** The state of an open file: the position that is remembered is one of the
    chain, unless it is past the end of the file or in the root directory. *)
Record fat_inv (i : fat_inode (C := C)) : Prop := {
  fv_cache : cinv (fi_cache i);
  fv_size : fi_size i = size;
  fv_start : start_cluster (fi_pvt i) = start;
  fv_offset : 0 <= p_offset (fi_pvt i) < 0x100000000;
  fv_here : 0 <= p_here (fi_pvt i) /\
    (p_here (fi_pvt i) < sb_data sbi \/ file_clusters <= p_offset (fi_pvt i) / secs \/
     p_here (fi_pvt i) = cluster_sector (cluster_at (p_offset (fi_pvt i) / secs))) }.

(** An extent of consecutive clusters. *)
Lemma consecutive_maps m k l :
  0 <= m < k -> k <= file_clusters -> consecutive m k -> l = m * secs ->
  extent_maps fat_map (Extent (cluster_sector (cluster_at m)) l ((k - m) * secs)).
Proof.
  intros Hm Hk Hc ->. pose proof file_clusters_range as (_ & Hfc & _). pose proof secs_range.
  pose proof sector_pos. pose proof (lo_data Hlay). pose proof (lo_end Hlay).
  assert (file_clusters * secs < 0x100000000) as Hfs by (rewrite cluster_bytes_eq in Hfc; nia).
  pose proof (chain_ok m ltac:(lia)) as Hm2. pose proof (chain_ok (k - 1) ltac:(lia)) as Hk2.
  rewrite (Hc (k - 1)) in Hk2 by lia.
  assert (cluster_sector (cluster_at m) + (k - m) * secs <= 0x100000000) as Hend
    by (unfold cluster_sector; nia).
  assert (0 <= cluster_sector (cluster_at m)) as Hpos by (unfold cluster_sector; nia).
  destruct ReadFile.special_values as [Ez Ev]. unfold extent_maps; cbn [pstart lstart len].
  splits; [nia|nia|nia|intros _; right; lia|]. intros i Hi.
  unfold fat_map. rewrite (Z.add_comm (m * secs)), Z.div_add, Z.mod_add by lia.
  assert (0 <= i / secs < k - m) as Hq
    by (split; [apply Z.div_pos; lia|apply Z.div_lt_upper_bound; lia]).
  rewrite decide_True by nia. f_equal.
  rewrite ReadFile.next_psector_normal by lia.
  rewrite (Hc (i / secs + m)) by lia. unfold cluster_sector.
  pose proof (Z.div_mod i secs ltac:(lia)). nia.
Qed.

Lemma next_extent_ok fuel i e l :
  fat_inv i -> 0 <= l -> l * 2 ^ shift < size -> (secs | l) ->
  (Z.to_nat file_clusters < fuel)%nat ->
  exists i' e', fat_next_extent shift sbi fuel i e l = Ok (i', e', false) /\ fat_inv i' /\
    0 < len e' /\ extent_maps fat_map (Extent (pstart e') l (len e')) /\ (secs | len e').
Proof.
  intros [Hc Hsz Hst Hoff [Hh0 Hh]] Hl Hlt [m Em] Hfuel.
  pose proof file_clusters_range as (Hf0 & Hfc & Hsf). pose proof secs_range as Hsr. pose proof sector_pos.
  pose proof cluster_bytes_range. pose proof (lo_data Hlay). pose proof (lo_end Hlay).
  pose proof (lo_clust Hlay). pose proof (lo_shift Hlay). pose proof (lo_clusters Hlay).
  assert (file_clusters * secs < 0x100000000) as Hfs by (rewrite cluster_bytes_eq in Hfc; nia).
  assert (0 <= m < file_clusters) as Hm by (rewrite cluster_bytes_eq in Hsf; nia).
  unfold fat_next_extent. rewrite Hsz, Hst.
  rewrite (shiftl_mul 1 (clust_byte_shift sbi)), (shiftl_mul 1 (clust_shift sbi)), !Z.mul_1_l
    by (rewrite ?(lo_bytes Hlay); lia).
  fold cluster_bytes. rewrite (u32_small cluster_bytes), (u32_small secs) by lia.
  rewrite (u32_small (size + cluster_bytes - 1)) by lia.
  rewrite (shiftr_div l), (shiftr_div (size + _ - 1)) by (rewrite ?(lo_bytes Hlay); lia).
  fold cluster_bytes file_clusters.
  replace (l / secs) with m by (rewrite Em, Z.div_mul; lia).
  rewrite decide_False by lia.
  set (q := p_offset (fi_pvt i) / secs) in *.
  assert (0 <= q <= p_offset (fi_pvt i)) as Hq.
  { split; [apply Z.div_pos; lia|]. apply Z.div_le_upper_bound; nia. }
  rewrite (shiftr_div (p_offset _)), (u32_small (p_offset _ / _)) by lia.
  assert (exists k, (if decide (q > m \/ p_here (fi_pvt i) < sb_data sbi) then (0, start)
    else (q, u32 (Z.shiftr (u64 (p_here (fi_pvt i) - sb_data sbi)) (clust_shift sbi) + 2))) =
    (k, cluster_at k) /\ 0 <= k <= m) as (k & Ek & Hk).
  { case_decide as Hd; [exists 0; split; [done|lia]|]. exists q. split; [|lia].
    destruct Hh as [?|[?|Hh]]; [lia|lia|]. pose proof (chain_ok q ltac:(lia)) as Hr.
    unfold cluster_sector in Hh. rewrite Hh.
    replace (sb_data sbi + (cluster_at q - 2) * secs - sb_data sbi) with ((cluster_at q - 2) * secs) by lia.
    rewrite u64_small by nia. rewrite shiftr_div, Z.div_mul, u32_small by lia. f_equal. lia. }
  fold q. rewrite Ek. destruct (walk_ok fuel (fi_cache i) k m Hc Hk ltac:(lia) ltac:(lia)) as (c1 & -> & Hc1).
  cbn [mbind result_bind].
  destruct (run_ok fuel c1 m Hc1 Hm ltac:(lia)) as (c2 & k2 & x & -> & Hc2 & Hk2 & Hcons & Hx).
  cbn [mbind result_bind]. pose proof (chain_ok m Hm) as Hr.
  rewrite (u32_small (cluster_at m - 2)), (shiftl_mul (cluster_at m - 2)) by lia.
  replace ((cluster_at m - 2) * secs + sb_data sbi) with (cluster_sector (cluster_at m))
    by (unfold cluster_sector; lia).
  assert (forall k, 0 <= k < file_clusters -> 0 <= (cluster_at k - 2) * secs < clusters sbi * secs) as Hcs
    by (intros j Hj; pose proof (chain_ok j Hj) as Hcj; clear - Hsr Hcj; nia).
  rewrite (u64_small (cluster_sector _)) by (pose proof (Hcs m Hm); unfold cluster_sector; lia).
  assert (0 <= k2 * secs <= file_clusters * secs) as Hk2s by (clear - Hk2 Hm Hsr; nia).
  rewrite (shiftl_mul k2), (u32_small (k2 * secs)) by lia.
  do 2 eexists. split; [reflexivity|]. cbn [pstart len]. splits.
  - constructor; cbn [fi_cache fi_size fi_pvt start_cluster p_offset p_here]; try done; [nia|].
    rewrite Z.div_mul by lia. split; [apply u64_range|]. right.
    destruct (decide (k2 = file_clusters)); [left; lia|right]. rewrite (Hx ltac:(lia)).
    pose proof (chain_ok k2 ltac:(lia)) as Hr2.
    pose proof (Hcs k2 ltac:(lia)).
    rewrite (u32_small (cluster_at k2 - 2)), shiftl_mul, (u32_small ((cluster_at k2 - 2) * secs)) by lia.
    unfold cluster_sector. rewrite u64_small by lia. lia.
  - clear - Hk2 Hsr. nia.
  - apply consecutive_maps; [lia|lia|done|done].
  - by exists (k2 - m).
Qed.

(** ** Reading a file *)

Section Device.
Context `{SD : SectorDevice} (shift_eq : sector_shift = shift).
Context (data_valid : forall p, sb_data sbi <= p < sb_data sbi + clusters sbi * secs -> valid_sector p).
Context (fuel : nat) (fuel_ok : (Z.to_nat file_clusters < fuel)%nat).

Lemma fat_map_spec l p : fat_map l = Some p ->
  p = cluster_sector (cluster_at (l / secs)) + l mod secs /\
  sb_data sbi <= p < sb_data sbi + clusters sbi * secs.
Proof.
  unfold fat_map. case_decide as Hd; [|done]. intros [= <-]. split; [done|].
  pose proof secs_range. destruct Hd as [Hl Hd].
  pose proof (chain_ok (l / secs) ltac:(split; [apply Z.div_pos; lia|done])) as Hr.
  pose proof (Z.mod_pos_bound l secs ltac:(lia)). unfold cluster_sector. nia.
Qed.

Lemma fat_map_valid l p : fat_map l = Some p -> p = EXTENT_ZERO \/ valid_sector p.
Proof. intros [_ H]%fat_map_spec. right. by apply data_valid. Qed.

Lemma fat_size_range : 0 <= size <= 0x100000000 - 2 ^ sector_shift.
Proof.
  rewrite shift_eq. pose proof secs_range. pose proof sector_pos.
  pose proof size_ok as Hs. rewrite cluster_bytes_eq in Hs. nia.
Qed.

(** The chain can be asked for any sector where a cluster starts. *)
Definition fat_at (i : fat_inode) (l : Z) : Prop := fat_inv i /\ (secs | l).

Lemma fat_law i e l :
  fat_at i l -> (0 < len e -> extent_maps fat_map e) -> 0 <= l -> l * 2 ^ sector_shift < size ->
  exists i' e' err, fat_next_extent shift sbi fuel i e l = Ok (i', e', err) /\
    if err || bool_decide (len e' = 0) then fat_map l = None /\ fat_at i' l
    else extent_maps fat_map (Extent (pstart e') l (len e')) /\ fat_at i' (l + len e').
Proof.
  intros [Hi Hd] _ Hl Hs. rewrite shift_eq in Hs.
  destruct (next_extent_ok fuel i e l Hi Hl Hs Hd fuel_ok) as (i' & e' & E & Hi' & Hlen & Hm & Hg).
  exists i', e', false. split; [done|]. rewrite bool_decide_false by lia. split; [done|]. split; [done|].
  by apply Z.divide_add_r.
Qed.

#[export] Instance fat_fs : ExtentFS fat_inode := {|
  extent_ops := {| next_extent := fat_next_extent shift sbi fuel; inode_size := size |}; fs_at := fat_at;
  inode_size_range := fat_size_range; sector_map := fat_map;
  sector_map_valid := fat_map_valid; GetFsSec.next_extent_ok := fat_law |}.

(** The contents of a cluster, and of the file. *)
Definition cluster_data (n : Z) : list Z := region disk_sector (cluster_sector n) secs.

Definition fat_contents : list Z :=
  take (Z.to_nat size) (concat ((fun k => cluster_data (cluster_at k)) <$> seqZ 0 file_clusters)).

Lemma fat_sector_data l : 0 <= l -> l / secs < file_clusters ->
  ReadFile.file_sector l = disk_sector (cluster_sector (cluster_at (l / secs)) + l mod secs).
Proof.
  intros Hl Hd. unfold ReadFile.file_sector. simpl.
  destruct (fat_map l) as [p|] eqn:E.
  - apply fat_map_spec in E as [-> Hr]. pose proof (lo_end Hlay).
    destruct ReadFile.special_values as [Ez _]. rewrite decide_False; [done|]. rewrite Ez. lia.
  - unfold fat_map in E. by rewrite decide_True in E.
Qed.

(** Sector by sector, the file is its clusters. *)
Lemma cluster_sectors n : 0 <= n < file_clusters ->
  cluster_data (cluster_at n) = ReadFile.sectors_data (n * secs) secs.
Proof.
  intros Hn. pose proof secs_range. unfold cluster_data, region, ReadFile.sectors_data. f_equal.
  apply ReadFile.fmap_seqZ_shift. intros j Hj.
  assert ((n * secs + j) / secs = n /\ (n * secs + j) mod secs = j) as [El Em].
  { rewrite (Z.add_comm _ j), Z.div_add, Z.mod_add, Z.div_small, Z.mod_small by lia. lia. }
  rewrite fat_sector_data, El, Em by (rewrite ?El; nia). done.
Qed.

Lemma fat_contents_eq : fat_contents = ReadFile.file_bytes.
Proof.
  pose proof file_clusters_range as (H0 & _ & Hs). pose proof secs_range. pose proof sector_pos.
  unfold fat_contents. rewrite (ReadFile.sectors_groups _ secs) by (lia || (intros; by apply cluster_sectors)).
  apply (ReadFile.file_bytes_take (FS := fat_fs)). unfold ReadFile.file_sectors. simpl. rewrite shift_eq.
  rewrite cluster_bytes_eq in Hs. apply Z.lt_succ_r. apply Z.div_lt_upper_bound; nia.
Qed.

(** All sectors of the file are mapped. *)
Lemma fat_map_total l : 0 <= l < ReadFile.file_sectors (FS := fat_fs) -> fat_map l <> None.
Proof.
  intros [Hl Hlt]. unfold fat_map. rewrite decide_True; [done|]. split; [done|].
  pose proof sector_pos. pose proof secs_range. pose proof file_clusters_range as (_ & _ & Hsz).
  rewrite cluster_bytes_eq in Hsz. unfold ReadFile.file_sectors in Hlt. simpl in Hlt. rewrite shift_eq in Hlt.
  apply Z.div_lt_upper_bound; [lia|].
  assert ((size + 2 ^ shift - 1) / 2 ^ shift < secs * file_clusters + 1)
    by (apply Z.div_lt_upper_bound; nia). lia.
Qed.

(** C15. Reading a file of a FAT volume returns the bytes of the clusters of its
    chain, in order and cut at the size of the file, whatever the position of
    the clusters and the state that earlier reads left in the inode. *)
Theorem fat_reads_file (i : ReadFile.inode) (offset sectors : Z) (buf : list Z) (rfuel : nat) :
  ReadFile.call_ok i offset sectors buf -> (Z.to_nat (sectors + 1) < rfuel)%nat ->
  let n := Z.min (sectors * 2 ^ shift) (size - offset) in
  exists i' buf' more,
    ReadFile.generic_getfssec rfuel i offset buf sectors = Ok (i', buf', offset + n, more, n) /\
    ReadFile.inode_ok i' /\ length buf' = length buf /\
    take (Z.to_nat n) buf' = take (Z.to_nat n) (drop (Z.to_nat offset) fat_contents).
Proof.
  intros Hc Hf n. destruct (ReadFile.request_bounds _ _ _ _ Hc) as (Hr & Hfs & _ & _ & Hal).
  destruct (ReadFile.getfssec_full i offset sectors buf rfuel Hc Hf) as (i' & buf' & Hok & He).
  - intros j Hj. apply fat_map_total. pose proof (ReadFile.co_offset _ _ _ _ Hc) as Ho. pose proof sector_pos.
    rewrite shift_eq in *. split; [nia|lia].
  - simpl in He. rewrite shift_eq in He. unfold n. do 3 eexists. split; [exact He|].
    destruct Hok as [? _ _ ? Hd _]. simpl in Hd. rewrite shift_eq in Hd. splits; [done|done|].
    rewrite fat_contents_eq. done.
Qed.

End Device.
End File.

End Table.
(** ** An example

    A volume with 16-byte sectors and a FAT of 12-bit entries in sector 1; the
    file has the clusters 2, 4 and 3. *)

Definition demo_fat : list Z := [0xf8; 0xff; 0xff; 0x04; 0xf0; 0xff; 0x03; 0; 0; 0; 0; 0; 0; 0; 0; 0].

Definition demo_sector (p : Z) : list Z := if decide (p = 1) then demo_fat else replicate 16 (p mod 256).

#[local] Instance demo_cache : BlockCache unit.
Proof.
  refine {| cblock c b := (c, demo_sector b); cinv _ := True; cdata := demo_sector; csize := 16 |}.
  - done.
  - intros b. unfold demo_sector. by case_decide.
  - intros b. unfold demo_sector. case_decide; [by_compute|]. apply Forall_replicate, Z.mod_pos_bound. done.
  - done.
Defined.

#[local] Instance demo_device : SectorDevice.
Proof.
  refine {| sector_shift := 4; disk_sector := demo_sector; valid_sector _ := True;
            rdwr_sectors start count old := concat (demo_sector <$> seqZ start count) |}; [lia| |done].
  intros p. unfold demo_sector. by case_decide.
Defined.

Definition demo_sb : fat_sb_info := SB 1 2 3 4 0 1 0 4 0 16 FAT12.
Definition demo_size : Z := 40.

Lemma demo_fat_layout : layout_ok 4 demo_sb 1.
Proof. constructor; by_compute. Qed.

Lemma demo_size_ok : 0 <= demo_size <= 0x100000000 - cluster_bytes demo_sb.
Proof. vm_compute. done. Qed.

Lemma demo_chain_ok k : 0 <= k < file_clusters demo_sb demo_size ->
  2 <= cluster_at demo_sb 1 2 k < clusters demo_sb + 2.
Proof.
  intros Hk. change (file_clusters demo_sb demo_size) with 3 in Hk.
  assert (k = 0 \/ k = 1 \/ k = 2) as [-> | [-> | ->]] by lia; vm_compute; done.
Qed.

Definition demo_inode : ReadFile.inode :=
  ReadFile.Inode (Extent 0 0 0) (Extent 0 0 0) (FatInode tt (Pvt 2 3 0 3) demo_size).

Lemma get_next_cluster_entry_witness :
  exists c', get_next_cluster 4 demo_sb tt 3 = Ok (c', fat_entry demo_sb 1 3) /\ cinv c'.
Proof. apply (get_next_cluster_entry 4 demo_sb 1 demo_fat_layout tt 3); simpl; lia || done. Defined.

Example demo_entries : fat_entry demo_sb 1 <$> [2; 4; 3] = [4; 3; 0xfff].
Proof. vm_compute. done. Qed.

Lemma demo_fuel : (Z.to_nat (file_clusters demo_sb demo_size) < 10)%nat.
Proof. vm_compute. lia. Qed.

Abbreviation demo_fs := (fat_fs (SD := demo_device) 4 demo_sb 1 demo_fat_layout 2 demo_size demo_size_ok demo_chain_ok
  (@eq_refl Z 4) (fun _ _ => I) 10 demo_fuel).

Lemma demo_at : fs_at (ExtentFS := demo_fs) (FatInode tt (Pvt 2 3 0 3) demo_size) 0.
Proof. split; [|by exists 0]. constructor; simpl; try done. split; [lia|]. right; right. done. Qed.

Lemma fat_reads_file_witness :
  exists i' buf' more,
    ReadFile.generic_getfssec (EO := extent_ops (ExtentFS := demo_fs)) 10 demo_inode 0 (replicate 50 255) 5 =
      Ok (i', buf', 40, more, 40) /\
    ReadFile.inode_ok (FS := demo_fs) i' /\ length buf' = 50%nat /\
    take 40 buf' = take 40 (drop 0 (fat_contents demo_sb 1 2 demo_size)).
Proof.
  apply (fat_reads_file (SD := demo_device) 4 demo_sb 1 demo_fat_layout 2 demo_size demo_size_ok demo_chain_ok
    (@eq_refl Z 4) (fun _ _ => I) 10 demo_fuel demo_inode 0 5 (replicate 50 255) 10);
    [|vm_compute; lia].
  constructor; simpl; try lia.
  - unfold ReadFile.inode_ok. simpl. splits; try done; try lia. intros _. apply demo_at.
  - left. apply demo_at.
  - unfold demo_size. lia.
  - by exists 0.
  - vm_compute. done.
- vm_compute. discriminate.
Defined.

Example demo_contents : fat_contents demo_sb 1 2 demo_size = replicate 16 3 ++ replicate 16 5 ++ replicate 8 4.
Proof. vm_compute. done. Qed.

End FatSpec.
