(* ===== verification/FatDir.v ===== *)
(** * FAT: names, directories and initialisation (libcore/fs/fat/fat.c)

    The 8.3 form of a name, long names, the search of a directory, its
    listing, and what [vfat_fs_init] makes of the boot sector.  Strings are lists
    of bytes with their terminating zero. *)

From Stdlib Require Import ZArith Lia.
From S2P Require Import Prelude Dirent CStr BlockCache Fat.
Import Dirent.Dirent CStr.CStr Fat.Fat.

Module FatDir.

(** ** Names *)

(** struct unicache: the static table of the conversions made so far. *)
Abbreviation unicache := (Z -> Z * Z).

Section Names.
Context (cp : codepage).

(** Appends spaces up to index [n]. *)
Definition pad_spaces (n : nat) (buf : list Z) : list Z := buf ++ replicate (n - length buf) 0x20.

(** [while (i < 11)] of [mangle_dos_name]: [buf] has the [i] bytes written;
    [i] goes back to 8 at a dot, and what was after is written again. *)
Fixpoint dos_chars (src : list Z) (buf : list Z) : result (list Z) :=
  if decide (length buf < 11)%nat then
    match src with
    | [] => Undef
    | c :: src =>
        if decide (c <= 0x20 \/ c = 0x2f) then Ok buf
        else if decide (c = 0x2e) then dos_chars src (take 8 (pad_spaces 8 buf))
        else
          let c := cp_upper cp c in
          let c := if decide (buf = [] /\ c = 0xe5) then 0x05 else c in
          dos_chars src (buf ++ [c])
    end
  else Ok buf.

(** [.] and [..] are copied. *)
Definition is_dots (src : list Z) : option (list Z) :=
  match src with
  | 0x2e :: 0 :: _ => Some [0x2e]
  | 0x2e :: 0x2e :: 0 :: _ => Some [0x2e; 0x2e]
  | _ => None
  end.

(** The twelve bytes of the buffer. *)
Definition mangle_dos_name (src : list Z) : result (list Z) :=
  buf ← match is_dots src with Some b => Ok b | None => dos_chars src [] end;
  Ok (pad_spaces 11 buf ++ [0]).

(** [while (len--) if ( *match++ != 0xffff)] *)
Fixpoint padding_ok (n : nat) (match_ : list Z) : result bool :=
  match n with
  | O => Ok true
  | S n => match match_ with
           | [] => Undef
           | m :: match_ => if decide (m <> 0xffff) then Ok false else padding_ok n match_
           end
  end.

(** The end of the string was reached in the long name. *)
Definition match_end (str match_ : list Z) (len : nat) : result bool :=
  match str with
  | [] => Undef
  | c :: _ => if decide (c <> 0) then Ok false else padding_ok len match_
  end.

Fixpoint vfat_match_longname (str match_ : list Z) (len : nat) {struct len} : result bool :=
  match len with
  | O => match_end str match_ 0
  | S len =>
      match match_ with
      | [] => Undef
      | u :: match_ =>
          if decide (u = 0) then match_end str match_ len
          else match str with
               | [] => Undef
               | c :: str =>
                   if decide (u <> cp_uni cp c /\ u <> cp_uni cp (256 + c)) then Ok false
                   else vfat_match_longname str match_ len
               end
      end
  end.

(** The first of the 512 entries of [codepage.uni] that is [u]. *)
Fixpoint find_code (n : nat) (c u : Z) : option Z :=
  match n with
  | O => None
  | S n => if decide (cp_uni cp c = u) then Some c else find_code n (c + 1) u
  end.

(** One character: the table is consulted and filled. *)
Definition cvt_char (uc : unicache) (u : Z) : unicache * option Z :=
  let i := u mod 256 in
  if decide (fst (uc i) = u) then (uc, Some (snd (uc i)))
  else match find_code 512 0 u with
       | Some c => (fun j => if decide (j = i) then (u, u8 c) else uc j, Some (u8 c))
       | None => (uc, None)
       end.

(** The length is [-1] for an impossible character. *)
Fixpoint vfat_cvt_longname (uc : unicache) (entry_name long_name : list Z) :
    result (unicache * list Z * Z) :=
  match long_name with
  | [] => Undef
  | u :: long_name =>
      match cvt_char uc u with
      | (uc, None) => Ok (uc, entry_name, -1)
      | (uc, Some c) =>
          let entry_name := entry_name ++ [c] in
          if decide (u = 0) then Ok (uc, entry_name, Z.of_nat (length entry_name) - 1)
          else vfat_cvt_longname uc entry_name long_name
      end
  end.

End Names.

(** The 13 characters of a long name entry. *)
Definition words (l : list Z) (i : Z) (n : nat) : list Z :=
  (fun k => le_num (sub l (i + 2 * Z.of_nat k) 2)) <$> seq 0 n.

Definition long_chunk (de : dir_entry) : list Z := words de 1 5 ++ words de 14 6 ++ words de 28 2.

(** Copies them into the buffer at index [i]. *)
Definition copy_long_chunk (buf : list Z) (i : Z) (de : dir_entry) : result (list Z) :=
  if decide (0 <= i /\ i + 13 <= Z.of_nat (length buf)) then
    Ok (take (Z.to_nat i) buf ++ long_chunk de ++ drop (Z.to_nat (i + 13)) buf)
  else Undef.

Definition get_checksum (dir_name : list Z) : Z :=
  fold_left (fun sum c => u8 (Z.shiftl (Z.land sum 1) 7 + Z.shiftr sum 1 + c)) (take 11 dir_name) 0.

(** ** Search *)

Section Search.
Context {C : Type} `{BC : !BlockCache C}.
Context (shift : Z) (sbi : fat_sb_info) (cp : codepage).

(** The variables of [vfat_find_entry]. *)
Record find_state := FindState {
  fs_long_name : list Z; fs_long_len : Z; fs_next : Z; fs_csum : Z; fs_long_match : bool }.

Inductive found := NotFound | Found (de : dir_entry).

(** One directory entry; [vfat_init] is the id of the first slot of the name. *)
Definition find_step (dname mangled_name : list Z) (vfat_init : Z) (de : dir_entry) (st : find_state) :
    result (ctl find_state found) :=
  let '(FindState long_name long_len vfat_next vfat_csum long_match) := st in
  let not_match csum long_name long_len :=
    Ok (Continue (FindState long_name long_len vfat_init csum false)) in
  if decide (de_byte de 0 = 0) then Ok (Break NotFound)
  else if decide (de_attr de = 0x0f) then
    let id := le_id de in
    if decide (id <> vfat_next) then not_match vfat_csum long_name long_len
    else
      let first := bool_decide (Z.land id 0x40 <> 0) in
      if negb first && bool_decide (le_checksum de <> vfat_csum) then not_match vfat_csum long_name long_len
      else
        let '(csum, id, long_len, long_name) :=
          if first then (le_checksum de, Z.land id 0x3f, Z.land id 0x3f * 13, replicate 260 0)
          else (vfat_csum, id, long_len, long_name) in
        let id := u8 (id - 1) in
        long_name ← copy_long_chunk long_name (id * 13) de;
        if decide (id = 0) then
          m ← vfat_match_longname cp dname long_name (Z.to_nat long_len);
          if negb m then not_match csum long_name long_len
          else Ok (Continue (FindState long_name long_len id csum true))
        else Ok (Continue (FindState long_name long_len id csum long_match))
  else if decide (Z.land (de_attr de) 0x08 <> 0) then not_match vfat_csum long_name long_len
  else if long_match then
    if decide (get_checksum (de_name de) = vfat_csum) then Ok (Break (Found de))
    else not_match vfat_csum long_name long_len
  else
    if decide (take 11 mangled_name = de_name de) then Ok (Break (Found de))
    else not_match vfat_csum long_name long_len.

(** The entries of a sector. *)
Definition sector_entries (data : list Z) : list dir_entry :=
  (fun k => sub data (32 * Z.of_nat k) 32) <$> seq 0 (Z.to_nat (Z.shiftl 1 (shift - 5))).

(** [while (entries--)] *)
Fixpoint find_entries (dname mangled_name : list Z) (vfat_init : Z) (des : list dir_entry) (st : find_state) :
    result (ctl find_state found) :=
  match des with
  | [] => Ok (Continue st)
  | de :: des =>
      r ← find_step dname mangled_name vfat_init de st;
      match r with
      | Continue st => find_entries dname mangled_name vfat_init des st
      | Break f => Ok (Break f)
      end
  end.

(** [while (dir_sector)] *)
Definition find_sector (dname mangled_name : list Z) (vfat_init : Z) (s : C * Z * find_state) :
    result (ctl (C * Z * find_state) (C * found)) :=
  let '(c, dir_sector, st) := s in
  if decide (dir_sector = 0) then Ok (Break (c, NotFound)) else
  let '(c, data) := cblock c dir_sector in
  r ← find_entries dname mangled_name vfat_init (sector_entries data) st;
  match r with
  | Continue st => '(c, dir_sector) ← get_next_sector shift sbi c dir_sector; Ok (Continue (c, dir_sector, st))
  | Break f => Ok (Break (c, f))
  end.

(** The fields of the new inode. *)
Record new_inode := NewInode { ni_size : Z; ni_pvt : fat_pvt_inode; ni_mode : dirent_type }.

Definition root_inode : new_inode :=
  let size := if decide (root_size sbi <> 0) then u32 (Z.shiftl (root_size sbi) shift) else u32 (-1) in
  NewInode size (Pvt (root_cluster sbi) (sb_root sbi) 0 (sb_root sbi)) DT_DIR.

Definition entry_inode (de : dir_entry) : new_inode :=
  let cluster := u32 (Z.shiftl (de_cluster_high de) 16 + de_cluster_low de) in
  if decide (cluster = 0) then
    NewInode (ni_size root_inode) (ni_pvt root_inode) (get_inode_mode (de_attr de))
  else
    let s := first_sector sbi de in
    NewInode (de_size de) (Pvt cluster s 0 s) (get_inode_mode (de_attr de)).

Definition vfat_find_entry (fuel : nat) (c : C) (dname : list Z) (dir : fat_pvt_inode) :
    result (C * option new_inode) :=
  len ← strlen dname;
  let slots := (len + 12) / 13 in
  if decide (slots > 20) then Ok (c, None) else
  let vfat_init := Z.lor slots 0x40 in
  mangled_name ← mangle_dos_name cp dname;
  '(c, f) ← loop fuel (find_sector dname mangled_name vfat_init)
    (c, p_start dir, FindState [] (vfat_init * 13) vfat_init 0 false);
  Ok (c, match f with NotFound => None | Found de => Some (entry_inode de) end).

Definition vfat_iget_root : new_inode := root_inode.
Definition vfat_iget := vfat_find_entry.

(** ** Listing *)

(** The name of a short entry: the base and the extension up to the first
    space, in lower case where the entry says so. *)
Fixpoint name_part (lower : bool) (l : list Z) : list Z :=
  match l with
  | [] => []
  | c :: l => if decide (c = 0x20) then [] else (if lower then cp_lower cp c else c) :: name_part lower l
  end.

Definition short_name (de : dir_entry) : list Z :=
  let base := name_part (bool_decide (Z.land (de_lcase de) LCASE_BASE <> 0)) (take 8 (de_name de)) in
  let ext := drop 8 (de_name de) in
  base ++ (if decide (de_byte de 8 <> 0x20)
           then 0x2e :: name_part (bool_decide (Z.land (de_lcase de) LCASE_EXT <> 0)) ext else []).

Record list_state := ListState {
  rd_uc : unicache; rd_long_name : list Z; rd_filename : list Z; rd_name_len : Z;
  rd_next : Z; rd_csum : Z; rd_long_entry : bool; rd_offset : Z }.

(** The end of the directory, or an entry and its name. *)
Inductive listed := EndOfDir | Got (de : dir_entry) (name : list Z).


Definition list_step (de : dir_entry) (st : list_state) : result (ctl list_state (list_state * listed)) :=
  let '(ListState uc long_name filename name_len vfat_next vfat_csum long_entry offset) := st in
  let next uc long_name filename name_len vfat_next vfat_csum long_entry :=
    Ok (Continue (ListState uc long_name filename name_len vfat_next vfat_csum long_entry
                    (u32 (offset + 32)))) in
  if decide (de_byte de 0 = 0) then Ok (Break (st, EndOfDir))
  else if decide (de_byte de 0 = 0xe5) then next uc long_name filename name_len vfat_next vfat_csum false
  else if decide (de_attr de = 0x0f) then
    let id := le_id de in
    let first := bool_decide (Z.land id 0x40 <> 0) in
    let csum := if first then le_checksum de else vfat_csum in
    let id' := if first then Z.land id 0x3f else id in
    if first && bool_decide (id' >= 20) then next uc long_name filename name_len vfat_next csum false
    else if negb first && bool_decide (le_checksum de <> vfat_csum \/ id <> vfat_next) then
      next uc long_name filename name_len vfat_next csum false
    else
      let long_name := if first then replicate 261 0 else long_name in
      let id := u8 (id' - 1) in
      long_name ← copy_long_chunk long_name (id * 13) de;
      if decide (id = 0) then
        '(uc, filename, name_len) ← vfat_cvt_longname cp uc [] long_name;
        next uc long_name filename name_len id csum
          (long_entry || bool_decide (0 < name_len < NAME_MAX + 1))
      else next uc long_name filename name_len id csum long_entry
  else if decide (Z.land (de_attr de) 0x08 <> 0) then
    next uc long_name filename name_len vfat_next vfat_csum false
  else if long_entry && bool_decide (get_checksum (de_name de) = vfat_csum) then
    Ok (Break (st, Got de (take (Z.to_nat name_len) filename)))
  else Ok (Break (st, Got de (short_name de))).

Fixpoint list_entries (des : list dir_entry) (st : list_state) :
    result (ctl list_state (list_state * listed)) :=
  match des with
  | [] => Ok (Continue st)
  | de :: des =>
      r ← list_step de st;
      match r with Continue st => list_entries des st | Break f => Ok (Break f) end
  end.

(** [while (1)]: the entries that are left in this sector, then the next
    sector. *)
Definition list_sector (s : C * fat_pvt_inode * list dir_entry * list_state) :
    result (ctl (C * fat_pvt_inode * list dir_entry * list_state) (C * fat_pvt_inode * list_state * listed)) :=
  let '(c, pv, des, st) := s in
  r ← list_entries des st;
  match r with
  | Break (st, f) => Ok (Break (c, pv, st, f))
  | Continue st =>
      '(c, pv, sector) ← next_sector shift sbi c pv;
      if decide (sector = 0) then Ok (Break (c, pv, st, EndOfDir)) else
      let '(c, data) := cblock c sector in
      Ok (Continue (c, pv, sector_entries data, st))
  end.

(** The result has the new file offset; the entry is [None] at the end. *)
Definition vfat_readdir (fuel : nat) (c : C) (uc : unicache) (pv : fat_pvt_inode) (offset : Z) :
    result (C * unicache * fat_pvt_inode * Z * option dirent) :=
  '(c, pv, sector) ← get_the_right_sector shift sbi fuel c pv offset;
  let sec_off := Z.land offset (2 ^ shift - 1) in
  let '(c, data) := cblock c sector in
  let entries_left := Z.shiftr (2 ^ shift - sec_off) 5 in
  let des := (fun k => sub data (sec_off + 32 * Z.of_nat k) 32) <$> seq 0 (Z.to_nat entries_left) in
  '(c, pv, st, f) ← loop fuel list_sector (c, pv, des, ListState uc [] [] 0 0xff 0xff false offset);
  match f with
  | EndOfDir => Ok (c, rd_uc st, pv, rd_offset st, None)
  | Got de name =>
      Ok (c, rd_uc st, pv, u32 (rd_offset st + 32),
          Some (Dirent_ (u32 (Z.lor (de_cluster_low de) (Z.shiftl (de_cluster_high de) 16))) (rd_offset st)
                  (u16 (d_name_offset + Z.of_nat (length name) + 1)) (dt_value (get_inode_mode (de_attr de))) name))
  end.

End Search.

(** ** Initialisation *)

(** The fields of struct fat_bpb that are used, at their offsets in the boot
    sector. *)
Definition bxSecPerClust (b : list Z) : Z := nth 13 b 0.
Definition bxResSectors (b : list Z) : Z := le_num (sub b 14 2).
Definition bxFATs (b : list Z) : Z := nth 16 b 0.
Definition bxRootDirEnts (b : list Z) : Z := le_num (sub b 17 2).
Definition bxSectors (b : list Z) : Z := le_num (sub b 19 2).
Definition bxFATsecs (b : list Z) : Z := le_num (sub b 22 2).
Definition bsHugeSectors (b : list Z) : Z := le_num (sub b 32 4).
Definition bxFATsecs_32 (b : list Z) : Z := le_num (sub b 36 4).
Definition extended_flags (b : list Z) : Z := le_num (sub b 40 2).
Definition bpb_root_cluster (b : list Z) : Z := le_num (sub b 44 4).

(** Count the root dir size in sectors *)
Definition root_dir_size (shift : Z) (b : list Z) : Z :=
  Z.shiftr (bxRootDirEnts b + 2 ^ shift / 32 - 1) (shift - 5).

(** [b] is the boot sector; [None] is the failure.  [root_cluster] keeps the
    value [garbage] of the allocated memory: it is not set. *)
Definition vfat_fs_init (shift : Z) (b : list Z) (garbage : Z) : result (option fat_sb_info) :=
  if decide (bxResSectors b = 0 \/ bxFATs b = 0) then Ok None
  else if decide (bxSecPerClust b = 0) then Undef      (* ilog2(0) *)
  else
    let sectors_per_fat := s32 (if decide (bxFATsecs b <> 0) then bxFATsecs b else bxFATsecs_32 b) in
    let total_sectors := if decide (bxSectors b <> 0) then bxSectors b else bsHugeSectors b in
    let fat := bxResSectors b in
    let root := u64 (fat + s32 (sectors_per_fat * bxFATs b)) in
    let root_size := root_dir_size shift b in
    let data := u64 (root + root_size) in
    let clust_shift := Z.log2 (bxSecPerClust b) in
    let clusters := u32 (Z.shiftr (u64 (total_sectors - data)) clust_shift) in
    let sb fat root clusters ty :=
      SB fat root data clusters garbage root_size clust_shift (clust_shift + shift)
        (bxSecPerClust b - 1) (Z.shiftl (bxSecPerClust b) shift) ty in
    if decide (clusters <= 0xff4) then Ok (Some (sb fat root clusters FAT12))
    else if decide (clusters <= 0xfff4) then Ok (Some (sb fat root clusters FAT16))
    else
      let clusters := if decide (clusters > 0x0ffffff4) then 0x0ffffff4 else clusters in
      let fat := if decide (Z.land (extended_flags b) 0x80 <> 0)
                 then u64 (fat + s32 (Z.land (extended_flags b) 0x0f * sectors_per_fat)) else fat in
      let root := u64 (data + u32 (Z.shiftl (u32 (bpb_root_cluster b - 2)) clust_shift)) in
      Ok (Some (sb fat root clusters FAT32)).

End FatDir.
