(* ===== verification/FatDirSpec.v ===== *)
(** * FAT: the search of a directory

    A directory is a sequence of files: the slots of a long name, if there is
    one, last slot first, and a short entry.  [vfat_find_entry] finds the first
    file whose long name is the name that is looked for, up to the case that the
    code page knows, or whose short name is its 8.3 form. *)

From Stdlib Require Import ZArith Lia.
From S2P Require Import Prelude Dirent CStr BlockCache GetFsSec Fat FatSpec FatDir.
Import Dirent.Dirent CStr.CStr Fat.Fat FatSpec.FatSpec FatDir.FatDir.

Module FatDirSpec.

(** ** Long names *)

Section Match.
Context (cp : codepage).

(** A UTF-16 unit is one of the two forms of a character. *)
Definition char_matches (c u : Z) : Prop := u = cp_uni cp c \/ u = cp_uni cp (256 + c).

#[export] Instance char_matches_dec c u : Decision (char_matches c u) := _.

(** The padding of a long name in its last slot. *)
Definition padding (n : nat) : list Z := match n with O => [] | S n => 0 :: replicate n 0xffff end.

Lemma padding_length n : length (padding n) = n.
Proof. destruct n; simpl; [done|]. by rewrite length_replicate. Qed.

Lemma padding_ok_padded n tail : padding_ok n (replicate n 0xffff ++ tail) = Ok true.
Proof. induction n as [|n IH]; [done|]. cbn [padding_ok replicate app]. by rewrite decide_False by lia. Qed.

(** The end of the name: nothing or the zero and the padding. *)
Lemma match_end_zero s match_ len b :
  padding_ok len match_ = Ok b -> match_end (0 :: s) match_ len = Ok b.
Proof. intros. cbn [match_end]. by rewrite decide_False by lia. Qed.

Lemma match_end_char c s match_ len : c <> 0 -> match_end (c :: s) match_ len = Ok false.
Proof. intros. cbn [match_end]. by rewrite decide_True. Qed.

Context (cp_zero : cp_uni cp 0 = 0 /\ cp_uni cp 256 = 0).

Lemma match_longname_ok name us n tail s :
  Forall (fun c => c <> 0) name -> Forall (fun u => u <> 0) us ->
  vfat_match_longname cp (name ++ 0 :: s) (us ++ padding n ++ tail) (length us + n) =
    Ok (bool_decide (Forall2 char_matches name us)).
Proof.
  intros Hn Hu. revert name Hn. induction Hu as [|u us Hu0 Hu IH]; intros name Hn.
  - cbn [app length Nat.add]. assert (bool_decide (Forall2 char_matches name []) = bool_decide (name = [])) as ->.
    { apply bool_decide_ext. split; [intros H; by inversion H|by intros ->]. }
    destruct name as [|c name]; [|apply Forall_cons in Hn as [Hc _]];
      (destruct n as [|n]; cbn [vfat_match_longname padding app]; [|rewrite decide_True by done]).
    + by apply match_end_zero.
    + apply match_end_zero, padding_ok_padded.
    + by apply match_end_char.
    + by apply match_end_char.
  - cbn [app length Nat.add vfat_match_longname]. rewrite decide_False by done.
    destruct name as [|c name]; cbn [app].
    + destruct cp_zero as [E0 E1]. rewrite E0, (E1 : cp_uni cp (256 + 0) = 0), decide_True by lia.
      rewrite bool_decide_false; [done|]. intros H. inversion H.
    + apply Forall_cons in Hn as [Hc Hn]. destruct (decide (char_matches c u)) as [Hm|Hm].
      * rewrite decide_False by (unfold char_matches in Hm; lia). rewrite IH by done. f_equal.
        apply bool_decide_ext. rewrite Forall2_cons. tauto.
      * rewrite decide_True by (unfold char_matches in Hm; lia). rewrite bool_decide_false; [done|].
        rewrite Forall2_cons. tauto.
Qed.
End Match.

(** ** Slots *)

Definition u16_bytes (u : Z) : list Z := [u mod 256; u / 256].

(** The bytes of a long name entry. *)
Definition encode_slot (id csum : Z) (chunk : list Z) : dir_entry :=
  [id] ++ concat (u16_bytes <$> take 5 chunk) ++ [0x0f; 0; csum] ++
  concat (u16_bytes <$> take 6 (drop 5 chunk)) ++ [0; 0] ++ concat (u16_bytes <$> drop 11 chunk).

Lemma u16_bytes_num u : 0 <= u -> le_num (u16_bytes u) = u.
Proof. intros. simpl. dlia. Qed.

Lemma encode_slot_ok id csum chunk :
  length chunk = 13%nat -> Forall (fun u => 0 <= u < 0x10000) chunk ->
  let de := encode_slot id csum chunk in
  de_byte de 0 = id /\ de_attr de = 0x0f /\ le_checksum de = csum /\ long_chunk de = chunk.
Proof.
  intros Hl Hu. do 13 (destruct chunk as [|? chunk]; [done|]). destruct chunk; [|done].
  cbv zeta. splits; try done. rewrite !Forall_cons in Hu.
  unfold long_chunk, words, sub. cbn -[Z.mul Z.add Z.modulo Z.div].
  repeat match goal with |- context [Z.to_nat ?e] =>
    let v := eval vm_compute in (Z.to_nat e) in change (Z.to_nat e) with v end.
  cbn [drop take le_num]. repeat f_equal; dlia.
Qed.

(** ** Directories *)

(** The slots of a name, and the name filled up to whole slots. *)
Definition nslots (us : list Z) : nat := (length us + 12) / 13.
Definition padded (us : list Z) : list Z := us ++ padding (13 * nslots us - length us).

Lemma nslots_bounds us : (length us <= 13 * nslots us < length us + 13)%nat.
Proof.
  unfold nslots. pose proof (Nat.div_mod (length us + 12) 13). pose proof (Nat.mod_upper_bound (length us + 12) 13). lia.
Qed.

Lemma nslots_range us : (1 <= length us <= 260)%nat -> (1 <= nslots us <= 20)%nat.
Proof. intros. pose proof (nslots_bounds us). lia. Qed.

Lemma padded_length us : length (padded us) = (13 * nslots us)%nat.
Proof. unfold padded. rewrite length_app, padding_length. pose proof (nslots_bounds us). lia. Qed.

(** The last [k] slots of a name; the first one of all has the bit 0x40. *)
Fixpoint slots (csum : Z) (l : list Z) (k : nat) (top : bool) : list dir_entry :=
  match k with
  | O => []
  | S k => encode_slot (Z.of_nat (S k) + (if top then 0x40 else 0)) csum (take 13 (drop (13 * k) l)) ::
           slots csum l k false
  end.

Record file := File { f_long : option (list Z); f_short : dir_entry }.

Definition encode (f : file) : list dir_entry :=
  match f_long f with
  | Some us => slots (get_checksum (de_name (f_short f))) (padded us) (nslots us) true
  | None => []
  end ++ [f_short f].

Definition unit_ok (u : Z) : Prop := 0 < u < 0x10000.

(** An entry of a file that was deleted, also one that was a slot of its name, is a
    file without a long name. *)
Definition deleted (f : file) : Prop := de_byte (f_short f) 0 = 0xe5.

Record file_ok (f : file) : Prop := {
  fo_first : de_byte (f_short f) 0 <> 0;
  fo_attr : de_attr (f_short f) <> 0x0f \/ (f_long f = None /\ deleted f);
  fo_long us : f_long f = Some us -> (1 <= length us <= 260)%nat /\ Forall unit_ok us }.

Lemma slot_chunk us k : (1 <= length us <= 260)%nat -> Forall unit_ok us -> (k < nslots us)%nat ->
  length (take 13 (drop (13 * k) (padded us))) = 13%nat /\
  Forall (fun u => 0 <= u < 0x10000) (take 13 (drop (13 * k) (padded us))).
Proof.
  intros Hl Hu Hk. split.
  - rewrite length_take, length_drop, padded_length. lia.
  - apply Forall_take, Forall_drop. unfold padded. apply Forall_app. split.
    + eapply Forall_impl; [exact Hu|]. unfold unit_ok. lia.
    + destruct (13 * nslots us - length us)%nat; simpl; [constructor|].
      constructor; [lia|]. apply Forall_replicate. lia.
Qed.

(** The buffer after the slots from [k] on were copied. *)
Definition buffer (us : list Z) (k : nat) : list Z :=
  replicate (13 * k) 0 ++ drop (13 * k) (padded us) ++ replicate (260 - 13 * nslots us) 0.

Lemma buffer_length us k : (1 <= length us <= 260)%nat -> (k <= nslots us)%nat -> length (buffer us k) = 260%nat.
Proof.
  intros Hl Hk. pose proof (nslots_range us Hl). unfold buffer.
  rewrite !length_app, !length_replicate, length_drop, padded_length. lia.
Qed.

Lemma buffer_start us : (1 <= length us <= 260)%nat -> buffer us (nslots us) = replicate 260 0.
Proof.
  intros Hl. pose proof (nslots_range us Hl). unfold buffer.
  rewrite (drop_ge (padded us)) by (rewrite padded_length; lia). cbn [app]. rewrite <- replicate_add. f_equal. lia.
Qed.

Lemma copy_slot us csum id k :
  (1 <= length us <= 260)%nat -> Forall unit_ok us -> (k < nslots us)%nat ->
  copy_long_chunk (buffer us (S k)) (Z.of_nat k * 13)
    (encode_slot id csum (take 13 (drop (13 * k) (padded us)))) = Ok (buffer us k).
Proof.
  intros Hl Hu Hk. destruct (slot_chunk us k Hl Hu Hk) as [Hcl Hcu]. unfold copy_long_chunk.
  destruct (encode_slot_ok id csum _ Hcl Hcu) as (_ & _ & _ & ->). pose proof (nslots_range us Hl).
  rewrite decide_True by (rewrite buffer_length by (done || lia); lia). f_equal.
  replace (Z.to_nat (Z.of_nat k * 13)) with (13 * k)%nat by lia.
  replace (Z.to_nat (Z.of_nat k * 13 + 13)) with (13 * S k)%nat by lia.
  unfold buffer. rewrite (drop_app_length' _ _ (13 * S k)) by (by rewrite length_replicate).
  rewrite take_app_le by (rewrite length_replicate; lia). rewrite take_replicate, Nat.min_l by lia.
  f_equal. rewrite app_assoc. f_equal. replace (13 * S k)%nat with (13 * k + 13)%nat by lia.
  rewrite <- drop_drop. apply take_drop.
Qed.

(** The ids of the slots. *)
Lemma id_bits k : 1 <= k <= 20 ->
  Z.land (k + 0x40) 0x40 <> 0 /\ Z.land (k + 0x40) 0x3f = k /\ Z.land k 0x40 = 0.
Proof.
  intros Hk. assert (Forall (fun k => Z.land (k + 0x40) 0x40 <> 0 /\ Z.land (k + 0x40) 0x3f = k /\ Z.land k 0x40 = 0)
    (seqZ 1 20)) as H by by_compute.
  rewrite Forall_forall in H. apply H, elem_of_seqZ. lia.
Qed.

(** ** The sectors of a directory *)

Section Sectors.
Context {C : Type} `{BC : !BlockCache C}.
Context (shift : Z) (sbi : fat_sb_info) (fat_secs : Z) (Hlay : layout_ok shift sbi fat_secs).

Abbreviation secs := (2 ^ clust_shift sbi).

(** The sector after [s]: the next one of the root directory or of the
    cluster, or the first one of the next cluster of the chain. *)
Definition sector_after (s : Z) : Z :=
  if decide (s < sb_data sbi) then (if decide (s + 1 >= sb_data sbi) then 0 else s + 1)
  else if decide ((s - sb_data sbi + 1) mod secs <> 0) then s + 1
  else
    let n := fat_entry sbi fat_secs ((s - sb_data sbi) / secs + 2) in
    if decide (2 <= n < clusters sbi + 2) then cluster_sector sbi n else 0.

Definition dir_sector_ok (s : Z) : Prop := 0 < s < sb_data sbi + clusters sbi * secs.

(** The sectors from [s] to the end of the chain. *)
Fixpoint dir_chain (s : Z) (l : list Z) : Prop :=
  match l with
  | [] => s = 0
  | x :: l => s = x /\ dir_sector_ok x /\ dir_chain (sector_after x) l
  end.

Lemma fat_entry_range n : 0 <= fat_entry sbi fat_secs n < 0x100000000.
Proof.
  unfold fat_entry, entry_bits. destruct (sb_type sbi).
  - pose proof (Z.mod_pos_bound (le_num (fat_bytes sbi fat_secs) / 2 ^ (12 * n)) (2 ^ 12)). lia.
  - pose proof (Z.mod_pos_bound (le_num (fat_bytes sbi fat_secs) / 2 ^ (16 * n)) (2 ^ 16)). lia.
  - set (x := _ mod 2 ^ 32). pose proof (Z.mod_pos_bound x (2 ^ 28)). lia.
Qed.

Lemma get_next_sector_ok c s : cinv c -> dir_sector_ok s ->
  exists c', get_next_sector shift sbi c s = Ok (c', sector_after s) /\ cinv c'.
Proof.
  intros Hc Hs. unfold dir_sector_ok in Hs. pose proof (lo_end _ _ _ Hlay). pose proof (lo_data _ _ _ Hlay).
  pose proof (lo_clust _ _ _ Hlay). pose proof (secs_range _ _ _ Hlay) as Hsr. pose proof (lo_clusters _ _ _ Hlay) as Hcl.
  assert (0 <= clusters sbi * secs) by nia. unfold get_next_sector, sector_after. rewrite (u32_small s) by lia.
  case_decide as Hd. { rewrite u32_small by lia. exists c. by case_decide. }
  rewrite (lo_mask _ _ _ Hlay), land_ones_mod, (shiftr_div (s - _)) by lia.
  case_decide as Hm.
  { exists c. split; [|done]. assert (s + 1 < 0x100000000); [|by rewrite u32_small by lia].
    destruct (decide (s + 1 = sb_data sbi + clusters sbi * secs)) as [E|]; [|lia]. exfalso. apply Hm.
    replace (s - sb_data sbi + 1) with (clusters sbi * secs) by lia. apply Z.mod_mul. lia. }
  assert (0 <= (s - sb_data sbi) / secs < clusters sbi) as Hq
    by (split; [apply Z.div_pos; lia|apply Z.div_lt_upper_bound; lia]).
  rewrite (u32_small (_ / _)), (u32_small (_ / _ + 2)) by lia.
  destruct (get_next_cluster_ok shift sbi fat_secs Hlay c ((s - sb_data sbi) / secs + 2) Hc ltac:(lia)) as (c' & -> & Hc').
  cbn [mbind result_bind]. exists c'. split; [|done].
  pose proof (fat_entry_range ((s - sb_data sbi) / secs + 2)) as Hr. set (n := fat_entry _ _ _) in *.
  destruct (decide (2 <= n < clusters sbi + 2)) as [Hn|Hn].
  - rewrite (u32_small (n - 2)), decide_False by lia. f_equal. f_equal.
    assert (0 <= (n - 2) * secs < clusters sbi * secs) by nia.
    rewrite shiftl_mul, (u32_small ((n - 2) * _)) by lia. unfold cluster_sector. rewrite u32_small by lia. lia.
  - rewrite decide_True; [done|]. unfold u32. destruct (decide (n < 2)) as [l|].
    + clearbody n. clear - Hr l Hcl. assert (n = 0 \/ n = 1) as [-> | ->] by lia; dlia.
    + rewrite Z.mod_small; lia.
Qed.

Definition dir_entries (l : list Z) : list dir_entry := concat ((fun s => sector_entries shift (cdata s)) <$> l).
End Sectors.

Section Find.
Context (cp : codepage) (cp_zero : cp_uni cp 0 = 0 /\ cp_uni cp 256 = 0).
(** The name that is looked for, and its 8.3 form. *)
Context (name mangled : list Z).
Context (name_ok : Forall (fun c => c <> 0) name) (name_length : (1 <= length name <= 260)%nat).

Definition vfat_init : Z := Z.of_nat (nslots name) + 0x40.

Definition file_matches (f : file) : Prop :=
  Z.land (de_attr (f_short f)) 0x08 = 0 /\
  ((exists us, f_long f = Some us /\ Forall2 (char_matches cp) name us) \/
   take 11 mangled = de_name (f_short f)).

Abbreviation run := (find_entries cp (name ++ [0]) mangled vfat_init).

(** No slot is expected but the first one of the name. *)
Definition idle (st : find_state) : Prop := fs_next st = vfat_init /\ fs_long_match st = false.

Lemma run_app l1 l2 st :
  run (l1 ++ l2) st = r ← run l1 st; match r with Continue st => run l2 st | Break f => Ok (Break f) end.
Proof.
  revert st. induction l1 as [|de l1 IH]; intros st; [done|]. cbn [app find_entries].
  rewrite bind_assoc. destruct (find_step _ _ _ _ _ _) as [[st'|f]| |]; cbn [mbind result_bind]; [apply IH|done..].
Qed.

(** Slots of a name of another length are skipped. *)
Lemma other_slots us csum k top st :
  (1 <= length us <= 260)%nat -> Forall unit_ok us -> (k <= nslots us)%nat ->
  (top = true -> k <> nslots name) -> idle st ->
  exists st', run (slots csum (padded us) k top) st = Ok (Continue st') /\ idle st'.
Proof.
  intros Hl Hu. revert top st. induction k as [|k IH]; intros top st Hk Htop Hst; [by exists st|].
  cbn [slots find_entries]. destruct (slot_chunk us k Hl Hu ltac:(lia)) as [Hcl Hcu].
  destruct (encode_slot_ok (Z.of_nat (S k) + (if top then 0x40 else 0)) csum _ Hcl Hcu) as (E0 & E1 & _ & _).
  pose proof (nslots_range us Hl). pose proof (nslots_range name name_length).
  destruct st as [ln ll nx cs lm]. destruct Hst as [Hnx Hlm]. simpl in Hnx, Hlm. subst nx lm.
  unfold find_step. rewrite E0, E1. unfold le_id. rewrite E0.
  rewrite decide_False by (destruct top; lia). rewrite decide_True by done.
  rewrite decide_True by (unfold vfat_init; destruct top; [specialize (Htop eq_refl)|]; lia).
  cbn [mbind result_bind]. apply IH; [lia|done|done].
Qed.

Definition matched (us : list Z) : bool := bool_decide (Forall2 (char_matches cp) name us).

(** The state when the slots from [k] on have been read. *)
Definition slot_state (us : list Z) (csum : Z) (k : nat) (m : bool) : find_state :=
  FindState (buffer us k) (Z.of_nat (nslots us) * 13) (Z.of_nat k) csum m.

Lemma match_buffer us : (1 <= length us <= 260)%nat -> Forall unit_ok us ->
  vfat_match_longname cp (name ++ [0]) (buffer us 0) (Z.to_nat (Z.of_nat (nslots us) * 13)) = Ok (matched us).
Proof.
  intros Hl Hu. pose proof (nslots_bounds us). unfold buffer, padded. replace (13 * 0)%nat with 0%nat by lia. rewrite drop_0. cbn [replicate app].
  rewrite <- app_assoc.
  replace (Z.to_nat (Z.of_nat (nslots us) * 13)) with (length us + (13 * nslots us - length us))%nat by lia.
  apply match_longname_ok; [done|done|]. eapply Forall_impl; [exact Hu|]. unfold unit_ok. lia.
Qed.

Lemma slot_step us csum k top st :
  (1 <= length us <= 260)%nat -> Forall unit_ok us -> (k < nslots us)%nat -> nslots us = nslots name ->
  (if (top : bool) then S k = nslots us /\ idle st else st = slot_state us csum (S k) false) ->
  exists st', find_step cp (name ++ [0]) mangled vfat_init
      (encode_slot (Z.of_nat (S k) + (if top : bool then 0x40 else 0)) csum (take 13 (drop (13 * k) (padded us)))) st =
      Ok (Continue st') /\
    (match k with
     | O => if matched us then st' = slot_state us csum 0 true else idle st'
     | S _ => st' = slot_state us csum k false
     end).
Proof.
  intros Hl Hu Hk En Hst. destruct (slot_chunk us k Hl Hu Hk) as [Hcl Hcu].
  set (id := Z.of_nat (S k) + _). pose proof (copy_slot us csum id k Hl Hu Hk) as Hcopy.
  destruct (encode_slot_ok id csum _ Hcl Hcu) as (E0 & E1 & E2 & _). set (de := encode_slot id csum _) in *.
  pose proof (nslots_range us Hl) as Hn. destruct (id_bits (Z.of_nat (S k)) ltac:(lia)) as (B1 & B2 & B3).
  destruct st as [ln ll nx cs lm]. unfold find_step, le_id. rewrite E0, E1, E2.
  rewrite decide_False by (unfold id; destruct top; lia). rewrite (decide_True (P := 0x0f = 0x0f)) by done.
  assert (nx = id /\ lm = false /\ (if bool_decide (Z.land id 0x40 <> 0)
      then (csum, Z.land id 0x3f, Z.land id 0x3f * 13, replicate 260 0) else (cs, id, ll, ln)) =
    (csum, Z.of_nat (S k), Z.of_nat (nslots us) * 13, buffer us (S k)) /\
    negb (bool_decide (Z.land id 0x40 <> 0)) && bool_decide (csum <> cs) = false) as (-> & -> & Hif & Hcs).
  { unfold id. destruct top.
    - destruct Hst as [Ek [Hnx Hlm]]. simpl in Hnx, Hlm. rewrite bool_decide_true, B2 by done.
      rewrite Ek, buffer_start by done. splits; try done. unfold vfat_init in Hnx. lia.
    - injection Hst as -> -> -> -> ->. rewrite Z.add_0_r, B3, bool_decide_false by lia.
      splits; try done. by rewrite bool_decide_false by lia. }
  rewrite (decide_False (P := id <> id)) by lia. rewrite Hcs, Hif.
  rewrite u8_small by lia. replace (Z.of_nat (S k) - 1) with (Z.of_nat k) by lia. rewrite Hcopy.
  cbn [mbind result_bind]. destruct k as [|k].
  - rewrite decide_True, match_buffer by done. cbn [mbind result_bind].
    destruct (matched us); eexists; (split; [reflexivity|done]).
  - rewrite decide_False by lia. eexists. split; [reflexivity|done].
Qed.

Lemma same_slots us csum k top st :
  (1 <= length us <= 260)%nat -> Forall unit_ok us -> (S k <= nslots us)%nat -> nslots us = nslots name ->
  (if (top : bool) then S k = nslots us /\ idle st else st = slot_state us csum (S k) false) ->
  exists st', run (slots csum (padded us) (S k) top) st = Ok (Continue st') /\
    (if matched us then st' = slot_state us csum 0 true else idle st').
Proof.
  intros Hl Hu. revert top st. induction k as [|k IH]; intros top st Hk En Hst.
  - destruct (slot_step us csum 0 top st Hl Hu ltac:(lia) En Hst) as (st' & E & Hst').
    cbn [slots find_entries]. rewrite E. by exists st'.
  - destruct (slot_step us csum (S k) top st Hl Hu ltac:(lia) En Hst) as (st' & E & Hst').
    cbn [slots] in *. cbn [find_entries]. rewrite E. cbn [mbind result_bind].
    apply (IH false); [lia|done|done].
Qed.

(** The short entry of a file. *)
Lemma short_step f st (m : bool) :
  de_byte (f_short f) 0 <> 0 -> de_attr (f_short f) <> 0x0f -> fs_long_match st = m ->
  (m = true -> fs_csum st = get_checksum (de_name (f_short f))) ->
  let hit := Z.land (de_attr (f_short f)) 0x08 = 0 /\
             (m = true \/ take 11 mangled = de_name (f_short f)) in
  (hit -> run [f_short f] st = Ok (Break (Found (f_short f)))) /\
  (~ hit -> exists st', run [f_short f] st = Ok (Continue st') /\ idle st').
Proof.
  intros H0 H1 Hm Hcs. destruct st as [ln ll nx cs lm]. simpl in Hm, Hcs. subst lm. cbv zeta.
  cbn [find_entries]. unfold find_step. rewrite decide_False, decide_False by done.
  assert (forall a b d, exists st', Ok (Continue (FindState a b vfat_init d false)) = Ok (Continue st')
    :> result (ctl find_state found) /\ idle st') as Hidle by (intros; eexists; split; [reflexivity|done]).
  destruct (decide (Z.land (de_attr (f_short f)) 0x08 = 0)) as [Ha|Ha].
  - rewrite decide_False by lia. destruct m.
    + rewrite Hcs, decide_True by done. cbn [mbind result_bind]. split; [done|]. intros []. auto.
    + case_decide; cbn [mbind result_bind]; split; try done; [intros []; auto|].
      intros [_ [?|?]]; done.
  - rewrite decide_True by done. cbn [mbind result_bind]. split; [by intros []|done].
Qed.

(** A slot of a name that was deleted. *)
Lemma deleted_step f st : de_attr (f_short f) = 0x0f -> deleted f -> idle st ->
  exists st', run [f_short f] st = Ok (Continue st') /\ idle st'.
Proof.
  intros Ha Hd [Hnx Hlm]. destruct st as [ln ll nx cs lm]. simpl in Hnx, Hlm. subst nx lm.
  pose proof (nslots_range name name_length). cbn [find_entries]. unfold find_step, deleted, le_id in *. rewrite Hd.
  rewrite decide_False, decide_True, decide_True by (done || unfold vfat_init; lia). cbn [mbind result_bind].
  eexists. split; [reflexivity|done].
Qed.

(** A whole file. *)
Lemma file_run f st : file_ok f -> idle st ->
  (file_matches f -> run (encode f) st = Ok (Break (Found (f_short f)))) /\
  (~ file_matches f -> exists st', run (encode f) st = Ok (Continue st') /\ idle st').
Proof.
  intros [H0 H1 Hlong] Hst. unfold encode, file_matches. destruct (f_long f) as [us|] eqn:El.
  - destruct (Hlong us eq_refl) as [Hl Hu]. pose proof (nslots_range us Hl) as Hn.
    set (cs := get_checksum (de_name (f_short f))). rewrite run_app.
    assert (exists st' m, run (slots cs (padded us) (nslots us) true) st = Ok (Continue st') /\
      m = matched us /\ (if m then st' = slot_state us cs 0 true else idle st')) as (st' & m & -> & Em & Hst').
    { destruct (decide (nslots us = nslots name)) as [E|E].
      - destruct (nslots us) as [|k] eqn:Ek; [lia|]. rewrite <- Ek in *.
        destruct (same_slots us cs k true st Hl Hu ltac:(lia) E ltac:(split; [lia|done])) as (st' & Hr & Hst').
        rewrite Ek. exists st', (matched us). done.
      - destruct (other_slots us cs (nslots us) true st Hl Hu ltac:(lia) ltac:(done) Hst) as (st' & Hr & Hst').
        exists st', false. splits; try done. unfold matched. rewrite bool_decide_false; [done|].
        intros Hf. apply E. unfold nslots. by rewrite (Forall2_length _ _ _ Hf). }
    cbn [mbind result_bind].
    assert (m = true <-> exists us', Some us = Some us' /\ Forall2 (char_matches cp) name us') as Hiff.
    { rewrite Em. unfold matched. rewrite bool_decide_eq_true. split; [eauto|]. by intros (? & [= <-] & ?). }
    assert (de_attr (f_short f) <> 0x0f) as H1' by (by destruct H1 as [?|[? _]]; [|congruence]).
    destruct (short_step f st' m H0 H1') as [Hs1 Hs2].
    + destruct m; [by rewrite Hst'|]. by destruct Hst'.
    + intros ->. by rewrite Hst'.
    + rewrite <- Hiff. split; [exact Hs1|exact Hs2].
  - cbn [app]. destruct (decide (de_attr (f_short f) = 0x0f)) as [E|E].
    { destruct H1 as [?|[_ Hd]]; [done|]. destruct (deleted_step f st E Hd Hst) as (st' & Hr & Hst').
      split; [|eauto]. intros [H _]. by rewrite E in H. }
    destruct Hst as [Hnx Hlm]. destruct (short_step f st false H0 E Hlm ltac:(done)) as [Hs1 Hs2]. split; intros H.
    + apply Hs1. destruct H as [? [(? & ? & _)|?]]; [done|]. auto.
    + apply Hs2. intros [? [?|?]]; [done|]. apply H. auto.
Qed.

(** The entries of a directory end with the chain or with a zero byte. *)
Definition dir_end (rest : list dir_entry) : Prop :=
  match rest with [] => True | de :: _ => de_byte de 0 = 0 end.

#[export] Instance file_matches_dec f : Decision (file_matches f).
Proof using Type.
  clear name_ok name_length cp_zero. unfold file_matches. destruct (decide (Z.land (de_attr (f_short f)) 0x08 = 0)); [|right; tauto].
  destruct (decide (take 11 mangled = de_name (f_short f))); [left; auto|].
  destruct (f_long f) as [us|]; [destruct (decide (Forall2 (char_matches cp) name us))|];
    [left; eauto 10|right; intros [_ [(? & [= <-] & ?)|?]]; done|right; intros [_ [(? & ? & _)|?]]; done].
Defined.

(** The file that is found. *)
Definition lookup (files : list file) : option file :=
  List.find (fun f => bool_decide (file_matches f)) files.

Lemma files_run files rest st :
  Forall file_ok files -> dir_end rest -> idle st ->
  match lookup files with
  | Some f => run (concat (encode <$> files) ++ rest) st = Ok (Break (Found (f_short f)))
  | None => run (concat (encode <$> files) ++ rest) st = Ok (Break NotFound) \/
      (rest = [] /\ exists st', run (concat (encode <$> files) ++ rest) st = Ok (Continue st'))
  end.
Proof.
  intros Hok Hend. revert st. induction Hok as [|f files Hf Hok IH]; intros st Hst.
  - cbn. destruct rest as [|de rest]; [right; eauto|left]. cbn [app find_entries].
    destruct st. unfold find_step. by rewrite decide_True.
  - cbn [lookup List.find fmap list_fmap concat]. rewrite <- app_assoc, run_app.
    destruct (file_run f st Hf Hst) as [Hs1 Hs2]. case_bool_decide as Hm.
    + by rewrite Hs1.
    + destruct (Hs2 Hm) as (st' & -> & Hst'). cbn [mbind result_bind]. by apply IH.
Qed.

(** ** The search in the sectors *)

Section Sectors.
Context {C : Type} `{BC : !BlockCache C}.
Context (shift : Z) (sbi : fat_sb_info) (fat_secs : Z) (Hlay : layout_ok shift sbi fat_secs).

(** Running over the sectors is running over all the entries. *)
Lemma sectors_run fuel l c s st r :
  cinv c -> dir_chain sbi fat_secs s l -> (length l < fuel)%nat -> run (dir_entries shift l) st = Ok r ->
  exists c', loop fuel (find_sector shift sbi cp (name ++ [0]) mangled vfat_init) (c, s, st) =
    Ok (c', match r with Break f => f | Continue _ => NotFound end) /\ cinv c'.
Proof.
  revert fuel c s st. induction l as [|x l IH]; intros fuel c s st Hc Hch Hfuel Hr;
    (destruct fuel as [|fuel]; [simpl in Hfuel; lia|]).
  - simpl in Hch, Hr. subst s. injection Hr as <-. exists c. split; [|done].
    apply loop_break. unfold find_sector. by rewrite decide_True.
  - destruct Hch as (-> & Hx & Hch). unfold dir_sector_ok in Hx. pose proof (lo_end _ _ _ Hlay).
    destruct (cblock_ok c x Hc) as [E1 Hc1]; [change (u64 (-1)) with 0xffffffffffffffff; lia|].
    cbn [dir_entries fmap list_fmap concat] in Hr. unfold dir_entries in Hr. cbn [fmap list_fmap concat] in Hr.
    rewrite run_app in Hr. destruct (cblock c x) as [c1 data] eqn:Eb. simpl in E1, Hc1. subst data.
    destruct (run (sector_entries shift (cdata x)) st) as [[st1|f]| |] eqn:E; cbn [mbind result_bind] in Hr;
      try done.
    + destruct (get_next_sector_ok shift sbi fat_secs Hlay c1 x Hc1 Hx) as (c2 & En & Hc2).
      rewrite (loop_continue _ _ _ (c2, sector_after sbi fat_secs x, st1)).
      * apply IH; try done. simpl in Hfuel. lia.
      * unfold find_sector. rewrite decide_False by lia. rewrite Eb, E. cbn [mbind result_bind].
        by rewrite En.
    + injection Hr as <-. exists c1. split; [|done]. apply loop_break.
      unfold find_sector. rewrite decide_False by lia. rewrite Eb, E. done.
Qed.
End Sectors.

End Find.

(** ** The search *)

Section Search.
Context (cp : codepage) (cp_zero : cp_uni cp 0 = 0 /\ cp_uni cp 256 = 0).
Context {C : Type} `{BC : !BlockCache C}.
Context (shift : Z) (sbi : fat_sb_info) (fat_secs : Z) (Hlay : layout_ok shift sbi fat_secs).

Lemma dos_chars_ok l s buf : exists b, dos_chars cp (l ++ 0 :: s) buf = Ok b.
Proof.
  revert buf. induction l as [|c l IH]; intros buf; cbn [app dos_chars];
    (case_decide; [|eauto]).
  - rewrite decide_True by lia. eauto.
  - case_decide; [eauto|]. case_decide; apply IH.
Qed.

Lemma mangle_dos_ok l : exists m, mangle_dos_name cp (l ++ [0]) = Ok m.
Proof.
  unfold mangle_dos_name. destruct (is_dots _) as [b|]; [eexists; reflexivity|].
  destruct (dos_chars_ok l [] []) as [b ->]. eexists. reflexivity.
Qed.

Lemma init_id us : (1 <= length us <= 260)%nat ->
  (Z.of_nat (length us) + 12) / 13 = Z.of_nat (nslots us) /\
  Z.lor ((Z.of_nat (length us) + 12) / 13) 0x40 = Z.of_nat (nslots us) + 0x40.
Proof.
  intros Hl. assert ((Z.of_nat (length us) + 12) / 13 = Z.of_nat (nslots us)) as E.
  { unfold nslots. rewrite Nat2Z.inj_div, Nat2Z.inj_add. done. }
  split; [done|]. rewrite E. pose proof (nslots_range us Hl) as Hr.
  assert (Forall (fun k => Z.lor k 0x40 = k + 0x40) (seqZ 1 20)) as H' by by_compute.
  rewrite Forall_forall in H'. apply H'. apply elem_of_seqZ. clear - Hr. lia.
Qed.

Lemma find_entry_ok fuel c name dir l files rest :
  cinv c -> Forall (fun c => c <> 0) name -> (1 <= length name <= 260)%nat ->
  dir_chain sbi fat_secs (p_start dir) l -> (length l < fuel)%nat ->
  dir_entries shift l = concat (encode <$> files) ++ rest -> Forall file_ok files -> dir_end rest ->
  exists mangled c', mangle_dos_name cp (name ++ [0]) = Ok mangled /\
    vfat_find_entry shift sbi cp fuel c (name ++ [0]) dir =
      Ok (c', (fun f => entry_inode shift sbi (f_short f)) <$> lookup cp name mangled files) /\ cinv c'.
Proof.
  intros Hc Hn Hl Hch Hfuel Hent Hok Hend. destruct (mangle_dos_ok name) as [m Em].
  unfold vfat_find_entry. rewrite strlen_ok by done. cbn [mbind result_bind].
  destruct (init_id name Hl) as [Es ->]. rewrite Es. pose proof (nslots_range name Hl).
  rewrite decide_False, Em by lia. cbn [mbind result_bind].
  set (st := FindState _ _ _ _ _).
  pose proof (files_run cp cp_zero name m Hn Hl files rest st Hok Hend ltac:(done)) as Hrun.
  rewrite <- Hent in Hrun.
  assert (exists r, find_entries cp (name ++ [0]) m (vfat_init name) (dir_entries shift l) st = Ok r /\
    match r with Break f => f | Continue _ => NotFound end =
    match lookup cp name m files with Some f => Found (f_short f) | None => NotFound end) as (r & Er & Hr).
  { destruct (lookup cp name m files); [eauto|]. destruct Hrun as [?|[_ [st' ?]]]; eauto. }
  destruct (sectors_run cp name m Hl shift sbi fat_secs Hlay fuel l c (p_start dir) st r Hc Hch Hfuel Er)
    as (c' & Eloop & Hc'). unfold vfat_init in Eloop. rewrite Eloop. cbn [mbind result_bind].
  exists m, c'. splits; try done. rewrite Hr. by destruct (lookup cp name m files).
Qed.

(** C16. The search of a directory finds the first file whose long name is the
    given name, character by character in one of the two cases that the code
    page has for it, or whose short name is its 8.3 form, and nothing when
    there is no such file; the inode is made from the short entry.  The
    entries may be spread over any chain of sectors, long names take as many
    entries as they need, and the entries of deleted files are among them. *)
Theorem find_entry_spec fuel c name dir l files rest :
  cinv c -> Forall (fun c => c <> 0) name -> (1 <= length name <= 260)%nat ->
  dir_chain sbi fat_secs (p_start dir) l -> (length l < fuel)%nat ->
  dir_entries shift l = concat (encode <$> files) ++ rest -> Forall file_ok files -> dir_end rest ->
  exists mangled c', mangle_dos_name cp (name ++ [0]) = Ok mangled /\
    vfat_find_entry shift sbi cp fuel c (name ++ [0]) dir =
      Ok (c', (fun f => entry_inode shift sbi (f_short f)) <$> lookup cp name mangled files) /\ cinv c'.
Proof. apply find_entry_ok. Qed.

(** A name that no directory can have. *)
Lemma find_entry_long fuel c name dir : Forall (fun c => c <> 0) name -> (260 < length name)%nat ->
  vfat_find_entry shift sbi cp fuel c (name ++ [0]) dir = Ok (c, None).
Proof.
  intros Hn Hl. unfold vfat_find_entry. rewrite strlen_ok by done. cbn [mbind result_bind].
  assert (21 <= (Z.of_nat (length name) + 12) / 13) by (apply Z.div_le_lower_bound; lia).
  by rewrite decide_True by lia.
Qed.
End Search.

(** ** An example

    A FAT12 volume with 64-byte sectors, the table in sector 1 and the root
    directory in sectors 2 and 3: the file [Ab], and the file [X] without a
    long name. *)

Definition demo_cp : codepage := Codepage (fun c => if decide (97 <= c <= 122) then c - 32 else c) id
  (fun c => if decide (97 <= c <= 122) then c - 32 else if decide (256 + 65 <= c <= 256 + 90) then c - 224 else c mod 256).

Definition demo_short (ch : Z) : dir_entry := [ch] ++ replicate 10 0x20 ++ [0x20] ++ replicate 14 0 ++ [2; 0] ++ [5; 0; 0; 0].

Definition demo_files : list file := [File (Some [0x41; 0x62]) (demo_short 0x41); File None (demo_short 0x58)].

Definition demo_block (p : Z) : list Z :=
  if decide (p = 2) then concat (take 2 (concat (encode <$> demo_files)))
  else if decide (p = 3) then concat (drop 2 (concat (encode <$> demo_files))) ++ replicate 32 0
  else replicate 64 (p mod 256).

#[local] Instance demo_dir_cache : BlockCache unit.
Proof.
  refine {| cblock c b := (c, demo_block b); cinv _ := True; cdata := demo_block; csize := 64 |}.
  - done.
  - intros b. unfold demo_block. by repeat case_decide.
  - intros b. unfold demo_block. repeat case_decide; [by_compute..|]. apply Forall_replicate, Z.mod_pos_bound. done.
  - done.
Defined.

Definition demo_dir_sb : fat_sb_info := SB 1 2 4 4 0 2 0 6 0 64 FAT12.

Lemma demo_dir_layout : layout_ok 6 demo_dir_sb 1.
Proof. constructor; by_compute. Qed.

Lemma demo_dir_chain : dir_chain demo_dir_sb 1 2 [2; 3].
Proof. unfold dir_chain, dir_sector_ok. vm_compute. done. Qed.

Lemma demo_files_ok : Forall file_ok demo_files.
Proof.
  apply Forall_cons; split; [|apply Forall_cons; split; [|done]]; (constructor; [done|by left|]); intros us [= <-].
  split; [simpl; lia|]. repeat constructor; done.
Qed.

Lemma find_entry_spec_witness :
  exists mangled c', mangle_dos_name demo_cp [0x61; 0x42; 0] = Ok mangled /\
    vfat_find_entry 6 demo_dir_sb demo_cp 3 tt [0x61; 0x42; 0] (Pvt 0 2 0 2) =
      Ok (c', (fun f => entry_inode 6 demo_dir_sb (f_short f)) <$> lookup demo_cp [0x61; 0x42] mangled demo_files) /\
    cinv c'.
Proof.
  apply (find_entry_spec demo_cp (conj eq_refl eq_refl) 6 demo_dir_sb 1 demo_dir_layout 3 tt [0x61; 0x42]
           (Pvt 0 2 0 2) [2; 3] demo_files [replicate 32 0]).
  - done.
  - repeat constructor; done.
  - simpl. lia.
  - exact demo_dir_chain.
  - simpl. lia.
  - vm_compute. done.
  - exact demo_files_ok.
  - done.
Defined.

Example demo_found : vfat_find_entry 6 demo_dir_sb demo_cp 3 tt [0x61; 0x42; 0] (Pvt 0 2 0 2) =
  Ok (tt, Some (NewInode 5 (Pvt 2 4 0 4) DT_REG)).
Proof. vm_compute. done. Qed.

(** A file without clusters opens as the root directory. *)
Lemma empty_file_is_root shift sbi de : de_cluster_low de = 0 -> de_cluster_high de = 0 ->
  ni_size (entry_inode shift sbi de) = ni_size (root_inode shift sbi) /\
  ni_pvt (entry_inode shift sbi de) = ni_pvt (root_inode shift sbi).
Proof. intros E1 E2. unfold entry_inode. by rewrite E1, E2, decide_True. Qed.

End FatDirSpec.
