(* ===== verification/FatListSpec.v ===== *)
(** * FAT: the listing of a directory

    [vfat_readdir] gives the files of a directory one after the other, without
    the deleted ones and the volume labels, under their long names where the code
    page has all their characters, and else under their short names.  A file that
    is listed under its long name is found by it. *)

From Stdlib Require Import ZArith Lia.
From S2P Require Import Prelude Dirent CStr BlockCache GetFsSec Fat FatSpec FatDir FatDirSpec.
Import Dirent.Dirent CStr.CStr Fat.Fat FatSpec.FatSpec FatDir.FatDir FatDirSpec.FatDirSpec.

Module FatListSpec.

(** ** Names *)

Section Names.
Context (cp : codepage) (cp_zero : cp_uni cp 0 = 0 /\ cp_uni cp 256 = 0).

(** The character that the code page has for a unit. *)
Definition to_char (u : Z) : option Z := u8 <$> find_code cp 512 0 u.

(** The table of conversions has only right ones. *)
Definition uc_ok (uc : unicache) : Prop := forall u, fst (uc (u mod 256)) = u -> to_char u = Some (snd (uc (u mod 256))).

Lemma find_code_ok n c u : match find_code cp n c u with
  | Some d => c <= d < c + Z.of_nat n /\ cp_uni cp d = u
  | None => forall d, c <= d < c + Z.of_nat n -> cp_uni cp d <> u
  end.
Proof.
  clear cp_zero. revert c. induction n as [|n IH]; intros c; cbn [find_code]; [lia|]. case_decide as E; [split; [lia|done]|].
  specialize (IH (c + 1)). destruct (find_code cp n (c + 1) u) as [d|].
  - split; [lia|tauto].
  - intros d Hd. destruct (decide (d = c)) as [->|]; [done|]. apply IH. lia.
Qed.

Lemma to_char_zero : to_char 0 = Some 0.
Proof. destruct cp_zero as [E _]. unfold to_char. cbn [find_code]. by rewrite decide_True. Qed.

(** The table when the loader starts. *)
Lemma uc_zero_ok : uc_ok (fun _ => (0, 0)).
Proof. intros u <-. apply to_char_zero. Qed.

(** A character of a long name stands for its unit, and only zero for zero. *)
Lemma to_char_matches u c : to_char u = Some c -> char_matches cp c u /\ (u <> 0 -> c <> 0).
Proof.
  unfold to_char. pose proof (find_code_ok 512 0 u) as H. destruct (find_code cp 512 0 u) as [d|]; [|done].
  intros [= <-]. destruct H as [Hd <-]. unfold char_matches, u8. split.
  - destruct (decide (d < 256)); [left; by rewrite Z.mod_small by lia|right].
    assert (d mod 256 = d - 256) as -> by dlia. f_equal. lia.
  - intros H0 E. assert (d = 0 \/ d = 256) as [-> | ->] by dlia; by destruct cp_zero.
Qed.

Lemma cvt_char_ok uc u : uc_ok uc -> uc_ok (fst (cvt_char cp uc u)) /\ snd (cvt_char cp uc u) = to_char u.
Proof.
  clear cp_zero. intros Huc. unfold cvt_char. case_decide as E; [by split; [|rewrite Huc]|]. unfold to_char.
  destruct (find_code cp 512 0 u) as [c|] eqn:Ef; [|done]. split; [|done]. intros v. cbn [fst].
  case_decide as Ev; [|apply Huc]. cbn [fst snd]. intros <-. unfold to_char. by rewrite Ef.
Qed.

Lemma cvt_longname_ok us tail uc en : uc_ok uc -> Forall (fun u => u <> 0) us ->
  exists uc' en' n, vfat_cvt_longname cp uc en (us ++ 0 :: tail) = Ok (uc', en', n) /\ uc_ok uc' /\
    match mapM to_char us with
    | Some cs => en' = en ++ cs ++ [0] /\ n = Z.of_nat (length en + length cs)
    | None => n = -1
    end.
Proof.
  intros Huc Hus. revert uc en Huc. induction Hus as [|u us Hu Hus IH]; intros uc en Huc; cbn [app vfat_cvt_longname].
  - destruct (cvt_char_ok uc 0 Huc) as [Huc' E]. destruct (cvt_char cp uc 0) as [uc' o]. simpl in *. subst o.
    rewrite to_char_zero. do 3 eexists. split; [reflexivity|]. split; [done|]. split; [done|].
    rewrite length_app. simpl. lia.
  - destruct (cvt_char_ok uc u Huc) as [Huc' E]. destruct (cvt_char cp uc u) as [uc' o]. simpl in *. subst o.
    destruct (to_char u) as [c|] eqn:Ec; [|by repeat eexists]. rewrite decide_False by done.
    destruct (IH uc' (en ++ [c]) Huc') as (uc2 & en' & n & E & Huc2 & Hn). exists uc2, en', n. split; [done|]. split; [done|].
    cbn [mbind option_bind]. destruct (mapM to_char us) as [cs|]; cbn [mbind option_bind]; [|done]. destruct Hn as [-> ->].
    rewrite <- app_assoc. split; [done|]. rewrite length_app. simpl. lia.
Qed.

(** The name that a file is listed under: names of 20 slots are taken for too long. *)
Definition long_name (f : file) : option (list Z) :=
  us ← f_long f; if decide (nslots us < 20)%nat then mapM to_char us else None.

Definition listed_name (f : file) : list Z := default (short_name cp (f_short f)) (long_name f).

Definition visible (f : file) : Prop := ~ deleted f /\ Z.land (de_attr (f_short f)) 0x08 = 0.

#[export] Instance visible_dec f : Decision (visible f).
Proof. unfold visible, deleted. apply _. Defined.

(** ** A file *)

Abbreviation run := (list_entries cp).

(** Between files. *)
Definition idle (st : list_state) : Prop :=
  rd_long_entry st = false /\ (rd_next st = 0 \/ rd_next st = 0xff) /\ uc_ok (rd_uc st).

(** The slots from [k] on have been read. *)
Definition reading (us : list Z) (csum : Z) (k : nat) (st : list_state) : Prop :=
  rd_long_name st = buffer us k ++ [0] /\ rd_next st = Z.of_nat k /\ rd_csum st = csum /\ rd_long_entry st = false /\ uc_ok (rd_uc st).

(** All slots have been read, and the name is [cs]. *)
Definition ready (cs : list Z) (csum : Z) (st : list_state) : Prop :=
  rd_filename st = cs ++ [0] /\ rd_name_len st = Z.of_nat (length cs) /\ rd_next st = 0 /\ rd_csum st = csum /\
  rd_long_entry st = true /\ uc_ok (rd_uc st).

(** The entries that were passed. *)
Definition advanced (n : nat) (st st' : list_state) : Prop :=
  0 <= rd_offset st -> rd_offset st + 32 * Z.of_nat n < 0x100000000 -> rd_offset st' = rd_offset st + 32 * Z.of_nat n.

Lemma list_app l1 l2 st :
  run (l1 ++ l2) st = r ← run l1 st; match r with Continue st => run l2 st | Break f => Ok (Break f) end.
Proof.
  revert st. induction l1 as [|de l1 IH]; intros st; [done|]. cbn [app list_entries].
  rewrite bind_assoc. destruct (list_step _ _ _) as [[st'|f]| |]; cbn [mbind result_bind]; [apply IH|done..].
Qed.

Lemma advanced_1 st st' : rd_offset st' = u32 (rd_offset st + 32) -> advanced 1 st st'.
Proof. intros E H0 Hlt. rewrite E. apply u32_small. lia. Qed.

Lemma advanced_trans n m st st1 st2 : advanced n st st1 -> advanced m st1 st2 -> advanced (n + m) st st2.
Proof. unfold advanced. intros H1 H2 H0 Hlt. rewrite H2, H1; lia. Qed.

Lemma copy_app buf tail i de b : copy_long_chunk buf i de = Ok b -> copy_long_chunk (buf ++ tail) i de = Ok (b ++ tail).
Proof.
  clear cp_zero. unfold copy_long_chunk. case_decide as Hi; [|done]. intros [= <-]. rewrite decide_True by (rewrite length_app; lia).
  rewrite take_app_le, drop_app_le, <- !app_assoc by lia. done.
Qed.

(** The name that the slots of a file give. *)
Definition after_slots (us : list Z) (csum : Z) (st : list_state) : Prop :=
  match mapM to_char us with Some cs => ready cs csum st | None => idle st end.

Lemma list_slot_step us csum k top st :
  (1 <= length us <= 260)%nat -> Forall unit_ok us -> (k < nslots us)%nat -> (nslots us < 20)%nat ->
  (if (top : bool) then S k = nslots us /\ idle st else reading us csum (S k) st) ->
  exists st', list_step cp (encode_slot (Z.of_nat (S k) + (if top : bool then 0x40 else 0)) csum (take 13 (drop (13 * k) (padded us)))) st =
      Ok (Continue st') /\ advanced 1 st st' /\
    (match k with O => after_slots us csum st' | S _ => reading us csum k st' end).
Proof.
  intros Hl Hu Hk Hn Hst. destruct (slot_chunk us k Hl Hu Hk) as [Hcl Hcu].
  set (id := Z.of_nat (S k) + _). pose proof (copy_app _ [0] _ _ _ (copy_slot us csum id k Hl Hu Hk)) as Hcopy.
  destruct (encode_slot_ok id csum _ Hcl Hcu) as (E0 & E1 & E2 & _). set (de := encode_slot id csum _) in *.
  destruct (id_bits (Z.of_nat (S k)) ltac:(lia)) as (B1 & B2 & B3). pose proof (nslots_range us Hl).
  destruct st as [uc ln fn nl nx cs le off]. unfold list_step, le_id. rewrite E0, E1, E2.
  rewrite decide_False, decide_False by (unfold id; destruct top; lia). rewrite (decide_True (P := 0x0f = 0x0f)) by done.
  assert (uc_ok uc /\ le = false /\ (if bool_decide (Z.land id 0x40 <> 0) then Z.land id 0x3f else id) = Z.of_nat (S k) /\
    (if bool_decide (Z.land id 0x40 <> 0) then csum else cs) = csum /\
    (if bool_decide (Z.land id 0x40 <> 0) then replicate 261 0 else ln) = buffer us (S k) ++ [0] /\
    negb (bool_decide (Z.land id 0x40 <> 0)) && bool_decide (csum <> cs \/ id <> nx) = false)
    as (Huc & -> & -> & -> & -> & Hcs).
  { unfold id. destruct top.
    - destruct Hst as [Ek (Hle & _ & Huc)]. rewrite bool_decide_true, B2 by done. splits; try done.
      by rewrite Ek, buffer_start.
    - destruct Hst as (Hln & Hnx & Hcs & Hle & Huc). cbn in *. rewrite Z.add_0_r, B3, bool_decide_false by lia. splits; try done.
      subst. by rewrite bool_decide_false by lia. }
  rewrite Hcs. rewrite (bool_decide_false (Z.of_nat (S k) >= 20)), andb_false_r by lia.
  rewrite u8_small by lia. replace (Z.of_nat (S k) - 1) with (Z.of_nat k) by lia. rewrite Hcopy. cbn [mbind result_bind].
  destruct k as [|k].
  - rewrite decide_True by done. unfold buffer, padded. replace (13 * 0)%nat with 0%nat by lia. rewrite drop_0. cbn [replicate app].
    rewrite <- !app_assoc.
    assert (exists tail, padding (13 * nslots us - length us) ++ replicate (260 - 13 * nslots us) 0 ++ [0] = 0 :: tail) as [tail ->].
    { destruct (13 * nslots us - length us)%nat; [|by eexists]. cbn [padding app]. destruct (260 - 13 * nslots us)%nat; by eexists. }
    destruct (cvt_longname_ok us tail uc [] Huc) as (uc' & en & n & -> & Huc' & Hn').
    { eapply Forall_impl; [exact Hu|]. unfold unit_ok. lia. }
    cbn [mbind result_bind]. eexists. split; [reflexivity|]. split; [by apply advanced_1|]. unfold after_slots.
    destruct (mapM to_char us) as [cs'|] eqn:Em.
    + destruct Hn' as [-> ->]. apply length_mapM in Em. pose proof (nslots_bounds us). unfold ready. cbn.
      rewrite bool_decide_true by (unfold NAME_MAX; lia). by splits.
    + subst n. unfold idle. cbn. splits; try done. by left.
  - rewrite decide_False by lia. eexists. split; [reflexivity|]. split; [by apply advanced_1|]. unfold reading. cbn. by splits.
Qed.

Lemma slots_read us csum k top st :
  (1 <= length us <= 260)%nat -> Forall unit_ok us -> (S k <= nslots us)%nat -> (nslots us < 20)%nat ->
  (if (top : bool) then S k = nslots us /\ idle st else reading us csum (S k) st) ->
  exists st', run (slots csum (padded us) (S k) top) st = Ok (Continue st') /\ advanced (S k) st st' /\ after_slots us csum st'.
Proof.
  intros Hl Hu. revert top st. induction k as [|k IH]; intros top st Hk Hn Hst.
  - destruct (list_slot_step us csum 0 top st Hl Hu ltac:(lia) Hn Hst) as (st' & E & Hst').
    cbn [slots list_entries]. rewrite E. by exists st'.
  - destruct (list_slot_step us csum (S k) top st Hl Hu ltac:(lia) Hn Hst) as (st' & E & Ha & Hst').
    cbn [slots] in *. cbn [list_entries]. rewrite E. cbn [mbind result_bind].
    destruct (IH false st') as (st2 & E2 & Ha2 & H2); [lia|done|done|]. exists st2. split; [done|]. split; [|done].
    by apply (advanced_trans 1 (S k) st st').
Qed.
(** A name of 20 slots is passed over. *)
Lemma long_slots csum l k top st : (k <= 20)%nat ->
  (forall j, (j < k)%nat -> length (take 13 (drop (13 * j) l)) = 13%nat /\ Forall (fun u => 0 <= u < 65536) (take 13 (drop (13 * j) l))) ->
  (if (top : bool) then k = 20%nat /\ idle st else (k < 20)%nat /\ idle st /\ rd_csum st = csum) ->
  exists st', run (slots csum l k top) st = Ok (Continue st') /\ advanced k st st' /\ idle st'.
Proof.
  clear cp_zero. revert top st. induction k as [|k IH]; intros top st Hk Hl Hst.
  - exists st. split; [done|]. split; [unfold advanced; lia|]. destruct top; [destruct Hst; lia|apply Hst].
  - cbn [slots list_entries]. destruct (Hl k ltac:(lia)) as [Hcl Hcu].
    destruct (encode_slot_ok (Z.of_nat (S k) + (if top then 0x40 else 0)) csum _ Hcl Hcu) as (E0 & E1 & E2 & _).
    set (de := encode_slot _ _ _) in *. destruct (id_bits (Z.of_nat (S k)) ltac:(lia)) as (B1 & B2 & B3).
    assert (exists st', list_step cp de st = Ok (Continue st') /\ advanced 1 st st' /\ idle st' /\ rd_csum st' = csum)
      as (st' & -> & Ha & Hi & Hc).
    { destruct st as [uc ln fn nl nx cs le off]. unfold list_step, le_id. rewrite E0, E1, E2.
      rewrite decide_False, decide_False by (destruct top; lia). rewrite (decide_True (P := 0x0f = 0x0f)) by done. destruct top.
      - destruct Hst as [Ek (Hle & Hnx & Huc)]. cbn in Hle, Hnx, Huc. rewrite bool_decide_true, B2 by done.
        rewrite (bool_decide_true (Z.of_nat (S k) >= 20)) by lia. cbn [andb].
        eexists. split; [reflexivity|]. split; [by apply advanced_1|]. done.
      - destruct Hst as (Hk' & (Hle & Hnx & Huc) & Hcs). cbn in Hle, Hnx, Huc, Hcs. rewrite Z.add_0_r, B3.
        rewrite (bool_decide_false (0 <> 0)) by lia. cbn [andb negb]. rewrite bool_decide_true by lia.
        eexists. split; [reflexivity|]. split; [by apply advanced_1|]. done. }
    cbn [mbind result_bind]. destruct (IH false st') as (st2 & E & Ha2 & H2); [lia|intros; apply Hl; lia| |].
    { split; [destruct top; lia|done]. }
    exists st2. split; [done|]. split; [|done]. by apply (advanced_trans 1 k st st').
Qed.

(** The short entry: it is got under its long name, if there is one, or passed. *)
Lemma list_short_step f st (o : option (list Z)) : file_ok f ->
  match o with Some cs => ready cs (get_checksum (de_name (f_short f))) st | None => idle st end ->
  if decide (visible f) then
    list_step cp (f_short f) st = Ok (Break (st, Got (f_short f) (default (short_name cp (f_short f)) o)))
  else exists st', list_step cp (f_short f) st = Ok (Continue st') /\ advanced 1 st st' /\ idle st'.
Proof.
  clear cp_zero. intros [H0 H1 _] Hst. destruct st as [uc ln fn nl nx cs le off].
  assert (uc_ok uc /\ (nx = 0 \/ nx = 0xff)) as [Huc Hnx].
  { destruct o; [destruct Hst as (_ & _ & ? & _ & _ & ?); auto|destruct Hst as (_ & ? & ?); auto]. }
  unfold list_step. rewrite (decide_False (P := de_byte (f_short f) 0 = 0)) by done. unfold visible, deleted in *.
  destruct (decide (de_byte (f_short f) 0 = 0xe5)) as [Hd|Hd].
  { rewrite (decide_False (P := _ /\ _)) by tauto. eexists. split; [reflexivity|]. split; [by apply advanced_1|]. done. }
  assert (de_attr (f_short f) <> 0x0f) as Ha by (by destruct H1 as [?|[_ ?]]). rewrite (decide_False (P := _ = 0x0f)) by done.
  destruct (decide (Z.land (de_attr (f_short f)) 0x08 = 0)) as [Hv|Hv].
  - rewrite (decide_True (P := ~ _ /\ _)), decide_False by (done || (intros H; by apply H)). destruct o as [n|].
    + destruct Hst as (Hf & Hl & _ & Hcs & Hle & _). cbn in Hf, Hl, Hcs, Hle. rewrite Hle, Hcs, Hf, Hl, bool_decide_true by done.
      cbn [andb default]. by rewrite Nat2Z.id, take_app_length.
    + destruct Hst as (Hle & _). cbn in Hle. by rewrite Hle.
  - rewrite (decide_False (P := ~ _ /\ _)), decide_True by (done || tauto).
    eexists. split; [reflexivity|]. split; [by apply advanced_1|]. done.
Qed.

(** A whole file. *)
Lemma file_listed f st : file_ok f -> idle st ->
  if decide (visible f) then
    exists st', run (encode f) st = Ok (Break (st', Got (f_short f) (listed_name f))) /\ advanced (length (encode f) - 1) st st' /\
      uc_ok (rd_uc st')
  else exists st', run (encode f) st = Ok (Continue st') /\ advanced (length (encode f)) st st' /\ idle st'.
Proof.
  intros Hf Hst. unfold encode. set (cs := get_checksum (de_name (f_short f))).
  set (sl := match f_long f with Some us => _ | None => [] end).
  assert (exists st1, run sl st = Ok (Continue st1) /\ advanced (length sl) st st1 /\
    match long_name f with Some n => ready n cs st1 | None => idle st1 end) as (st1 & E1 & Ha1 & H1).
  { unfold sl, long_name. destruct (f_long f) as [us|] eqn:El.
    2: { exists st. split; [done|]. split; [unfold advanced; simpl; lia|done]. }
    destruct (fo_long f Hf us El) as [Hl Hu]. pose proof (nslots_range us Hl) as Hn. cbn [mbind option_bind].
    assert (forall k top, length (slots cs (padded us) k top) = k) as Hlen.
    { intros k. induction k as [|k IH]; intros top; [done|]. cbn [slots length]. by rewrite IH. }
    rewrite Hlen. case_decide as H20.
    - destruct (nslots us) as [|k] eqn:Ek; [lia|]. rewrite <- Ek in *.
      destruct (slots_read us cs k true st Hl Hu ltac:(lia) H20) as (st1 & E & Ha & Hs); [by split|].
      rewrite Ek. exists st1. by split.
    - destruct (long_slots cs (padded us) (nslots us) true st ltac:(lia)) as (st1 & E & Ha & Hs); [|split; [lia|done]|by exists st1].
      intros j Hj. by apply slot_chunk. }
  pose proof (list_short_step f st1 (long_name f) Hf H1) as Hs. rewrite list_app, E1, length_app. cbn [mbind result_bind list_entries length].
  case_decide.
  - exists st1. rewrite Hs. cbn [mbind result_bind]. split; [done|]. rewrite Nat.add_sub. split; [done|].
    destruct (long_name f); [apply H1|by destruct H1 as (_ & _ & ?)].
  - destruct Hs as (st2 & -> & Ha2 & Hi2). cbn [mbind result_bind]. exists st2. split; [done|]. split; [|done].
    by apply (advanced_trans _ 1 st st1).
Qed.

(** ** A directory *)

Definition entries (files : list file) : nat := length (concat (encode <$> files)).

(** The first file that is listed, the number of entries before its short one, and
    the files after it. *)
Fixpoint next_file (n : nat) (files : list file) : option (file * nat * list file) :=
  match files with
  | [] => None
  | f :: files => if decide (visible f) then Some (f, (n + (length (encode f) - 1))%nat, files)
                  else next_file (n + length (encode f)) files
  end.

Lemma entries_cons f files : entries (f :: files) = (length (encode f) + entries files)%nat.
Proof. unfold entries. rewrite fmap_cons. cbn [concat]. by rewrite length_app. Qed.

Lemma encode_nonempty f : (1 <= length (encode f))%nat.
Proof. unfold encode. rewrite length_app. simpl. lia. Qed.

Lemma files_listed files mark rest st n0 : Forall file_ok files -> de_byte mark 0 = 0 -> idle st ->
  rd_offset st = 32 * Z.of_nat n0 -> 32 * Z.of_nat (n0 + entries files) < 0x100000000 ->
  exists st', uc_ok (rd_uc st') /\
    match next_file n0 files with
    | Some (f, n, _) => run (concat (encode <$> files) ++ mark :: rest) st = Ok (Break (st', Got (f_short f) (listed_name f))) /\
        rd_offset st' = 32 * Z.of_nat n
    | None => run (concat (encode <$> files) ++ mark :: rest) st = Ok (Break (st', EndOfDir)) /\
        rd_offset st' = 32 * Z.of_nat (n0 + entries files)
    end.
Proof.
  intros Hok Hmark. revert st n0. induction Hok as [|f files Hf Hok IH]; intros st n0 Hst Ho Hlt.
  - exists st. cbn. split; [apply Hst|]. unfold list_step. destruct st. rewrite decide_True by done. cbn. by rewrite Nat.add_0_r.
  - pose proof (file_listed f st Hf Hst) as H. rewrite entries_cons in *. cbn [next_file]. rewrite fmap_cons. cbn [concat].
    rewrite <- app_assoc, list_app. pose proof (encode_nonempty f). case_decide.
    + destruct H as (st' & -> & Ha & Huc). cbn [mbind result_bind]. exists st'. split; [done|]. split; [done|].
      rewrite Ha, Ho by lia. lia.
    + destruct H as (st' & -> & Ha & Hi). cbn [mbind result_bind]. rewrite Nat.add_assoc. apply IH; [done| |lia].
      rewrite Ha, Ho by lia. lia.
Qed.

Lemma next_file_rest n files f n' rest : next_file n files = Some (f, n', rest) ->
  exists before, files = before ++ rest /\ f ∈ before /\ (S n' = n + entries before)%nat.
Proof.
  clear cp_zero. revert n. induction files as [|g files IH]; intros n; cbn [next_file]; [done|]. pose proof (encode_nonempty g). case_decide.
  - intros [= -> <- <-]. exists [f]. splits; [done|by left|]. unfold entries. cbn. rewrite app_nil_r. lia.
  - intros (before & -> & Hin & E)%IH. exists (g :: before). splits; [done|by right|]. rewrite entries_cons. lia.
Qed.
End Names.

(** The first element that a search finds. *)
Lemma find_first {T} (P : T -> Prop) `{forall x, Decision (P x)} l x : x ∈ l -> P x ->
  exists before y after, List.find (fun x => bool_decide (P x)) l = Some y /\ l = before ++ y :: after /\
    P y /\ Forall (fun z => ~ P z) before /\ x ∈ y :: after.
Proof.
  induction l as [|h l IH]; intros Hin Hx; [by apply elem_of_nil in Hin|]. cbn [List.find]. case_bool_decide as Hh.
  - by exists [], h, l.
  - apply elem_of_cons in Hin as [->|Hin]; [done|]. destruct (IH Hin Hx) as (before & y & after & -> & -> & Hy & Hb & Hxy).
    exists (h :: before), y, after. splits; try done. by constructor.
Qed.

(** ** The sectors *)

Section Dir.
Context (cp : codepage) (cp_zero : cp_uni cp 0 = 0 /\ cp_uni cp 256 = 0).
Context {C : Type} `{BC : !BlockCache C}.
Context (shift : Z) (sbi : fat_sb_info) (fat_secs : Z) (Hlay : layout_ok shift sbi fat_secs) (shift_dir : 5 <= shift).
Context (fuel : nat).

Lemma sector_small x : dir_sector_ok sbi x -> 0 < x < 0x100000000.
Proof. intros Hx. unfold dir_sector_ok in Hx. pose proof (lo_end _ _ _ Hlay). lia. Qed.

Lemma read_sector_ok c x : cinv c -> dir_sector_ok sbi x ->
  exists c', cblock c x = (c', cdata x) /\ cinv c'.
Proof.
  intros Hc Hx. pose proof (sector_small x Hx).
  destruct (cblock_ok c x Hc) as [E1 Hc1]; [change (u64 (-1)) with 0xffffffffffffffff; lia|].
  destruct (cblock c x) as [c' data]. simpl in *. subst. eauto.
Qed.

Abbreviation per_sector := (Z.to_nat (2 ^ (shift - 5))).

Lemma per_sector_eq : 2 ^ shift = 32 * 2 ^ (shift - 5) /\ 0 < 2 ^ (shift - 5) /\
  forall x, length (sector_entries shift (cdata x)) = per_sector.
Proof.
  split; [change 32 with (2 ^ 5); rewrite <- Z.pow_add_r by lia; f_equal; lia|]. split; [apply Z.pow_pos_nonneg; lia|].
  intros x. unfold sector_entries. rewrite length_fmap, length_seq, shiftl_mul, Z.mul_1_l by lia. done.
Qed.

(** The entries from one on. *)
Lemma entries_from l n : (n < per_sector * length l)%nat -> let k := (n / per_sector)%nat in let j := (n mod per_sector)%nat in
  exists x, l !! k = Some x /\
    drop n (dir_entries shift l) = drop j (sector_entries shift (cdata x)) ++ dir_entries shift (drop (S k) l).
Proof.
  destruct per_sector_eq as (_ & Hp & Hlen). intros Hn k j.
  assert (per_sector <> 0)%nat as Hp0 by lia. pose proof (Nat.div_mod n per_sector Hp0) as En.
  pose proof (Nat.mod_upper_bound n per_sector Hp0) as Hj. fold k j in En, Hj. clearbody k j. subst n.
  revert k Hn. induction l as [|y l' IH]; intros k Hn; [simpl in Hn; lia|].
  unfold dir_entries in *. cbn [fmap list_fmap concat length] in *. destruct k as [|k].
  - exists y. split; [done|]. rewrite Nat.mul_0_r, Nat.add_0_l, drop_app_le by (rewrite Hlen; lia). done.
  - destruct (IH k ltac:(lia)) as (x & Hx & E). exists x. split; [done|].
    rewrite drop_app_ge by (rewrite Hlen; lia). rewrite Hlen. cbn [drop]. rewrite <- E. f_equal. lia.
Qed.

(** The directory of the sectors [l], and the place that the inode keeps: the
    sector with its number. *)
Context (first : Z) (l : list Z) (l_chain : dir_chain sbi fat_secs first l) (l_fuel : (length l < fuel)%nat).

Definition at_sector (k : nat) (pv : fat_pvt_inode) : Prop :=
  p_start pv = first /\ p_offset pv = Z.of_nat k /\ l !! k = Some (p_here pv).

Definition placed (pv : fat_pvt_inode) : Prop := exists k, at_sector k pv.

(** The place of a new inode. *)
Lemma new_placed cl : l <> [] -> placed (Pvt cl first 0 first).
Proof.
  intros Hl. exists 0%nat. unfold at_sector. pose proof l_chain as Hch. destruct l as [|x l'] eqn:E; [done|].
  by destruct Hch as (-> & _).
Qed.

Lemma chain_at k x : l !! k = Some x -> dir_sector_ok sbi x /\
  dir_chain sbi fat_secs (sector_after sbi fat_secs x) (drop (S k) l) /\ drop k l = x :: drop (S k) l.
Proof.
  clear l_fuel. revert first l_chain k. induction l as [|y l' IH]; intros first' Hch k; [done|]. destruct Hch as (-> & Hy & Hch).
  destruct k as [|k]; [intros [= <-]; by rewrite drop_0|]. apply (IH _ Hch).
Qed.

Lemma chain_next k x y : l !! k = Some x -> l !! S k = Some y -> sector_after sbi fat_secs x = y.
Proof.
  intros Hx Hy. destruct (chain_at k x Hx) as (_ & Hch & _). rewrite (drop_S _ _ _ Hy) in Hch. by destruct Hch.
Qed.

(** Walking forward along the chain. *)
Lemma seek_ok n k m c x : l !! k = Some x -> (k + n = m)%nat -> (m < length l)%nat -> Z.of_nat m < 0x100000000 ->
  forall fl, (n < fl)%nat -> cinv c ->
  exists c' y, loop fl (seek_step shift sbi (Z.of_nat m)) (c, Z.of_nat k, x) = Ok (c', y) /\ cinv c' /\ l !! m = Some y.
Proof.
  revert k c x. induction n as [|n IH]; intros k c x Hx Hkm Hm Hsm fl Hfl Hc; (destruct fl as [|fl]; [lia|]).
  - exists c, x. replace m with k by lia. splits; try done. apply loop_break. unfold seek_step. by rewrite decide_False by lia.
  - destruct (chain_at k x Hx) as (Hok & _). destruct (get_next_sector_ok shift sbi fat_secs Hlay c x Hc Hok) as (c1 & E & Hc1).
    destruct (lookup_lt_is_Some_2 l (S k) ltac:(lia)) as [y Hy].
    destruct (IH (S k) c1 y Hy ltac:(lia) Hm Hsm fl ltac:(lia) Hc1) as (c2 & z & E2 & H). exists c2, z. split; [|done].
    rewrite (loop_continue _ _ _ (c1, Z.of_nat (S k), y)); [done|]. unfold seek_step. rewrite decide_True by lia.
    rewrite E. cbn [mbind result_bind]. rewrite (chain_next k x y) by done. rewrite u32_small by lia. do 3 f_equal. f_equal. lia.
Qed.

Lemma right_sector_ok c pv m offset : cinv c -> placed pv -> Z.shiftr offset shift = Z.of_nat m -> (m < length l)%nat ->
  Z.of_nat (length l) < 0x100000000 ->
  exists c' pv' y, get_the_right_sector shift sbi fuel c pv offset = Ok (c', pv', y) /\ cinv c' /\ at_sector m pv' /\ l !! m = Some y.
Proof.
  intros Hc (k & Hst & Ho & Hh) Em Hm Hsm. unfold get_the_right_sector. rewrite Em, Ho.
  pose proof (lookup_lt_Some _ _ _ Hh) as Hk.
  assert (exists j x, (j <= m)%nat /\ (if decide (Z.of_nat m < Z.of_nat k) then (0, p_start pv) else (u32 (Z.of_nat k), p_here pv)) =
    (Z.of_nat j, x) /\ l !! j = Some x) as (j & x & Hj & -> & Hx).
  { case_decide.
    - exists 0%nat, first. split; [lia|]. rewrite Hst. split; [done|]. pose proof l_chain as Hch.
      destruct l as [|y l'] eqn:E; [done|]. by destruct Hch as (-> & _).
    - exists k, (p_here pv). rewrite u32_small by lia. split; [lia|]. by split. }
  destruct (seek_ok (m - j) j m c x Hx ltac:(lia) Hm ltac:(lia) fuel ltac:(lia) Hc) as (c' & y & -> & Hc' & Hy).
  cbn [mbind result_bind]. eexists c', _, y. splits; try done.
Qed.

(** Going over the sectors is going over their entries. *)
Lemma sectors_listed st' r ls : forall k c pv des st fl,
  drop (S k) l = ls -> at_sector k pv -> cinv c -> (length ls < fl)%nat -> Z.of_nat (length l) < 0x100000000 ->
  list_entries cp (des ++ dir_entries shift ls) st = Ok (Break (st', r)) ->
  exists c' pv', loop fl (list_sector shift sbi cp) (c, pv, des, st) = Ok (c', pv', st', r) /\ cinv c' /\ placed pv'.
Proof.
  induction ls as [|x ls IH]; intros k c pv des st fl Hd Hpv Hc Hfl Hsm Hr; (destruct fl as [|fl]; [simpl in Hfl; lia|]);
    rewrite list_app in Hr; destruct (list_entries cp des st) as [[st1|f]| |] eqn:E; cbn [mbind result_bind] in Hr; try done.
  - injection Hr as ->. exists c, pv. split; [|split; [done|by exists k]]. apply loop_break. unfold list_sector. by rewrite E.
  - assert (l !! S k = Some x) as Hx by (rewrite <- (Nat.add_0_r (S k)), <- lookup_drop, Hd; done).
    destruct Hpv as (Hst & Ho & Hh). destruct (chain_at k _ Hh) as (Hok & _).
    destruct (get_next_sector_ok shift sbi fat_secs Hlay c (p_here pv) Hc Hok) as (c1 & En & Hc1).
    rewrite (chain_next k _ x Hh Hx) in En. destruct (chain_at (S k) x Hx) as (Hokx & _).
    destruct (read_sector_ok c1 x Hc1 Hokx) as (c2 & Eb & Hc2). pose proof (sector_small x Hokx).
    pose proof (lookup_lt_Some _ _ _ Hx) as Hkl.
    set (pv1 := Pvt (start_cluster pv) (p_start pv) (u64 (p_offset pv + 1)) x).
    assert (list_sector shift sbi cp (c, pv, des, st) = Ok (Continue (c2, pv1, sector_entries shift (cdata x), st1))) as Estep.
    { unfold list_sector, next_sector. rewrite E. cbn [mbind result_bind]. rewrite En. cbn [mbind result_bind].
      by rewrite decide_False, Eb by lia. }
    rewrite (loop_continue _ _ _ _ Estep). apply (IH (S k)); try done; [|split; [done|]|simpl in Hfl; lia].
    + by rewrite <- Nat.add_1_r, <- drop_drop, Hd.
    + cbn. rewrite Ho, u64_small by lia. split; [lia|done].
  - injection Hr as ->. exists c, pv. split; [|split; [done|by exists k]]. apply loop_break. unfold list_sector. by rewrite E.
Qed.
(** ** One call *)

Definition file_dirent (f : file) (n : nat) : dirent :=
  let de := f_short f in
  let name := listed_name cp f in
  Dirent_ (u32 (Z.lor (de_cluster_low de) (Z.shiftl (de_cluster_high de) 16))) (32 * Z.of_nat n)
    (u16 (d_name_offset + Z.of_nat (length name) + 1)) (dt_value (get_inode_mode (de_attr de))) name.

(** The files of the directory, up to a mark for its end. *)
Context (files : list file) (mark : dir_entry) (rest : list dir_entry).
Context (files_ok : Forall file_ok files) (mark_zero : de_byte mark 0 = 0).
Context (dir_files : dir_entries shift l = concat (encode <$> files) ++ mark :: rest).
Context (dir_small : 32 * Z.of_nat (length (dir_entries shift l)) < 0x100000000).

Lemma dir_length : length (dir_entries shift l) = (per_sector * length l)%nat.
Proof.
  clear - shift_dir. unfold dir_entries. induction l as [|x l' IH]; [simpl; lia|]. cbn [fmap list_fmap concat length].
  rewrite length_app, IH. unfold sector_entries. rewrite length_fmap, length_seq, shiftl_mul, Z.mul_1_l by lia. lia.
Qed.

Lemma sector_rest j data : (j <= per_sector)%nat ->
  (fun k => sub data (32 * Z.of_nat j + 32 * Z.of_nat k) 32) <$> seq 0 (per_sector - j) = drop j (sector_entries shift data).
Proof.
  clear - shift_dir. intros Hj. unfold sector_entries. rewrite shiftl_mul, Z.mul_1_l by lia. rewrite <- fmap_drop, drop_seq, Nat.add_0_l.
  assert (seq j (per_sector - j) = Nat.add j <$> seq 0 (per_sector - j)) as -> by (rewrite fmap_add_seq; f_equal; lia).
  rewrite <- list_fmap_compose. apply list_fmap_ext. intros _ k _. cbn. f_equal. lia.
Qed.

(** The offset of entry [n], in its sector. *)
Lemma offset_parts n : Z.shiftr (32 * Z.of_nat n) shift = Z.of_nat (n / per_sector) /\
  Z.land (32 * Z.of_nat n) (2 ^ shift - 1) = 32 * Z.of_nat (n mod per_sector) /\
  Z.to_nat (Z.shiftr (2 ^ shift - 32 * Z.of_nat (n mod per_sector)) 5) = (per_sector - n mod per_sector)%nat.
Proof.
  destruct per_sector_eq as (E & Hp & _). rewrite land_ones_mod, !shiftr_div, E by lia. change (2 ^ 5) with 32.
  rewrite Z.mul_mod_distr_l, Z.div_mul_cancel_l by lia.
  pose proof (Nat2Z.inj_div n per_sector) as Ed. pose proof (Nat2Z.inj_mod n per_sector) as Em. rewrite Z2Nat.id in Ed, Em by lia.
  splits; [done|by rewrite Em|]. rewrite <- Z.mul_sub_distr_l, (Z.mul_comm 32), Z.div_mul by lia. lia.
Qed.

Lemma readdir_ok before after c uc pv : files = before ++ after -> cinv c -> uc_ok cp uc -> placed pv ->
  exists c' uc' pv', cinv c' /\ uc_ok cp uc' /\ placed pv' /\
    vfat_readdir shift sbi cp fuel c uc pv (32 * Z.of_nat (entries before)) =
      match next_file (entries before) after with
      | Some (f, n, _) => Ok (c', uc', pv', 32 * Z.of_nat (S n), Some (file_dirent f n))
      | None => Ok (c', uc', pv', 32 * Z.of_nat (entries files), None)
      end.
Proof.
  intros Ef Hc Huc Hpv. set (n0 := entries before).
  assert (entries files = n0 + entries after)%nat as En by (unfold n0, entries; by rewrite Ef, fmap_app, concat_app, length_app).
  assert (n0 + entries after < length (dir_entries shift l))%nat as Hn0.
  { rewrite dir_files, length_app. fold (entries files). simpl. lia. }
  pose proof dir_length as Hdl. destruct per_sector_eq as (_ & Hp & Hlen).
  assert (Z.of_nat (length l) < 0x100000000) as Hll by nia.
  destruct (entries_from l n0 ltac:(lia)) as (x & Hx & Edrop). destruct (offset_parts n0) as (E1 & E2 & E3).
  set (k := (n0 / per_sector)%nat) in *. set (j := (n0 mod per_sector)%nat) in *.
  assert (j < per_sector)%nat as Hj by (apply Nat.mod_upper_bound; lia).
  set (st0 := ListState uc [] [] 0 0xff 0xff false (32 * Z.of_nat n0)).
  assert (Forall file_ok after) as Hafter by (pose proof files_ok as H; rewrite Ef in H; apply Forall_app in H; apply H).
  destruct (files_listed cp cp_zero after mark rest st0 n0 Hafter mark_zero) as (st' & Huc' & Hrun); [|done|lia|].
  { split; [done|]. split; [by right|done]. }
  assert (concat (encode <$> after) ++ mark :: rest = drop j (sector_entries shift (cdata x)) ++ dir_entries shift (drop (S k) l)) as Elist.
  { rewrite <- Edrop, dir_files, Ef, fmap_app, concat_app, <- app_assoc. symmetry. by apply drop_app_length'. }
  rewrite Elist in Hrun.
  destruct (right_sector_ok c pv k (32 * Z.of_nat n0) Hc Hpv E1) as (c1 & pv1 & y & Er & Hc1 & Hat & Hy); [by eapply lookup_lt_Some|done|].
  assert (y = x) as -> by congruence. destruct (chain_at k x Hx) as (Hok & _).
  destruct (read_sector_ok c1 x Hc1 Hok) as (c2 & Eb & Hc2).
  assert (forall r, list_entries cp (drop j (sector_entries shift (cdata x)) ++ dir_entries shift (drop (S k) l)) st0 = Ok (Break (st', r)) ->
    exists c' pv', cinv c' /\ placed pv' /\ vfat_readdir shift sbi cp fuel c uc pv (32 * Z.of_nat n0) =
      match r with
      | EndOfDir => Ok (c', rd_uc st', pv', rd_offset st', None)
      | Got de name => Ok (c', rd_uc st', pv', u32 (rd_offset st' + 32),
          Some (Dirent_ (u32 (Z.lor (de_cluster_low de) (Z.shiftl (de_cluster_high de) 16))) (rd_offset st')
                  (u16 (d_name_offset + Z.of_nat (length name) + 1)) (dt_value (get_inode_mode (de_attr de))) name))
      end) as Hcall.
  { intros r Hr. destruct (sectors_listed st' r (drop (S k) l) k c2 pv1 (drop j (sector_entries shift (cdata x))) st0 fuel eq_refl Hat Hc2) as (c3 & pv3 & El & Hc3 & Hp3);
      [rewrite length_drop; lia|done|exact Hr|].
    exists c3, pv3. split; [done|]. split; [done|]. unfold vfat_readdir. rewrite Er. cbn [mbind result_bind].
    rewrite Eb, E2, E3, sector_rest by lia. fold st0. rewrite El. cbn [mbind result_bind]. by destruct r. }
  destruct (next_file n0 after) as [[[f n] af]|] eqn:Enext; destruct Hrun as [Hrun Ho].
  - destruct (Hcall _ Hrun) as (c3 & pv3 & Hc3 & Hp3 & E). exists c3, (rd_uc st'), pv3. splits; try done.
    destruct (next_file_rest n0 after f n af Enext) as (bf & -> & _ & Hn).
    assert (entries (bf ++ af) = entries bf + entries af)%nat as Hab by (unfold entries; by rewrite fmap_app, concat_app, length_app).
    rewrite E, Ho, u32_small by lia. unfold file_dirent. do 4 f_equal. lia.
  - destruct (Hcall _ Hrun) as (c3 & pv3 & Hc3 & Hp3 & E). exists c3, (rd_uc st'), pv3. splits; try done.
    by rewrite E, Ho, En.
Qed.
(** ** All calls *)

(** The entries that the calls give, one after the other, to the end of the
    directory. *)
Fixpoint list_dir (calls : nat) (c : C) (uc : unicache) (pv : fat_pvt_inode) (offset : Z) : result (list dirent) :=
  match calls with
  | O => NoFuel
  | S calls =>
      '(c, uc, pv, offset, e) ← vfat_readdir shift sbi cp fuel c uc pv offset;
      match e with
      | Some d => ds ← list_dir calls c uc pv offset; Ok (d :: ds)
      | None => Ok []
      end
  end.

(** The entries of the files that are listed; [n] entries are before them. *)
Fixpoint listing (n : nat) (fs : list file) : list dirent :=
  match fs with
  | [] => []
  | f :: fs => (if decide (visible f) then [file_dirent f (n + (length (encode f) - 1))] else []) ++ listing (n + length (encode f)) fs
  end.

Lemma listing_next n fs : match next_file n fs with
  | Some (f, m, after) => listing n fs = file_dirent f m :: listing (S m) after /\ (length after < length fs)%nat
  | None => listing n fs = []
  end.
Proof.
  clear. revert n. induction fs as [|f fs IH]; intros n; [done|]. cbn [next_file listing length]. case_decide.
  - cbn [app]. pose proof (encode_nonempty f). split; [|lia]. do 2 f_equal. lia.
  - specialize (IH (n + length (encode f))%nat). cbn [app]. destruct (next_file _ _) as [[[g m] after]|]; [|done].
    destruct IH as [-> ?]. split; [done|lia].
Qed.

Lemma listing_names n fs : d_name <$> listing n fs = listed_name cp <$> filter visible fs.
Proof.
  clear. revert n. induction fs as [|f fs IH]; intros n; [done|]. cbn [listing]. rewrite fmap_app, IH, filter_cons. by case_decide.
Qed.

Lemma list_dir_ok calls before after c uc pv : files = before ++ after -> cinv c -> uc_ok cp uc -> placed pv -> (length after < calls)%nat ->
  list_dir calls c uc pv (32 * Z.of_nat (entries before)) = Ok (listing (entries before) after).
Proof.
  revert before after c uc pv. induction calls as [|calls IH]; intros before after c uc pv Ef Hc Huc Hpv Hlen; [lia|].
  destruct (readdir_ok before after c uc pv Ef Hc Huc Hpv) as (c1 & uc1 & pv1 & Hc1 & Huc1 & Hpv1 & E).
  cbn [list_dir]. rewrite E. pose proof (listing_next (entries before) after) as Hl.
  destruct (next_file _ _) as [[[f n] rest']|] eqn:En; cbn [mbind result_bind]; [|by rewrite Hl].
  destruct Hl as [-> Hlt]. destruct (next_file_rest _ _ _ _ _ En) as (bf & -> & _ & Hn).
  assert (S n = entries (before ++ bf)) as En' by (unfold entries in *; rewrite fmap_app, concat_app, length_app; lia).
  rewrite En', (IH (before ++ bf) rest'); [done|by rewrite <- app_assoc|done..|]. lia.
Qed.

(** C17. Reading a directory from its start, call by call, gives an entry for each of
    its files in order, without the deleted ones and the volume labels: the name is
    the long one in the code page, or the short one where a character is missing or
    the name has 20 slots; the number is that of the first cluster, and the offset
    that of the short entry.  The calls end at the mark of the end. *)
Theorem fat_lists_files c uc pv : cinv c -> uc_ok cp uc -> placed pv ->
  list_dir (S (length files)) c uc pv 0 = Ok (listing 0 files) /\
  d_name <$> listing 0 files = listed_name cp <$> filter visible files.
Proof.
  intros Hc Huc Hpv. split; [|apply listing_names].
  apply (list_dir_ok (S (length files)) [] files c uc pv eq_refl Hc Huc Hpv). lia.
Qed.

(** C18. A long name under which a file is listed finds the first file of the directory
    that has this name, in the sense of the search: its long name is equal to it
    character by character, in one of the two cases of the code page, or its short
    name is the 8.3 form of it.  The file that was listed is one of the files that
    have the name, so it is this first one or comes after it. *)
Theorem listed_name_finds f n c dir : f ∈ files -> visible f -> long_name cp f = Some n -> cinv c -> p_start dir = first ->
  exists m before g after c', mangle_dos_name cp (n ++ [0]) = Ok m /\
    vfat_find_entry shift sbi cp fuel c (n ++ [0]) dir = Ok (c', Some (entry_inode shift sbi (f_short g))) /\ cinv c' /\
    files = before ++ g :: after /\ file_matches cp n m g /\ Forall (fun h => ~ file_matches cp n m h) before /\
    file_matches cp n m f /\ f ∈ g :: after.
Proof.
  intros Hf Hv Hn Hc Hdir. pose proof files_ok as Hall. rewrite Forall_forall in Hall. pose proof (Hall f Hf) as Hfo.
  unfold long_name in Hn. destruct (f_long f) as [us|] eqn:El; [|done]. cbn [mbind option_bind] in Hn.
  case_decide; [|done]. destruct (fo_long f Hfo us El) as [Hlen Hus].
  assert (Forall2 (char_matches cp) n us /\ Forall (fun c => c <> 0) n) as [Hm Hn0].
  { apply mapM_Some in Hn. clear - Hn Hus cp_zero. induction Hn as [|u ch us n Hu Hn IH]; [done|].
    apply Forall_cons in Hus as [Hu0 Hus]. destruct (IH Hus) as [H1 H2]. destruct (to_char_matches cp cp_zero u ch Hu) as [Hm Hz].
    split; constructor; try done. apply Hz. unfold unit_ok in Hu0. lia. }
  pose proof (Forall2_length _ _ _ Hm) as Hl2.
  destruct (find_entry_ok cp cp_zero shift sbi fat_secs Hlay fuel c n dir l files (mark :: rest) Hc Hn0 ltac:(lia)) as (m & c' & Em & E & Hc');
    [by rewrite Hdir|done|done|done|done|].
  rewrite E. unfold lookup in *.
  assert (file_matches cp n m f) as Hfm by (split; [apply Hv|]; left; by exists us).
  destruct (find_first (file_matches cp n m) files f Hf Hfm) as (before & g & after & -> & Efs & Hg & Hb & Hfg).
  by exists m, before, g, after, c'.
Qed.
End Dir.

(** ** An example

    A root directory in the sectors 2, 3 and 4 of 64 bytes: a deleted slot, the
    file [Ab], a volume label, and the file [X] without a long name. *)

Definition demo_list_files : list file :=
  [File None ([0xe5] ++ replicate 10 0x41 ++ [0x0f] ++ replicate 20 0);
   File (Some [0x41; 0x62]) (demo_short 0x41);
   File None ([0x56] ++ replicate 10 0x20 ++ [0x08] ++ replicate 20 0);
   File None (demo_short 0x58)].

Definition demo_list_bytes : list Z := concat (concat (encode <$> demo_list_files)) ++ replicate 32 0.

Definition demo_list_block (p : Z) : list Z :=
  if decide (2 <= p < 5) then sub demo_list_bytes (64 * (p - 2)) 64 else replicate 64 (p mod 256).

Lemma demo_list_cases (P : list Z -> Prop) p : P (demo_list_block 2) -> P (demo_list_block 3) -> P (demo_list_block 4) ->
  (forall b, 0 <= b < 256 -> P (replicate 64 b)) -> P (demo_list_block p).
Proof.
  intros H2 H3 H4 H. destruct (decide (2 <= p < 5)) as [Hp|Hp].
  - assert (p = 2 \/ p = 3 \/ p = 4) as [-> | [-> | ->]] by lia; done.
  - unfold demo_list_block. rewrite decide_False by done. apply H, Z.mod_pos_bound. done.
Qed.

#[local] Instance demo_list_cache : BlockCache unit.
Proof.
  refine {| cblock c b := (c, demo_list_block b); cinv _ := True; cdata := demo_list_block; csize := 64 |}.
  - done.
  - intros b. apply (demo_list_cases (fun data => Z.of_nat (length data) = 64)); by vm_compute || (intros; by rewrite length_replicate).
  - intros b. apply (demo_list_cases (Forall byte_ok)); [by_compute..|]. intros x Hx. by apply Forall_replicate.
  - done.
Defined.

Definition demo_list_sb : fat_sb_info := SB 1 2 5 4 0 3 0 6 0 64 FAT12.

Lemma demo_list_layout : layout_ok 6 demo_list_sb 1.
Proof. constructor; by_compute. Qed.

Lemma demo_list_chain : dir_chain demo_list_sb 1 2 [2; 3; 4].
Proof. unfold dir_chain, dir_sector_ok. vm_compute. done. Qed.

Lemma demo_list_ok : Forall file_ok demo_list_files.
Proof.
  repeat (apply Forall_cons; split); try done; constructor; try done; try (by left); try (by right).
  intros us [= <-]. split; [simpl; lia|]. repeat constructor; done.
Qed.

Lemma demo_list_entries : dir_entries 6 [2; 3; 4] = concat (encode <$> demo_list_files) ++ replicate 32 0 :: [].
Proof. by vm_compute. Qed.

Lemma demo_list_fuel : (length [2; 3; 4] < 5)%nat.
Proof. simpl. lia. Qed.

Lemma demo_list_small : 32 * Z.of_nat (length (dir_entries 6 [2; 3; 4])) < 0x100000000.
Proof. by vm_compute. Qed.

Abbreviation demo_pvt := (Pvt 0 2 0 2).

Lemma fat_lists_files_witness :
  list_dir demo_cp 6 demo_list_sb 5 5 tt (fun _ => (0, 0)) demo_pvt 0 = Ok (listing demo_cp 0 demo_list_files) /\
  d_name <$> listing demo_cp 0 demo_list_files = listed_name demo_cp <$> filter visible demo_list_files.
Proof.
  apply (fat_lists_files demo_cp (conj eq_refl eq_refl) 6 demo_list_sb 1 demo_list_layout ltac:(lia) 5 2 [2; 3; 4] demo_list_chain
    demo_list_fuel demo_list_files (replicate 32 0) [] demo_list_ok eq_refl demo_list_entries demo_list_small tt).
  - done.
  - apply uc_zero_ok. by split.
  - by exists 0%nat.
Defined.

(** The names are AB, by the code page of the example, and X. *)
Example demo_listing : list_dir demo_cp 6 demo_list_sb 5 5 tt (fun _ => (0, 0)) demo_pvt 0 =
  Ok [Dirent_ 2 64 15 8 [0x41; 0x42]; Dirent_ 2 128 14 8 [0x58]].
Proof. by vm_compute. Qed.

Lemma listed_name_finds_witness : let f := File (Some [0x41; 0x62]) (demo_short 0x41) in exists m before g after c',
  mangle_dos_name demo_cp ([0x41; 0x42] ++ [0]) = Ok m /\
  vfat_find_entry 6 demo_list_sb demo_cp 5 tt ([0x41; 0x42] ++ [0]) demo_pvt = Ok (c', Some (entry_inode 6 demo_list_sb (f_short g))) /\
  cinv c' /\ demo_list_files = before ++ g :: after /\ file_matches demo_cp [0x41; 0x42] m g /\
  Forall (fun h => ~ file_matches demo_cp [0x41; 0x42] m h) before /\ file_matches demo_cp [0x41; 0x42] m f /\ f ∈ g :: after.
Proof.
  apply (listed_name_finds demo_cp (conj eq_refl eq_refl) 6 demo_list_sb 1 demo_list_layout 5 2 [2; 3; 4] demo_list_chain
    demo_list_fuel demo_list_files (replicate 32 0) [] demo_list_ok eq_refl demo_list_entries).
  - right. left.
  - split; done.
  - by vm_compute.
  - done.
  - done.
Defined.

(** A name of 20 slots is listed under its short name, although it is found. *)
Example demo_long_name : let f := File (Some (replicate 248 0x41)) (demo_short 0x41) in
  listed_name demo_cp f = [0x41] /\ file_matches demo_cp (replicate 248 0x41) [] f.
Proof. split; [by vm_compute|]. apply (bool_decide_unpack _). by vm_compute. Qed.

End FatListSpec.
