(* ===== verification/Inode.v ===== *)
(** * Inodes and their reference counts (libcore/fs/fs.c, libcore/include/fs.h)

    The inodes live on a heap, a finite map from addresses; 0 is the null
    pointer.  An inode holds a reference to its parent directory; the other
    references are those of the open files, of the root and of the current
    directory, and of the variables of a running function.  [counted] says that
    every count is the number of the references there are: nothing leaks and
    nothing dangles. *)

From Stdlib Require Import ZArith Lia.
From S2P Require Import Prelude Dirent.
Import Dirent.Dirent.

Module Inode.

Section Inodes.
(** The file system's private data at the end of an inode. *)
Context {P : Type}.

(** ** The code *)

(** The fields of struct inode that are common to all file systems. *)
Record inode := Inode_ {
  parent : Z; i_name : option (list Z); refcnt : Z; i_mode : dirent_type; i_size : Z; i_pvt : P }.

Abbreviation heap := (gmap Z inode).

Definition set_refcnt (i : inode) (n : Z) : inode :=
  Inode_ (parent i) (i_name i) n (i_mode i) (i_size i) (i_pvt i).
Definition set_parent (i : inode) (p : Z) (name : option (list Z)) : inode :=
  Inode_ p name (refcnt i) (i_mode i) (i_size i) (i_pvt i).

(** An address that is not in use. *)
Definition fresh_ptr (h : heap) : Z := fresh (dom h ∪ {[0]} : gset Z).

(** The memory is cleared but for the count; the file system's part and the
    mode and size are filled in by the file system. *)
Definition alloc_inode (h : heap) (mode : dirent_type) (size : Z) (pvt : P) : heap * Z :=
  let p := fresh_ptr h in (<[p := Inode_ 0 None 1 mode size pvt]> h, p).

Definition get_inode (h : heap) (p : Z) : result heap :=
  i ← of_option (h !! p);
  Ok (<[p := set_refcnt i (s32 (refcnt i + 1))]> h).

(** [while (inode && --inode->refcnt == 0)]: every iteration but the last one
    frees an inode. *)
Fixpoint put_loop (fuel : nat) (h : heap) (p : Z) : result heap :=
  match fuel with
  | O => NoFuel
  | S fuel =>
      if decide (p = 0) then Ok h else
      i ← of_option (h !! p);
      let n := s32 (refcnt i - 1) in
      if decide (n = 0) then put_loop fuel (delete p h) (parent i)
      else Ok (<[p := set_refcnt i n]> h)
  end.

Definition put_inode (h : heap) (p : Z) : result heap := put_loop (S (size h)) h p.

(** ** The invariant *)

(** The references that are parent pointers. *)
Definition links (h : heap) : list Z := (fun '(_, i) => parent i) <$> map_to_list h.

(** The number of references to [p] in a list. *)
Definition count (p : Z) (l : list Z) : Z := Z.of_nat (length (filter (p =.) l)).

(** [R] is the list of the references from outside of the heap. *)
Record counted (h : heap) (R : list Z) : Prop := {
  ct_null : h !! 0 = None;
  ct_count p i : h !! p = Some i -> refcnt i = count p (links h ++ R) /\ 0 < refcnt i;
  ct_live p : p ∈ links h ++ R -> p = 0 \/ is_Some (h !! p);
  ct_small : Z.of_nat (length (links h ++ R)) < 0x7fffffff }.

#[export] Instance count_proper p : Proper ((≡ₚ) ==> eq) (count p).
Proof. intros l l' E. unfold count. by rewrite E. Qed.

Lemma count_app p l l' : count p (l ++ l') = count p l + count p l'.
Proof. unfold count. rewrite filter_app, length_app. lia. Qed.

Lemma count_cons p q l : count p (q :: l) = (if decide (p = q) then 1 else 0) + count p l.
Proof. unfold count. rewrite filter_cons. case_decide; simpl; lia. Qed.

Lemma count_nonneg p l : 0 <= count p l.
Proof. unfold count. lia. Qed.

Lemma count_pos p l : p ∈ l <-> 0 < count p l.
Proof.
  induction l as [|q l IH]; [split; [by intros ?%not_elem_of_nil|by unfold count]|].
  rewrite elem_of_cons, IH, count_cons. pose proof (count_nonneg p l). case_decide; [split; [lia|auto]|]. split; [intros [?|?]; [done|lia]|intros; right; lia].
Qed.

Lemma count_le p l : count p l <= Z.of_nat (length l).
Proof. unfold count. pose proof (length_filter (p =.) l). lia. Qed.

Lemma links_insert h p i : h !! p = None -> links (<[p := i]> h) ≡ₚ parent i :: links h.
Proof. intros H. unfold links. by rewrite map_to_list_insert. Qed.

Lemma links_delete h p i : h !! p = Some i -> links h ≡ₚ parent i :: links (delete p h).
Proof.
  intros H. rewrite <- links_insert; [|apply lookup_delete_eq]. by rewrite insert_delete_id.
Qed.

(** Changing the count of an inode leaves the links. *)
Lemma links_update h p i j : h !! p = Some i -> links (<[p := j]> h) ≡ₚ parent j :: links (delete p h).
Proof.
  intros H. rewrite <- (insert_delete_eq h). apply links_insert, lookup_delete_eq.
Qed.

Lemma links_refcnt h p i n : h !! p = Some i -> links (<[p := set_refcnt i n]> h) ≡ₚ links h.
Proof. intros H. by rewrite (links_update h p i), <- (links_delete h p i). Qed.

(** Only the number of references to each inode matters. *)
Lemma counted_perm h R R' : R ≡ₚ R' -> counted h R -> counted h R'.
Proof.
  intros E [H0 H1 H2 H3]. constructor; [done|intros p i Hp; rewrite <- E; eauto|intros p; rewrite <- E; eauto|by rewrite <- E].
Qed.

#[export] Instance counted_proper h : Proper ((≡ₚ) ==> iff) (counted h).
Proof. intros R R' E. split; [by apply counted_perm|apply counted_perm; by symmetry]. Qed.

(** Null pointers do not count. *)
Lemma counted_null h R : counted h (0 :: R) -> counted h R.
Proof.
  intros [H0 H1 H2 H3]. constructor; [done| | |rewrite length_app in *; simpl in *; lia].
  - intros p i Hp. destruct (H1 p i Hp) as [E ?]. split; [|done].
    rewrite E, !count_app, count_cons, decide_False; [lia|]. intros ->. congruence.
  - intros p Hp. apply H2. rewrite elem_of_app, elem_of_cons in *. tauto.
Qed.

Lemma counted_add_null h R : counted h R -> Z.of_nat (length (links h ++ R)) < 0x7ffffffe -> counted h (0 :: R).
Proof.
  intros [H0 H1 H2 H3] Hs. constructor; [done| | |rewrite length_app in *; simpl in *; lia].
  - intros p i Hp. destruct (H1 p i Hp) as [E ?]. split; [|done].
    rewrite E, !count_app, count_cons, decide_False; [lia|]. intros ->. congruence.
  - intros p Hp. rewrite elem_of_app, elem_of_cons in Hp. destruct (decide (p = 0)); [auto|].
    apply H2. rewrite elem_of_app. tauto.
Qed.

(** ** The operations keep it *)

(** [same h h'] : the inodes of [h'] are those of [h], with other counts. *)
Definition same_inode (i j : inode) : Prop := set_refcnt i 0 = set_refcnt j 0.
Definition kept (h h' : heap) : Prop :=
  forall p j, h' !! p = Some j -> exists i, h !! p = Some i /\ same_inode i j.

Lemma same_inode_parent i j : same_inode i j -> parent i = parent j.
Proof. intros H. by injection H. Qed.

Lemma same_refl i : same_inode i i.
Proof. done. Qed.

Lemma same_refcnt i n : same_inode i (set_refcnt i n).
Proof. done. Qed.

#[local] Hint Resolve same_refl same_refcnt : core.

#[export] Instance kept_preorder : PreOrder kept.
Proof.
  split; [intros h p j; by exists j|]. intros h1 h2 h3 H12 H23 p k Hk.
  destruct (H23 p k Hk) as (j & Hj & E). destruct (H12 p j Hj) as (i & Hi & E'). exists i. unfold same_inode in *. split; congruence.
Qed.

Lemma get_inode_ok h p R :
  counted h R -> is_Some (h !! p) -> Z.of_nat (length (links h ++ R)) < 0x7ffffffe ->
  exists h', get_inode h p = Ok h' /\ counted h' (p :: R) /\ kept h h' /\ dom h' = dom h.
Proof.
  intros Hc [i Hi] Hs. unfold get_inode. rewrite Hi. cbn [of_option mbind result_bind].
  destruct (ct_count _ _ Hc p i Hi) as [Ei Hpos]. pose proof (count_le p (links h ++ R)).
  rewrite s32_small by lia. eexists. split; [done|].
  pose proof (links_refcnt h p i (refcnt i + 1) Hi) as El. destruct Hc as [H0 H1 H2 H3]. split_and!.
  - constructor.
    + rewrite lookup_insert_ne; [done|]. intros ->. congruence.
    + intros q j Hq. rewrite El, count_app, count_cons. apply lookup_insert_Some in Hq as [[-> <-]|[Hne Hq]].
      * rewrite decide_True by done. rewrite count_app in Ei. simpl. lia.
      * rewrite decide_False by done. destruct (H1 q j Hq) as [E ?]. rewrite count_app in E. lia.
    + intros q Hq. rewrite El, elem_of_app, elem_of_cons in Hq. destruct (decide (q = p)) as [->|].
      * right. rewrite lookup_insert_eq. eauto.
      * rewrite lookup_insert_ne by done. apply H2. rewrite elem_of_app. tauto.
    + rewrite El. rewrite length_app in *. simpl. lia.
  - intros q j Hq. apply lookup_insert_Some in Hq as [[-> <-]|[Hne Hq]]; eauto.
  - by apply dom_insert_lookup_L.
Qed.

(** Freeing an inode turns its reference to the parent into one of ours. *)
Lemma free_counted h p i R :
  counted h (p :: R) -> h !! p = Some i -> refcnt i = 1 -> counted (delete p h) (parent i :: R).
Proof.
  intros [H0 H1 H2 H3] Hi E1. pose proof (links_delete h p i Hi) as El. constructor.
  - by rewrite lookup_delete_None; right.
  - intros q j Hq. apply lookup_delete_Some in Hq as [Hne Hq]. destruct (H1 q j Hq) as [E ?]. split; [|done].
    rewrite E, El, !count_app, !count_cons, (decide_False (P := q = p)) by done. lia.
  - intros q Hq. assert (q <> p) as Hne.
    { intros ->. destruct (H1 p i Hi) as [E _]. rewrite El, count_app, !count_cons, (decide_True (P := p = p)) in E by done.
      pose proof (count_nonneg p (links (delete p h))). pose proof (count_nonneg p R).
      rewrite elem_of_app, elem_of_cons, !count_pos in Hq. destruct Hq as [?|[Hq|?]]; [|rewrite decide_True in E by done|]; repeat case_decide; lia. }
    rewrite lookup_delete_ne by done. apply H2. rewrite El, !elem_of_app, !elem_of_cons in *. tauto.
  - rewrite El in H3. rewrite !length_app in *. simpl in *. lia.
Qed.

Lemma put_loop_ok fuel h p R :
  counted h (p :: R) -> (size h < fuel)%nat ->
  exists h', put_loop fuel h p = Ok h' /\ counted h' R /\ kept h h'.
Proof.
  revert h p. induction fuel as [|fuel IH]; intros h p Hc Hf; [lia|]. cbn [put_loop].
  case_decide as Hp. { subst p. exists h. split_and!; [done|by apply counted_null|done]. }
  destruct (ct_live _ _ Hc p) as [?|[i Hi]]; [rewrite elem_of_app, elem_of_cons; auto|done|].
  rewrite Hi. cbn [of_option mbind result_bind].
  destruct (ct_count _ _ Hc p i Hi) as [Ei Hpos]. pose proof (count_le p (links h ++ p :: R)) as Hle. pose proof (ct_small _ _ Hc) as Hsm.
  rewrite s32_small by lia. case_decide as Hn.
  - destruct (IH (delete p h) (parent i)) as (h' & E & Hc' & Hk).
    + by apply free_counted; [| |lia].
    + rewrite map_size_delete, Hi. assert (size h <> 0%nat); [|lia]. intros E%map_size_empty_inv. subst h. done.
    + exists h'. split_and!; [done..|]. etransitivity; [|exact Hk]. intros q j Hq.
      apply lookup_delete_Some in Hq as [_ Hq]. by exists j.
  - eexists. split; [done|]. pose proof (links_refcnt h p i (refcnt i - 1) Hi) as El.
    destruct Hc as [H0 H1 H2 H3]. split.
    + constructor.
      * rewrite lookup_insert_ne; [done|]. intros ->. congruence.
      * intros q j Hq. rewrite El, count_app. apply lookup_insert_Some in Hq as [[-> <-]|[Hne Hq]].
        -- rewrite count_app, count_cons, decide_True in Ei by done. simpl. lia.
        -- destruct (H1 q j Hq) as [E ?]. rewrite count_app, count_cons, decide_False in E by done. lia.
      * intros q Hq. rewrite El in Hq. destruct (decide (q = p)) as [->|].
        -- right. rewrite lookup_insert_eq. eauto.
        -- rewrite lookup_insert_ne by done. apply H2. rewrite elem_of_app, elem_of_cons in *. tauto.
      * rewrite El. rewrite length_app in *. simpl in *. lia.
    + intros q j Hq. apply lookup_insert_Some in Hq as [[-> <-]|[Hne Hq]]; eauto.
Qed.

Lemma put_inode_ok h p R :
  counted h (p :: R) -> exists h', put_inode h p = Ok h' /\ counted h' R /\ kept h h'.
Proof. intros Hc. apply put_loop_ok; [done|lia]. Qed.

Lemma fresh_ptr_ok h : h !! fresh_ptr h = None /\ fresh_ptr h <> 0.
Proof.
  unfold fresh_ptr. pose proof (is_fresh (dom h ∪ {[0]} : gset Z)) as H. set (p := fresh _) in *. clearbody p.
  apply not_elem_of_union in H as [H1 H2]. split; [by apply not_elem_of_dom|]. by rewrite not_elem_of_singleton in H2.
Qed.

(** A new inode has one reference, ours. *)
Lemma alloc_inode_ok h mode size pvt R :
  counted h R -> Z.of_nat (length (links h ++ R)) < 0x7ffffffd ->
  let '(h', p) := alloc_inode h mode size pvt in
  counted h' (p :: R) /\ h !! p = None /\ h' = <[p := Inode_ 0 None 1 mode size pvt]> h /\ p <> 0.
Proof.
  intros [H0 H1 H2 H3] Hs. unfold alloc_inode. destruct (fresh_ptr_ok h) as [Hf Hf0]. set (p := fresh_ptr h) in *. clearbody p.
  split_and!; [|done..]. set (i := Inode_ _ _ _ _ _ _). pose proof (links_insert h p i Hf) as El. simpl in El.
  assert (count p (links h ++ R) = 0) as Hp.
  { pose proof (count_nonneg p (links h ++ R)). destruct (decide (count p (links h ++ R) = 0)); [done|].
    destruct (H2 p) as [?|[? ?]]; [apply count_pos; lia|done|congruence]. }
  rewrite count_app in Hp. constructor.
  - by rewrite lookup_insert_ne.
  - intros q j Hq. rewrite El, count_app, !count_cons. apply lookup_insert_Some in Hq as [[-> <-]|[Hne Hq]].
    + rewrite decide_False, decide_True by done. simpl. lia.
    + rewrite (decide_False (P := q = p)), decide_False by congruence.
      destruct (H1 q j Hq) as [E ?]. rewrite count_app in E. lia.
  - intros q Hq. rewrite El, elem_of_app, !elem_of_cons in Hq. destruct (decide (q = p)) as [->|].
    + right. rewrite lookup_insert_eq. eauto.
    + rewrite lookup_insert_ne by done. destruct Hq as [[?|?]|[?|?]]; [auto| |done|]; apply H2; rewrite elem_of_app; auto.
  - rewrite El. rewrite length_app in *. simpl. lia.
Qed.

(** Our reference to the directory becomes the new inode's. *)
Lemma set_parent_ok h p i q name R :
  counted h (p :: q :: R) -> h !! p = Some i -> parent i = 0 -> p <> q ->
  counted (<[p := set_parent i q name]> h) (p :: R).
Proof.
  intros [H0 H1 H2 H3] Hi E0 Hpq. pose proof (links_delete h p i Hi) as El. rewrite E0 in El.
  pose proof (links_update h p i (set_parent i q name) Hi) as El'. simpl in El'. constructor.
  - rewrite lookup_insert_ne; [done|]. intros ->. congruence.
  - intros r j Hr. rewrite El', count_app, !count_cons. apply lookup_insert_Some in Hr as [[-> <-]|[Hne Hr]].
    + destruct (H1 r i Hi) as [E ?]. rewrite El, count_app, !count_cons in E.
      rewrite (decide_False (P := r = 0)) in E by congruence. simpl. lia.
    + destruct (H1 r j Hr) as [E ?]. rewrite El, count_app, !count_cons in E.
      rewrite (decide_False (P := r = 0)) in E by congruence. lia.
  - intros r Hr. rewrite El', elem_of_app, !elem_of_cons in Hr. destruct (decide (r = p)) as [->|].
    + right. rewrite lookup_insert_eq. eauto.
    + rewrite lookup_insert_ne by done. apply H2. rewrite El, elem_of_app, !elem_of_cons. tauto.
  - rewrite El'. rewrite El in H3. rewrite length_app in *. simpl in *. lia.
Qed.

End Inodes.

#[global] Arguments inode : clear implicits.

End Inode.
