(* ===== verification/Vfs.v ===== *)
(** * The virtual file system (libcore/fs/fs.c, chdir.c, getcwd.c, readdir.c)

    Open files, path lookup with symbolic links, reading, the current
    directory, and the calls that the assembly code makes.  A file system is an
    instance of [FsOps]; its own state, the allocator's and the memory are the
    type [S].  The methods searchdir, realpath and chdir of fs_ops are null in
    every file system of the repository, and close_file is generic_close_file
    in all of them; so the model has no such methods. *)

From Stdlib Require Import ZArith Lia.
From S2P Require Import Prelude CStr Dirent Mangle Inode.
Import CStr.CStr Dirent.Dirent Mangle.Mangle Inode.Inode.

(** struct fs_ops, as functions on the state.  [op_iget] makes the mode, size
    and private data of the new inode, or nothing; [op_readlink] the number of
    bytes it says it wrote, and the bytes; [op_getfssec] the new size and private data
    of the inode, the new offset, [*have_more] if it was written, and the number
    of bytes.  [malloc_ok] tells whether an allocation of some bytes succeeds,
    [mem_at] and [mem_put] read and write the memory from an address on. *)
Class FsOps (S P : Type) := {
  op_iget : S -> list Z -> inode P -> result (S * option (dirent_type * Z * P));
  op_readlink : option (S -> inode P -> result (S * Z * list Z));
  op_mangle_name : list Z -> list Z -> result (list Z);
  op_getfssec : S -> inode P -> Z -> Z -> Z -> result (S * (Z * P) * Z * option bool * Z);
  op_readdir : option (S -> inode P -> Z -> result (S * P * Z * option dirent));
  op_sector_shift : Z;
  malloc_ok : S -> Z -> S * bool;
  mem_at : S -> Z -> list Z;
  mem_put : S -> Z -> list Z -> S }.

Module Vfs.

Definition MAX_OPEN : nat := 32.
Definition MAX_SYMLINK_CNT : Z := 20.
Definition MAX_SYMLINK_BUF : Z := 4096.
Definition CURRENTDIR_MAX : Z := FILENAME_MAX.

(** struct file: [f_fs] says that [fs] is not null. *)
Record file := File { f_fs : bool; f_offset : Z; f_inode : Z }.

Definition no_file : file := File false 0 0.

Section Code.
Context {S P : Type} `{FO : !FsOps S P}.

(** The variables of fs.c: the inodes, [files], [this_fs]; [rest] is what
    belongs to the file system and to the memory. *)
Record vfs := Vfs {
  v_heap : gmap Z (inode P); v_files : list file; v_root : Z; v_cwd : Z; v_cwd_name : list Z; v_rest : S }.

Definition set_heap (st : vfs) h := Vfs h (v_files st) (v_root st) (v_cwd st) (v_cwd_name st) (v_rest st).
Definition set_files (st : vfs) fs := Vfs (v_heap st) fs (v_root st) (v_cwd st) (v_cwd_name st) (v_rest st).
Definition set_rest (st : vfs) r := Vfs (v_heap st) (v_files st) (v_root st) (v_cwd st) (v_cwd_name st) r.

Definition get (st : vfs) (p : Z) : result vfs := h ← get_inode (v_heap st) p; Ok (set_heap st h).
Definition put (st : vfs) (p : Z) : result vfs := h ← put_inode (v_heap st) p; Ok (set_heap st h).
Definition deref (st : vfs) (p : Z) : result (inode P) := of_option (v_heap st !! p).

(** The allocation of [n] bytes. *)
Definition malloc (st : vfs) (n : Z) : vfs * bool :=
  let '(r, ok) := malloc_ok (v_rest st) n in (set_rest st r, ok).

(** ** Open files *)

(** The index of a free file structure. *)
Fixpoint free_index (l : list file) (k : nat) : option nat :=
  match l with
  | [] => None
  | f :: l => if f_fs f then free_index l (k + 1)%nat else Some k
  end.

Definition alloc_file (st : vfs) : option nat := free_index (v_files st) 0.

Definition file_to_handle (k : nat) : Z := u16 (Z.of_nat k + 1).

(** The index of the file of a handle; the handle 0 is the null pointer, whose use
    is undefined like that of an index outside of the table. *)
Definition handle_to_file (handle : Z) : result nat :=
  if decide (1 <= handle <= Z.of_nat MAX_OPEN) then Ok (Z.to_nat (handle - 1)) else Undef.

Definition free_file (st : vfs) (k : nat) : vfs := set_files st (<[k := no_file]> (v_files st)).

Definition generic_close_file (st : vfs) (k : nat) : result vfs :=
  f ← of_option (v_files st !! k);
  if decide (f_inode f <> 0) then
    put (set_files st (<[k := File (f_fs f) 0 (f_inode f)]> (v_files st))) (f_inode f)
  else Ok st.

Definition _close_file (st : vfs) (k : nat) : result vfs :=
  f ← of_option (v_files st !! k);
  st ← (if f_fs f then generic_close_file st k else Ok st);
  Ok (free_file st k).

Definition close_file (st : vfs) (handle : Z) : result vfs :=
  if decide (handle <> 0) then k ← handle_to_file handle; _close_file st k else Ok st.

(** ** Path lookup *)

Fixpoint skip_slashes (s : list Z) : result (list Z) :=
  match s with
  | [] => Undef
  | c :: s' => if decide (c = slash) then skip_slashes s' else Ok s
  end.

(** The beginning of an iteration of [searchdir]: the name of the next
    inode and where the name behind it starts. *)
Definition split_name (s : list Z) : result (list Z * option (list Z)) :=
  c ← of_option (head s);
  '(name, next) ←
    (if decide (c = slash) then Ok ([slash; 0], Some (tail s))
     else r ← strchr (tail s) slash;
          Ok (match r with
              | Some r => (take (length s - length r) s ++ [0], Some (tail r))
              | None => (s, None)
              end));
  match next with
  | None => Ok (name, None)
  | Some t =>
      t ← skip_slashes t;
      c ← of_option (head t);
      Ok (name, if decide (c = 0) then None else Some t)
  end.

(** The new path of a symbolic link in a buffer of [new_len] bytes. *)
Definition link_path (copied : Z) (bytes : list Z) (new_len : Z) (next : option (list Z)) : result (list Z) :=
  match next with
  | None => if decide (copied < new_len) then Ok (take (Z.to_nat copied) bytes ++ [0]) else Undef
  | Some t =>
      n ← strlen t;
      if decide (copied + 1 + n < new_len) then Ok (take (Z.to_nat copied) bytes ++ slash :: t) else Undef
  end.

(** The variables of the loop: [inode_name] is null at the end. *)
Record walk := Walk { w_st : vfs; w_inode : Z; w_name : option (list Z); w_symlinks : Z }.

(** A symbolic link: the path is replaced, or the lookup fails. *)
Definition follow_link (st : vfs) (p : Z) (next : option (list Z)) (symlinks : Z) : result (ctl walk (vfs * Z)) :=
  i ← deref st p;
  let fail st := st ← put st p; Ok (Break (st, 0)) in
  let new_len := s32 (u32 (i_size i + 1)) in
  new_len ← match next with None => Ok new_len | Some t => n ← strlen t; Ok (s32 (new_len + (n + 1))) end;
  match op_readlink with
  | None => fail st
  | Some rl =>
      let symlinks := symlinks - 1 in
      if decide (symlinks = 0 \/ new_len > MAX_SYMLINK_BUF) then fail st else
      let '(st, ok) := malloc st (u32 new_len) in
      if negb ok then fail st else
      '(r, copied, bytes) ← rl (v_rest st) i;
      let st := set_rest st r in
      if decide (copied <= 0) then fail st else
      new_path ← link_path copied bytes new_len next;
      let tmp := parent i in
      st ← get st tmp;
      st ← put st p;
      Ok (Continue (Walk st tmp (Some new_path) symlinks))
  end.

(** A name that is looked up in the directory [tmp]. *)
Definition enter (st : vfs) (tmp : Z) (name : list Z) (next : option (list Z)) (symlinks : Z) :
    result (ctl walk (vfs * Z)) :=
  dir ← deref st tmp;
  '(r, o) ← op_iget (v_rest st) name dir;
  let st := set_rest st r in
  match o with
  | None => st ← put st tmp; Ok (Break (st, 0))
  | Some (mode, size, pvt) =>
      let '(h, p) := alloc_inode (v_heap st) mode size pvt in
      let st := set_heap st h in
      i ← deref st p;
      if decide (parent i <> 0 /\ parent i <> tmp) then
        st ← put st p; st ← put st tmp; Ok (Break (st, 0))
      else
        n ← strlen name;
        let '(st, ok) := malloc st (n + 1) in
        let st := set_heap st (<[p := set_parent i tmp (if ok then Some (take (Z.to_nat n) name) else None)]> (v_heap st)) in
        if decide (mode = DT_LNK) then follow_link st p next symlinks
        else if decide (next <> None /\ mode <> DT_DIR) then st ← put st p; Ok (Break (st, 0))
        else Ok (Continue (Walk st p next symlinks))
  end.

Definition dot : list Z := [0x2e; 0].
Definition dotdot : list Z := [0x2e; 0x2e; 0].

(** One iteration of the loop of [searchdir]. *)
Definition walk_component (w : walk) : result (ctl walk (vfs * Z)) :=
  let '(Walk st inode inode_name symlinks) := w in
  match inode_name with
  | None => Ok (Break (st, inode))
  | Some s =>
      '(name, next) ← split_name s;
      c ← of_option (head name);
      if decide (c = slash) then
        st ← put st inode; st ← get st (v_root st);
        Ok (Continue (Walk st (v_root st) next symlinks))
      else
        d ← strncmp name dot 2;
        if decide (d = 0) then Ok (Continue (Walk st inode next symlinks)) else
        d ← strncmp name dotdot 3;
        if decide (d = 0) then
          i ← deref st inode;
          if decide (parent i = 0) then Ok (Continue (Walk st inode next symlinks)) else
          st ← get st (parent i); st ← put st inode;
          Ok (Continue (Walk st (parent i) next symlinks))
        else enter st inode name next symlinks
  end.

(** The result is a handle, or -1. *)
Definition searchdir (fuel : nat) (st : vfs) (name : list Z) : result (vfs * Z) :=
  match alloc_file st with
  | None => Ok (st, -1)
  | Some k =>
      let st := set_files st (<[k := File true 0 0]> (v_files st)) in
      n ← strlen name;
      let '(st, ok) := malloc st (n + 1) in
      '(st, inode) ← (if ok then
                        st ← get st (v_cwd st);
                        loop fuel walk_component (Walk st (v_cwd st) (Some (take (Z.to_nat (n + 1)) name)) MAX_SYMLINK_CNT)
                      else Ok (st, 0));
      if decide (inode = 0) then st ← _close_file st k; Ok (st, -1)
      else Ok (set_files st (<[k := File true 0 inode]> (v_files st)), file_to_handle k)
  end.

(** ** Opening and reading *)

(** The inode of an open file. *)
Definition file_inode (st : vfs) (handle : Z) : result (nat * file * inode P) :=
  k ← handle_to_file handle;
  f ← of_option (v_files st !! k);
  i ← deref st (f_inode f);
  Ok (k, f, i).

(** struct com32_filedata *)
Record com32_filedata := Filedata { fd_size : Z; fd_blocklg2 : Z; fd_handle : Z }.

(** [buf] is what is in the local array [mangled_name]. *)
Definition open_file (fuel : nat) (st : vfs) (buf name : list Z) : result (vfs * Z * option com32_filedata) :=
  mangled_name ← op_mangle_name buf name;
  '(st, rv) ← searchdir fuel st mangled_name;
  if decide (rv < 0) then Ok (st, rv, None) else
  '(k, f, i) ← file_inode st rv;
  if decide (i_mode i <> DT_REG) then st ← _close_file st k; Ok (st, -1, None)
  else Ok (st, rv, Some (Filedata (i_size i) op_sector_shift rv)).

(** The call of the method getfssec on an open file. *)
Definition read_sectors (st : vfs) (handle buf sectors : Z) : result (vfs * Z * option bool) :=
  '(k, f, i) ← file_inode st handle;
  '(r, (size, pvt), offset, have_more, bytes_read) ← op_getfssec (v_rest st) i (f_offset f) buf sectors;
  let st := set_rest st r in
  let st := set_heap st (<[f_inode f := Inode_ (parent i) (i_name i) (refcnt i) (i_mode i) size pvt]> (v_heap st)) in
  Ok (set_files st (<[k := File (f_fs f) offset (f_inode f)]> (v_files st)), bytes_read, have_more).

(** The file is closed at its end; the new handle is returned.  [have_more] is
    a local variable without a value until the method sets it. *)
Definition pmapi_read_file (st : vfs) (handle buf sectors : Z) : result (vfs * Z * Z) :=
  '(st, bytes_read, have_more) ← read_sectors st handle buf sectors;
  have_more ← of_option have_more;
  if negb have_more then
    k ← handle_to_file handle; st ← _close_file st k; Ok (st, 0, bytes_read)
  else Ok (st, handle, bytes_read).

(** ** Paths of inodes, and the current directory *)

(** [(size_t)-1] *)
Definition size_error : Z := 0xffffffff.

Fixpoint copy_string (buf : list Z) (ix bufsize : Z) (src : list Z) : result (list Z * Z) :=
  match src with
  | [] => Undef
  | c :: src =>
      if decide (c = 0) then
        buf ← (if decide (ix < bufsize) then store buf ix 0 else Ok buf); Ok (buf, ix)
      else
        buf ← (if decide (ix + 1 < bufsize) then store buf ix c else Ok buf);
        copy_string buf (ix + 1) bufsize src
  end.

Fixpoint generic_inode_to_path (fuel : nat) (st : vfs) (p : Z) (dst : list Z) (bufsize : Z) : result (list Z * Z) :=
  match fuel with
  | O => NoFuel
  | Datatypes.S fuel =>
      i ← deref st p;
      if decide (parent i = 0) then Ok (dst, 0) else
      match i_name i with
      | None => Ok (dst, size_error)
      | Some name =>
          '(dst, s) ← generic_inode_to_path fuel st (parent i) dst bufsize;
          if decide (s = size_error) then Ok (dst, s) else
          '(dst, s) ← copy_string dst s bufsize [slash; 0];
          copy_string dst s bufsize (name ++ [0])
      end
  end.

(** The depth of an inode is at most the number of inodes. *)
Definition inode_path (st : vfs) (p : Z) (dst : list Z) (bufsize : Z) : result (list Z * Z) :=
  generic_inode_to_path (Datatypes.S (size (v_heap st))) st p dst bufsize.

Definition realpath (fuel : nat) (st : vfs) (dst src : list Z) (bufsize : Z) : result (vfs * list Z * Z) :=
  '(st, rv) ← searchdir fuel st src;
  if decide (rv < 0) then Ok (st, dst, size_error) else
  '(k, f, i) ← file_inode st rv;
  '(dst, s) ← inode_path st (f_inode f) dst bufsize;
  '(dst, s) ← (if decide (s = 0) then copy_string dst 0 bufsize [slash; 0] else Ok (dst, s));
  st ← _close_file st k;
  Ok (st, dst, s).

(** [cwd_buf] is what is in the local array of [CURRENTDIR_MAX] bytes. *)
Definition chdir (fuel : nat) (st : vfs) (cwd_buf src : list Z) : result (vfs * Z) :=
  '(st, rv) ← searchdir fuel st src;
  if decide (rv < 0) then Ok (st, rv) else
  '(k, f, i) ← file_inode st rv;
  if decide (i_mode i <> DT_DIR) then st ← _close_file st k; Ok (st, -1) else
  st ← put st (v_cwd st);
  st ← get st (f_inode f);
  let st := Vfs (v_heap st) (v_files st) (v_root st) (f_inode f) (v_cwd_name st) (v_rest st) in
  st ← _close_file st k;
  '(cwd_buf, s) ← inode_path st (v_cwd st) cwd_buf (CURRENTDIR_MAX - 1);
  c ← (if decide (s < 1) then Ok 0 else get8 cwd_buf (s - 1));
  '(cwd_buf, s) ← (if decide (s < 1 \/ c <> slash) then cwd_buf ← store cwd_buf s slash; Ok (cwd_buf, s + 1)
                   else Ok (cwd_buf, s));
  let s := if decide (s >= CURRENTDIR_MAX) then CURRENTDIR_MAX - 1 else s in
  cwd_buf ← store cwd_buf s 0;
  let s := s + 1 in
  Ok (Vfs (v_heap st) (v_files st) (v_root st) (v_cwd st)
        (take (Z.to_nat s) cwd_buf ++ drop (Z.to_nat s) (v_cwd_name st)) (v_rest st), 0).

(** [None] is the null pointer. *)
Definition getcwd (st : vfs) (buf : option (list Z)) (size : Z) : result (option (list Z)) :=
  match buf with
  | None => Ok None
  | Some buf =>
      n ← strlen (v_cwd_name st);
      if decide (n < size) then buf ← strcpy buf 0 (v_cwd_name st); Ok (Some buf) else Ok None
  end.

(** ** Directories *)

(** The result is a handle, or 0. *)
Definition opendir (fuel : nat) (st : vfs) (path : list Z) : result (vfs * Z) :=
  '(st, rv) ← searchdir fuel st path;
  if decide (rv < 0) then Ok (st, 0) else
  '(k, f, i) ← file_inode st rv;
  if decide (i_mode i <> DT_DIR) then st ← _close_file st k; Ok (st, 0) else Ok (st, rv).

Definition readdir (st : vfs) (dir : Z) : result (vfs * option dirent) :=
  if decide (dir = 0) then Ok (st, None) else
  match op_readdir with
  | None => Ok (st, None)
  | Some rd =>
      '(k, f, i) ← file_inode st dir;
      '(r, pvt, offset, e) ← rd (v_rest st) i (f_offset f);
      let st := set_rest st r in
      let st := set_heap st (<[f_inode f := Inode_ (parent i) (i_name i) (refcnt i) (i_mode i) (i_size i) pvt]> (v_heap st)) in
      Ok (set_files st (<[k := File (f_fs f) offset (f_inode f)]> (v_files st)), e)
  end.

Definition closedir (st : vfs) (dir : Z) : result (vfs * Z) :=
  k ← handle_to_file dir; st ← _close_file st k; Ok (st, 0).

(** ** The calls of the assembly code *)

(** The registers of com32sys_t that are used. *)
Record com32sys_t := Regs {
  r_eax : Z; r_ebx : Z; r_ecx : Z; r_esi : Z; r_edi : Z; r_ds : Z; r_es : Z; r_eflags : Z }.

Definition EFLAGS_CF : Z := 0x1.
Definition EFLAGS_ZF : Z := 0x40.

(** The lower half of a register. *)
Definition low_word (r : Z) : Z := r mod 0x10000.
Definition set_low_word (r w : Z) : Z := r - r mod 0x10000 + w mod 0x10000.

(** MK_PTR *)
Definition mk_ptr (seg offs : Z) : Z := seg * 16 + offs.

Definition pm_mangle_name (st : vfs) (regs : com32sys_t) : result vfs :=
  let src := mem_at (v_rest st) (mk_ptr (r_ds regs) (low_word (r_esi regs))) in
  let dst := mk_ptr (r_es regs) (low_word (r_edi regs)) in
  l ← op_mangle_name (mem_at (v_rest st) dst) src;
  Ok (set_rest st (mem_put (v_rest st) dst l)).

Definition pm_realpath (fuel : nat) (st : vfs) (regs : com32sys_t) : result vfs :=
  let src := mem_at (v_rest st) (mk_ptr (r_ds regs) (low_word (r_esi regs))) in
  let dst := mk_ptr (r_es regs) (low_word (r_edi regs)) in
  '(st, l, _) ← realpath fuel st (mem_at (v_rest st) dst) src FILENAME_MAX;
  Ok (set_rest st (mem_put (v_rest st) dst l)).

(** The common part of getfssec and getfsbytes. *)
Definition read_regs (st : vfs) (regs : com32sys_t) (sectors : Z) : result (vfs * com32sys_t) :=
  let handle := low_word (r_esi regs) in
  '(st, bytes_read, have_more) ← read_sectors st handle (mk_ptr (r_es regs) (low_word (r_ebx regs))) sectors;
  have_more ← of_option have_more;
  let regs' esi := Regs (r_eax regs) (r_ebx regs) bytes_read esi (r_edi regs) (r_ds regs) (r_es regs) (r_eflags regs) in
  if negb have_more then
    k ← handle_to_file handle; st ← _close_file st k; Ok (st, regs' (set_low_word (r_esi regs) 0))
  else Ok (st, regs' (r_esi regs)).

Definition getfssec (st : vfs) (regs : com32sys_t) : result (vfs * com32sys_t) :=
  read_regs st regs (low_word (r_ecx regs)).

Definition getfsbytes (st : vfs) (regs : com32sys_t) : result (vfs * com32sys_t) :=
  read_regs st regs (Z.shiftr (low_word (r_ecx regs)) op_sector_shift).

Definition pm_searchdir (fuel : nat) (st : vfs) (regs : com32sys_t) : result (vfs * com32sys_t) :=
  '(st, rv) ← searchdir fuel st (mem_at (v_rest st) (mk_ptr (r_ds regs) (low_word (r_edi regs))));
  let regs' eax esi eflags := Regs eax (r_ebx regs) (r_ecx regs) esi (r_edi regs) (r_ds regs) (r_es regs) eflags in
  if decide (rv < 0) then
    Ok (st, regs' 0 (set_low_word (r_esi regs) 0) (Z.lor (r_eflags regs) EFLAGS_ZF))
  else
    '(k, f, i) ← file_inode st rv;
    Ok (st, regs' (i_size i) (set_low_word (r_esi regs) rv) (Z.ldiff (r_eflags regs) EFLAGS_ZF)).

Definition pm_open_file (fuel : nat) (st : vfs) (buf : list Z) (regs : com32sys_t) : result (vfs * com32sys_t) :=
  mangled_name ← op_mangle_name buf (mem_at (v_rest st) (mk_ptr (r_es regs) (low_word (r_esi regs))));
  '(st, rv) ← searchdir fuel st mangled_name;
  let regs' eax ecx esi eflags := Regs eax (r_ebx regs) ecx esi (r_edi regs) (r_ds regs) (r_es regs) eflags in
  if decide (rv < 0) then
    Ok (st, regs' (r_eax regs) (r_ecx regs) (r_esi regs) (Z.lor (r_eflags regs) EFLAGS_CF))
  else
    '(k, f, i) ← file_inode st rv;
    Ok (st, regs' (i_size i) (set_low_word (r_ecx regs) (2 ^ op_sector_shift)) (set_low_word (r_esi regs) rv)
              (Z.ldiff (r_eflags regs) EFLAGS_CF)).

Definition pm_close_file (st : vfs) (regs : com32sys_t) : result vfs := close_file st (low_word (r_esi regs)).

End Code.

End Vfs.
