(* ===== verification/VfsSpec.v ===== *)
(** * The virtual file system: what path lookup computes

    [resolves] says where a path leads in the tree that the file system
    describes, component by component, with symbolic links replaced by their
    targets.  [searchdir] always returns; when it opens a file, the path
    resolves to it; when it refuses one in a file system without links, the path
    does not resolve, and with links it does not reach anything within the limits on
    their number and lengths ([reaches], [reachable]).  In every case the reference
    counts stay exact. *)

From Stdlib Require Import ZArith Lia.
From S2P Require Import Prelude CStr Dirent Mangle Inode Vfs.
Import CStr.CStr Dirent.Dirent Mangle.Mangle Inode.Inode Vfs.Vfs.

(** What a file system promises: [fs_lookup] is the directory tree,
    [fs_target] the target of a link, [rest_ok] an invariant of its own state,
    and [node_ok] one of the inodes in the tree (mode, size and private
    data). *)
Class FsSpec (S P : Type) {FO : FsOps S P} := {
  rest_ok : S -> Prop;
  node_ok : dirent_type * Z * P -> Prop;
  fs_lookup : P -> list Z -> option (dirent_type * Z * P);
  fs_target : P -> list Z;
  malloc_spec r n : rest_ok r -> rest_ok (fst (malloc_ok r n));
  iget_spec r name i : rest_ok r -> chars name -> name <> [] -> i_mode i = DT_DIR ->
    node_ok (i_mode i, i_size i, i_pvt i) ->
    exists r', op_iget r (name ++ [0]) i = Ok (r', fs_lookup (i_pvt i) name) /\ rest_ok r';
  lookup_node size p name m : node_ok (DT_DIR, size, p) -> fs_lookup p name = Some m -> node_ok m;
  link_size size p : node_ok (DT_LNK, size, p) -> 0 <= size < 0x7fff0000;
  readlink_spec rl r i : op_readlink = Some rl -> rest_ok r -> i_mode i = DT_LNK ->
    node_ok (i_mode i, i_size i, i_pvt i) -> exists r',
    rl r i = Ok (r', Z.of_nat (length (fs_target (i_pvt i))), fs_target (i_pvt i)) /\ rest_ok r' /\
    chars (fs_target (i_pvt i)) /\ Z.of_nat (length (fs_target (i_pvt i))) <= i_size i }.

Module VfsSpec.

(** Membership in a list that is written out. *)
Ltac elems := rewrite ?elem_of_app, ?elem_of_cons, ?elem_of_app in *; tauto.

(** ** The components of a path *)

Lemma split_path_app cur a b : split_path cur (a ++ slash :: b) = split_path cur a ++ split_path [] b.
Proof.
  revert cur. induction a as [|c a IH]; intros cur; [done|]. cbn [app split_path].
  case_decide; by rewrite IH.
Qed.

Lemma components_app a b : components (a ++ slash :: b) = components a ++ components b.
Proof. unfold components. by rewrite split_path_app, filter_app. Qed.

Lemma components_slash b : components (slash :: b) = components b.
Proof. apply (components_app []). Qed.

Definition name_ok (n : list Z) : Prop := n <> [] /\ Forall (fun c => c <> slash) n.

Lemma components_name n : name_ok n -> components n = [n].
Proof.
  intros [Hn Hs]. assert (forall cur, split_path cur n = [cur ++ n]) as E.
  { clear Hn. induction Hs as [|c n Hc _ IH]; intros cur; cbn [split_path]; [by rewrite app_nil_r|].
    rewrite decide_False, IH by done. by rewrite <- app_assoc. }
  unfold components. by rewrite E, filter_cons, decide_True.
Qed.

(** The path in memory. *)
Definition terminated (np : option (list Z)) : option (list Z) :=
  match np with None => None | Some p => Some (p ++ [0]) end.

(** A path in the loop of searchdir. *)
Definition path_ok (s : list Z) : Prop := chars s /\ s <> [].

Definition absolute (s : list Z) : bool := bool_decide (head s = Some slash).

Lemma skip_slashes_ok s : chars s -> exists t, skip_slashes (s ++ [0]) = Ok (t ++ [0]) /\ chars t /\
  components t = components s /\ absolute t = false /\ (length t <= length s)%nat.
Proof.
  induction 1 as [|c s Hc Hs IH].
  - exists []. split_and!; done.
  - cbn [app skip_slashes]. case_decide as Hsl.
    + subst c. destruct IH as (t & E & Ht & Ec & Ea & El). exists t. split_and!; [done|done|by rewrite components_slash|done|simpl; lia].
    + exists (c :: s). split_and!; try done; [by constructor|]. unfold absolute. simpl. by rewrite bool_decide_false by congruence.
Qed.

(** What [split_name] makes of a path. *)
Inductive split_spec (s : list Z) : list Z -> option (list Z) -> Prop :=
  | split_root next : absolute s = true ->
      (match next with None => components s = [] | Some t => path_ok t /\ absolute t = false /\ components s = components t /\ (length t < length s)%nat end) ->
      split_spec s [slash] next
  | split_comp n next : absolute s = false -> name_ok n -> chars n ->
      (match next with None => components s = [n] | Some t => path_ok t /\ absolute t = false /\ components s = n :: components t /\ (length t < length s)%nat end) ->
      split_spec s n next.

Lemma split_name_ok s : path_ok s ->
  exists n next, split_name (s ++ [0]) = Ok (n ++ [0], terminated next) /\ split_spec s n next.
Proof.
  intros [Hs Hne]. destruct s as [|c s]; [done|]. apply Forall_cons in Hs as [Hc Hs].
  unfold split_name. cbn [app head of_option mbind result_bind tail].
  case_decide as Hsl.
  - subst c. cbn [mbind result_bind]. destruct (skip_slashes_ok s Hs) as (t & -> & Ht & Ec & Ea & El).
    cbn [mbind result_bind]. exists [slash]. destruct t as [|x t].
    + exists None. split; [done|]. constructor; [done|]. by rewrite components_slash, <- Ec.
    + exists (Some (x :: t)). apply Forall_cons in Ht as [Hx Ht]. split.
      * cbn [app head of_option mbind result_bind terminated]. by rewrite decide_False.
      * constructor; [done|]. splits; [by split; [constructor|]|done|by rewrite components_slash|simpl in *; lia].
  - assert (absolute (c :: s) = false) as Ha by (unfold absolute; simpl; rewrite bool_decide_false; congruence).
    destruct (decide (slash ∈ s)) as [Hin|Hin].
    + destruct (list_elem_of_split_l s slash Hin) as (a & b & -> & Hna).
      apply Forall_app in Hs as [Has Hbs]. apply Forall_cons in Hbs as [_ Hbs].
      rewrite <- app_assoc. cbn [app]. rewrite strchr_ok by done. cbn [mbind result_bind tail].
      destruct (skip_slashes_ok b Hbs) as (t & -> & Ht & Ec & Ea & El). cbn [mbind result_bind].
      assert (name_ok (c :: a)) as Hnok.
      { split; [done|]. constructor; [done|]. apply Forall_forall. intros x Hx ->. done. }
      assert (components (c :: a ++ slash :: b) = (c :: a) :: components t) as Ecs.
      { change (c :: a ++ slash :: b) with ((c :: a) ++ slash :: b). rewrite components_app, components_name by done. by rewrite Ec. }
      replace (take _ _) with (c :: a).
      2: { cbn [length]. rewrite !length_app. cbn [length]. rewrite length_app. cbn [length].
           replace (_ - _)%nat with (length (c :: a)) by (simpl; lia). symmetry. apply (take_app_length (c :: a)). }
      exists (c :: a). destruct t as [|x t].
      * exists None. split; [done|]. constructor; [done..|by constructor|done].
      * apply Forall_cons in Ht as [Hx Ht]. exists (Some (x :: t)). split.
        -- cbn [app head of_option mbind result_bind terminated]. by rewrite decide_False.
        -- constructor; [done..|by constructor|]. splits; [by split; [constructor|]|done|done|].
           simpl in *. rewrite length_app. simpl. lia.
    + rewrite strchr_none by done. cbn [mbind result_bind]. exists (c :: s), None. split; [done|].
      assert (name_ok (c :: s)).
      { split; [done|]. constructor; [done|]. apply Forall_forall. intros x Hx ->. done. }
      constructor; [done..|by constructor|]. by apply components_name.
Qed.

(** Comparison with a fixed string. *)
Lemma strncmp_fixed n k : chars n -> chars k ->
  exists d, strncmp (n ++ [0]) (k ++ [0]) (Datatypes.S (length k)) = Ok d /\ (d = 0 <-> n = k).
Proof.
  intros Hn Hk. destruct (compare_n_ok id n k [] [] (Datatypes.S (length k)) Hn Hk) as (d & E & Hd).
  exists d. split; [done|]. rewrite Hd, !list_fmap_id. clear d E Hd.
  rewrite (take_ge (k ++ [0])) by (rewrite length_app; simpl; lia). split; [|intros ->; apply take_ge; rewrite length_app; simpl; lia].
  intros E. assert (exists t, n ++ [0] = (k ++ [0]) ++ t) as [t Et] by (exists (drop (Datatypes.S (length k)) (n ++ [0])); by rewrite <- E, take_drop).
  destruct t as [|x t _] using rev_ind; [rewrite app_nil_r in Et; by apply app_inj_2 in Et as [? _]|].
  rewrite app_assoc in Et. apply app_inj_2 in Et as [En _]; [|done]. rewrite Forall_forall in Hn. exfalso.
  apply (Hn 0); [|done]. rewrite En. elems.
Qed.

(** ** Where a path leads *)

Section Spec.
Context {S P : Type} `{FS : FsSpec S P}.

(** A node of the tree; a location is a node with its ancestors, nearest
    first. *)
Definition node : Type := dirent_type * Z * P.
Definition n_mode (n : node) : dirent_type := n.1.1.
Definition n_pvt (n : node) : P := n.2.
Abbreviation location := (list node).

(** The root is its own parent. *)
Definition up (l : location) : location := match l with _ :: (n :: l) => n :: l | _ => l end.

(** Directories all the way to the root, and what is in one. *)
Definition dirs_ok (l : location) : Prop := Forall (fun n => node_ok n /\ n_mode n = DT_DIR) l.
Definition place_ok (l : location) : Prop := match l with [] => True | n :: l => node_ok n /\ dirs_ok l end.

Lemma dirs_place l : dirs_ok l -> place_ok l.
Proof. destruct l as [|n l]; [done|]. intros [[? _] ?]%Forall_cons. done. Qed.

(** Where a path starts. *)
Definition start (root l : location) (s : list Z) : location := if absolute s then root else l.

Inductive resolves (root : location) : location -> list (list Z) -> location -> Prop :=
  | res_end l : resolves root l [] l
  | res_dot l cs l' : resolves root l cs l' -> resolves root l ([0x2e] :: cs) l'
  | res_dotdot l cs l' : resolves root (up l) cs l' -> resolves root l ([0x2e; 0x2e] :: cs) l'
  | res_enter n l c m cs l' : c <> [0x2e] -> c <> [0x2e; 0x2e] ->
      fs_lookup (n_pvt n) c = Some m -> n_mode m <> DT_LNK -> cs = [] \/ n_mode m = DT_DIR ->
      resolves root (m :: n :: l) cs l' -> resolves root (n :: l) (c :: cs) l'
  | res_link n l c m cs l' : c <> [0x2e] -> c <> [0x2e; 0x2e] ->
      fs_lookup (n_pvt n) c = Some m -> n_mode m = DT_LNK ->
      resolves root (start root (n :: l) (fs_target (n_pvt m))) (components (fs_target (n_pvt m)) ++ cs) l' ->
      resolves root (n :: l) (c :: cs) l'.

Definition n_size (n : node) : Z := n.1.2.

(** The same with what it takes: [k] links are followed, none of them empty, and
    [b] is the sum of their sizes. *)
Inductive reaches (root : location) : nat -> nat -> location -> list (list Z) -> location -> Prop :=
  | rea_end l : reaches root 0 0 l [] l
  | rea_dot k b l cs l' : reaches root k b l cs l' -> reaches root k b l ([0x2e] :: cs) l'
  | rea_dotdot k b l cs l' : reaches root k b (up l) cs l' -> reaches root k b l ([0x2e; 0x2e] :: cs) l'
  | rea_enter k b n l c m cs l' : c <> [0x2e] -> c <> [0x2e; 0x2e] ->
      fs_lookup (n_pvt n) c = Some m -> n_mode m <> DT_LNK -> cs = [] \/ n_mode m = DT_DIR ->
      reaches root k b (m :: n :: l) cs l' -> reaches root k b (n :: l) (c :: cs) l'
  | rea_link k b n l c m cs l' : c <> [0x2e] -> c <> [0x2e; 0x2e] ->
      fs_lookup (n_pvt n) c = Some m -> n_mode m = DT_LNK -> fs_target (n_pvt m) <> [] ->
      reaches root k b (start root (n :: l) (fs_target (n_pvt m))) (components (fs_target (n_pvt m)) ++ cs) l' ->
      reaches root (Datatypes.S k) (Z.to_nat (n_size m) + b) (n :: l) (c :: cs) l'.

(** A path resolves to what it reaches with any number of links. *)
Lemma reaches_resolves root k b l cs l' : reaches root k b l cs l' -> resolves root l cs l'.
Proof. induction 1; by econstructor. Qed.

Lemma resolves_reaches root l cs l' : (forall p, fs_target p <> []) ->
  resolves root l cs l' -> exists k b, reaches root k b l cs l'.
Proof.
  intros Ht. induction 1 as [l|l cs l' _ [k [b IH]]|l cs l' _ [k [b IH]]|n l c m cs l' Hd Hdd Hl Hm Hcs _ [k [b IH]]|n l c m cs l' Hd Hdd Hl Hm _ [k [b IH]]];
    [exists 0%nat, 0%nat; constructor|exists k, b; by econstructor..|].
  exists (Datatypes.S k), (Z.to_nat (n_size m) + b)%nat. by eapply rea_link.
Qed.

(** What the code can follow: fewer than [sc] links, such that the path of [n]
    characters and the links together have fewer than 4096. *)
Definition in_limits (root l : location) (cs : list (list Z)) (n : nat) (sc : Z) (l' : location) : Prop :=
  exists k b, reaches root k b l cs l' /\ Z.of_nat k < sc /\ Z.of_nat (n + b) < MAX_SYMLINK_BUF.

Lemma in_limits_less root l cs n n' sc l' : (n' <= n)%nat -> in_limits root l cs n sc l' -> in_limits root l cs n' sc l'.
Proof. intros Hn (k & b & H & Hk & Hb). exists k, b. splits; [done|done|lia]. Qed.

Lemma in_limits_resolves root l cs n sc l' : in_limits root l cs n sc l' -> resolves root l cs l'.
Proof. intros (k & b & H & _). by eapply reaches_resolves. Qed.

(** A path leads to a place in the tree. *)
Lemma resolves_place root l cs l' : dirs_ok root -> resolves root l cs l' -> place_ok l -> (cs <> [] -> dirs_ok l) -> place_ok l'.
Proof.
  intros Hroot. induction 1 as [|l cs l' _ IH|l cs l' _ IH|n l c m cs l' _ _ Hl Hm Hcs _ IH|n l c m cs l' _ _ Hl Hm _ IH];
    intros Hp Hd; try specialize (Hd ltac:(done)); [done| | | |].
  - by apply IH.
  - assert (dirs_ok (up l)) as Hu by (destruct l as [|n [|m l]]; [done..|by apply Forall_cons in Hd as [_ ?]]).
    apply IH; [by apply dirs_place|done].
  - pose proof Hd as Hd'. apply Forall_cons in Hd' as [[Hn Hdir] _]. destruct n as [[md sz] pv]. unfold n_mode in Hdir. simpl in Hdir. subst md.
    pose proof (lookup_node _ _ _ _ Hn Hl) as Hmn. apply IH; [done|]. intros Hne. constructor; [|done]. by destruct Hcs.
  - assert (dirs_ok (start root (n :: l) (fs_target (n_pvt m)))) as Hs by (unfold start; by destruct (absolute _)).
    apply IH; [by apply dirs_place|done].
Qed.

(** ** Locations on the heap *)

Definition node_of (i : inode P) : node := (i_mode i, i_size i, i_pvt i).

(** A name of a directory that path lookup asks the file system for. *)
Definition entry_name (nm : list Z) : Prop := name_ok nm /\ chars nm /\ nm <> [0x2e] /\ nm <> [0x2e; 0x2e].

(** An inode is what the nearest directory has under its name.  It has no name
    when there was no memory for it. *)
Definition entry_of (l : location) (n : node) (name : option (list Z)) : Prop :=
  match l, name with
  | [], _ => True
  | d :: _, Some nm => entry_name nm /\ fs_lookup (n_pvt d) nm = Some n
  | _ :: _, None => exists r k, rest_ok r /\ snd (malloc_ok r k) = false
  end.

(** The inode [p] and its ancestors. *)
Fixpoint chain (h : gmap Z (inode P)) (p : Z) (l : location) : Prop :=
  match l with
  | [] => p = 0
  | n :: l => exists i, h !! p = Some i /\ node_of i = n /\ entry_of l n (i_name i) /\ chain h (parent i) l
  end.

Lemma same_inode_node (i j : inode P) : same_inode i j -> node_of i = node_of j.
Proof. intros H. unfold node_of. by injection H as _ _ -> -> ->. Qed.

Lemma same_inode_name (i j : inode P) : same_inode i j -> i_name i = i_name j.
Proof. intros H. by injection H. Qed.

(** The ancestors of an inode stay while it does. *)
Lemma chain_kept h h' R p l :
  kept h h' -> counted h' R -> is_Some (h' !! p) -> h !! 0 = None -> chain h p l -> chain h' p l.
Proof.
  intros Hk Hc Hp H0. revert p Hp. induction l as [|n l IH]; intros p [j Hj] Hch.
  - simpl in Hch. subst p. by rewrite (ct_null _ _ Hc) in Hj.
  - destruct Hch as (i & Hi & En & Hent & Hch). destruct (Hk p j Hj) as (i' & Hi' & Es).
    assert (i' = i) as -> by congruence. exists j.
    split_and!; [done|by rewrite <- (same_inode_node i j)|by rewrite <- (same_inode_name i j)|].
    rewrite <- (same_inode_parent i j) by done.
    destruct (decide (parent i = 0)) as [E0|Hne].
    + rewrite E0 in *. destruct l as [|m l]; [done|]. destruct Hch as (i0 & ? & _). congruence.
    + apply IH; [|done]. destruct (ct_live _ _ Hc (parent i)) as [?|?]; [|done..].
      apply elem_of_app. left. rewrite (same_inode_parent i j) by done. rewrite (links_delete _ _ _ Hj). elems.
Qed.

Lemma chain_insert h p q i l : h !! q = None -> chain h p l -> chain (<[q := i]> h) p l.
Proof.
  intros Hq. revert p. induction l as [|n l IH]; intros p; [done|]. intros (j & Hj & En & Hent & Hch).
  exists j. split_and!; [|done|done|by apply IH]. rewrite lookup_insert_ne; [done|]. intros ->. congruence.
Qed.

Lemma kept_size (h h' : gmap Z (inode P)) : kept h h' -> (size h' <= size h)%nat.
Proof.
  intros Hk. rewrite <- !size_dom. apply subseteq_size. intros p [j Hj]%elem_of_dom.
  apply elem_of_dom. destruct (Hk p j Hj) as (i & ? & _). eauto.
Qed.

Lemma links_length (h : gmap Z (inode P)) : length (links h) = size h.
Proof. unfold links. by rewrite length_fmap, length_map_to_list. Qed.

(** ** One iteration *)

(** [R] are the references of the rest of the program, the root's among them;
    [bound] leaves room for the counts. *)
Definition room (h : gmap Z (inode P)) (R : list Z) (n : nat) : Prop :=
  Z.of_nat (size h + length R + n) < 0x7ffffff0.

(** The state apart from the heap and what belongs to the file system. *)
Definition same_env (st st' : @vfs S P) : Prop :=
  v_files st' = v_files st /\ v_root st' = v_root st /\ v_cwd st' = v_cwd st /\ v_cwd_name st' = v_cwd_name st.

Section Walk.
(** The state at the call, the references of the rest of the program, the
    location of the root, the set of the locations to which the path
    resolves, the set of those that it reaches within the limits, and the room that
    is left for later calls. *)
Context (st0 : @vfs S P) (R : list Z) (root : location) (G B : location -> Prop) (spare : nat).
Context (root_ref : v_root st0 ∈ R) (root_dirs : dirs_ok root).

(** [X] are the references of the local variables. *)
Record good (st : @vfs S P) (X : list Z) : Prop := {
  gd_env : same_env st0 st;
  gd_rest : rest_ok (v_rest st);
  gd_counted : counted (v_heap st) (X ++ R);
  gd_root : chain (v_heap st) (v_root st0) root;
  gd_root_live : is_Some (v_heap st !! v_root st0);
  gd_stay q l : q ∈ R -> q <> 0 -> chain (v_heap st0) q l -> chain (v_heap st) q l }.

(** The locations of the references that are left do not change. *)
Definition chains_stay (st st' : @vfs S P) (X : list Z) : Prop :=
  forall q l, q ∈ X ++ R -> q <> 0 -> chain (v_heap st) q l -> chain (v_heap st') q l.

Lemma good_live st X p : good st X -> p ∈ X ++ R -> p <> 0 -> is_Some (v_heap st !! p).
Proof.
  intros Hg Hp H0. destruct (ct_live _ _ (gd_counted _ _ Hg) p) as [?|?]; [|done..]. apply elem_of_app. auto.
Qed.

Lemma good_kept st h X Y : good st X -> kept (v_heap st) h -> counted h (Y ++ R) ->
  good (set_heap st h) Y /\ (forall q l, is_Some (h !! q) -> chain (v_heap st) q l -> chain h q l).
Proof.
  intros Hg Hk Hc. pose proof (ct_null _ _ (gd_counted _ _ Hg)) as Hnull.
  assert (forall q l, is_Some (h !! q) -> chain (v_heap st) q l -> chain h q l) as Hch
    by (intros q l Hq; by apply (chain_kept _ _ _ _ _ Hk Hc Hq)).
  assert (v_root st0 <> 0) as Hr0 by (intros E; destruct (gd_root_live _ _ Hg); congruence).
  assert (is_Some (h !! v_root st0)) as Hlive.
  { destruct (ct_live _ _ Hc (v_root st0)) as [?|?]; [elems|done..]. }
  split; [|done]. destruct Hg as [? ? ? ? ? Hstay]. constructor; auto.
  intros q l Hq Hq0 Hql. apply Hch; [|by apply Hstay].
  destruct (ct_live _ _ Hc q) as [?|?]; [elems|done..].
Qed.

Lemma good_put st p X : good st (p :: X) -> exists st', put st p = Ok st' /\ good st' X /\
  chains_stay st st' X /\ (size (v_heap st') <= size (v_heap st))%nat.
Proof.
  intros Hg. unfold put. destruct (put_inode_ok _ p (X ++ R) (gd_counted _ _ Hg)) as (h & -> & Hc & Hk).
  destruct (good_kept st h (p :: X) X Hg Hk Hc) as [Hg' Hch]. exists (set_heap st h). splits; try done.
  - intros q l Hq H0. apply Hch. by apply (good_live (set_heap st h) X).
  - by apply kept_size.
Qed.

Lemma good_get st p X : good st X -> is_Some (v_heap st !! p) -> room (v_heap st) (X ++ R) 1 ->
  exists st', get st p = Ok st' /\ good st' (p :: X) /\
    (forall q l, is_Some (v_heap st !! q) -> chain (v_heap st) q l -> chain (v_heap st') q l) /\
    (size (v_heap st') = size (v_heap st))%nat.
Proof.
  intros Hg Hp Hroom. unfold get.
  destruct (get_inode_ok _ p _ (gd_counted _ _ Hg) Hp) as (h & -> & Hc & Hk & Hd).
  { unfold room in Hroom. rewrite length_app, links_length. lia. }
  destruct (good_kept st h X (p :: X) Hg Hk Hc) as [Hg' Hch]. exists (set_heap st h). splits; try done.
  - intros q l Hq. apply Hch. apply elem_of_dom. simpl. rewrite Hd. by apply elem_of_dom.
  - simpl. by rewrite <- !size_dom, Hd.
Qed.

(** A reference to the location [l]. *)
Record at_loc (st : @vfs S P) (p : Z) (l : location) : Prop := {
  at_live : is_Some (v_heap st !! p);
  at_chain : chain (v_heap st) p l }.

Lemma at_nonnull st X p l : good st X -> at_loc st p l -> p <> 0.
Proof. intros Hg [[i Hi] _] ->. by rewrite (ct_null _ _ (gd_counted _ _ Hg)) in Hi. Qed.

(** The part of the path that is left. *)
Definition comps (np : option (list Z)) : list (list Z) := match np with None => [] | Some p => components p end.
Definition from (l : location) (np : option (list Z)) : location :=
  match np with None => l | Some p => start root l p end.

Definition path_length (np : option (list Z)) : nat := match np with None => 0 | Some p => length p end.
(** With the slash before it. *)
Definition rest_length (np : option (list Z)) : nat := match np with None => 0 | Some p => Datatypes.S (length p) end.

Definition mu (w : @walk S P) : nat :=
  Z.to_nat (w_symlinks w) * 5000 + match w_name w with None => 0 | Some s => length s end.

(** There is more of the path only in a directory. *)
Definition walk_place (l : location) (np : option (list Z)) : Prop := place_ok l /\ (np <> None -> dirs_ok l).

Lemma walk_dirs l np : dirs_ok l -> walk_place l np.
Proof. intros H. split; [by apply dirs_place|done]. Qed.

Record walk_inv (w : @walk S P) : Prop := {
  wi_good : good (w_st w) [w_inode w];
  wi_symlinks : 0 < w_symlinks w;
  wi_room : room (v_heap (w_st w)) R (mu w + 4 + spare);
  wi_length : (match w_name w with None => 0 | Some s => length s end <= 5000)%nat;
  wi_path : exists l np, w_name w = terminated np /\ (forall p, np = Some p -> path_ok p) /\
    at_loc (w_st w) (w_inode w) l /\ walk_place l np /\
    (forall l', resolves root (from l np) (comps np) l' <-> G l') /\
    (forall l', B l' -> in_limits root (from l np) (comps np) (path_length np) (w_symlinks w) l') }.

(** Memory never runs out. *)
Definition enough_memory : Prop := forall r n, rest_ok r -> snd (malloc_ok r n) = true.

(** No link anywhere. *)
Definition no_links : Prop := forall p c m, fs_lookup p c = Some m -> n_mode m <> DT_LNK.

(** All links that there are can be followed. *)
Definition links_followed : Prop := enough_memory /\ (op_readlink <> None \/ no_links).

Record walk_done (r : @vfs S P * Z) : Prop := {
  wd_room : room (v_heap r.1) R spare;
  wd_found : r.2 <> 0 -> good r.1 [r.2] /\ exists l, at_loc r.1 r.2 l /\ G l;
  wd_failed : r.2 = 0 -> good r.1 [] /\ (no_links -> forall l, ~ G l) /\ (links_followed -> forall l, ~ B l) }.

Lemma resolves_end l l' : resolves root l [] l' <-> l = l'.
Proof. split; [by inversion 1|intros ->; constructor]. Qed.

Lemma resolves_dot l cs l' : resolves root l ([0x2e] :: cs) l' <-> resolves root l cs l'.
Proof. split; [by inversion 1; subst|by constructor]. Qed.

Lemma resolves_dotdot l cs l' : resolves root l ([0x2e; 0x2e] :: cs) l' <-> resolves root (up l) cs l'.
Proof. split; [by inversion 1; subst|by constructor]. Qed.

Lemma resolves_enter n l c m cs l' : c <> [0x2e] -> c <> [0x2e; 0x2e] ->
  fs_lookup (n_pvt n) c = Some m -> n_mode m <> DT_LNK -> cs = [] \/ n_mode m = DT_DIR ->
  resolves root (n :: l) (c :: cs) l' <-> resolves root (m :: n :: l) cs l'.
Proof.
  intros. split; [|by econstructor]. inversion 1; subst; try done; congruence.
Qed.

Lemma resolves_link n l c m cs l' : c <> [0x2e] -> c <> [0x2e; 0x2e] ->
  fs_lookup (n_pvt n) c = Some m -> n_mode m = DT_LNK ->
  resolves root (n :: l) (c :: cs) l' <->
  resolves root (start root (n :: l) (fs_target (n_pvt m))) (components (fs_target (n_pvt m)) ++ cs) l'.
Proof.
  intros. split; [|by eapply res_link]. inversion 1; subst; try done; congruence.
Qed.

Lemma in_limits_dot l cs n sc l' : in_limits root l ([0x2e] :: cs) n sc l' -> in_limits root l cs n sc l'.
Proof. intros (k & b & H & Hkb). exists k, b. split; [|done]. by inversion H; subst. Qed.

Lemma in_limits_dotdot l cs n sc l' : in_limits root l ([0x2e; 0x2e] :: cs) n sc l' -> in_limits root (up l) cs n sc l'.
Proof. intros (k & b & H & Hkb). exists k, b. split; [|done]. by inversion H; subst. Qed.

Lemma in_limits_enter n l c m cs j sc l' : c <> [0x2e] -> c <> [0x2e; 0x2e] ->
  fs_lookup (n_pvt n) c = Some m -> n_mode m <> DT_LNK ->
  in_limits root (n :: l) (c :: cs) j sc l' -> in_limits root (m :: n :: l) cs j sc l'.
Proof.
  intros Hd Hdd El Hm (k & b & H & Hkb). exists k, b. split; [|done]. inversion H; subst; try done; congruence.
Qed.

(** At a link: it is not empty, it fits, and there is one link less to follow. *)
Lemma in_limits_link n l c m cs j sc l' : c <> [0x2e] -> c <> [0x2e; 0x2e] ->
  fs_lookup (n_pvt n) c = Some m -> n_mode m = DT_LNK -> in_limits root (n :: l) (c :: cs) j sc l' ->
  fs_target (n_pvt m) <> [] /\ 1 < sc /\ Z.of_nat (j + Z.to_nat (n_size m)) < MAX_SYMLINK_BUF /\
  in_limits root (start root (n :: l) (fs_target (n_pvt m))) (components (fs_target (n_pvt m)) ++ cs)
    (j + Z.to_nat (n_size m)) (sc - 1) l'.
Proof.
  intros Hd Hdd El Hm (k & b & H & Hk & Hb).
  inversion H as [| | |? ? ? ? ? ? ? ? ? ? E|k' b' ? ? ? m' ? ? _ _ E Hm' Ht H']; subst; try done; [congruence|].
  assert (m' = m) as -> by congruence. splits; [done|lia|lia|]. exists k', b'. splits; [done|lia|lia].
Qed.

(** A path that does not start with a slash has a component. *)
Lemma components_nonempty t : path_ok t -> absolute t = false -> components t <> [].
Proof.
  intros [Ht Hne] Ha. destruct (decide (slash ∈ t)) as [Hin|Hin].
  - destruct (list_elem_of_split_l t slash Hin) as (a & b & -> & Hna).
    assert (name_ok a) as Hn.
    { split; [intros ->; unfold absolute in Ha; by rewrite bool_decide_true in Ha|].
      apply Forall_forall. intros x Hx ->. done. }
    by rewrite components_app, components_name.
  - rewrite components_name; [done|]. split; [done|]. apply Forall_forall. intros x Hx ->. done.
Qed.

(** The path that is left after the first component. *)
Lemma split_comps s n next : split_spec s n next ->
  (forall p, next = Some p -> path_ok p) /\ (forall l', from l' next = l') /\
  (match terminated next with None => 0 | Some t => length t end < length (s ++ [0%Z]))%nat /\ (rest_length next <= length s)%nat /\
  (next <> None <-> comps next <> []) /\
  (if absolute s then components s = comps next /\ n = [slash]
   else components s = n :: comps next /\ name_ok n /\ chars n).
Proof.
  intros H. destruct next as [t|]; [|inversion H; subst; splits; try done; rewrite ?H0, ?H1; try (rewrite length_app; simpl; lia); try (simpl; lia); done].
  assert (path_ok t /\ absolute t = false /\ (length t < length s)%nat /\
    (if absolute s then components s = components t /\ n = [slash]
     else components s = n :: components t /\ name_ok n /\ chars n)) as (Ht & Ha & Hl & Hc).
  { inversion H; subst; match goal with E : absolute s = _ |- _ => rewrite E end; intuition. }
  splits; try done.
  - by intros p [= <-].
  - intros l'. unfold from, start. by rewrite Ha.
  - simpl. rewrite !length_app. simpl. lia.
  - split; [intros _; by apply components_nonempty|done].
Qed.

(** *** The cases of an iteration *)

Abbreviation step_done w r := (step_ok walk_inv walk_done mu w r).

Lemma room_less h h' X m n : room h X m -> (size h' + n <= size h + m)%nat -> room h' X n.
Proof. unfold room. lia. Qed.

Lemma rest_path np : (path_length np <= rest_length np)%nat.
Proof. destruct np; simpl; lia. Qed.

Lemma fail_ok st p w : good st [p] -> room (v_heap st) R spare -> (no_links -> forall l, ~ G l) -> (links_followed -> forall l, ~ B l) ->
  step_done w (st ← put st p; Ok (Break (st, 0))).
Proof.
  intros Hg Hroom Hfail HfailB. destruct (good_put st p [] Hg) as (st' & -> & Hg' & _ & Hsz). cbn [mbind result_bind step_ok].
  constructor; [|done..]. eapply room_less; [exact Hroom|]. simpl. lia.
Qed.

Lemma walk_root st p s sc next : walk_inv (Walk st p (Some (s ++ [0])) sc) ->
  split_spec s [slash] next -> absolute s = true ->
  step_done (Walk st p (Some (s ++ [0])) sc)
    (st ← put st p; st ← get st (v_root st); Ok (Continue (Walk st (v_root st) (terminated next) sc))).
Proof.
  intros [Hg Hsc Hroom Hwl (l & np & Enp & Hnp & Hat & Hpl & HG & HB)] Hs Ha. simpl in *.
  destruct np as [s'|]; [|done]. injection Enp as Enp. apply app_inj_2 in Enp as [<- _]; [|done]. cbn [from comps path_length] in HG, HB.
  destruct (split_comps s [slash] next Hs) as (Hok & Hfrom & Hlen & Hrl & Hn & Hc). rewrite Ha in Hc. destruct Hc as [Hc _].
  destruct (good_put st p [] Hg) as (st1 & -> & Hg1 & _ & Hsz1). cbn [mbind result_bind].
  destruct (gd_env _ _ Hg1) as (_ & Er & _). rewrite Er.
  destruct (good_get st1 (v_root st0) [] Hg1 (gd_root_live _ _ Hg1)) as (st2 & -> & Hg2 & _ & Hsz2).
  { eapply room_less; [exact Hroom|]. lia. }
  cbn [mbind result_bind step_ok]. destruct (gd_env _ _ Hg2) as (_ & Er2 & _). rewrite Er2. split.
  - constructor; simpl; [done|done| | |].
    + eapply room_less; [exact Hroom|]. unfold mu. simpl. lia.
    + lia.
    + exists root, next. splits; [done|done| | | |].
      * constructor; apply Hg2.
      * by apply walk_dirs.
      * intros l'. rewrite Hfrom, <- HG, Hc. unfold start. by rewrite Ha.
      * intros l' Hl'. apply HB in Hl'. unfold start in Hl'. rewrite Ha, Hc in Hl'. rewrite Hfrom.
        eapply in_limits_less; [|exact Hl']. pose proof (rest_path next). lia.
  - unfold mu. simpl. lia.
Qed.

(** The walk goes on from a location to what is left of the path. *)
Lemma continue_ok st p l np sc w :
  good st [p] -> at_loc st p l -> walk_place l np -> 0 < sc -> (forall t, np = Some t -> path_ok t) ->
  (forall l', resolves root (from l np) (comps np) l' <-> G l') ->
  (forall l', B l' -> in_limits root (from l np) (comps np) (path_length np) sc l') ->
  (mu (Walk st p (terminated np) sc) < mu w)%nat ->
  (match terminated np with None => 0 | Some s => length s end <= 5000)%nat ->
  room (v_heap st) R (mu (Walk st p (terminated np) sc) + 4 + spare) ->
  step_done w (Ok (Continue (Walk st p (terminated np) sc))).
Proof. intros Hg Hat Hpl Hsc Hnp HG HB Hmu Hlen Hroom. cbn [step_ok]. split; [|done]. constructor; try done. by exists l, np. Qed.

(** From an inode to its parent. *)
Lemma to_parent st p m n l i :
  good st [p] -> at_loc st p (m :: n :: l) -> v_heap st !! p = Some i -> room (v_heap st) R 2 ->
  exists st1 st2, get st (parent i) = Ok st1 /\ put st1 p = Ok st2 /\ good st2 [parent i] /\
    at_loc st2 (parent i) (n :: l) /\ (size (v_heap st2) <= size (v_heap st))%nat.
Proof.
  intros Hg Hat Hi Hroom. destruct (at_chain _ _ _ Hat) as (i' & Hi' & _ & _ & Hch).
  assert (i' = i) as -> by congruence. assert (is_Some (v_heap st !! parent i)) as Hlive by (destruct Hch as (j & ? & _); eauto).
  destruct (good_get st (parent i) [p] Hg Hlive) as (st1 & Eg & Hg1 & Hch1 & Hsz1).
  { unfold room in *. simpl. lia. }
  assert (good st1 [p; parent i]) as Hg1'.
  { destruct Hg1 as [? ? Hc ? ? ?]. constructor; try done. eapply counted_perm; [|exact Hc]. constructor. }
  destruct (good_put st1 p [parent i] Hg1') as (st2 & Ep & Hg2 & Hch2 & Hsz2). exists st1, st2.
  assert (parent i <> 0) as Hne by (intros E; destruct Hlive; pose proof (ct_null _ _ (gd_counted _ _ Hg)); congruence).
  splits; try done; [|lia]. constructor; [apply (good_live st2 [parent i]); [done|elems|done]|].
  apply Hch2; [elems|done|]. by apply Hch1.
Qed.

Lemma walk_dotdot st p l s sc next i :
  let w := Walk st p (Some (s ++ [0])) sc in
  good st [p] -> at_loc st p l -> dirs_ok l -> 0 < sc -> room (v_heap st) R (mu w + 4 + spare) -> (length (s ++ [0%Z]) <= 5000)%nat ->
  (forall t, next = Some t -> path_ok t) -> (forall l, from l next = l) ->
  (match terminated next with None => 0 | Some t => length t end < length (s ++ [0%Z]))%nat ->
  (forall l', resolves root l ([0x2e; 0x2e] :: comps next) l' <-> G l') ->
  (forall l', B l' -> in_limits root l ([0x2e; 0x2e] :: comps next) (path_length next) sc l') ->
  v_heap st !! p = Some i -> parent i <> 0 ->
  step_done w (st ← get st (parent i); st ← put st p; Ok (Continue (Walk st (parent i) (terminated next) sc))).
Proof.
  intros w Hg Hat Hdirs Hsc Hroom Hwl Hok Hfrom Hmu HG HB Hi Hpar. pose proof (at_chain _ _ _ Hat) as Hch.
  destruct l as [|n [|m l]].
  { simpl in Hch. subst p. by rewrite (ct_null _ _ (gd_counted _ _ Hg)) in Hi. }
  { destruct Hch as (i' & Hi' & _ & _ & Hch). simpl in Hch. congruence. }
  destruct (to_parent st p n m l i Hg Hat Hi) as (st1 & st2 & -> & Ep & Hg2 & Hat2 & Hsz).
  { eapply room_less; [exact Hroom|]. lia. }
  cbn [mbind result_bind]. rewrite Ep. cbn [mbind result_bind].
  apply (continue_ok st2 (parent i) (m :: l)); try done; [| | |unfold w, mu; simpl; lia|lia|].
  - apply walk_dirs. by apply Forall_cons in Hdirs as [_ ?].
  - intros l'. rewrite Hfrom, <- HG. by rewrite resolves_dotdot.
  - intros l' Hl'. rewrite Hfrom. by apply HB, in_limits_dotdot in Hl'.
  - eapply room_less; [exact Hroom|]. unfold w, mu in *. simpl in *. lia.
Qed.

Lemma good_rest st X r : good st X -> rest_ok r -> good (set_rest st r) X.
Proof. intros [? ? ? ? ? ?] Hr. by constructor. Qed.

Lemma at_rest st p l r : at_loc st p l -> at_loc (set_rest st r) p l.
Proof. by intros [? ?]. Qed.

Lemma good_malloc st X n : good st X ->
  exists r b, snd (malloc_ok (v_rest st) n) = b /\ malloc st n = (set_rest st r, b) /\ good (set_rest st r) X /\ rest_ok r.
Proof.
  intros Hg. unfold malloc. pose proof (malloc_spec _ n (gd_rest _ _ Hg)) as Hr.
  destruct (malloc_ok (v_rest st) n) as [r b]. exists r, b. splits; [done|done| |done]. by apply good_rest.
Qed.

(** The path that a link makes. *)
Definition link_target (t : list Z) (next : option (list Z)) : list Z :=
  match next with None => t | Some u => t ++ slash :: u end.

Lemma link_path_ok t sz next : chars t -> Z.of_nat (length t) <= sz -> (forall u, next = Some u -> path_ok u) ->
  link_path (Z.of_nat (length t)) t
    (match next with None => sz + 1 | Some u => sz + 1 + (Z.of_nat (length u) + 1) end) (terminated next) =
    Ok (link_target t next ++ [0]).
Proof.
  intros Ht Hsz Hnext. unfold link_path, terminated, link_target. destruct next as [u|].
  - destruct (Hnext u eq_refl) as [Hu _]. rewrite strlen_ok by done. cbn [mbind result_bind].
    rewrite decide_True by lia. by rewrite Nat2Z.id, firstn_all, <- app_assoc.
  - rewrite decide_True by lia. by rewrite Nat2Z.id, firstn_all.
Qed.

(** A new inode under a directory. *)
Lemma good_enter st tmp l X mode sz pvt name r :
  good st (tmp :: X) -> at_loc st tmp l -> room (v_heap st) (tmp :: X ++ R) 2 -> rest_ok r ->
  entry_of l (mode, sz, pvt) name ->
  let '(h, p) := alloc_inode (v_heap st) mode sz pvt in
  let i := Inode_ 0 None 1 mode sz pvt in
  let st' := set_heap (set_rest st r) (<[p := set_parent i tmp name]> h) in
  h !! p = Some i /\ good st' (p :: X) /\ at_loc st' p ((mode, sz, pvt) :: l) /\ p <> 0 /\ p <> tmp /\
  (Datatypes.S (size (v_heap st)) = size (v_heap st'))%nat.
Proof.
  intros Hg Hat Hroom Hr Hent. destruct (alloc_inode _ mode sz pvt) as [h p] eqn:Ea.
  pose proof (alloc_inode_ok (v_heap st) mode sz pvt (tmp :: X ++ R) (gd_counted _ _ Hg)) as Hnew. rewrite Ea in Hnew.
  destruct Hnew as (Hc & Hfresh & -> & Hp0).
  { unfold room in Hroom. rewrite length_app, links_length. lia. }
  set (i := Inode_ 0 None 1 mode sz pvt) in *. intros i0 st'.
  assert (p <> tmp) as Hne by (intros ->; destruct (at_live _ _ _ Hat); congruence).
  assert (v_heap st' = <[p := set_parent i tmp name]> (v_heap st)) as Eh by (unfold st'; simpl; apply insert_insert_eq).
  assert (forall q m, chain (v_heap st) q m -> chain (v_heap st') q m) as Hch
    by (intros q m; rewrite Eh; by apply chain_insert).
  splits; [apply lookup_insert_eq| | |done|done|].
  - destruct Hg as [? ? ? Hrt Hrl Hstay]. constructor; try done; [|by apply Hch| |].
    + cbn [app]. apply set_parent_ok; [done|apply lookup_insert_eq|done|done].
    + rewrite Eh, lookup_insert_is_Some'. auto.
    + intros q m Hq Hq0 Hqm. apply Hch. by apply Hstay.
  - constructor; rewrite Eh, lookup_insert_eq || rewrite Eh; [eauto|].
    exists (set_parent i tmp name). rewrite lookup_insert_eq. splits; [done..|exact Hent|].
    simpl. apply chain_insert; [done|]. apply Hat.
  - rewrite Eh, map_size_insert_None; done.
Qed.

Lemma follow_link_ok st p m n l i sc next w :
  good st [p] -> at_loc st p (m :: n :: l) -> v_heap st !! p = Some i -> n_mode m = DT_LNK ->
  node_ok m -> dirs_ok (n :: l) -> 0 < sc -> room (v_heap st) R (mu w + 3 + spare) -> (Z.to_nat sc * 5000 <= mu w)%nat ->
  (forall t, next = Some t -> path_ok t) -> (match terminated next with None => 0 | Some s => length s end <= 5000)%nat ->
  (forall l', resolves root (start root (n :: l) (fs_target (n_pvt m))) (components (fs_target (n_pvt m)) ++ comps next) l' <-> G l') ->
  (no_links -> False) ->
  (forall l', B l' -> fs_target (n_pvt m) <> [] /\ 1 < sc /\ Z.of_nat (rest_length next + Z.to_nat (n_size m)) < MAX_SYMLINK_BUF /\
    in_limits root (start root (n :: l) (fs_target (n_pvt m))) (components (fs_target (n_pvt m)) ++ comps next)
      (rest_length next + Z.to_nat (n_size m)) (sc - 1) l') ->
  step_done w (follow_link st p (terminated next) sc).
Proof.
  intros Hg Hat Hi Hm Hlook Hdirs Hsc Hroom Hmu Hnext Hlen HG Hnl HB.
  assert (forall st', good st' [p] -> v_heap st' = v_heap st -> (links_followed -> forall l', ~ B l') -> step_done w (st ← put st' p; Ok (Break (st, 0)))) as Hfail.
  { intros st' Hg' Eh HfB. apply fail_ok; [done| |intros Hno; destruct (Hnl Hno)|done]. rewrite Eh. eapply room_less; [exact Hroom|]. lia. }
  destruct (at_chain _ _ _ Hat) as (i' & Hi' & Em & _). assert (i' = i) as -> by congruence.
  rewrite <- Em in Hlook. unfold node_of in Hlook. assert (i_mode i = DT_LNK) as Hmi by (by rewrite <- Em in Hm).
  rewrite Hmi in Hlook. pose proof (link_size _ _ Hlook) as Hsize.
  unfold follow_link, deref. rewrite Hi. cbn [of_option mbind result_bind].
  rewrite (u32_small (i_size i + 1)), (s32_small (i_size i + 1)) by lia.
  set (new_len := match next with None => i_size i + 1 | Some u => i_size i + 1 + (Z.of_nat (length u) + 1) end).
  assert ((match terminated next with
    | None => Ok (i_size i + 1)
    | Some t => n ← strlen t; Ok (s32 (i_size i + 1 + (n + 1)))
    end : result Z) = Ok new_len) as ->.
  { unfold terminated, new_len in *. destruct next as [u|]; [|done]. destruct (Hnext u eq_refl) as [Hu _].
    rewrite strlen_ok by done. cbn [mbind result_bind]. rewrite length_app in Hlen. rewrite s32_small by lia. done. }
  cbn [mbind result_bind]. destruct op_readlink as [rl|] eqn:Erl; [|apply Hfail; [done|done|]; intros [_ [Hrl|Hno]]; [by rewrite Erl in Hrl|destruct (Hnl Hno)]].
  assert (n_size m = i_size i) as Esz by (by rewrite <- Em).
  case_decide as Hlim.
  { apply Hfail; [done|done|]. intros _ l' (_ & H1 & H2 & _)%HB. unfold new_len, rest_length in *. destruct next; lia. }
  destruct (good_malloc st [p] (u32 new_len) Hg) as (r & b & Emal & -> & Hg1 & Hr).
  destruct b; cbn [negb].
  2: { apply Hfail; [done|done|]. intros [Hmem _]. specialize (Hmem (v_rest st) (u32 new_len) (gd_rest _ _ Hg)). by rewrite Emal in Hmem. }
  rewrite <- Hmi in Hlook. destruct (readlink_spec rl r i Erl Hr Hmi Hlook) as (r' & Erd & Hr' & Hchars & Htl).
  cbn [v_rest set_rest]. rewrite Erd. cbn [mbind result_bind]. assert (i_pvt i = n_pvt m) as Epv by (by rewrite <- Em). rewrite Epv in *.
  set (t := fs_target (n_pvt m)) in *.
  pose proof (good_rest (set_rest st r) [p] r' Hg1 Hr') as Hg2.
  case_decide as Hcop.
  { apply Hfail; [done|done|]. intros _ l' (Ht & _)%HB. destruct t; [done|simpl in Hcop; lia]. }
  pose proof (link_path_ok t (i_size i) next Hchars Htl Hnext) as Elp. fold new_len in Elp.
  rewrite Elp. cbn [mbind result_bind].
  destruct (to_parent _ p m n l i Hg2 (at_rest _ p _ r' (at_rest st p _ r Hat)) Hi) as (st3 & st4 & -> & Ep & Hg4 & Hat4 & Hsz4).
  { eapply room_less; [exact Hroom|]. simpl. lia. }
  cbn [mbind result_bind]. rewrite Ep. cbn [mbind result_bind].
  assert (t <> []) as Hte by (intros Ee; rewrite Ee in Hcop; simpl in Hcop; lia).
  assert (length (link_target t next ++ [0%Z]) <= 4096)%nat as Hl4.
  { apply Decidable.not_or in Hlim as [_ Hlim]. unfold MAX_SYMLINK_BUF, new_len, link_target in *.
    destruct next; rewrite !length_app; simpl; lia. }
  apply (continue_ok st4 (parent i) (n :: l) (Some (link_target t next))); try done.
  - by apply walk_dirs.
  - lia.
  - intros u [= <-]. unfold link_target. destruct next as [u|]; [|done]. destruct (Hnext u eq_refl) as [Hu _].
    split; [|by destruct t]. apply Forall_app. split; [done|]. by constructor.
  - intros l'. rewrite <- HG. cbn [from comps]. unfold link_target. destruct next as [u|].
    + assert (start root (n :: l) (t ++ slash :: u) = start root (n :: l) t) as -> by (unfold start, absolute; by destruct t).
      by rewrite components_app.
    + by rewrite app_nil_r.
  - intros l' (_ & _ & _ & Hl')%HB. cbn [from comps path_length]. unfold link_target. destruct next as [u|].
    + assert (start root (n :: l) (t ++ slash :: u) = start root (n :: l) t) as -> by (unfold start, absolute; by destruct t).
      rewrite components_app. eapply in_limits_less; [|exact Hl']. rewrite length_app. simpl. lia.
    + rewrite app_nil_r in Hl'. eapply in_limits_less; [|exact Hl']. simpl. lia.
  - unfold mu at 1. cbn [w_symlinks w_name terminated]. simpl in Hl4 |- *. lia.
  - cbn [terminated]. lia.
  - eapply room_less; [exact Hroom|]. unfold mu at 1. cbn [w_symlinks w_name terminated]. simpl in Hl4, Hsz4 |- *. lia.
Qed.

Lemma no_entry n l nm cs l' : nm <> [0x2e] -> nm <> [0x2e; 0x2e] ->
  fs_lookup (n_pvt n) nm = None -> ~ resolves root (n :: l) (nm :: cs) l'.
Proof. intros ? ? E H. inversion H; subst; congruence. Qed.

Lemma not_a_directory n l nm m cs l' : nm <> [0x2e] -> nm <> [0x2e; 0x2e] ->
  fs_lookup (n_pvt n) nm = Some m -> n_mode m <> DT_LNK -> n_mode m <> DT_DIR -> cs <> [] ->
  ~ resolves root (n :: l) (nm :: cs) l'.
Proof. intros ? ? E ? ? ? H. inversion H; subst; try congruence. assert (m0 = m) as -> by congruence. intuition. Qed.

Lemma enter_ok st tmp n l nm sc next s :
  let w := Walk st tmp (Some (s ++ [0])) sc in
  good st [tmp] -> at_loc st tmp (n :: l) -> dirs_ok (n :: l) -> 0 < sc -> room (v_heap st) R (mu w + 4 + spare) ->
  (length (s ++ [0%Z]) <= 5000)%nat -> entry_name nm ->
  (forall t, next = Some t -> path_ok t) -> (forall l, from l next = l) -> (next <> None <-> comps next <> []) ->
  (match terminated next with None => 0 | Some t => length t end < length (s ++ [0%Z]))%nat ->
  (forall l', resolves root (n :: l) (nm :: comps next) l' <-> G l') ->
  (forall l', B l' -> in_limits root (n :: l) (nm :: comps next) (rest_length next) sc l') ->
  step_done w (enter st tmp (nm ++ [0]) (terminated next) sc).
Proof.
  intros w Hg Hat Hdirs Hsc Hroom Hwl Hname Hok Hfrom Hnc Hmu HG HB.
  assert (forall l', B l' -> G l') as HBG by (intros l' (k & b & Hl' & _)%HB; by apply reaches_resolves, HG in Hl').
  pose proof Hname as ([Hne _] & Hnm & Hd & Hdd).
  destruct (at_chain _ _ _ Hat) as (dir & Hdir & En & _). unfold enter, deref. rewrite Hdir. cbn [of_option mbind result_bind].
  pose proof Hdirs as Hdirs'. apply Forall_cons in Hdirs' as [[Hnode Hdir'] _]. rewrite <- En in Hnode, Hdir'.
  destruct (iget_spec (v_rest st) nm dir (gd_rest _ _ Hg) Hnm Hne Hdir' Hnode) as (r & Eo & Hr).
  assert (i_pvt dir = n_pvt n) as Epv by (by rewrite <- En). rewrite Eo. cbn [mbind result_bind].
  assert (i_mode dir = DT_DIR) as Hdm by done. unfold node_of in Hnode. rewrite Hdm in Hnode.
  assert (forall m, fs_lookup (n_pvt n) nm = Some m -> node_ok m) as Hm
    by (intros m Hlm; rewrite <- Epv in Hlm; by apply (lookup_node _ _ _ _ Hnode Hlm)).
  rewrite Epv. clear Eo.
  pose proof (good_rest st [tmp] r Hg Hr) as Hg1.
  destruct (fs_lookup (n_pvt n) nm) as [[[mode sz] pvt]|] eqn:El.
  2: { assert (forall l', ~ G l') as Hno by (intros l' HGl%HG; by eapply no_entry).
       apply fail_ok; [done|eapply room_less; [exact Hroom|]; simpl; lia|done|intros _ l' Hl'; by apply (Hno l'), HBG]. }
  set (m := (mode, sz, pvt) : node).
  destruct (alloc_inode (v_heap (set_rest st r)) mode sz pvt) as [h p] eqn:Ea.
  assert (forall name r', rest_ok r' -> entry_of (n :: l) m name ->
    let i := Inode_ 0 None 1 mode sz pvt in
    let st' := set_heap (set_rest st r') (<[p := set_parent i tmp name]> h) in
    h !! p = Some i /\ good st' [p] /\ at_loc st' p (m :: n :: l) /\ p <> 0 /\ p <> tmp /\
    (Datatypes.S (size (v_heap st)) = size (v_heap st'))%nat) as Hnew.
  { intros name r' Hr' Hent. pose proof (good_enter st tmp (n :: l) [] mode sz pvt name r' Hg Hat) as Hen.
    simpl in Ea. rewrite Ea in Hen. apply Hen; [|done..]. unfold room in *. simpl. lia. }
  destruct (Hnew (Some nm) r Hr (conj Hname El)) as (Hp & _ & _ & Hp0 & Hpt & _).
  cbn [v_heap set_heap]. rewrite Hp. cbn [of_option mbind result_bind parent]. rewrite decide_False by tauto.
  rewrite strlen_ok by done. cbn [mbind result_bind].
  unfold malloc. cbn [v_rest set_heap set_rest].
  pose proof (malloc_spec r (Z.of_nat (length nm) + 1) Hr) as Hr2. destruct (malloc_ok r _) as [r2 b] eqn:Em. simpl in Hr2.
  set (name := if b then _ else None). assert (entry_of (n :: l) m name) as Hent.
  { unfold name. destruct b; cbn [entry_of]; [|by eexists _, _; rewrite Em].
    by rewrite Nat2Z.id, take_app_length. }
  destruct (Hnew name r2 Hr2 Hent) as (_ & Hg2 & Hat2 & _ & _ & Hsz2). clear Hnew.
  cbn zeta in Hg2, Hat2, Hsz2. set (i := set_parent _ tmp name) in *.
  change (set_heap _ _) with (set_heap (set_rest st r2) (<[p := i]> h)).
  set (st2 := set_heap (set_rest st r2) (<[p := i]> h)) in *. clearbody name.
  assert (forall l', resolves root (n :: l) (nm :: comps next) l' -> G l') as HG' by (intros l'; apply HG).
  case_decide as Hlnk.
  { subst mode. apply (follow_link_ok st2 p m n l i); try done.
    - apply lookup_insert_eq.
    - by apply Hm.
    - eapply room_less; [exact Hroom|]. lia.
    - unfold w, mu. simpl. lia.
    - lia.
    - intros l'. rewrite <- HG. by rewrite (resolves_link n l nm m) by done.
    - intros Hno. by apply (Hno _ _ _ El).
    - intros l' Hl'. by apply HB, (in_limits_link n l nm m) in Hl'. }
  case_decide as Hndir.
  { assert (forall l', ~ G l') as Hno.
    { intros l' HGl%HG. destruct Hndir as [Hn1 Hn2]. assert (next <> None) as Hn3 by (intros ->; done). apply Hnc in Hn3. by eapply not_a_directory. }
    apply fail_ok; [done|eapply room_less; [exact Hroom|]; lia|done|intros _ l' Hl'; by apply (Hno l'), HBG]. }
  apply (continue_ok st2 p (m :: n :: l)); try done.
  - split; [split; [by apply Hm|done]|]. intros Hnx. constructor; [|done]. split; [by apply Hm|].
    destruct (decide (mode = DT_DIR)) as [?|Hnd]; [done|]. exfalso. apply Hndir. by destruct next.
  - intros l'. rewrite Hfrom, <- HG. symmetry. apply resolves_enter; try done.
    destruct (decide (mode = DT_DIR)) as [?|Hnd]; [auto|]. left. destruct next as [t|]; [|done].
    exfalso. by apply Hndir.
  - intros l' Hl'. rewrite Hfrom. apply HB, (in_limits_enter n l nm m) in Hl'; [|done..].
    eapply in_limits_less; [|exact Hl']. apply rest_path.
  - unfold w, mu. simpl. lia.
  - lia.
  - eapply room_less; [exact Hroom|]. unfold w, mu in *. simpl in *. lia.
Qed.

Lemma walk_component_ok w : walk_inv w -> step_done w (walk_component w).
Proof.
  destruct w as [st p name sc]. intros [Hg Hsc Hroom Hwl (l & np & Enp & Hnp & Hat & Hpl & HG & HB)]. simpl in *. subst name.
  destruct np as [s|]; cbn [terminated walk_component].
  2: { cbn [step_ok]. pose proof (at_nonnull _ _ _ _ Hg Hat). constructor; simpl; [eapply room_less; [exact Hroom|]; lia| |done]. intros _. split; [done|].
       exists l. split; [done|]. apply HG. constructor. }
  pose proof (Hnp s eq_refl) as Hs. assert (dirs_ok l) as Hdirs by (by apply Hpl). cbn [from comps terminated path_length] in *.
  destruct (split_name_ok s Hs) as (n & next & -> & Hsplit). cbn [mbind result_bind].
  destruct (split_comps s n next Hsplit) as (Hok & Hfrom & Hlen & Hrl & Hnc & Hc). pose proof (rest_path next) as Hrp.
  destruct (absolute s) eqn:Ha.
  { destruct Hc as [Hc ->]. cbn [head app of_option mbind result_bind]. rewrite decide_True by done.
    apply (walk_root st p s sc next); [|done..]. constructor; try done. by exists l, (Some s). }
  destruct Hc as (Hc & [Hne Hns] & Hchars). unfold start in HG, HB. rewrite Ha, Hc in HG, HB.
  assert (exists x, head (n ++ [0]) = Some x /\ x <> slash) as (x & -> & Hx).
  { destruct n as [|x n]; [done|]. exists x. apply Forall_cons in Hns as [? _]. done. }
  cbn [of_option mbind result_bind]. rewrite decide_False by done.
  destruct (strncmp_fixed n [0x2e] Hchars) as (d & Ed & Hd); [by repeat constructor|].
  rewrite (Ed : strncmp (n ++ [0]) dot 2 = Ok d). cbn [mbind result_bind].
  destruct (decide (d = 0)) as [Hd0|Hd0].
  { apply Hd in Hd0. subst n. apply (continue_ok st p l); try done.
    - by apply walk_dirs.
    - intros l'. rewrite Hfrom, <- HG. by rewrite resolves_dot.
    - intros l' Hl'. rewrite Hfrom. apply HB, in_limits_dot in Hl'. eapply in_limits_less; [|exact Hl']. lia.
    - unfold mu. simpl. lia.
    - lia.
    - eapply room_less; [exact Hroom|]. unfold mu. simpl. lia. }
  destruct (strncmp_fixed n [0x2e; 0x2e] Hchars) as (d2 & Ed2 & Hd2); [by repeat constructor|].
  rewrite (Ed2 : strncmp (n ++ [0]) dotdot 3 = Ok d2). cbn [mbind result_bind].
  destruct (decide (d2 = 0)) as [Hd20|Hd20].
  { apply Hd2 in Hd20. subst n. destruct (at_live _ _ _ Hat) as [i Hi]. unfold deref. rewrite Hi. cbn [of_option mbind result_bind].
    case_decide as Hpar; [|apply (walk_dotdot st p l s sc next i); try done; intros l' Hl'; eapply in_limits_less; [|by apply HB]; lia].
    assert (up l = l) as Eup.
    { pose proof (at_chain _ _ _ Hat) as Hch. destruct l as [|a [|b l]]; try done. exfalso.
      destruct Hch as (i' & Hi' & _ & _ & (j & Hj & _)). assert (i' = i) as -> by congruence.
      rewrite Hpar, (ct_null _ _ (gd_counted _ _ Hg)) in Hj. done. }
    apply (continue_ok st p l); try done.
    - by apply walk_dirs.
    - intros l'. rewrite Hfrom, <- HG, resolves_dotdot. by rewrite Eup.
    - intros l' Hl'. rewrite Hfrom. apply HB, in_limits_dotdot in Hl'. rewrite Eup in Hl'. eapply in_limits_less; [|exact Hl']. lia.
    - unfold mu. simpl. lia.
    - lia.
    - eapply room_less; [exact Hroom|]. unfold mu. simpl. lia. }
  destruct l as [|nd l]; [by pose proof (at_nonnull _ _ _ _ Hg Hat); pose proof (at_chain _ _ _ Hat)|].
  apply (enter_ok st p nd l n sc next s); try done; [|intros l' Hl'; eapply in_limits_less; [|by apply HB]; lia].
  split; [done|]. split; [done|]. split; intros E; [by apply Hd0, Hd|by apply Hd20, Hd2].
Qed.

End Walk.

(** ** The theorem *)

(** The references from outside of the heap. *)
Definition roots (st : @vfs S P) : list Z := v_root st :: v_cwd st :: (f_inode <$> v_files st).

(** What holds between the calls; [root] and [cwd] are the locations of the
    root and of the current directory. *)
Record vfs_ok (st : @vfs S P) (root cwd : location) : Prop := {
  vo_rest : rest_ok (v_rest st);
  vo_counted : counted (v_heap st) (roots st);
  vo_root : v_root st <> 0 /\ chain (v_heap st) (v_root st) root;
  vo_cwd : v_cwd st <> 0 /\ chain (v_heap st) (v_cwd st) cwd;
  vo_dirs : dirs_ok root /\ dirs_ok cwd;
  vo_length : length (v_files st) = MAX_OPEN;
  vo_free k f : v_files st !! k = Some f -> f_fs f = false -> f = no_file }.

Lemma inodes_insert (files : list file) k f f0 : files !! k = Some f0 ->
  exists rest, f_inode <$> files ≡ₚ f_inode f0 :: rest /\ f_inode <$> <[k := f]> files ≡ₚ f_inode f :: rest.
Proof.
  intros Hk. exists (f_inode <$> (take k files ++ drop (Datatypes.S k) files)). split.
  - rewrite <- (take_drop_middle files k f0 Hk) at 1. rewrite <- fmap_cons. apply fmap_Permutation.
    symmetry. apply Permutation_middle.
  - rewrite insert_take_drop by (by eapply lookup_lt_Some). rewrite <- fmap_cons. apply fmap_Permutation.
    symmetry. apply Permutation_middle.
Qed.

(** The references when the file in a slot changes. *)
Lemma slot_roots (st st' : @vfs S P) k f0 f : v_files st !! k = Some f0 ->
  exists rest, roots st ≡ₚ f_inode f0 :: rest /\
    (v_files st' = <[k := f]> (v_files st) -> v_root st' = v_root st -> v_cwd st' = v_cwd st ->
     roots st' ≡ₚ f_inode f :: rest).
Proof.
  intros Hk. destruct (inodes_insert (v_files st) k f f0 Hk) as (rest & E1 & E2).
  exists (v_root st :: v_cwd st :: rest). unfold roots. split.
  - rewrite E1. symmetry. apply (Permutation_middle [v_root st; v_cwd st] rest (f_inode f0)).
  - intros -> -> ->. rewrite E2. symmetry. apply (Permutation_middle [v_root st; v_cwd st] rest (f_inode f)).
Qed.

Lemma free_index_ok l k : match free_index l k with
  | Some j => exists i f, j = (k + i)%nat /\ l !! i = Some f /\ f_fs f = false
  | None => forall i f, l !! i = Some f -> f_fs f = true end.
Proof.
  revert k. induction l as [|f l IH]; intros k; cbn [free_index]; [done|]. destruct (f_fs f) eqn:E.
  - specialize (IH (k + 1)%nat). destruct (free_index l (k + 1)).
    + destruct IH as (i & f' & -> & Hi & Ef). exists (Datatypes.S i), f'. splits; [lia|done|done].
    + intros [|i] f'; [by intros [= <-]|apply IH].
  - exists 0%nat, f. splits; [lia|done|done].
Qed.

(** The fuel: 20 links, each with a path of up to 4096 bytes. *)
Definition search_fuel : nat := Z.to_nat 110000.

Section Search.
Context (st : @vfs S P) (root cwd : location) (path : list Z).
Context (Hok : vfs_ok st root cwd) (Hpath : path_ok path) (Hlen : (length path < 4096)%nat).
Context (spare : nat) (Hroom : room (v_heap st) (roots st) (Z.to_nat 120000 + spare)).

Abbreviation target := (resolves root (start root cwd path) (components path)).

(** What the path reaches through fewer than 20 links, such that the lengths of the
    path and of the links add up to less than 4096. *)
Definition reachable : location -> Prop := in_limits root (start root cwd path) (components path) (length path) MAX_SYMLINK_CNT.

Lemma roots_live p : p ∈ roots st -> p <> 0 -> is_Some (v_heap st !! p).
Proof.
  intros Hp H0. destruct (ct_live _ _ (vo_counted _ _ _ Hok) p) as [?|?]; [|done..]. rewrite elem_of_app. auto.
Qed.

Lemma good_start r files : rest_ok r -> roots (set_files st files) = roots st ->
  let st0 := set_rest (set_files st files) r in good st0 (roots st) root st0 [].
Proof.
  intros Hr Hroots st0. destruct (vo_root _ _ _ Hok) as [Hr0 Hrc]. constructor; try done.
  - apply Hok.
  - apply roots_live; [|done]. unfold roots. elems.
Qed.

(** The walk from the start. *)
Lemma search_loop r files : rest_ok r -> roots (set_files st files) = roots st ->
  let st0 := set_rest (set_files st files) r in
  exists st1 res, get st0 (v_cwd st) = Ok st1 /\
    loop search_fuel walk_component (Walk st1 (v_cwd st) (Some (path ++ [0])) MAX_SYMLINK_CNT) = Ok res /\
    walk_done st0 (roots st) root target reachable spare res.
Proof.
  intros Hr Hroots st0. pose proof (good_start r files Hr Hroots) as Hg0. fold st0 in Hg0. cbn zeta in Hg0.
  destruct (vo_cwd _ _ _ Hok) as [Hc0 Hcc]. assert (v_root st0 ∈ roots st) as Href by (unfold roots; simpl; elems).
  assert (is_Some (v_heap st0 !! v_cwd st)) as Hlive by (apply roots_live; [unfold roots; elems|done]).
  destruct (good_get st0 (roots st) root target reachable Href st0 (v_cwd st) [] Hg0 Hlive) as (st1 & Eg & Hg1 & Hch1 & Hsz).
  { eapply room_less; [exact Hroom|]. change (v_heap st0) with (v_heap st). lia. }
  edestruct (fun Hstep => loop_total (walk_inv st0 (roots st) root target reachable spare) (walk_done st0 (roots st) root target reachable spare) mu
    walk_component Hstep search_fuel (Walk st1 (v_cwd st) (Some (path ++ [0])) MAX_SYMLINK_CNT)) as (res & E & Hd).
  - intros w Hw. exact (walk_component_ok st0 (roots st) root target reachable spare Href (proj1 (vo_dirs _ _ _ Hok)) w Hw).
  - constructor; cbn [w_st w_inode w_symlinks w_name].
    + exact Hg1.
    + unfold MAX_SYMLINK_CNT. lia.
    + eapply room_less; [exact Hroom|]. unfold mu. cbn [w_symlinks w_name]. rewrite Hsz, length_app. cbn [length].
      change (size (v_heap st0)) with (size (v_heap st)). unfold MAX_SYMLINK_CNT. lia.
    + rewrite length_app. cbn [length]. lia.
    + exists cwd, (Some path). splits; [done|by intros p [= <-]| |apply walk_dirs, (vo_dirs _ _ _ Hok)|done|done].
      constructor; [|by apply Hch1].
      destruct (ct_live _ _ (gd_counted _ _ _ _ _ Hg1) (v_cwd st)) as [?|?]; [elems|done..].
  - unfold mu, search_fuel, MAX_SYMLINK_CNT. cbn [w_symlinks w_name]. rewrite length_app. cbn [length]. lia.
  - by exists st1, res.
Qed.

(** Back to a state between the calls. *)
Lemma good_end st0 st1 files X : good st0 (roots st) root st1 X ->
  v_heap st0 = v_heap st -> v_root st0 = v_root st -> v_cwd st0 = v_cwd st ->
  length files = MAX_OPEN -> (forall k f, files !! k = Some f -> f_fs f = false -> f = no_file) ->
  counted (v_heap st1) (roots (set_files st1 files)) -> vfs_ok (set_files st1 files) root cwd.
Proof.
  intros [Henv Hr _ Hrt Hrl Hstay] Eh Er Ec Hl Hf Hc. destruct Henv as (_ & Er1 & Ec1 & _).
  destruct (vo_root _ _ _ Hok) as [Hr0 Hrc]. destruct (vo_cwd _ _ _ Hok) as [Hc0 Hcc].
  pose proof (vo_dirs _ _ _ Hok). constructor; try done; simpl; rewrite ?Er1, ?Ec1, ?Er, ?Ec.
  - split; [done|]. by rewrite <- Er.
  - split; [done|]. apply Hstay; [unfold roots; elems|done|]. by rewrite Eh.
Qed.

(** What the call answers.  A refused path leaves the open files as they were;
    it does not resolve, when there was a free slot and memory and the file system has
    no links (with links the number and the length of the paths are limited). *)
Inductive search_result (st' : @vfs S P) : Z -> Prop :=
  | search_opened k p l : v_files st !! k = Some no_file -> v_files st' = <[k := File true 0 p]> (v_files st) ->
      p <> 0 -> chain (v_heap st') p l -> target l -> search_result st' (Z.of_nat k + 1)
  | search_refused : v_files st' = v_files st ->
      (In no_file (v_files st) -> snd (malloc_ok (v_rest st) (Z.of_nat (length path) + 1)) = true ->
       no_links -> forall l, ~ target l) ->
      search_result st' (-1).

(** The root, the current directory and its path are those of before. *)
Definition same_place (st' : @vfs S P) : Prop :=
  v_root st' = v_root st /\ v_cwd st' = v_cwd st /\ v_cwd_name st' = v_cwd_name st.

Lemma search_ok rest0 : exists st' rv, searchdir search_fuel st (path ++ 0 :: rest0) = Ok (st', rv) /\
  vfs_ok st' root cwd /\ search_result st' rv /\ same_place st' /\ room (v_heap st') (roots st') spare /\
  (forall p l, p ∈ roots st -> p <> 0 -> chain (v_heap st) p l -> chain (v_heap st') p l) /\
  (rv = -1 -> In no_file (v_files st) -> links_followed -> forall l, ~ reachable l).
Proof.
  assert (room (v_heap st) (roots st) spare) as Hroom0 by (eapply room_less; [exact Hroom|]; lia).
  unfold searchdir, alloc_file. pose proof (free_index_ok (v_files st) 0) as Hfree.
  destruct (free_index (v_files st) 0) as [k|].
  2: { exists st, (-1). assert (~ In no_file (v_files st)) as Hin by (intros [i Hi]%list_elem_of_In%list_elem_of_lookup; by apply Hfree in Hi).
       splits; try done. by constructor. }
  destruct Hfree as (k' & f & -> & Hk & Ef). change (0 + k')%nat with k' in *. rename k' into k.
  assert (f = no_file) as -> by (by apply (vo_free _ _ _ Hok k)).
  assert (k < MAX_OPEN)%nat as Hkl by (rewrite <- (vo_length _ _ _ Hok); by eapply lookup_lt_Some).
  destruct Hpath as [Hchars _]. rewrite strlen_ok by done. cbn [mbind result_bind].
  set (files := <[k := File true 0 0]> (v_files st)).
  assert (roots (set_files st files) = roots st) as Hroots.
  { unfold roots, files. simpl. do 2 f_equal. rewrite list_fmap_insert. simpl. apply list_insert_id. by rewrite list_lookup_fmap, Hk. }
  unfold malloc. cbn [v_rest set_files].
  pose proof (malloc_spec (v_rest st) (Z.of_nat (length path) + 1) (vo_rest _ _ _ Hok)) as Hr.
  destruct (malloc_ok (v_rest st) _) as [r b] eqn:Em. simpl in Hr. cbn [fst snd] in *.
  set (st0 := set_rest (set_files st files) r).
  (* the path is refused *)
  assert (forall st1, good st0 (roots st) root st1 [] -> room (v_heap st1) (roots st) spare ->
    (In no_file (v_files st) -> b = true -> no_links -> forall l, ~ target l) ->
    (links_followed -> forall l, ~ reachable l) ->
    exists st' rv, (st2 ← _close_file st1 k; Ok (st2, -1)) = Ok (st', rv) /\ vfs_ok st' root cwd /\ search_result st' rv /\
      same_place st' /\ room (v_heap st') (roots st') spare /\ (forall p l, p ∈ roots st -> p <> 0 -> chain (v_heap st) p l -> chain (v_heap st') p l) /\
      (rv = -1 -> In no_file (v_files st) -> links_followed -> forall l, ~ reachable l)) as Hrefuse.
  { intros st1 Hg1 Hr1 Hno HnoB. destruct (gd_env _ _ _ _ _ Hg1) as (Ef1 & Er1 & Ec1 & En1). simpl in Ef1.
    assert (v_files st1 !! k = Some (File true 0 0)) as Hk1.
    { rewrite Ef1. apply list_lookup_insert_eq. by rewrite (vo_length _ _ _ Hok). }
    assert (<[k := no_file]> (v_files st1) = v_files st) as Eback.
    { rewrite Ef1. unfold files. rewrite list_insert_insert_eq. by apply list_insert_id. }
    exists (free_file st1 k), (-1). split_and!.
    - unfold _close_file, generic_close_file. rewrite Hk1. reflexivity.
    - unfold free_file. rewrite Eback. apply (good_end st0 st1 _ [] Hg1); try done; [apply Hok|apply Hok|].
      pose proof (gd_counted _ _ _ _ _ Hg1) as Hc. unfold roots in *. simpl. by rewrite Er1, Ec1.
    - constructor; [by unfold free_file; simpl|by rewrite Em].
    - by splits.
    - assert (roots (free_file st1 k) = roots st) as -> by (unfold roots; cbn [v_root v_cwd v_files free_file set_files]; by rewrite Er1, Ec1, Eback).
      exact Hr1.
    - intros p l Hp Hp0 Hch. by apply (gd_stay _ _ _ _ _ Hg1).
    - by intros _ _. }
  destruct b; cbn [mbind result_bind].
  2: { apply Hrefuse; [by apply good_start|exact Hroom0|done|].
       intros [Hmem _]. specialize (Hmem (v_rest st) (Z.of_nat (length path) + 1) (vo_rest _ _ _ Hok)). by rewrite Em in Hmem. }
  destruct (search_loop r files Hr Hroots) as (st1 & res & Eg & El & Hd). fold st0 in Eg.
  change (v_cwd st0) with (v_cwd st). rewrite Eg. cbn [mbind result_bind].
  assert (v_cwd st1 = v_cwd st) as ->.
  { unfold get in Eg. apply bind_Ok_inv in Eg as (h & _ & [= <-]). done. }
  assert (take (Z.to_nat (Z.of_nat (length path) + 1)) (path ++ 0 :: rest0) = path ++ [0]) as ->.
  { replace (Z.to_nat _) with (length path + 1)%nat by lia. by rewrite take_app_add. }
  rewrite El. destruct res as [st2 p]. cbn [mbind result_bind].
  destruct (decide (p = 0)) as [->|Hp0].
  { destruct (wd_failed _ _ _ _ _ _ _ Hd eq_refl) as (Hg2 & Hno & HnoB).
    apply Hrefuse; [done|apply (wd_room _ _ _ _ _ _ _ Hd)|intros _ _; exact Hno|done]. }
  destruct (wd_found _ _ _ _ _ _ _ Hd Hp0) as (Hg2 & l & Hat & Hl). simpl in Hg2, Hat.
  destruct (gd_env _ _ _ _ _ Hg2) as (Ef2 & Er2 & Ec2 & En2). simpl in Ef2, Er2, Ec2.
  assert (<[k := File true 0 p]> (v_files st2) = <[k := File true 0 p]> (v_files st)) as Efs
    by (rewrite Ef2; apply list_insert_insert_eq).
  destruct (slot_roots st (set_files st2 (<[k := File true 0 p]> (v_files st2))) k no_file (File true 0 p) Hk)
    as (rest' & Hrest' & Hnew). specialize (Hnew Efs Er2 Ec2). eexists _, _. splits; [reflexivity| | |by splits| | |].
  - apply (good_end st0 st2 _ [p] Hg2); try done.
    + rewrite length_insert, Ef2. unfold files. rewrite length_insert. apply Hok.
    + rewrite Efs. intros j f Hj Hf. destruct (decide (j = k)) as [->|Hjk].
      * rewrite list_lookup_insert_eq in Hj by (by rewrite (vo_length _ _ _ Hok)). injection Hj as <-. done.
      * rewrite list_lookup_insert_ne in Hj by done. by apply (vo_free _ _ _ Hok j).
    + rewrite Hnew. apply counted_null. pose proof (gd_counted _ _ _ _ _ Hg2) as Hc. cbn [app] in Hc.
      rewrite Hrest' in Hc. eapply counted_perm; [|exact Hc]. apply Permutation_swap.
  - unfold file_to_handle. rewrite u16_small by (unfold MAX_OPEN in Hkl; lia).
    by eapply (search_opened _ k p l); [|rewrite <- Efs| |apply Hat|].
  - pose proof (wd_room _ _ _ _ _ _ _ Hd) as Hr2. clear Hroom Hroom0. unfold room in *. apply Permutation_length in Hnew, Hrest'. simpl in *. lia.
  - intros q m Hq Hq0 Hch. by apply (gd_stay _ _ _ _ _ Hg2).
  - unfold file_to_handle. rewrite u16_small by (unfold MAX_OPEN in Hkl; lia). lia.
Qed.

End Search.

(** ** Closing *)

Lemma close_ok st root cwd k f : vfs_ok st root cwd -> v_files st !! k = Some f -> f_fs f = true ->
  exists st', _close_file st k = Ok st' /\ vfs_ok st' root cwd /\ v_files st' = <[k := no_file]> (v_files st) /\
    v_cwd st' = v_cwd st /\ v_root st' = v_root st /\ v_cwd_name st' = v_cwd_name st /\ v_rest st' = v_rest st /\
    (forall p l, p ∈ roots st' -> p <> 0 -> chain (v_heap st) p l -> chain (v_heap st') p l) /\
    (forall n, room (v_heap st) (roots st) n -> room (v_heap st') (roots st') n).
Proof.
  intros Hok Hk Hf. unfold _close_file. rewrite Hk. cbn [of_option mbind result_bind]. rewrite Hf.
  assert (forall h, counted h (roots (set_files st (<[k := no_file]> (v_files st)))) -> kept (v_heap st) h ->
    let st' := set_files (set_heap st h) (<[k := no_file]> (v_files st)) in
    vfs_ok st' root cwd /\ (forall p l, p ∈ roots st' -> p <> 0 -> chain (v_heap st) p l -> chain h p l) /\
    (forall n, room (v_heap st) (roots st) n -> room h (roots st') n)) as Hend.
  { intros h Hc Hkept st'. pose proof (ct_null _ _ (vo_counted _ _ _ Hok)) as Hnull.
    assert (forall p l, p ∈ roots st' -> p <> 0 -> chain (v_heap st) p l -> chain h p l) as Hch.
    { intros p l Hp Hp0. apply (chain_kept _ _ _ _ _ Hkept Hc); [|done].
      destruct (ct_live _ _ Hc p) as [?|?]; [apply elem_of_app; by right|done..]. }
    split; [|split; [done|]].
    2: { intros n. unfold room, roots, st'. cbn [v_root v_cwd v_files set_files length]. rewrite !length_fmap, length_insert.
         pose proof (kept_size _ _ Hkept). lia. }
    destruct Hok as [? ? [? ?] [? ?] ? Hl Hfree]. constructor; try done.
    - split; [done|]. apply Hch; [unfold roots; elems|done..].
    - split; [done|]. apply Hch; [unfold roots; elems|done..].
    - simpl. by rewrite length_insert.
    - simpl. intros j g Hj Hg. destruct (decide (j = k)) as [->|Hjk].
      + rewrite list_lookup_insert_eq in Hj by (by eapply lookup_lt_Some). by injection Hj as <-.
      + rewrite list_lookup_insert_ne in Hj by done. by apply (Hfree j). }
  destruct (slot_roots st (set_files st (<[k := no_file]> (v_files st))) k f no_file Hk) as (rest & E1 & E2).
  specialize (E2 eq_refl eq_refl eq_refl). simpl in E2. pose proof (vo_counted _ _ _ Hok) as Hc. rewrite E1 in Hc.
  unfold generic_close_file. rewrite Hk. cbn [of_option mbind result_bind].
  destruct (decide (f_inode f = 0)) as [E0|Hne].
  - rewrite decide_False by tauto. cbn [mbind result_bind]. rewrite E0 in Hc.
    destruct (Hend (v_heap st)) as (Hok' & Hch & Hro); [by rewrite E2|done|]. destruct st. by eexists.
  - rewrite decide_True by done. unfold put. cbn [v_heap set_files].
    destruct (put_inode_ok _ _ _ Hc) as (h & -> & Hc' & Hk'). cbn [mbind result_bind].
    destruct (Hend h) as (Hok' & Hch & Hro); [|done|].
    + rewrite E2. apply counted_add_null; [done|]. pose proof (ct_small _ _ Hc) as Hs. pose proof (kept_size _ _ Hk').
      rewrite length_app, links_length in *. simpl in *. lia.
    + unfold free_file. cbn [v_files set_files set_heap]. rewrite list_insert_insert_eq. eexists. split; [reflexivity|]. by splits.
Qed.

End Spec.

(** ** The calls *)

Section Calls.
Context {S P : Type} `{FS : FsSpec S P}.

(** C8. [searchdir] always returns, whatever links the path goes through.  It
    opens the location to which the path resolves, in a free slot, or leaves
    the open files as they were; it refuses only paths that do not resolve when
    there is a slot, memory and no links.  The reference counts stay exact,
    all other locations stay, and so does the current directory. *)
Theorem searchdir_correct (st : @vfs S P) root cwd path rest :
  vfs_ok st root cwd -> path_ok path -> (length path < 4096)%nat ->
  room (v_heap st) (roots st) (Z.to_nat 120000) ->
  exists st' rv, searchdir search_fuel st (path ++ 0 :: rest) = Ok (st', rv) /\
    vfs_ok st' root cwd /\ search_result st root cwd path st' rv /\ same_place st st' /\
    (forall p l, p ∈ roots st -> p <> 0 -> chain (v_heap st) p l -> chain (v_heap st') p l).
Proof.
  intros Hok Hp Hl Hroom. destruct (search_ok st root cwd path Hok Hp Hl 0%nat Hroom rest) as (st' & rv & E & Hok' & Hres & Hs & _ & Hch & _).
  by exists st', rv.
Qed.

(** C14. Closing a file frees its slot and gives its reference back: the counts
    stay exact, inodes that no one refers to are freed, and the other open
    files stay where they are. *)
Theorem close_file_correct (st : @vfs S P) root cwd handle f :
  vfs_ok st root cwd -> 1 <= handle <= 32 -> v_files st !! Z.to_nat (handle - 1) = Some f -> f_fs f = true ->
  exists st', close_file st handle = Ok st' /\ vfs_ok st' root cwd /\
    v_files st' = <[Z.to_nat (handle - 1) := no_file]> (v_files st) /\
    (forall p l, p ∈ roots st' -> p <> 0 -> chain (v_heap st) p l -> chain (v_heap st') p l).
Proof.
  intros Hok Hh Hk Hf. unfold close_file, handle_to_file. rewrite decide_True by lia.
  rewrite decide_True by (unfold MAX_OPEN; lia). cbn [mbind result_bind].
  destruct (close_ok st root cwd _ f Hok Hk Hf) as (st' & -> & Hok' & Ef & _ & _ & _ & _ & Hch & _). by exists st'.
Qed.

(** The file that [searchdir] has opened. *)
Lemma opened_inode (st : @vfs S P) root cwd k p l : vfs_ok st root cwd -> v_files st !! k = Some (File true 0 p) ->
  p <> 0 -> chain (v_heap st) p l -> exists n l' i, l = n :: l' /\ v_heap st !! p = Some i /\ node_of i = n /\
    file_inode st (Z.of_nat k + 1) = Ok (k, File true 0 p, i).
Proof.
  intros Hok Hk Hp Hch. destruct l as [|n l']; [done|]. destruct Hch as (i & Hi & En & _).
  exists n, l', i. splits; try done. unfold file_inode, handle_to_file.
  apply lookup_lt_Some in Hk as Hlt. rewrite (vo_length _ _ _ Hok) in Hlt.
  rewrite decide_True by lia. replace (Z.to_nat _) with k by lia. cbn [mbind result_bind]. rewrite Hk.
  cbn [of_option mbind result_bind f_inode]. unfold deref. by rewrite Hi.
Qed.

(** The state with only the root directory, which is the current one as well, and
    no open file. *)
Definition mounted (p size : Z) (pvt : P) (name : list Z) (r : S) : @vfs S P :=
  Vfs {[p := Inode_ 0 None 2 DT_DIR size pvt]} (replicate MAX_OPEN no_file) p p name r.

Lemma mounted_ok p size pvt name r : p <> 0 -> rest_ok r -> node_ok (DT_DIR, size, pvt) ->
  vfs_ok (mounted p size pvt name r) [(DT_DIR, size, pvt)] [(DT_DIR, size, pvt)].
Proof.
  intros Hp Hr Hn. set (i := Inode_ 0 None 2 DT_DIR size pvt). set (st := mounted p size pvt name r).
  assert (chain (v_heap st) p [(DT_DIR, size, pvt)]) as Hch by (exists i; split; [apply lookup_insert_eq|done]).
  assert (links (v_heap st) = [0]) as El by (unfold links, st, mounted; cbn [v_heap]; by rewrite map_to_list_singleton).
  assert (forall n, count p (replicate n 0) = 0) as Ec.
  { intros n. induction n as [|n IH]; [done|]. cbn [replicate]. by rewrite count_cons, decide_False, IH. }
  assert (dirs_ok [(DT_DIR, size, pvt)]) as Hd by (by apply Forall_singleton).
  constructor; try done.
  - constructor; rewrite ?El.
    + by apply lookup_singleton_ne.
    + intros q j Hj. cbn [v_heap st mounted] in Hj. apply lookup_singleton_Some in Hj as [<- <-]. unfold roots. cbn [v_root v_cwd v_files st mounted app].
      rewrite fmap_replicate, !count_cons, Ec, (decide_False (P := p = 0)), decide_True by done. done.
    + intros q Hq. unfold roots in Hq. cbn [v_root v_cwd v_files st mounted app] in Hq.
      rewrite fmap_replicate, !elem_of_cons in Hq. destruct Hq as [->|[->|[->|Hq]]]; [by left|right; eexists; apply lookup_insert_eq..|].
      apply elem_of_replicate in Hq as [-> _]. by left.
    + unfold roots. cbn. done.
  - intros k f [-> _]%lookup_replicate _. done.
Qed.

(** Where there are no links the limits do not matter. *)
Lemma no_links_reachable root cwd path l : no_links -> (length path < 4096)%nat ->
  resolves root (start root cwd path) (components path) l -> reachable root cwd path l.
Proof.
  intros Hno Hlen H. exists 0%nat, 0%nat. splits; [|done|unfold MAX_SYMLINK_BUF; lia].
  induction H as [| | | |n m c x cs l' _ _ El Hl]; [by econstructor..|]. by apply Hno in El.
Qed.

(** A path leads to one place only. *)
Lemma resolves_unique root l cs l1 : resolves root l cs l1 -> forall l2, resolves root l cs l2 -> l1 = l2.
Proof.
  induction 1 as [l|l cs l1 _ IH|l cs l1 _ IH|n l c m cs l1 Hd Hdd El Hm Hcs _ IH|n l c m cs l1 Hd Hdd El Hm _ IH]; intros l2 H2.
  - by apply resolves_end in H2.
  - by apply resolves_dot, IH in H2.
  - by apply resolves_dotdot, IH in H2.
  - by apply (resolves_enter root n l c m cs l2 Hd Hdd El Hm Hcs), IH in H2.
  - by apply (resolves_link root n l c m cs l2 Hd Hdd El Hm), IH in H2.
Qed.

(** What [open_file] answers for the mangled name [m]: the handle of a regular
    file, or -1. *)
Inductive open_result (st : @vfs S P) (root cwd : list (@node P)) (m : list Z) (st' : @vfs S P) :
    Z -> option com32_filedata -> Prop :=
  | file_opened k p i l : v_files st !! k = Some no_file -> v_files st' = <[k := File true 0 p]> (v_files st) ->
      v_heap st' !! p = Some i -> p <> 0 -> i_mode i = DT_REG -> chain (v_heap st') p (node_of i :: l) ->
      resolves root (start root cwd m) (components m) (node_of i :: l) ->
      open_result st root cwd m st' (Z.of_nat k + 1) (Some (Filedata (i_size i) op_sector_shift (Z.of_nat k + 1)))
  | file_refused : v_files st' = v_files st ->
      (In no_file (v_files st) -> snd (malloc_ok (v_rest st) (Z.of_nat (length m) + 1)) = true -> no_links ->
       forall n l, resolves root (start root cwd m) (components m) (n :: l) -> n_mode n <> DT_REG) ->
      open_result st root cwd m st' (-1) None.

Lemma open_mangled (st : @vfs S P) root cwd buf name m r :
  op_mangle_name buf name = Ok (m ++ 0 :: r) -> vfs_ok st root cwd -> path_ok m -> (length m < 4096)%nat ->
  room (v_heap st) (roots st) (Z.to_nat 120000) ->
  exists st' rv fd, open_file search_fuel st buf name = Ok (st', rv, fd) /\ vfs_ok st' root cwd /\
    open_result st root cwd m st' rv fd /\
    (rv = -1 -> In no_file (v_files st) -> links_followed -> forall n l, reachable root cwd m (n :: l) -> n_mode n <> DT_REG).
Proof.
  intros Em Hok Hm Hlen Hroom. unfold open_file. rewrite Em. cbn [mbind result_bind].
  destruct (search_ok st root cwd m Hok Hm Hlen 0%nat Hroom r) as (st' & rv & -> & Hok' & Hres & _ & _ & _ & Hlim).
  cbn [mbind result_bind]. destruct Hres as [k p l Hk Efs Hp Hch Hl|Efs Hno].
  2: { exists st', (-1), None. rewrite decide_True by lia. splits; [done|done| |].
       - constructor; [done|]. intros H1 H2 H3 n l Hl. by destruct (Hno H1 H2 H3 (n :: l)).
       - intros E H1 H2 n l Hl. by destruct (Hlim E H1 H2 (n :: l)). }
  rewrite decide_False by lia.
  assert (k < length (v_files st))%nat as Hkl by (by eapply lookup_lt_Some).
  assert (v_files st' !! k = Some (File true 0 p)) as Hk' by (rewrite Efs; by apply list_lookup_insert_eq).
  destruct (opened_inode st' root cwd k p l Hok' Hk' Hp Hch) as (n & l' & i & -> & Hi & En & ->).
  cbn [mbind result_bind]. destruct (decide (i_mode i <> DT_REG)) as [Hm'|Hm'].
  - destruct (close_ok st' root cwd k _ Hok' Hk' eq_refl) as (st2 & -> & Hok2 & Ef2 & _). cbn [mbind result_bind].
    assert (forall n2 l2, resolves root (start root cwd m) (components m) (n2 :: l2) -> n_mode n2 <> DT_REG) as Hreg.
    { intros n2 l2 H2. pose proof (resolves_unique _ _ _ _ Hl _ H2) as [= <- _]. by rewrite <- En. }
    exists st2, (-1), None. splits; [done..| |].
    + constructor; [|by intros _ _ _]. rewrite Ef2, Efs, list_insert_insert_eq. by apply list_insert_id.
    + intros _ _ _ n2 l2 (k2 & b2 & H2%reaches_resolves & _). by apply (Hreg n2 l2).
  - eexists st', _, _. splits; [reflexivity|done| |lia]. subst n. eapply file_opened; try done.
    by destruct (decide (i_mode i = DT_REG)).
Qed.

(** C9. [open_file] opens a file by a name of the user: the name is mangled and
    looked up, and the handle is that of a regular file at the location to
    which the components of the name resolve.  Otherwise the answer is -1, the
    open files are those of before, and the name is not that of a regular file,
    if there is a free slot, memory, and no link. *)
Theorem open_file_correct (st : @vfs S P) root cwd buf name w rest :
  op_mangle_name = generic_mangle_name -> vfs_ok st root cwd ->
  name <> [] -> Forall (fun c => not_whitespace c = true) name -> not_whitespace w = false ->
  Z.of_nat (length name) < FILENAME_MAX <= Z.of_nat (length buf) ->
  room (v_heap st) (roots st) (Z.to_nat 120000) ->
  exists st' rv fd, open_file search_fuel st buf (name ++ w :: rest) = Ok (st', rv, fd) /\ vfs_ok st' root cwd /\
    open_result st root cwd (mangled slash_only name) st' rv fd /\
    components (mangled slash_only name) = components name.
Proof.
  intros Hop Hok Hne Hname Hw Hlen Hroom.
  destruct (mangled_string slash_only name (drop (Z.to_nat FILENAME_MAX - redundant slash_only name) buf) Hne Hname ltac:(lia))
    as ([r Er] & Hmne & Hchars & Hl).
  pose proof (mangle_name_ok name w rest buf Hname Hw Hlen) as Em. cbn zeta in Em, Er. rewrite <- Hop, Er in Em.
  unfold FILENAME_MAX in Hlen.
  destruct (open_mangled st root cwd buf _ _ r Em Hok (conj Hchars Hmne) ltac:(lia) Hroom) as (st' & rv & fd & E & Hok' & Hres & _).
  exists st', rv, fd. splits; [done..|]. apply mangled_components.
Qed.

End Calls.

(** ** An example

    The root has the directory [a] with the file [f] of 7 bytes, and the link
    [l] to [/a]. *)

Definition demo_lookup (p : Z) (name : list Z) : option (dirent_type * Z * Z) :=
  if decide (p = 1 /\ name = [0x61]) then Some (DT_DIR, 0, 2)
  else if decide (p = 1 /\ name = [0x6c]) then Some (DT_LNK, 2, 4)
  else if decide (p = 2 /\ name = [0x66]) then Some (DT_REG, 7, 3)
  else None.

Definition demo_target (p : Z) : list Z := [0x2f; 0x61].

#[local] Instance demo_ops : FsOps unit Z := {|
  op_iget r s i := Ok (r, demo_lookup (i_pvt i) (take (length s - 1) s));
  op_readlink := Some (fun r i => Ok (r, 2, demo_target (i_pvt i)));
  op_mangle_name := generic_mangle_name;
  op_getfssec r i offset buf sectors := Ok (r, (i_size i, i_pvt i), offset, Some false, 0);
  op_readdir := None; op_sector_shift := 9;
  malloc_ok r n := (r, true); mem_at r a := []; mem_put r a l := r |}.

#[local] Instance demo_spec : FsSpec unit Z.
Proof.
  refine {| rest_ok _ := True; node_ok n := n.1.1 = DT_LNK -> n.1.2 = 2; fs_lookup := demo_lookup; fs_target := demo_target |}.
  - done.
  - intros r name i _ _ _ _ _. exists r. split; [|done]. simpl. rewrite length_app. simpl.
    by rewrite Nat.add_sub, take_app_length.
  - intros size p name m _. unfold demo_lookup. repeat case_decide; intros [= <-]; done.
  - intros size p H. specialize (H eq_refl). simpl in H. lia.
  - intros rl r i [= <-] _ Hm Hl. exists r. specialize (Hl Hm). simpl in Hl. splits; try done; [by repeat constructor|].
    simpl. lia.
Defined.

(** The root is at address 8; no file is open. *)
Definition demo_vfs : @vfs unit Z :=
  Vfs {[8 := Inode_ 0 None 2 DT_DIR 0 1]} (replicate MAX_OPEN no_file) 8 8 [0x2f; 0] tt.

Definition demo_root : list (@node Z) := [(DT_DIR, 0, 1)].

Lemma demo_vfs_ok : vfs_ok demo_vfs demo_root demo_root.
Proof. by apply mounted_ok. Qed.

Lemma searchdir_correct_witness : exists st' rv,
  searchdir search_fuel demo_vfs ([0x6c; 0x2f; 0x66] ++ 0 :: []) = Ok (st', rv) /\
  vfs_ok st' demo_root demo_root /\ search_result demo_vfs demo_root demo_root [0x6c; 0x2f; 0x66] st' rv /\
  same_place demo_vfs st' /\
  (forall p l, p ∈ roots demo_vfs -> p <> 0 -> chain (v_heap demo_vfs) p l -> chain (v_heap st') p l).
Proof.
  apply (searchdir_correct demo_vfs demo_root demo_root [0x6c; 0x2f; 0x66] []).
  - exact demo_vfs_ok.
  - split; [repeat constructor|]; done.
  - simpl. lia.
  - vm_compute. done.
Defined.

(** [l/f] opens [f]. *)
Example demo_search : match searchdir search_fuel demo_vfs [0x6c; 0x2f; 0x66; 0] with
  | Ok (st, rv) => rv = 1 /\ file_inode st rv ≫= (fun '(k, f, i) => Ok (i_size i, i_name i)) = Ok (7, Some [0x66])
  | _ => False end.
Proof. vm_compute. done. Qed.

(** The state with the file open. *)
Definition demo_open : @vfs unit Z :=
  match searchdir search_fuel demo_vfs [0x6c; 0x2f; 0x66; 0] with Ok (st, _) => st | _ => demo_vfs end.

Lemma demo_open_ok : vfs_ok demo_open demo_root demo_root.
Proof.
  destruct (search_ok demo_vfs demo_root demo_root [0x6c; 0x2f; 0x66] demo_vfs_ok) with (spare := 0%nat) (rest0 := @nil Z)
    as (st & rv & E & Hok & _).
  - split; [repeat constructor|]; done.
  - simpl. lia.
  - vm_compute. done.
  - unfold demo_open. change [0x6c; 0x2f; 0x66; 0] with ([0x6c; 0x2f; 0x66] ++ 0 :: []). by rewrite E.
Qed.

Lemma close_file_correct_witness : exists st', close_file demo_open 1 = Ok st' /\ vfs_ok st' demo_root demo_root /\
  v_files st' = <[Z.to_nat (1 - 1) := no_file]> (v_files demo_open) /\
  (forall p l, p ∈ roots st' -> p <> 0 -> chain (v_heap demo_open) p l -> chain (v_heap st') p l).
Proof.
  eapply (close_file_correct demo_open demo_root demo_root 1); [exact demo_open_ok|lia|vm_compute; reflexivity|done].
Defined.

Lemma open_file_correct_witness : exists st' rv fd,
  open_file search_fuel demo_vfs (replicate 256 9) ([0x6c; 0x2f; 0x66] ++ 0x20 :: [0]) = Ok (st', rv, fd) /\
  vfs_ok st' demo_root demo_root /\
  open_result demo_vfs demo_root demo_root (mangled slash_only [0x6c; 0x2f; 0x66]) st' rv fd /\
  components (mangled slash_only [0x6c; 0x2f; 0x66]) = components [0x6c; 0x2f; 0x66].
Proof.
  apply (open_file_correct demo_vfs demo_root demo_root (replicate 256 9) [0x6c; 0x2f; 0x66] 0x20 [0]).
  - reflexivity.
  - exact demo_vfs_ok.
  - done.
  - repeat constructor.
  - done.
  - vm_compute. split; [done|discriminate].
  - vm_compute. done.
Defined.

End VfsSpec.
