(* ===== verification/VfsPath.v ===== *)
(** * The virtual file system: the path of an inode

    What [generic_inode_to_path] writes: the names from the root down, each
    after a slash.  The buffer of chdir is one byte short for a long path. *)

From Stdlib Require Import ZArith Lia.
From S2P Require Import Prelude CStr Dirent Mangle Inode Vfs VfsSpec.
Import CStr.CStr Dirent.Dirent Mangle.Mangle Inode.Inode Vfs.Vfs VfsSpec.VfsSpec.

Module VfsPath.

Section Path.
Context {S P : Type} `{FS : FsSpec S P}.

(** The names of an inode and its ancestors but the root, innermost first. *)
Fixpoint named (h : gmap Z (inode P)) (p : Z) (ns : list (list Z)) : Prop :=
  exists i, h !! p = Some i /\
    match ns with
    | [] => parent i = 0
    | n :: ns => parent i <> 0 /\ i_name i = Some n /\ chars n /\ named h (parent i) ns
    end.

(** The path of these names. *)
Fixpoint path_of (ns : list (list Z)) : list Z :=
  match ns with [] => [] | n :: ns => path_of ns ++ slash :: n end.

(** A string that fits is copied with its zero. *)
Lemma copy_string_ok s a old t ix bufsize :
  chars s -> ix = Z.of_nat (length a) -> length old = Datatypes.S (length s) -> ix + Z.of_nat (length s) < bufsize ->
  copy_string (a ++ old ++ t) ix bufsize (s ++ [0]) = Ok (a ++ s ++ 0 :: t, ix + Z.of_nat (length s)).
Proof.
  intros Hs. revert a old ix. induction Hs as [|c s Hc _ IH]; intros a old ix Hix Hold Hb;
    (destruct old as [|o old]; [done|]); cbn [app copy_string length] in *.
  - destruct old; [|done]. rewrite decide_True, decide_True, store_app by (done || lia). simpl. do 2 f_equal. lia.
  - rewrite decide_False, decide_True, store_app by (done || lia). cbn [mbind result_bind].
    specialize (IH (a ++ [c]) old (ix + 1)). rewrite <- !app_assoc in IH. cbn [app] in IH.
    rewrite IH by (rewrite ?length_app; simpl; lia). do 2 f_equal. lia.
Qed.

(** The result has the length that the whole path needs, whether or not it
    fits. *)
Lemma copy_string_length s a ix bufsize : chars s -> 0 <= ix -> bufsize <= Z.of_nat (length a) ->
  exists b, copy_string a ix bufsize (s ++ [0]) = Ok (b, ix + Z.of_nat (length s)) /\ length b = length a.
Proof.
  intros Hs. revert a ix. induction Hs as [|c s Hc _ IH]; intros a ix Hix Hb; cbn [app copy_string length].
  - rewrite decide_True by done. case_decide.
    + unfold store. rewrite decide_True by lia. cbn [mbind result_bind]. eexists. rewrite Z.add_0_r. split; [done|apply length_insert].
    + exists a. by rewrite Z.add_0_r.
  - rewrite decide_False by done.
    assert (exists a', (if decide (ix + 1 < bufsize) then store a ix c else Ok a) = Ok a' /\ length a' = length a) as (a' & -> & Hl).
    { case_decide; [|eauto]. unfold store. rewrite decide_True by lia. eexists. split; [done|apply length_insert]. }
    cbn [mbind result_bind]. destruct (IH a' (ix + 1) ltac:(lia) ltac:(lia)) as (b & -> & Hlb).
    exists b. split; [do 2 f_equal; lia|congruence].
Qed.

Lemma named_inode h p ns : named h p ns -> is_Some (h !! p).
Proof. destruct ns; intros (i & Hi & _); eauto. Qed.

(** The depth of an inode is at most the number of inodes. *)
Lemma named_unique h p ns ns' : named h p ns -> named h p ns' -> h !! 0 = None -> length ns = length ns'.
Proof.
  revert p ns'. induction ns as [|n ns IH]; intros p [|n' ns'] (i & Hi & H) (i' & Hi' & H') H0;
    assert (i' = i) as -> by congruence; [done|destruct H' as [? _]; done|destruct H as [? _]; done|].
  destruct H as (_ & _ & _ & H), H' as (_ & _ & _ & H'). simpl. f_equal. by eapply IH.
Qed.

Lemma named_ptrs h p ns : named h p ns -> h !! 0 = None -> exists ptrs, length ptrs = Datatypes.S (length ns) /\ NoDup ptrs /\
  (forall q, q ∈ ptrs -> q ∈ dom h) /\ (forall q, q ∈ ptrs -> exists ns', named h q ns' /\ (length ns' <= length ns)%nat).
Proof.
  revert p. induction ns as [|n ns IH]; intros p Hn H0.
  - exists [p]. splits; [done|apply NoDup_singleton| |].
    + intros q ->%list_elem_of_singleton. apply elem_of_dom. by eapply named_inode.
    + intros q ->%list_elem_of_singleton. by exists [].
  - pose proof Hn as Hn'. destruct Hn' as (i & Hi & _ & _ & _ & Hpar). destruct (IH _ Hpar H0) as (ptrs & Hl & Hnd & Hd & Hns).
    exists (p :: ptrs). splits; [simpl; congruence| | |].
    + constructor; [|done]. intros (ns' & Hn2 & Hl2)%Hns. pose proof (named_unique h p _ _ Hn Hn2 H0). simpl in *. lia.
    + intros q [->|Hq]%elem_of_cons; [|auto]. apply elem_of_dom. eauto.
    + intros q [->|(ns' & Hq & Hlq)%Hns]%elem_of_cons; [by exists (n :: ns)|]. exists ns'. split; [done|simpl; lia].
Qed.

Lemma named_depth h p ns : named h p ns -> h !! 0 = None -> (length ns < size h)%nat.
Proof.
  intros Hn H0. destruct (named_ptrs h p ns Hn H0) as (ptrs & Hl & Hnd & Hd & _).
  rewrite <- size_dom.
  enough (Datatypes.S (length ns) <= size (dom h))%nat by lia. rewrite <- Hl, <- (size_list_to_set (C := gset Z) ptrs) by done.
  apply subseteq_size. intros q Hq. apply Hd. by apply elem_of_list_to_set in Hq.
Qed.

(** The path, and the bytes behind its zero. *)
Lemma path_rec fuel (st : @vfs S P) p ns dst bufsize :
  named (v_heap st) p ns -> (length ns < fuel)%nat ->
  Z.of_nat (length (path_of ns)) < bufsize <= Z.of_nat (length dst) -> bufsize < size_error ->
  exists x, generic_inode_to_path fuel st p dst bufsize =
    Ok (path_of ns ++ x :: drop (Datatypes.S (length (path_of ns))) dst, Z.of_nat (length (path_of ns))) /\
    (ns <> [] -> x = 0).
Proof.
  revert fuel p. induction ns as [|n ns IH]; intros fuel p Hn Hf Hb Hsmall; (destruct fuel as [|fuel]; [lia|]).
  - destruct Hn as (i & Hi & E). cbn [generic_inode_to_path]. unfold deref. rewrite Hi. cbn [of_option mbind result_bind].
    rewrite decide_True by done. destruct dst as [|x dst]; [simpl in Hb; lia|]. by exists x.
  - destruct Hn as (i & Hi & Hne & En & Hc & Hn). cbn [generic_inode_to_path]. unfold deref. rewrite Hi. cbn [of_option mbind result_bind].
    rewrite decide_False, En by done. cbn [path_of] in Hb |- *. rewrite length_app in Hb |- *. cbn [length] in Hb |- *.
    destruct (IH fuel (parent i) Hn) as (x & -> & Et); [simpl in Hf; lia|lia|done|]. cbn [mbind result_bind].
    rewrite decide_False by lia. set (q := path_of ns) in *.
    destruct (drop (Datatypes.S (length q)) dst) as [|y t] eqn:Ed.
    { apply (f_equal length) in Ed. rewrite length_drop in Ed. simpl in Ed. lia. }
    pose proof (copy_string_ok [slash] q [x; y] t (Z.of_nat (length q)) bufsize ltac:(by repeat constructor) eq_refl eq_refl ltac:(simpl; lia)) as E1.
    cbn [app] in E1. rewrite E1. cbn [mbind result_bind length]. clear E1.
    assert (length t = length dst - Datatypes.S (Datatypes.S (length q)))%nat as Hlt.
    { apply (f_equal length) in Ed. rewrite length_drop in Ed. simpl in Ed. lia. }
    pose proof (copy_string_ok n (q ++ [slash]) (0 :: take (length n) t) (drop (length n) t) (Z.of_nat (length q) + Z.of_nat 1) bufsize Hc) as E2.
    rewrite <- !app_assoc in E2. cbn [app] in E2. rewrite take_drop in E2. rewrite E2.
    + exists 0. split; [|done]. do 2 f_equal; [|lia]. rewrite <- app_assoc. cbn [app]. do 4 f_equal.
      assert (t = drop (Datatypes.S (Datatypes.S (length q))) dst) as ->.
      { change (Datatypes.S (Datatypes.S (length q))) with (1 + Datatypes.S (length q))%nat.
        rewrite Nat.add_comm, <- drop_drop, Ed. done. }
      rewrite drop_drop. f_equal. lia.
    + rewrite length_app. simpl. lia.
    + simpl. rewrite length_take. lia.
    + simpl in *. lia.
Qed.

(** The path of an inode that fits is the names of its ancestors and its
    own, each after a slash, with a zero behind; its length is returned and
    the rest of the buffer is unchanged. *)
Theorem inode_path_correct (st : @vfs S P) root cwd p ns dst bufsize :
  vfs_ok st root cwd -> named (v_heap st) p ns -> ns <> [] ->
  Z.of_nat (length (path_of ns)) < bufsize <= Z.of_nat (length dst) -> bufsize < size_error ->
  inode_path st p dst bufsize =
    Ok (path_of ns ++ 0 :: drop (Datatypes.S (length (path_of ns))) dst, Z.of_nat (length (path_of ns))).
Proof.
  intros Hok Hn Hne Hb Hs. pose proof (named_depth _ _ _ Hn (ct_null _ _ (vo_counted _ _ _ Hok))) as Hd.
  destruct (path_rec (Datatypes.S (size (v_heap st))) st p ns dst bufsize Hn ltac:(lia) Hb Hs) as (x & E & Hx).
  unfold inode_path. rewrite E. by rewrite (Hx Hne).
Qed.

End Path.

(** The file that the example of VfsSpec has opened. *)
Definition demo_file : Z := match v_files demo_open with f :: _ => f_inode f | [] => 0 end.

Lemma demo_named : named (v_heap demo_open) demo_file [[0x66]; [0x61]].
Proof.
  eexists. split; [vm_compute; reflexivity|]. split; [done|]. split; [done|]. split; [by repeat constructor|].
  eexists. split; [vm_compute; reflexivity|]. split; [done|]. split; [done|]. split; [by repeat constructor|].
  eexists. split; [vm_compute; reflexivity|]. done.
Qed.

Lemma inode_path_correct_witness :
  inode_path demo_open demo_file (replicate 10 9) 10 =
    Ok ([0x2f; 0x61; 0x2f; 0x66] ++ 0 :: drop 5 (replicate 10 9), 4).
Proof.
  apply (inode_path_correct (FS := demo_spec) demo_open demo_root demo_root demo_file [[0x66]; [0x61]] (replicate 10 9) 10).
  - exact demo_open_ok.
  - exact demo_named.
  - done.
  - vm_compute. split; [done|discriminate].
  - vm_compute. done.
Defined.

End VfsPath.
