(* ===== verification/VfsCwd.v ===== *)
(** * The virtual file system: absolute paths and the current directory

    [realpath] gives a path from the root for any path; it leads to the same
    place.  [chdir] goes to a directory, and keeps its path with a slash behind
    it.  Both ask for the names of the inodes, which are missing when there was
    no memory for one of them; so the theorems have [enough_memory]. *)

From Stdlib Require Import ZArith Lia.
From S2P Require Import Prelude CStr Dirent Mangle Inode Vfs VfsSpec VfsPath.
Import CStr.CStr Dirent.Dirent Mangle.Mangle Inode.Inode Vfs.Vfs VfsSpec.VfsSpec VfsPath.VfsPath.

Module VfsCwd.

Section Cwd.
Context {S P : Type} `{FS : FsSpec S P}.

(** The names of a location, innermost first. *)
Inductive spelled : list (@node P) -> list (list Z) -> Prop :=
  | spelled_root n : spelled [n] []
  | spelled_in m n l nm ns : entry_name nm -> fs_lookup (n_pvt n) nm = Some m -> spelled (n :: l) ns ->
      spelled (m :: n :: l) (nm :: ns).

Lemma chain_spelled h p l : enough_memory -> h !! 0 = None -> chain h p l -> l <> [] ->
  exists ns, named h p ns /\ spelled l ns.
Proof.
  intros Hmem H0. revert p. induction l as [|m l IH]; [done|]. intros p (i & Hi & En & Hent & Hch) _.
  destruct l as [|n l].
  - exists []. split; [|constructor]. by exists i.
  - destruct (IH _ Hch ltac:(done)) as (ns & Hn & Hs). cbn [entry_of] in Hent.
    destruct (i_name i) as [nm|] eqn:Enm.
    + destruct Hent as [Hname Hl]. exists (nm :: ns). split; [|by constructor].
      exists i. destruct Hname as (_ & Hc & _). splits; try done. intros E. destruct (named_inode _ _ _ Hn). congruence.
    + destruct Hent as (r & k & Hr & E). by rewrite Hmem in E.
Qed.

(** ** The path of a location leads to it *)

Lemma spelled_components l ns : spelled l ns -> components (path_of ns) = rev ns.
Proof.
  induction 1 as [|m n l nm ns (Hn & _) _ _ IH]; [done|]. cbn [path_of rev]. rewrite components_app, IH. by rewrite components_name.
Qed.

Lemma path_absolute n ns : absolute (path_of (n :: ns)) = true.
Proof.
  revert n. induction ns as [|n' ns IH]; intros n; unfold absolute in *; cbn [path_of app head].
  - by rewrite bool_decide_true.
  - specialize (IH n'). apply bool_decide_eq_true in IH. apply bool_decide_true. cbn [path_of] in IH. by rewrite head_app, IH.
Qed.

Lemma path_chars l ns : spelled l ns -> chars (path_of ns).
Proof.
  induction 1 as [|m n l nm ns (_ & Hc & _) _ _ IH]; [constructor|]. cbn [path_of]. apply Forall_app. split; [done|]. by constructor.
Qed.

(** The path that is written out: that of the root is a slash. *)
Definition absolute_path (ns : list (list Z)) : list Z := match ns with [] => [slash] | _ => path_of ns end.

Lemma absolute_components l ns : spelled l ns -> components (absolute_path ns) = rev ns.
Proof. intros H. destruct ns; [done|]. by apply (spelled_components l). Qed.

Lemma absolute_ok l ns : spelled l ns -> path_ok (absolute_path ns) /\ absolute (absolute_path ns) = true.
Proof.
  intros H. destruct ns as [|n ns]; [by repeat constructor|]. pose proof (path_absolute n ns). pose proof (path_chars _ _ H) as Hc.
  unfold absolute_path. split; [split; [done|]|done]. intros E. unfold absolute in *. by rewrite E in *.
Qed.

Lemma reaches_spelled root l ns : spelled l ns -> forall k b cs l', place_ok l -> Forall (fun n => n_mode n <> DT_LNK) l ->
  cs = [] \/ dirs_ok l -> reaches root k b l cs l' -> forall r, last l = Some r -> reaches root k b [r] (rev ns ++ cs) l'.
Proof.
  induction 1 as [n|m n l nm ns (Hn & _ & Hd & Hdd) Hl Hs IH]; intros k b cs l' Hpl Hlnk Hcs Hres r Hlast.
  - injection Hlast as <-. done.
  - destruct Hpl as [_ Hdirs]. apply Forall_cons in Hlnk as [Hm Hlnk]. cbn [rev]. rewrite <- app_assoc. cbn [app].
    apply IH; [by apply dirs_place|done|by right| |done].
    econstructor; try done. destruct Hcs as [->|Hcs]; [by left|right]. by apply Forall_cons in Hcs as [[_ ?] _].
Qed.

(** A path never leads to a link, and stays under the root. *)
Definition no_link_in (l : list (@node P)) : Prop := Forall (fun n => n_mode n <> DT_LNK) l.

Lemma dirs_no_link l : dirs_ok l -> no_link_in l.
Proof. intros H. eapply Forall_impl; [exact H|]. by intros n [_ ->]. Qed.

Lemma resolves_no_link root l cs l' : dirs_ok root -> resolves root l cs l' -> no_link_in l -> no_link_in l'.
Proof.
  intros Hroot. induction 1 as [|l cs l' _ IH|l cs l' _ IH|n l c m cs l' _ _ Hl Hm Hcs _ IH|n l c m cs l' _ _ Hl Hm _ IH]; intros Hno;
    [done|auto| | |]; apply IH.
  - destruct l as [|a [|b l]]; [done..|]. by apply Forall_cons in Hno as [_ ?].
  - by constructor.
  - unfold start. destruct (absolute _); [by apply dirs_no_link|done].
Qed.

Lemma resolves_last r l cs l' : resolves [r] l cs l' -> last l = Some r -> last l' = Some r.
Proof.
  induction 1 as [|l cs l' _ IH|l cs l' _ IH|n l c m cs l' _ _ Hl Hm Hcs _ IH|n l c m cs l' _ _ Hl Hm _ IH]; intros Hl';
    [done|auto| | |]; apply IH.
  - by destruct l as [|a [|b l]].
  - done.
  - unfold start. by destruct (absolute _).
Qed.

(** The path of the inode, in a buffer that it fits. *)
Lemma inode_path_fits r (st' : @vfs S P) cwd' p ns dst bufsize : vfs_ok st' [r] cwd' -> named (v_heap st') p ns ->
  Z.of_nat (length (path_of ns)) < bufsize <= Z.of_nat (length dst) -> bufsize < size_error ->
  exists x, inode_path st' p dst bufsize =
    Ok (path_of ns ++ x :: drop (Datatypes.S (length (path_of ns))) dst, Z.of_nat (length (path_of ns))) /\ (ns <> [] -> x = 0).
Proof.
  intros Hok' Hn Hb Hs. pose proof (named_depth _ _ _ Hn (ct_null _ _ (vo_counted _ _ _ Hok'))).
  apply path_rec; [done|lia|done..].
Qed.

(** From the current directory to another one: the old one is released, and
    the new one has a second reference besides that of the open file. *)
Lemma change_cwd r cwd (st1 : @vfs S P) k p l :
  vfs_ok st1 [r] cwd -> v_files st1 !! k = Some (File true 0 p) -> p <> 0 -> chain (v_heap st1) p l -> dirs_ok l ->
  exists st2 h, put st1 (v_cwd st1) = Ok st2 /\ get st2 p = Ok (set_heap st1 h) /\
    vfs_ok (Vfs h (v_files st1) (v_root st1) p (v_cwd_name st1) (v_rest st1)) [r] l.
Proof.
  intros Hok1 Hk Hp Hch Hd. pose proof (vo_counted _ _ _ Hok1) as Hc. pose proof (ct_null _ _ Hc) as Hnull.
  set (R := v_root st1 :: (f_inode <$> v_files st1)).
  assert (roots st1 ≡ₚ v_cwd st1 :: R) as ER by (unfold roots, R; apply Permutation_swap).
  rewrite ER in Hc. unfold put. destruct (put_inode_ok _ _ _ Hc) as (h1 & -> & Hc1 & Hk1). cbn [mbind result_bind].
  assert (p ∈ R) as HpR.
  { apply elem_of_cons. right. apply list_elem_of_fmap. exists (File true 0 p). split; [done|]. by eapply list_elem_of_lookup_2. }
  destruct (ct_live _ _ Hc1 p) as [?|Hlive]; [apply elem_of_app; by right|done|].
  destruct (get_inode_ok h1 p R Hc1 Hlive) as (h2 & Eg & Hc2 & Hk2 & Hdom).
  { pose proof (ct_small _ _ Hc) as Hs. pose proof (kept_size _ _ Hk1). rewrite length_app, links_length in *. simpl in *. lia. }
  assert (kept (v_heap st1) h2) as Hk12 by (by etransitivity).
  assert (roots (Vfs h2 (v_files st1) (v_root st1) p (v_cwd_name st1) (v_rest st1)) ≡ₚ p :: R) as ER2 by (unfold roots, R; apply Permutation_swap).
  assert (is_Some (h2 !! p)) as Hlive2 by (apply elem_of_dom; rewrite Hdom; by apply elem_of_dom).
  assert (forall q l, is_Some (h2 !! q) -> chain (v_heap st1) q l -> chain h2 q l) as Hch2
    by (intros q m Hq; by apply (chain_kept _ _ _ _ _ Hk12 Hc2)).
  exists (set_heap st1 h1), h2. splits.
  - done.
  - unfold get. cbn [v_heap set_heap]. by rewrite Eg.
  - destruct Hok1 as [? ? [Hr0 Hr] ? [Hd1 _] ? ?]. constructor; try done.
    + cbn [v_heap]. by rewrite ER2.
    + split; [done|]. apply Hch2; [|done]. destruct (ct_live _ _ Hc2 (v_root st1)) as [?|?]; [unfold R; elems|done..].
    + split; [done|]. by apply Hch2.
Qed.

(** The path of a directory, with a slash behind it, in the buffer of chdir. *)
Lemma last_of_path l ns : spelled l ns -> ns <> [] -> exists c, c <> slash /\
  path_of ns !! (length (path_of ns) - 1)%nat = Some c.
Proof.
  intros Hs Hne. destruct Hs as [|m n l nm ns ([Hn Hsl] & _) _ _]; [done|]. clear Hne. cbn [path_of].
  destruct (exists_last Hn) as (nm' & c & ->). exists c. apply Forall_app in Hsl as [_ Hc].
  apply Forall_inv in Hc. split; [exact Hc|]. rewrite app_comm_cons, app_assoc, length_app. cbn [length].
  rewrite Nat.add_sub. by rewrite lookup_app_r, Nat.sub_diag by lia.
Qed.

Lemma chdir_path {A} r (K : list Z -> Z -> result A) (st1 : @vfs S P) p l ns cwd_buf :
  vfs_ok st1 [r] l -> named (v_heap st1) p ns -> spelled l ns ->
  Z.of_nat (length (path_of ns)) < 255 -> Z.of_nat (length cwd_buf) = CURRENTDIR_MAX ->
  exists t, ('(cwd_buf, s) ← inode_path st1 p cwd_buf (CURRENTDIR_MAX - 1);
    c ← (if decide (s < 1) then Ok 0 else get8 cwd_buf (s - 1));
    '(cwd_buf, s) ← (if decide (s < 1 \/ c <> slash) then cwd_buf ← store cwd_buf s slash; Ok (cwd_buf, s + 1)
                     else Ok (cwd_buf, s));
    let s := if decide (s >= CURRENTDIR_MAX) then CURRENTDIR_MAX - 1 else s in
    cwd_buf ← store cwd_buf s 0;
    K cwd_buf (s + 1)) = K (path_of ns ++ slash :: 0 :: t) (Z.of_nat (length (path_of ns)) + 2).
Proof.
  intros Hok1 Hn Hs Hlt Hbuf. unfold CURRENTDIR_MAX, FILENAME_MAX in *.
  destruct (inode_path_fits r st1 l p ns cwd_buf 255 Hok1 Hn ltac:(lia)) as (x & E & _); [unfold size_error; lia|].
  change (256 - 1) with 255. rewrite E. cbn [mbind result_bind]. set (q := path_of ns) in *.
  destruct (drop (Datatypes.S (length q)) cwd_buf) as [|y t] eqn:Ed.
  { apply (f_equal length) in Ed. rewrite length_drop in Ed. simpl in Ed. lia. }
  exists t. assert (exists c, (if decide (Z.of_nat (length q) < 1) then Ok 0 else get8 (q ++ x :: y :: t) (Z.of_nat (length q) - 1)) = Ok c /\
    (Z.of_nat (length q) < 1 \/ c <> slash)) as (c & -> & Hc).
  { case_decide as Hq; [exists 0; by split; [|left]|]. assert (ns <> []) as Hne by (intros ->; simpl in Hq; lia).
    destruct (last_of_path l ns Hs Hne) as (c & Hc & Hl). fold q in Hl. exists c. split; [|by right].
    unfold get8. rewrite decide_True by lia. replace (Z.to_nat _) with (length q - 1)%nat by lia.
    by rewrite (lookup_app_l_Some _ _ _ _ Hl). }
  cbn [mbind result_bind]. rewrite decide_True by done. rewrite store_app by done. cbn [mbind result_bind].
  rewrite decide_False by lia. change (q ++ slash :: y :: t) with (q ++ [slash] ++ y :: t). rewrite app_assoc.
  rewrite store_app by (rewrite length_app; simpl; lia). cbn [mbind result_bind]. rewrite <- app_assoc. f_equal. lia.
Qed.

Section Tree.
(** The tree has one root, under which the current directory is. *)
Context (st : @vfs S P) (r : @node P) (cwd : list (@node P)) (path : list Z).
Context (Hok : vfs_ok st [r] cwd) (Hroot : last cwd = Some r).
Context (Hpath : path_ok path) (Hlen : (length path < 4096)%nat).
Context (spare : nat) (Hroom : room (v_heap st) (roots st) (Z.to_nat 120000 + spare)) (Hmem : enough_memory).

Abbreviation target := (resolves [r] (start [r] cwd path) (components path)).

(** The path that is written leads to the place of the file. *)
Lemma target_reaches l ns : target l -> spelled l ns -> reaches [r] 0 0 [r] (components (absolute_path ns)) l.
Proof using Hok Hroot.
  intros Hl Hs. rewrite (absolute_components l) by done. rewrite <- (app_nil_r (rev ns)).
  destruct (vo_dirs _ _ _ Hok) as [Hd1 Hd2]. assert (dirs_ok (start [r] cwd path)) as Hds by (unfold start; by destruct (absolute _)).
  apply (reaches_spelled [r] l); [done|..|by left|constructor|].
  - by apply (resolves_place [r] _ _ _ Hd1 Hl); [apply dirs_place|].
  - apply (resolves_no_link [r] _ _ _ Hd1 Hl). by apply dirs_no_link.
  - apply (resolves_last _ _ _ _ Hl). unfold start. by destruct (absolute _).
Qed.

Lemma target_spelled l ns : target l -> spelled l ns -> resolves [r] [r] (components (absolute_path ns)) l.
Proof using Hok Hroot. intros Hl Hs. by eapply reaches_resolves, target_reaches. Qed.

(** A refused path is not within the limits. *)
Abbreviation refused := (In no_file (v_files st) -> links_followed -> forall l, ~ reachable [r] cwd path l).

(** [searchdir], when it opens a file: the inode and its names. *)
Lemma search_named rest0 : exists st' rv, searchdir search_fuel st (path ++ 0 :: rest0) = Ok (st', rv) /\ vfs_ok st' [r] cwd /\
  same_place st st' /\ room (v_heap st') (roots st') spare /\
  ((exists k i n l ns p, rv = Z.of_nat k + 1 /\ v_files st !! k = Some no_file /\
      v_files st' = <[k := File true 0 p]> (v_files st) /\ v_files st' !! k = Some (File true 0 p) /\
      file_inode st' rv = Ok (k, File true 0 p, i) /\ node_of i = n /\ p <> 0 /\ chain (v_heap st') p (n :: l) /\
      target (n :: l) /\ named (v_heap st') p ns /\ spelled (n :: l) ns) \/
   (rv = -1 /\ v_files st' = v_files st /\ (In no_file (v_files st) -> no_links -> forall l, ~ target l) /\ refused)).
Proof using Hok Hpath Hlen Hroom Hmem.
  destruct (search_ok st [r] cwd path Hok Hpath Hlen spare Hroom rest0) as (st' & rv & E & Hok' & Hres & Hsame & Hroom' & _ & Hlim).
  exists st', rv. splits; [done..|]. destruct Hres as [k p l Hk Efs Hp Hch Hl|Efs Hno].
  - left. assert (k < length (v_files st))%nat as Hkl by (by eapply lookup_lt_Some).
    assert (v_files st' !! k = Some (File true 0 p)) as Hk' by (rewrite Efs; by apply list_lookup_insert_eq).
    destruct (opened_inode st' [r] cwd k p l Hok' Hk' Hp Hch) as (n & l' & i & -> & Hi & En & Ef).
    destruct (chain_spelled _ p _ Hmem (ct_null _ _ (vo_counted _ _ _ Hok')) Hch ltac:(done)) as (ns & Hn & Hs).
    exists k, i, n, l', ns, p. by splits.
  - right. splits; [done|done| |by apply Hlim]. intros H1. apply Hno; [done|]. apply Hmem, Hok.
Qed.

Lemma realpath_ok rest0 dst bufsize :
  (forall l ns, target l -> spelled l ns -> Z.of_nat (length (path_of ns)) < bufsize) ->
  1 < bufsize <= Z.of_nat (length dst) -> bufsize < size_error ->
  exists st' dst' s, realpath search_fuel st dst (path ++ 0 :: rest0) bufsize = Ok (st', dst', s) /\
    vfs_ok st' [r] cwd /\ v_files st' = v_files st /\ same_place st st' /\ room (v_heap st') (roots st') spare /\
    ((exists l ns, target l /\ spelled l ns /\ resolves [r] [r] (components (absolute_path ns)) l /\
        s = Z.of_nat (length (absolute_path ns)) /\
        dst' = absolute_path ns ++ 0 :: drop (Datatypes.S (length (absolute_path ns))) dst) \/
     (s = size_error /\ dst' = dst /\ (In no_file (v_files st) -> no_links -> forall l, ~ target l) /\ refused)).
Proof using Hok Hroot Hpath Hlen Hroom Hmem.
  intros Hfit Hb Hsz. unfold realpath. destruct (search_named rest0) as (st' & rv & -> & Hok' & (Esr & Esc & Esn) & Hroom' & Hres). cbn [mbind result_bind].
  destruct Hres as [(k & i & n & l & ns & p & -> & Hk & Efs & Hk' & -> & En & Hp & Hch & Hl & Hn & Hs)|(-> & Efs & Hno & Hlim)].
  2: { exists st', dst, size_error. rewrite decide_True by lia. splits; [done..|]. by right. }
  rewrite decide_False by lia. cbn [mbind result_bind f_inode]. pose proof (Hfit _ _ Hl Hs) as Hlt.
  destruct (inode_path_fits r st' cwd p ns dst bufsize Hok' Hn ltac:(lia) Hsz) as (x & -> & Hx). cbn [mbind result_bind].
  destruct (close_ok st' [r] cwd k _ Hok' Hk' eq_refl) as (st2 & Ec & Hok2 & Ef2 & Ec2 & Er2 & En2 & _ & _ & Hroom2). specialize (Hroom2 _ Hroom').
  assert (same_place st st2) by (unfold same_place; rewrite Ec2, Er2, En2; by splits).
  assert (v_files st2 = v_files st) as Eback by (rewrite Ef2, Efs, list_insert_insert_eq; by apply list_insert_id).
  assert ((if decide (Z.of_nat (length (path_of ns)) = 0)
    then copy_string (path_of ns ++ x :: drop (Datatypes.S (length (path_of ns))) dst) 0 bufsize [slash; 0]
    else Ok (path_of ns ++ x :: drop (Datatypes.S (length (path_of ns))) dst, Z.of_nat (length (path_of ns)))) =
    Ok (absolute_path ns ++ 0 :: drop (Datatypes.S (length (absolute_path ns))) dst, Z.of_nat (length (absolute_path ns)))) as ->.
  { destruct ns as [|nm ns].
    - cbn [path_of length app]. rewrite decide_True by done. destruct dst as [|a [|b dst]]; [simpl in Hb; lia..|].
      apply (copy_string_ok [slash] [] [x; b] dst 0 bufsize); [by repeat constructor|done..|simpl; lia].
    - rewrite decide_False by (cbn [path_of]; rewrite length_app; simpl; lia). by rewrite Hx. }
  cbn [mbind result_bind]. rewrite Ec. cbn [mbind result_bind]. eexists _, _, _. splits; [reflexivity|done..|].
  left. exists (n :: l), ns. splits; try done. by apply target_spelled.
Qed.

Lemma chdir_ok rest0 cwd_buf :
  (forall n l ns, target (n :: l) -> n_mode n = DT_DIR -> spelled (n :: l) ns -> Z.of_nat (length (path_of ns)) < 255) ->
  Z.of_nat (length cwd_buf) = CURRENTDIR_MAX ->
  exists st' rv, chdir search_fuel st cwd_buf (path ++ 0 :: rest0) = Ok (st', rv) /\ v_files st' = v_files st /\
    ((rv = 0 /\ exists n l ns, target (n :: l) /\ n_mode n = DT_DIR /\ vfs_ok st' [r] (n :: l) /\ spelled (n :: l) ns /\
        resolves [r] [r] (components (path_of ns ++ [slash])) (n :: l) /\
        exists t, v_cwd_name st' = path_of ns ++ slash :: 0 :: t) \/
     (rv = -1 /\ vfs_ok st' [r] cwd /\ same_place st st' /\
        (In no_file (v_files st) -> no_links -> forall n l, target (n :: l) -> n_mode n <> DT_DIR) /\
        (In no_file (v_files st) -> links_followed -> forall n l, reachable [r] cwd path (n :: l) -> n_mode n <> DT_DIR))).
Proof using Hok Hroot Hpath Hlen Hroom Hmem.
  intros Hfit Hbuf. unfold chdir. destruct (search_named rest0) as (st' & rv & -> & Hok' & (Esr & Esc & Esn) & Hroom' & Hres). cbn [mbind result_bind].
  destruct Hres as [(k & i & n & l & ns & p & -> & Hk & Efs & Hk' & -> & En & Hp & Hch & Hl & Hn & Hs)|(-> & Efs & Hno & Hlim)].
  2: { exists st', (-1). rewrite decide_True by lia. splits; [done..|]. right. splits; [done..| |]; intros H1 H2 n l Hl; [by destruct (Hno H1 H2 (n :: l))|by destruct (Hlim H1 H2 (n :: l))]. }
  rewrite decide_False by lia. cbn [mbind result_bind f_inode].
  assert (<[k := no_file]> (v_files st') = v_files st) as Eback by (rewrite Efs, list_insert_insert_eq; by apply list_insert_id).
  assert (i_mode i = n_mode n) as Em by (by rewrite <- En). rewrite Em. destruct (decide (n_mode n <> DT_DIR)) as [Hm|Hm].
  - destruct (close_ok st' [r] cwd k _ Hok' Hk' eq_refl) as (st2 & -> & Hok2 & Ef2 & Ec2 & Er2 & En2 & _). cbn [mbind result_bind].
    assert (forall n2 l2, target (n2 :: l2) -> n_mode n2 <> DT_DIR) as Hnd
      by (intros n2 l2 H2; by pose proof (resolves_unique _ _ _ _ Hl _ H2) as [= <- _]).
    exists st2, (-1). splits; [done|by rewrite Ef2|]. right. splits; [done|done| |by intros _ _|].
    + unfold same_place. rewrite Ec2, Er2, En2. by splits.
    + intros _ _ n2 l2 H2%in_limits_resolves. by apply (Hnd n2 l2).
  - assert (n_mode n = DT_DIR) as Hd by (by destruct (decide (n_mode n = DT_DIR))). clear Hm.
    assert (dirs_ok (n :: l)) as Hdirs.
    { destruct (vo_dirs _ _ _ Hok) as [Hd1 Hd2]. assert (dirs_ok (start [r] cwd path)) as Hds by (unfold start; by destruct (absolute _)).
      destruct (resolves_place [r] _ _ _ Hd1 Hl) as [? ?]; [by apply dirs_place|done|]. by constructor. }
    destruct (change_cwd r cwd st' k p (n :: l) Hok' Hk' Hp Hch Hdirs) as (st2 & h & -> & Eg & Hok2).
    cbn [mbind result_bind]. rewrite Eg. cbn [mbind result_bind v_heap set_heap v_files v_root v_cwd_name v_rest].
    set (st3 := Vfs h _ _ p _ _) in *.
    destruct (close_ok st3 [r] (n :: l) k _ Hok2 Hk' eq_refl) as (st4 & -> & Hok4 & Ef4 & Ec4 & Er4 & En4 & _ & Hch4 & _). cbn [mbind result_bind].
    destruct (chain_spelled _ _ _ Hmem (ct_null _ _ (vo_counted _ _ _ Hok4)) (proj2 (vo_cwd _ _ _ Hok4)) ltac:(done)) as (ns4 & Hn4 & Hs4).
    destruct (chdir_path r (fun b s => Ok (Vfs (v_heap st4) (v_files st4) (v_root st4) (v_cwd st4)
        (take (Z.to_nat s) b ++ drop (Z.to_nat s) (v_cwd_name st4)) (v_rest st4), 0)) st4 _ (n :: l) ns4 cwd_buf Hok4 Hn4 Hs4)
      as [t E]; [by apply (Hfit n l)|exact Hbuf|].
    eexists _, _. split; [etransitivity; [exact E|reflexivity]|]. cbn [v_files]. split; [by rewrite Ef4|]. left. split; [done|].
    exists n, l, ns4. splits; try done.
    + destruct Hok4. by constructor.
    + rewrite components_app, (spelled_components (n :: l)), app_nil_r by done.
      rewrite <- (absolute_components (n :: l)) by done. by apply target_spelled.
    + cbn [v_cwd_name]. set (q := path_of ns4). exists (drop (Z.to_nat (Z.of_nat (length q) + 2)) (v_cwd_name st4)).
      replace (Z.to_nat _) with (length q + 2)%nat by lia. by rewrite take_app_add, <- app_assoc.
Qed.
End Tree.

(** C10. The real path of a file, in a buffer that it fits, is the path from the
    root through the names of the directories: it leads to the same place as the
    path that was given, whatever links and dots are on the way.  Otherwise the answer
    is (size_t)-1, the buffer is not changed, and the path does not resolve, if
    there was a free slot and no link.  No file stays open, and the current
    directory stays. *)
Theorem realpath_correct (st : @vfs S P) r cwd path rest dst bufsize :
  vfs_ok st [r] cwd -> last cwd = Some r -> path_ok path -> (length path < 4096)%nat ->
  room (v_heap st) (roots st) (Z.to_nat 120000) -> enough_memory ->
  (forall l ns, resolves [r] (start [r] cwd path) (components path) l -> spelled l ns ->
    Z.of_nat (length (path_of ns)) < bufsize) ->
  1 < bufsize <= Z.of_nat (length dst) -> bufsize < size_error ->
  exists st' dst' s, realpath search_fuel st dst (path ++ 0 :: rest) bufsize = Ok (st', dst', s) /\
    vfs_ok st' [r] cwd /\ v_files st' = v_files st /\ same_place st st' /\
    ((exists l ns, resolves [r] (start [r] cwd path) (components path) l /\ spelled l ns /\
        resolves [r] [r] (components (absolute_path ns)) l /\ s = Z.of_nat (length (absolute_path ns)) /\
        dst' = absolute_path ns ++ 0 :: drop (Datatypes.S (length (absolute_path ns))) dst) \/
     (s = size_error /\ dst' = dst /\
        (In no_file (v_files st) -> no_links -> forall l, ~ resolves [r] (start [r] cwd path) (components path) l))).
Proof.
  intros Hok Hr Hp Hl Hroom Hmem Hfit Hb Hs.
  destruct (realpath_ok st r cwd path Hok Hr Hp Hl 0%nat Hroom Hmem rest dst bufsize Hfit Hb Hs) as (st' & dst' & s & H).
  exists st', dst', s. tauto.
Qed.

(** C11. [chdir] goes to the directory to which the path resolves, if its path
    fits in the buffer with a slash: the reference to the old directory is given
    back and one to the new one taken, no file stays open, and the path that is kept
    is that of the directory, which leads to it from the root, with a slash
    behind.  Otherwise the answer is -1, all stays as it was, and the path is
    not that of a directory, if there was a free slot and no link. *)
Theorem chdir_correct (st : @vfs S P) r cwd path rest cwd_buf :
  vfs_ok st [r] cwd -> last cwd = Some r -> path_ok path -> (length path < 4096)%nat ->
  room (v_heap st) (roots st) (Z.to_nat 120000) -> enough_memory ->
  (forall n l ns, resolves [r] (start [r] cwd path) (components path) (n :: l) -> n_mode n = DT_DIR -> spelled (n :: l) ns ->
    Z.of_nat (length (path_of ns)) < 255) ->
  Z.of_nat (length cwd_buf) = CURRENTDIR_MAX ->
  exists st' rv, chdir search_fuel st cwd_buf (path ++ 0 :: rest) = Ok (st', rv) /\ v_files st' = v_files st /\
    ((rv = 0 /\ exists n l ns, resolves [r] (start [r] cwd path) (components path) (n :: l) /\ n_mode n = DT_DIR /\
        vfs_ok st' [r] (n :: l) /\ spelled (n :: l) ns /\ resolves [r] [r] (components (path_of ns ++ [slash])) (n :: l) /\
        exists t, v_cwd_name st' = path_of ns ++ slash :: 0 :: t) \/
     (rv = -1 /\ vfs_ok st' [r] cwd /\ same_place st st' /\
        (In no_file (v_files st) -> no_links ->
         forall n l, resolves [r] (start [r] cwd path) (components path) (n :: l) -> n_mode n <> DT_DIR))).
Proof.
  intros Hok Hr Hp Hl Hroom Hmem Hfit Hb.
  destruct (chdir_ok st r cwd path Hok Hr Hp Hl 0%nat Hroom Hmem rest cwd_buf Hfit Hb) as (st' & rv & E & Ef & H).
  exists st', rv. splits; [done|done|]. tauto.
Qed.

End Cwd.

(** ** Examples

    In the tree of VfsSpec: the directory [a] with the file [f], and the link [l]
    to [/a]. *)

#[local] Existing Instances demo_ops demo_spec.

Lemma demo_memory : enough_memory (FS := demo_spec).
Proof. done. Qed.

(** The only way to spell a place of this tree. *)
Lemma demo_spelled_a ns : spelled (FS := demo_spec) [(DT_DIR, 0, 2); (DT_DIR, 0, 1)] ns -> ns = [[0x61]].
Proof.
  inversion 1 as [|m n l nm ns' _ E Hs]; subst. inversion Hs; subst. cbn in E. unfold demo_lookup in E.
  repeat case_decide; try discriminate. by destruct_and!; subst.
Qed.

Lemma demo_spelled_f ns : spelled (FS := demo_spec) [(DT_REG, 7, 3); (DT_DIR, 0, 2); (DT_DIR, 0, 1)] ns -> ns = [[0x66]; [0x61]].
Proof.
  inversion 1 as [|m n l nm ns' _ E Hs]; subst. apply demo_spelled_a in Hs as ->. cbn in E. unfold demo_lookup in E.
  repeat case_decide; try discriminate. by destruct_and!; subst.
Qed.

(** The path [l] leads to the directory [a], and [l/f] to its file. *)
Lemma demo_l cs l' : resolves (FS := demo_spec) demo_root [(DT_DIR, 0, 2); (DT_DIR, 0, 1)] cs l' ->
  resolves (FS := demo_spec) demo_root demo_root ([0x6c] :: cs) l'.
Proof.
  intros H. eapply (res_link _ _ _ _ (DT_LNK, 2, 4)); [done..|].
  eapply (res_enter _ _ _ _ (DT_DIR, 0, 2)); [done..|by right|exact H].
Qed.

Lemma demo_l_f : resolves (FS := demo_spec) demo_root demo_root [[0x6c]; [0x66]] [(DT_REG, 7, 3); (DT_DIR, 0, 2); (DT_DIR, 0, 1)].
Proof. apply demo_l. eapply (res_enter _ _ _ _ (DT_REG, 7, 3)); [done..|by left|constructor]. Qed.

Lemma realpath_correct_witness : exists st' dst' s,
  realpath search_fuel demo_vfs (replicate 20 9) ([0x6c; 0x2f; 0x66] ++ 0 :: []) 20 = Ok (st', dst', s) /\
  vfs_ok st' demo_root demo_root /\ v_files st' = v_files demo_vfs /\ same_place demo_vfs st' /\
  ((exists l ns, resolves (FS := demo_spec) demo_root (start demo_root demo_root [0x6c; 0x2f; 0x66]) (components [0x6c; 0x2f; 0x66]) l /\
      spelled (FS := demo_spec) l ns /\ resolves (FS := demo_spec) demo_root demo_root (components (absolute_path ns)) l /\
      s = Z.of_nat (length (absolute_path ns)) /\
      dst' = absolute_path ns ++ 0 :: drop (Datatypes.S (length (absolute_path ns))) (replicate 20 9)) \/
   (s = size_error /\ dst' = replicate 20 9 /\
      (In no_file (v_files demo_vfs) -> no_links (FS := demo_spec) ->
       forall l, ~ resolves (FS := demo_spec) demo_root (start demo_root demo_root [0x6c; 0x2f; 0x66]) (components [0x6c; 0x2f; 0x66]) l))).
Proof.
  apply (realpath_correct (FS := demo_spec) demo_vfs (DT_DIR, 0, 1) demo_root [0x6c; 0x2f; 0x66] [] (replicate 20 9) 20).
  - exact demo_vfs_ok.
  - done.
  - split; [repeat constructor|]; done.
  - simpl. lia.
  - vm_compute. done.
  - exact demo_memory.
  - intros l ns Hl Hs. pose proof (resolves_unique _ _ _ _ demo_l_f _ Hl) as <-. apply demo_spelled_f in Hs as ->. simpl. lia.
  - simpl. lia.
  - done.
Defined.

Lemma chdir_correct_witness : exists st' rv,
  chdir search_fuel demo_vfs (replicate 256 9) ([0x6c] ++ 0 :: []) = Ok (st', rv) /\ v_files st' = v_files demo_vfs /\
  ((rv = 0 /\ exists n l ns, resolves (FS := demo_spec) demo_root (start demo_root demo_root [0x6c]) (components [0x6c]) (n :: l) /\
      n_mode n = DT_DIR /\ vfs_ok st' demo_root (n :: l) /\ spelled (FS := demo_spec) (n :: l) ns /\
      resolves (FS := demo_spec) demo_root demo_root (components (path_of ns ++ [slash])) (n :: l) /\
      exists t, v_cwd_name st' = path_of ns ++ slash :: 0 :: t) \/
   (rv = -1 /\ vfs_ok st' demo_root demo_root /\ same_place demo_vfs st' /\
      (In no_file (v_files demo_vfs) -> no_links (FS := demo_spec) ->
       forall n l, resolves (FS := demo_spec) demo_root (start demo_root demo_root [0x6c]) (components [0x6c]) (n :: l) -> n_mode n <> DT_DIR))).
Proof.
  apply (chdir_correct (FS := demo_spec) demo_vfs (DT_DIR, 0, 1) demo_root [0x6c] [] (replicate 256 9)).
  - exact demo_vfs_ok.
  - done.
  - split; [repeat constructor|]; done.
  - simpl. lia.
  - vm_compute. done.
  - exact demo_memory.
  - intros n l ns Hl _ Hs. pose proof (resolves_unique _ _ _ _ (demo_l [] _ (res_end _ _)) _ Hl) as El. rewrite <- El in Hs.
    apply demo_spelled_a in Hs as ->. simpl. lia.
  - done.
Defined.

(** The real path of [l/f] is [/a/f], and after chdir to [l] the current
    directory is [/a/]. *)
Example demo_realpath : (fun '(_, d, s) => (d, s)) <$> realpath (FO := demo_ops) search_fuel demo_vfs (replicate 6 9) [0x6c; 0x2f; 0x66; 0] 6 =
  Ok ([0x2f; 0x61; 0x2f; 0x66; 0; 9], 4).
Proof. vm_compute. done. Qed.

Example demo_chdir : (fun '(st, rv) => (v_cwd_name st, rv)) <$> chdir (FO := demo_ops) search_fuel demo_vfs (replicate 256 9) [0x6c; 0] =
  Ok ([0x2f; 0x61; 0x2f; 0], 0).
Proof. vm_compute. done. Qed.

End VfsCwd.
