(* ===== verification/FsInit.v ===== *)
(** * Starting the file system (fs_init of fs.c)

    The drivers are tried in the order of their list until the init function of
    one knows the volume; the disk is initialised once, when the first driver
    needs it.  Then the cache is started and the root directory is the current
    one. *)

From Stdlib Require Import ZArith Lia.
From S2P Require Import Prelude CStr Dirent Mangle Inode Vfs VfsSpec.
Import CStr.CStr Dirent.Dirent Mangle.Mangle Inode.Inode Vfs.Vfs VfsSpec.VfsSpec.

(** What is started besides the file system: the allocator, the disk [D] and its
    cache.  [has_cache] says that [cache_data] is not null. *)
Class Boot (S D : Type) := {
  boot_mem_init : S -> S;
  boot_device_init : S -> Z -> bool -> Z -> Z -> Z -> Z -> S * D;
  has_cache : D -> bool;
  boot_cache_init : S -> D -> Z -> S }.

Module FsInit.

Definition FS_NODEV : Z := 1.

(** The registers of the call; the address of the list of drivers is in eax. *)
Record init_regs := InitRegs { ir_ebx : Z; ir_ecx : Z; ir_edx : Z; ir_esi : Z; ir_edi : Z; ir_ebp : Z }.

Definition disk_devno (regs : init_regs) : Z := ir_edx regs mod 0x100.
Definition disk_cdrom (regs : init_regs) : bool := negb (bool_decide (Z.shiftr (ir_edx regs) 8 mod 0x100 = 0)).
Definition disk_offset (regs : init_regs) : Z := Z.lor (ir_ecx regs) (u64 (Z.shiftl (ir_ebx regs) 32)).
Definition disk_heads (regs : init_regs) : Z := low_word (ir_esi regs).
Definition disk_sectors (regs : init_regs) : Z := low_word (ir_edi regs).
Definition maxtransfer (regs : init_regs) : Z := ir_ebp regs.

Section Init.
Context {S P D : Type} `{BT : !Boot S D}.

(** The members of struct fs_ops that fs_init uses; the others are [FsOps].  The
    init function sets the shift and the size of a sector and gives the
    shift of the blocks or -1; [iget_root] makes the root's inode. *)
Record driver := Driver {
  dr_ops : FsOps S P;
  dr_flags : Z;
  dr_init : S -> option D -> Z * Z -> result (S * (Z * Z) * Z);
  dr_iget_root : option (S -> result (S * dirent_type * Z * P)) }.

(** The variables of the loop: the state, [dev], the shift and the size of a
    sector, [blk_shift] with the driver and the device that gave it, and the
    rest of the list. *)
Record probe := Probe { pr_rest : S; pr_dev : option D; pr_sector : Z * Z; pr_found : option (driver * option D * Z); pr_ops : list driver }.

(** The disk is initialised when the first driver needs it. *)
Definition init_dev (regs : init_regs) (dr : driver) (s : S) (dev : option D) : S * option D :=
  if decide (Z.land (dr_flags dr) FS_NODEV <> 0) then (s, dev)
  else match dev with
       | Some dev => (s, Some dev)
       | None => let '(s, dev) := boot_device_init s (disk_devno regs) (disk_cdrom regs) (disk_offset regs)
                                    (disk_heads regs) (disk_sectors regs) (maxtransfer regs) in (s, Some dev)
       end.

(** The device that a driver gets. *)
Definition device_of (dr : driver) (dev : option D) : option D :=
  if decide (Z.land (dr_flags dr) FS_NODEV <> 0) then None else dev.

Definition probe_step (regs : init_regs) (p : probe) : result (ctl probe probe) :=
  match pr_found p, pr_ops p with
  | Some _, _ | _, [] => Ok (Break p)
  | None, dr :: ops =>
      let '(s, dev) := init_dev regs dr (pr_rest p) (pr_dev p) in
      let fs_dev := device_of dr dev in
      '(s, sector, blk_shift) ← dr_init dr s fs_dev (pr_sector p);
      Ok (Continue (Probe s dev sector (if decide (blk_shift < 0) then None else Some (dr, fs_dev, blk_shift)) ops))
  end.

(** The cache of the device, if there is one. *)
Definition start_cache (s : S) (fs_dev : option D) (blk_shift : Z) : S :=
  match fs_dev with
  | Some dev => if has_cache dev then boot_cache_init s dev blk_shift else s
  | None => s
  end.

(** The name of the root directory in the cleared structure. *)
Definition root_cwd_name : list Z := slash :: replicate (Z.to_nat CURRENTDIR_MAX - 1) 0.

(** The result is the driver, the file system, and SectorShift and SectorSize;
    there is none when no driver knows the volume, and the program stops. *)
Definition fs_init (s : S) (regs : init_regs) (drivers : list driver) :
    result (option (driver * @vfs S P * Z * Z)) :=
  p ← loop (Datatypes.S (Datatypes.S (length drivers))) (probe_step regs) (Probe (boot_mem_init s) None (0, 0) None drivers);
  match pr_found p with
  | None => Ok None
  | Some (dr, fs_dev, blk_shift) =>
      let s := start_cache (pr_rest p) fs_dev blk_shift in
      let st := Vfs ∅ (replicate MAX_OPEN no_file) 0 0 root_cwd_name s in
      st ← match dr_iget_root dr with
           | None => Ok st
           | Some iget_root =>
               '(s, mode, size, pvt) ← iget_root s;
               let '(h, root) := alloc_inode (v_heap st) mode size pvt in
               let st := Vfs h (v_files st) root 0 root_cwd_name s in
               st ← get st root;
               Ok (Vfs (v_heap st) (v_files st) root root root_cwd_name (v_rest st))
           end;
      Ok (Some (dr, st, (pr_sector p).1, (pr_sector p).2))
  end.

(** ** What is started *)

(** A driver with what it promises for path lookup, and whether the volume is
    one of its own. *)
Record volume_driver := VolumeDriver { vd_driver : driver; vd_spec : FsSpec S P (FO := dr_ops vd_driver); vd_known : Prop }.

(** [boot_ok] holds of the state before, with the device or without. *)
Context (boot_ok : S -> option D -> Prop).

(** The root that a driver gives when the cache runs. *)
Definition root_ok (v : volume_driver) (s : S) (size : Z) (pvt : P) : Prop :=
  exists iget_root s2, dr_iget_root (vd_driver v) = Some iget_root /\ iget_root s = Ok (s2, DT_DIR, size, pvt) /\
    @rest_ok _ _ _ (vd_spec v) s2 /\ @node_ok _ _ _ (vd_spec v) (DT_DIR, size, pvt).

(** The init function tells whether the driver knows the volume, and then its
    root is a directory that can be looked up. *)
Record driver_ok (v : volume_driver) : Prop := {
  do_init s dev sector : boot_ok s dev -> (Z.land (dr_flags (vd_driver v)) FS_NODEV = 0 -> dev <> None) ->
    exists s' sector' blk_shift, dr_init (vd_driver v) s (device_of (vd_driver v) dev) sector = Ok (s', sector', blk_shift) /\
      boot_ok s' dev /\ (0 <= blk_shift <-> vd_known v) /\
      (vd_known v -> exists size pvt, root_ok v (start_cache s' (device_of (vd_driver v) dev) blk_shift) size pvt) }.

Context (regs : init_regs).

(** The device is initialised from a state without one. *)
Definition device_ok : Prop := forall s, boot_ok s None ->
  let '(s', dev) := boot_device_init s (disk_devno regs) (disk_cdrom regs) (disk_offset regs) (disk_heads regs) (disk_sectors regs)
                      (maxtransfer regs) in boot_ok s' (Some dev).

(** What the loop finds. *)
Definition probed (ds : list volume_driver) (p : probe) : Prop :=
  match pr_found p with
  | None => Forall (fun v => ~ vd_known v) ds
  | Some (dr, fs_dev, blk_shift) => exists ds1 v ds2 size pvt, ds = ds1 ++ v :: ds2 /\ dr = vd_driver v /\
      Forall (fun v => ~ vd_known v) ds1 /\ vd_known v /\ root_ok v (start_cache (pr_rest p) fs_dev blk_shift) size pvt
  end.

Lemma init_dev_ok dr s dev : device_ok -> boot_ok s dev ->
  let '(s', dev') := init_dev regs dr s dev in boot_ok s' dev' /\ (Z.land (dr_flags dr) FS_NODEV = 0 -> dev' <> None).
Proof.
  intros Hdev Hs. unfold init_dev. case_decide as Hf; [done|]. destruct dev as [dev|]; [done|].
  specialize (Hdev s Hs). by destruct (boot_device_init _ _ _ _ _ _ _) as [s' dev'].
Qed.

Lemma probe_loop ds : device_ok -> Forall driver_ok ds -> forall s dev sector n, boot_ok s dev -> (length ds + 1 < n)%nat ->
  exists p, loop n (probe_step regs) (Probe s dev sector None (vd_driver <$> ds)) = Ok p /\ probed ds p.
Proof.
  intros Hdev. induction 1 as [|v ds [Hdr] _ IH]; intros s dev sector n Hs Hn; (destruct n as [|n]; [lia|]).
  - erewrite loop_break by reflexivity. eexists. split; [reflexivity|]. constructor.
  - simpl in Hn. rewrite fmap_cons. set (dr := vd_driver v) in *.
    pose proof (init_dev_ok dr s dev Hdev Hs) as Hi. destruct (init_dev regs dr s dev) as [s1 dev1] eqn:Ei.
    destruct Hi as [Hs1 Hd1]. destruct (Hdr s1 dev1 sector Hs1 Hd1) as (s2 & sector2 & b & Einit & Hs2 & Hk & Hm).
    erewrite loop_continue by (cbn [probe_step pr_found pr_ops pr_rest pr_dev pr_sector]; rewrite Ei; cbn zeta; rewrite Einit; reflexivity).
    case_decide as Hb.
    + destruct (IH s2 dev1 sector2 n Hs2 ltac:(lia)) as (p & E & Hp). exists p. split; [done|].
      assert (~ vd_known v) as Hnk by (rewrite <- Hk; lia). unfold probed in *. destruct (pr_found p) as [[[dr' d'] b']|]; [|by constructor].
      destruct Hp as (ds1 & v' & ds2 & size & pvt & -> & Hp1 & H1 & H2). exists (v :: ds1), v', ds2, size, pvt.
      split; [done|]. split; [done|]. split; [by constructor|done].
    + assert (vd_known v) as Hkn by (apply Hk; lia). destruct n as [|n]; [lia|]. erewrite loop_break by reflexivity.
      eexists. split; [reflexivity|]. destruct (Hm Hkn) as (size & pvt & Hroot). exists [], v, ds, size, pvt. by splits; [|..].
Qed.

(** C13. [fs_init] mounts the volume with the first driver that knows it: the root
    directory that the driver gives is the root and the current one, with a
    reference for each, no file is open, and path lookup can start.  Without such a
    driver the program stops. *)
Theorem fs_init_mounts s ds : device_ok -> Forall driver_ok ds -> boot_ok (boot_mem_init s) None ->
  exists res, fs_init s regs (vd_driver <$> ds) = Ok res /\
    match res with
    | None => Forall (fun v => ~ vd_known v) ds
    | Some (dr, st, _, _) => exists ds1 v ds2 p size pvt r, ds = ds1 ++ v :: ds2 /\ dr = vd_driver v /\
        Forall (fun v => ~ vd_known v) ds1 /\ vd_known v /\ p <> 0 /\ st = mounted p size pvt root_cwd_name r /\
        vfs_ok (FS := vd_spec v) st [(DT_DIR, size, pvt)] [(DT_DIR, size, pvt)]
    end.
Proof.
  intros Hdev Hds Hs. unfold fs_init. rewrite length_fmap.
  destruct (probe_loop ds Hdev Hds _ _ (0, 0) (Datatypes.S (Datatypes.S (length ds))) Hs ltac:(lia)) as (p & -> & Hp).
  cbn [mbind result_bind]. unfold probed in Hp. destruct (pr_found p) as [[[dr fs_dev] b]|]; [|by exists None].
  destruct Hp as (ds1 & v & ds2 & size & pvt & E & -> & H1 & H2 & iget_root & s2 & -> & Eroot & Hr & Hn). cbn zeta.
  rewrite Eroot. cbn [mbind result_bind]. unfold alloc_inode. cbn [v_heap].
  destruct (fresh_ptr_ok (∅ : gmap Z (inode P))) as [_ Hp0]. set (q := fresh_ptr ∅) in *.
  unfold get, get_inode. cbn [v_heap]. rewrite lookup_insert_eq. cbn [of_option mbind result_bind].
  eexists. split; [reflexivity|]. exists ds1, v, ds2, q, size, pvt, s2. splits; try done.
  cbn [v_heap v_files v_rest set_heap]. rewrite insert_insert_eq.
  exact (mounted_ok (FS := vd_spec v) q size pvt root_cwd_name s2 Hp0 Hr Hn).
Qed.

End Init.

(** ** An example

    The first driver does not know the volume, the second has the tree of
    VfsSpec. *)

#[local] Instance demo_boot : Boot unit unit := {|
  boot_mem_init s := s; boot_device_init s _ _ _ _ _ _ := (s, tt); has_cache _ := true; boot_cache_init s _ _ := s |}.

Definition demo_other : @driver unit Z unit :=
  Driver demo_ops 0 (fun s _ sector => Ok (s, sector, -1)) None.
Definition demo_driver : @driver unit Z unit :=
  Driver demo_ops 0 (fun s _ _ => Ok (s, (9, 512), 12)) (Some (fun s => Ok (s, DT_DIR, 0, 1))).

Definition demo_volumes : list volume_driver := [VolumeDriver demo_other demo_spec False; VolumeDriver demo_driver demo_spec True].

Lemma demo_drivers_ok : Forall (driver_ok (fun _ _ => True)) demo_volumes.
Proof.
  repeat constructor.
  - intros s dev sector _ _. exists s, sector, (-1). splits; done.
  - intros s dev sector _ _. exists s, (9, 512), 12. splits; try done. intros _. exists 0, 1. by eexists _, _.
Qed.

Definition demo_regs : init_regs := InitRegs 0 63 0x80 255 63 0.

Lemma fs_init_mounts_witness :
  exists res, fs_init tt demo_regs (vd_driver <$> demo_volumes) = Ok res /\
    match res with
    | None => Forall (fun v => ~ vd_known v) demo_volumes
    | Some (dr, st, _, _) => exists ds1 v ds2 p size pvt r, demo_volumes = ds1 ++ v :: ds2 /\ dr = vd_driver v /\
        Forall (fun v => ~ vd_known v) ds1 /\ vd_known v /\ p <> 0 /\ st = mounted p size pvt root_cwd_name r /\
        vfs_ok (FS := vd_spec v) st [(DT_DIR, size, pvt)] [(DT_DIR, size, pvt)]
    end.
Proof.
  apply (fs_init_mounts (fun _ _ => True) demo_regs tt demo_volumes).
  - by intros s _.
  - exact demo_drivers_ok.
  - done.
Defined.

Example demo_fs_init : match fs_init tt demo_regs [demo_other; demo_driver] with
  | Ok (Some (dr, st, shift, size)) => v_root st = v_cwd st /\ refcnt <$> v_heap st !! v_root st = Some 2 /\ shift = 9 /\ size = 512
  | _ => False
  end.
Proof. vm_compute. done. Qed.

Example demo_no_driver : fs_init tt demo_regs [demo_other] = Ok None.
Proof. done. Qed.

End FsInit.
