(* ===== verification/ExtentVfs.v ===== *)
(** * File systems that are read by extents, under the virtual file system

    The methods of a file system whose getfssec is [generic_getfssec], as an
    instance of [FsOps]: the inode has, besides the private data of the file
    system, the two extents of getfssec.c.  Reading an open file gives the bytes
    of the file at the address of the call. *)

From Stdlib Require Import ZArith Lia.
From S2P Require Import Prelude CStr Dirent Mangle GetFsSec Inode Vfs VfsSpec.
Import CStr.CStr Dirent.Dirent Mangle.Mangle GetFsSec.GetFsSec Inode.Inode Vfs.Vfs VfsSpec.VfsSpec.

(** What the loader gives to all: the allocator and the memory.  [env_read] is
    the memory from an address on; [env_write] stores bytes at one. *)
Class Environment (M : Type) := {
  env_malloc : M -> Z -> M * bool;
  env_read : M -> Z -> list Z;
  env_write : M -> Z -> list Z -> M;
  env_write_read m a l : length l = length (env_read m a) -> env_read (env_write m a l) a = l;
  env_read_length m a l b : length (env_read (env_write m a l) b) = length (env_read m b);
  env_malloc_length m n b : length (env_read (fst (env_malloc m n)) b) = length (env_read m b) }.

(** The methods of a file system on its state [D] and the private data [Q] of an
    inode; [vol_file] is the state of a file that is read, [vol_extents] the method
    next_extent for a file of a size. *)
Class Volume (D Q : Type) := {
  vol_file : Type;
  vol_iget : D -> list Z -> Q -> result (D * option (dirent_type * Z * Q));
  vol_readlink : option (D -> Z -> Q -> result (D * Z * list Z));
  vol_mangle_name : list Z -> list Z -> result (list Z);
  vol_readdir : option (D -> Z -> Q -> Z -> result (D * Q * Z * option dirent));
  vol_open : D -> Q -> Z -> vol_file;
  vol_close : D -> vol_file -> D * Q * Z;
  vol_extents : Z -> ExtentOps vol_file;
  vol_size size : inode_size (ExtentOps := vol_extents size) = size }.

Module ExtentVfs.

Section Methods.
Context {D Q M : Type} `{SD : SectorDevice} `{V : !Volume D Q} `{E : !Environment M}.

(** [this_extent], [next_extent] and the private data of an inode. *)
Abbreviation file_pvt := (extent * extent * Q)%type.

(** The memory of a new inode is cleared. *)
Definition new_pvt (q : Q) : file_pvt := (Extent 0 0 0, Extent 0 0 0, q).

Definition call_iget (r : D * M) (name : list Z) (dir : inode file_pvt) :
    result (D * M * option (dirent_type * Z * file_pvt)) :=
  '(d, o) ← vol_iget (fst r) name (snd (i_pvt dir));
  Ok (d, snd r, match o with Some (mode, size, q) => Some (mode, size, new_pvt q) | None => None end).

Definition call_getfssec (r : D * M) (i : inode file_pvt) (offset buf sectors : Z) :
    result (D * M * (Z * file_pvt) * Z * option bool * Z) :=
  let '(d, m) := r in
  let '(te, ne, q) := i_pvt i in
  '(f, bytes, offset, more, n) ←
    ReadFile.generic_getfssec (EO := vol_extents (i_size i)) (Z.to_nat (sectors + 2))
      (ReadFile.Inode te ne (vol_open d q (i_size i))) offset (env_read m buf) sectors;
  let '(d, q, size) := vol_close d (ReadFile.pvt f) in
  Ok (d, env_write m buf bytes, (size, (ReadFile.this_extent f, ReadFile.next_ext f, q)), offset, more, n).

Definition call_readlink : option (D * M -> inode file_pvt -> result (D * M * Z * list Z)) :=
  match vol_readlink with
  | Some rl => Some (fun r i => '(d, n, bytes) ← rl (fst r) (i_size i) (snd (i_pvt i)); Ok (d, snd r, n, bytes))
  | None => None
  end.

Definition call_readdir : option (D * M -> inode file_pvt -> Z -> result (D * M * file_pvt * Z * option dirent)) :=
  match vol_readdir with
  | Some rd => Some (fun r i offset =>
      let '(te, ne, q) := i_pvt i in
      '(d, q, offset, e) ← rd (fst r) (i_size i) q offset; Ok (d, snd r, (te, ne, q), offset, e))
  | None => None
  end.

#[export] Instance volume_ops : FsOps (D * M) file_pvt := {|
  op_iget := call_iget; op_readlink := call_readlink; op_mangle_name := vol_mangle_name; op_getfssec := call_getfssec;
  op_readdir := call_readdir; op_sector_shift := sector_shift;
  malloc_ok r n := let '(m, ok) := env_malloc (snd r) n in (fst r, m, ok);
  mem_at r a := env_read (snd r) a; mem_put r a l := (fst r, env_write (snd r) a l) |}.

(** ** Reading an open file *)

Context {FS : FsSpec (D * M) file_pvt}.

(** Reading changes neither the place of an inode nor what refers to it. *)
Lemma update_file st root cwd p i size q d :
  vfs_ok st root cwd -> v_heap st !! p = Some i -> i_mode i = DT_REG -> rest_ok d ->
  vfs_ok (set_heap (set_rest st d) (<[p := Inode_ (parent i) (i_name i) (refcnt i) (i_mode i) size q]> (v_heap st))) root cwd.
Proof.
  intros Hok Hp Hm Hd. set (i' := Inode_ _ _ _ _ _ _).
  assert (forall a l, chain (v_heap st) a l -> dirs_ok l -> chain (<[p := i']> (v_heap st)) a l) as Hch.
  { intros a l. revert a. induction l as [|n l IH]; intros a; [done|]. intros (j & Hj & En & He & Hl) [[_ Hn] Hd']%Forall_cons.
    exists j. assert (a <> p) as Hne.
    { intros ->. assert (j = i) as -> by congruence. rewrite <- En in Hn. unfold n_mode, node_of in Hn. simpl in Hn. congruence. }
    rewrite lookup_insert_ne by done. splits; [done..|]. by apply IH. }
  destruct Hok as [_ [H0 Hc Hlive Hs] [Hr0 Hr] [Hc0 Hc'] [Hd1 Hd2] Hl Hf].
  pose proof (links_update (v_heap st) p i i' Hp) as El. simpl in El. rewrite <- (links_delete _ p i Hp) in El.
  constructor; try done; [|by split; [|apply Hch]..]. constructor.
  - cbn [v_heap set_heap]. rewrite lookup_insert_ne; [done|]. intros ->. congruence.
  - intros a j Ha. cbn [v_heap set_heap] in Ha |- *. rewrite El. apply lookup_insert_Some in Ha as [[-> <-]|[Hne Ha]]; [|by apply Hc].
    by apply (Hc a i).
  - intros a Ha. cbn [v_heap set_heap] in Ha |- *. rewrite El in Ha. destruct (Hlive a Ha) as [?|?]; [by left|right].
    destruct (decide (a = p)) as [->|]; [rewrite lookup_insert_eq; eauto|by rewrite lookup_insert_ne].
  - cbn [v_heap set_heap]. by rewrite El.
Qed.

Lemma update_offset st root cwd k p pos pos' :
  vfs_ok st root cwd -> v_files st !! k = Some (File true pos p) ->
  vfs_ok (set_files st (<[k := File true pos' p]> (v_files st))) root cwd.
Proof.
  intros Hok Hk. assert (roots (set_files st (<[k := File true pos' p]> (v_files st))) = roots st) as Er.
  { unfold roots. cbn [v_root v_cwd v_files set_files]. do 2 f_equal. rewrite list_fmap_insert. apply list_insert_id.
    by rewrite list_lookup_fmap, Hk. }
  destruct Hok as [? ? ? ? ? Hl Hf]. constructor; try done; [by rewrite Er|by cbn; rewrite length_insert|].
  intros j f Hj Hfs. cbn [v_files set_files] in Hj. destruct (decide (j = k)) as [->|Hne].
  - rewrite list_lookup_insert_eq in Hj by (by eapply lookup_lt_Some). by injection Hj as <-.
  - rewrite list_lookup_insert_ne in Hj by done. by apply (Hf j).
Qed.

(** The file, as getfssec.c sees it; whatever state its extents can be asked in is
    one of the volume. *)
Context (size : Z) {XF : ExtentFS vol_file} (XF_ops : extent_ops = vol_extents size).
Context (at_rest : forall d x l m m', rest_ok (d, m) -> fs_at x l ->
  (forall a, length (env_read m' a) = length (env_read m a)) -> rest_ok ((vol_close d x).1.1, m')).

Lemma file_size : inode_size (ExtentOps := extent_ops) = size.
Proof. rewrite XF_ops. apply vol_size. Qed.

(** There is always a sector at which the file system can go on. *)
Lemma inode_at f : ReadFile.inode_ok f -> exists l, fs_at (ReadFile.pvt f) l.
Proof.
  intros (_ & (Hl & Hn & Hnext) & Hat). destruct (decide (len (ReadFile.next_ext f) = 0)) as [Hz|Hz].
  - eexists. apply Hat. by left.
  - destruct (Hnext ltac:(lia)) as [_ Hx]. eauto.
Qed.

(** A read at [pos] of an open file: the bytes are in the memory at [addr], and
    the file is closed when it was the last of them. *)
Lemma read_open_file st root cwd k p i addr sectors pos te ne q :
  vfs_ok st root cwd -> v_files st !! k = Some (File true pos p) -> v_heap st !! p = Some i ->
  i_mode i = DT_REG -> i_size i = size -> i_pvt i = (te, ne, q) ->
  ReadFile.call_ok (ReadFile.Inode te ne (vol_open (fst (v_rest st)) q size)) pos sectors (env_read (snd (v_rest st)) addr) ->
  0 < sectors -> pos < size ->
  (forall l, 0 <= l < ReadFile.file_sectors -> sector_map l <> None) ->
  let n := Z.min (sectors * 2 ^ sector_shift) (size - pos) in
  exists st', pmapi_read_file st (Z.of_nat k + 1) addr sectors =
      Ok (st', if decide (pos + n < size) then Z.of_nat k + 1 else 0, n) /\ vfs_ok st' root cwd /\
    v_files st' = <[k := if decide (pos + n < size) then File true (pos + n) p else no_file]> (v_files st) /\
    take (Z.to_nat n) (env_read (snd (v_rest st')) addr) = take (Z.to_nat n) (drop (Z.to_nat pos) ReadFile.file_bytes).
Proof.
  intros Hok Hk Hp Hm Hsz Hpv Hcall Hs Hpos Hmap n. pose proof file_size as Efs.
  apply lookup_lt_Some in Hk as Hkl. rewrite (vo_length _ _ _ Hok) in Hkl.
  unfold pmapi_read_file, read_sectors, file_inode, handle_to_file.
  rewrite decide_True by lia. replace (Z.to_nat (Z.of_nat k + 1 - 1)) with k by lia.
  cbn [mbind result_bind]. rewrite Hk. cbn [of_option mbind result_bind f_inode f_offset f_fs].
  unfold deref. rewrite Hp. cbn [of_option mbind result_bind].
  destruct (v_rest st) as [d m] eqn:Er. cbn [op_getfssec volume_ops fst snd] in *. unfold call_getfssec. rewrite Hpv, Hsz.
  destruct (ReadFile.request_bounds _ _ _ _ Hcall) as (Hr & Hrf & _ & Hrs & Hal).
  destruct (ReadFile.getfssec_full _ _ _ _ (Z.to_nat (sectors + 2)) Hcall ltac:(lia)) as (f' & buf' & Hread & Eg).
  { intros j Hj. apply Hmap. pose proof (ReadFile.co_offset _ _ _ _ Hcall). split; [|lia].
    enough (0 <= pos / 2 ^ sector_shift) by lia. apply Z.div_pos; [lia|]. pose proof ReadFile.shift_pos. lia. }
  rewrite Efs in Eg, Hrs. fold n in Eg.
  assert (ReadFile.request pos sectors <> 0) as Hr0 by (intros E0; pose proof (Hrs ltac:(lia)); lia).
  rewrite (decide_False (P := ReadFile.request pos sectors = 0)) in Eg by done.
  rewrite XF_ops in Eg. cbn [f_offset f_inode f_fs]. rewrite Eg. cbn [mbind result_bind]. clear Eg.
  destruct Hread as [Hi' _ _ Hlen Hdata _]. destruct (inode_at f' Hi') as [l Hl].
  assert (rest_ok ((vol_close d (ReadFile.pvt f')).1.1, env_write m addr buf')) as Hrest.
  { pose proof (vo_rest _ _ _ Hok) as H. rewrite Er in H. apply (at_rest d _ l m); [done..|]. intros a. by apply env_read_length. }
  destruct (vol_close d (ReadFile.pvt f')) as [[d' q'] size'] eqn:Ec. cbn [mbind result_bind fst] in Hrest |- *.
  set (pv := (_, _, q')). set (m' := env_write m addr buf').
  pose proof (update_file st root cwd p i size' pv (d', m') Hok Hp Hm Hrest) as Hok'.
  set (st1 := set_heap _ _) in *. cbn [of_option mbind result_bind].
  assert (v_files st1 !! k = Some (File true pos p)) as Hk1 by exact Hk.
  pose proof (update_offset st1 root cwd k p pos (pos + n) Hok' Hk1) as Hok2. set (st2 := set_files st1 _) in *.
  rewrite Efs in Hdata. fold n in Hdata.
  assert (env_read m' addr = buf') as Em by (by apply env_write_read).
  destruct (decide (pos + n < size)) as [Hlt|Hge].
  - rewrite bool_decide_true by lia. exists st2. splits; [done|done|done|]. cbn. by rewrite Em.
  - rewrite bool_decide_false by lia. cbn [negb].
    destruct (close_ok st2 root cwd k (File true (pos + n) p) Hok2) as (st3 & -> & Hok3 & Ef3 & _ & _ & _ & Er3 & _); [|done|].
    { cbn. apply list_lookup_insert_eq. by rewrite (vo_length _ _ _ Hok). }
    cbn [mbind result_bind]. exists st3. splits; [done|done| |].
    + rewrite Ef3. cbn. apply list_insert_insert_eq.
    + rewrite Er3. cbn. by rewrite Em.
Qed.

(** The first read of a file that was opened. *)
Lemma first_call d q sectors mem : fs_at (vol_open d q size) 0 -> 0 <= size -> 0 <= sectors < 0x80000000 ->
  sectors * 2 ^ sector_shift <= 0x80000000 -> sectors * 2 ^ sector_shift <= Z.of_nat (length mem) ->
  ReadFile.call_ok (ReadFile.Inode (Extent 0 0 0) (Extent 0 0 0) (vol_open d q size)) 0 sectors mem.
Proof.
  intros Hat Hsz Hs Hsm Hmem. pose proof ReadFile.shift_pos. pose proof file_size as Efs.
  assert (ReadFile.request 0 sectors <= sectors) by (unfold ReadFile.request; lia).
  constructor.
  - unfold ReadFile.inode_ok, ReadFile.ext_end. cbn [ReadFile.this_extent ReadFile.next_ext ReadFile.pvt lstart len].
    splits; try done; lia.
  - left. by rewrite Z.div_0_l by lia.
  - done.
  - rewrite Efs. lia.
  - by exists 0.
  - nia.
  - nia.
Qed.
End Methods.

(** ** A memory for the examples

    The memory is a list of bytes, and there is always room to allocate. *)

Definition list_write (m : list Z) (a : Z) (l : list Z) : list Z :=
  let n := Z.to_nat a in take n m ++ take (length m - n) l ++ drop (n + length l) m.

Definition list_memory : Environment (list Z).
Proof.
  refine {| env_malloc m n := (m, true); env_read m a := drop (Z.to_nat a) m; env_write := list_write |}.
  - intros m a l. unfold list_write. set (n := Z.to_nat a). rewrite length_drop. intros El.
    rewrite <- El, firstn_all, (drop_ge m (n + length l)), app_nil_r by lia.
    destruct (decide (n <= length m)%nat).
    + apply drop_app_length'. rewrite length_take. lia.
    + assert (length l = 0%nat) as ->%nil_length_inv by lia. rewrite app_nil_r. apply drop_ge. rewrite length_take. lia.
  - intros m a l b. rewrite !length_drop. f_equal. unfold list_write. rewrite !length_app, !length_take, length_drop. lia.
  - done.
Defined.

End ExtentVfs.
