(* ===== verification/FatVfs.v ===== *)
(** * FAT under the virtual file system

    The methods of FAT as a [Volume], and what path lookup needs of it: the
    directories of the volume are lists of files, and looking up a name is
    looking for the first file of the list that has it.  Opening a path and
    reading the file gives the bytes of the clusters of the file that the path
    names. *)

From Stdlib Require Import ZArith Lia.
From S2P Require Import Prelude CStr Dirent Mangle BlockCache GetFsSec Fat FatSpec FatDir FatDirSpec Inode Vfs VfsSpec ExtentVfs.
Import CStr.CStr Dirent.Dirent Mangle.Mangle GetFsSec.GetFsSec Fat.Fat FatSpec.FatSpec FatDir.FatDir FatDirSpec.FatDirSpec
  Inode.Inode Vfs.Vfs VfsSpec.VfsSpec ExtentVfs.ExtentVfs.

Module FatVfs.

Section Fat.
Context {C : Type} `{BC : !BlockCache C} `{SD : SectorDevice}.
Context (shift : Z) (sbi : fat_sb_info) (cp : codepage) (fuel : nat).

(** ** The methods (vfat_fs_ops) *)

(** The cache, and the static table of conversions. *)
Abbreviation fat_state := (C * unicache)%type.

Definition inode_fields (o : option new_inode) : option (dirent_type * Z * fat_pvt_inode) :=
  match o with Some ni => Some (ni_mode ni, ni_size ni, ni_pvt ni) | None => None end.

Definition fat_iget (s : fat_state) (name : list Z) (dir : fat_pvt_inode) :
    result (fat_state * option (dirent_type * Z * fat_pvt_inode)) :=
  '(c, o) ← vfat_iget shift sbi cp fuel (fst s) name dir; Ok ((c, snd s), inode_fields o).

Definition fat_readdir (s : fat_state) (size : Z) (dir : fat_pvt_inode) (offset : Z) :
    result (fat_state * fat_pvt_inode * Z * option dirent) :=
  '(c, uc, pv, offset, e) ← vfat_readdir shift sbi cp fuel (fst s) (snd s) dir offset; Ok ((c, uc), pv, offset, e).

#[export] Instance fat_volume : Volume fat_state fat_pvt_inode := {|
  vol_file := fat_inode (C := C);
  vol_iget := fat_iget; vol_readlink := None; vol_mangle_name := vfat_mangle_name; vol_readdir := Some fat_readdir;
  vol_open s q size := FatInode (fst s) q size;
  vol_close s f := (fi_cache f, snd s, fi_pvt f, fi_size f);
  vol_extents size := {| next_extent := fat_next_extent shift sbi fuel; inode_size := size |};
  vol_size size := eq_refl |}.

(** ** The tree *)

Context {M : Type} `{EN : !Environment M}.
Context (fat_secs : Z) (Hlay : layout_ok shift sbi fat_secs).
Context (cp_zero : cp_uni cp 0 = 0 /\ cp_uni cp 256 = 0).
Context (shift_eq : sector_shift = shift).
Context (data_valid : forall p, sb_data sbi <= p < sb_data sbi + clusters sbi * 2 ^ clust_shift sbi -> valid_sector p).

(** The directories of the volume, by their first sectors, and their files. *)
Context (dirs : list Z) (files : Z -> list FatDirSpec.file).

Definition entry_cluster (de : dir_entry) : Z := u32 (Z.shiftl (de_cluster_high de) 16 + de_cluster_low de).

(** A file that has clusters has a chain that is long enough. *)
Definition chain_of (start size : Z) : Prop :=
  0 <= size <= 0x100000000 - cluster_bytes sbi /\
  (forall k, 0 <= k < file_clusters sbi size -> 2 <= cluster_at sbi fat_secs start k < clusters sbi + 2) /\
  (Z.to_nat (file_clusters sbi size) < fuel)%nat.

Record tree_ok : Prop := {
  to_dir s : s ∈ dirs -> exists l rest, dir_chain sbi fat_secs s l /\ (length l < fuel)%nat /\
    dir_entries shift l = concat (encode <$> files s) ++ rest /\ Forall file_ok (files s) /\ dir_end rest;
  to_sub s f : s ∈ dirs -> f ∈ files s -> ni_mode (entry_inode shift sbi (f_short f)) = DT_DIR ->
    p_start (ni_pvt (entry_inode shift sbi (f_short f))) ∈ dirs;
  to_file s f : s ∈ dirs -> f ∈ files s -> ni_mode (entry_inode shift sbi (f_short f)) = DT_REG ->
    entry_cluster (f_short f) <> 0 -> chain_of (entry_cluster (f_short f)) (de_size (f_short f)) }.

(** ** What path lookup needs *)

Context (Htree : tree_ok) (mem_size : Z -> nat).

(** An inode that does not stand for the root has clusters of its own. *)
Definition stored (q : fat_pvt_inode) : Prop := p_start q <> sb_root sbi.

(** Where the chain of a file starts, before any read. *)
Definition at_start (q : fat_pvt_inode) (size : Z) : Prop :=
  p_offset q = 0 /\ 0 <= p_here q /\
  (file_clusters sbi size <= 0 \/ p_here q = cluster_sector sbi (start_cluster q)).

Definition fat_node_ok (n : @node (extent * extent * fat_pvt_inode)) : Prop :=
  let '(mode, size, (te, ne, q)) := n in
  mode <> DT_LNK /\ (mode = DT_DIR -> p_start q ∈ dirs) /\
  (mode = DT_REG -> (te, ne, q) = new_pvt q /\ (stored q -> chain_of (start_cluster q) size /\ at_start q size)).

Definition fat_lookup (p : extent * extent * fat_pvt_inode) (name : list Z) : option (@node (extent * extent * fat_pvt_inode)) :=
  if decide (length name <= 260)%nat then
    match mangle_dos_name cp (name ++ [0]) with
    | Ok m =>
        match lookup cp name m (files (p_start (snd p))) with
        | Some f => let ni := entry_inode shift sbi (f_short f) in Some (ni_mode ni, ni_size ni, new_pvt (ni_pvt ni))
        | None => None
        end
    | _ => None
    end
  else None.

Lemma lookup_in name m l f : lookup cp name m l = Some f -> f ∈ l.
Proof. unfold lookup. intros [Hin _]%find_some. by apply list_elem_of_In. Qed.

Lemma u32_s32 x c : u32 x = c -> c < 0x80000000 -> s32 x = c.
Proof. intros <-. unfold u32, s32. intros. dlia. Qed.

(** The first sector of a cluster of the volume. *)
Lemma first_sector_ok de : 2 <= entry_cluster de < clusters sbi + 2 ->
  first_sector sbi de = cluster_sector sbi (entry_cluster de).
Proof.
  intros Hc. pose proof (lo_clusters _ _ _ Hlay). pose proof (lo_data _ _ _ Hlay). pose proof (lo_end _ _ _ Hlay).
  pose proof (lo_clust _ _ _ Hlay). pose proof (secs_range _ _ _ Hlay). unfold first_sector. set (x := _ + _).
  assert (u32 x = entry_cluster de) as E by done. rewrite (u32_s32 _ _ E) by lia. set (c := entry_cluster de) in *.
  rewrite (u64_small c), decide_False by lia. rewrite shiftl_mul by lia. unfold cluster_sector. rewrite u64_small by nia. lia.
Qed.

Lemma fat_lookup_node size p name m : fat_node_ok (DT_DIR, size, p) -> fat_lookup p name = Some m -> fat_node_ok m.
Proof.
  destruct p as [[te ne] q]. intros (_ & Hd & _). specialize (Hd eq_refl). unfold fat_lookup. cbn [snd].
  case_decide; [|done]. destruct (mangle_dos_name _ _) as [mn| |]; [|done..].
  destruct (lookup _ _ _ _) as [f|] eqn:El; [|done]. apply lookup_in in El. intros [= <-].
  cbn [fat_node_ok new_pvt]. splits.
  - unfold entry_inode, get_inode_mode. by repeat case_decide.
  - by apply (to_sub Htree (p_start q)).
  - intros Hm. split; [done|]. intros Hs. pose proof (to_file Htree _ _ Hd El Hm) as Hf.
    unfold entry_inode, stored in *. fold (entry_cluster (f_short f)) in *. case_decide as Hc; [done|].
    specialize (Hf Hc). split; [done|]. destruct Hf as (_ & Hch & _). cbn [ni_pvt ni_size p_offset p_here start_cluster].
    unfold at_start. cbn [p_offset p_here start_cluster]. splits; [done| |].
    { unfold first_sector. case_decide as Hz; [|apply u64_range]. exfalso. apply Hc. revert Hz. unfold entry_cluster.
      generalize (Z.shiftl (de_cluster_high (f_short f)) 16 + de_cluster_low (f_short f)). unfold u64, s32, u32. intros x Hz. dlia. }
    destruct (decide (file_clusters sbi (de_size (f_short f)) <= 0)) as [?|Hpos]; [by left|right].
    apply first_sector_ok. by apply (Hch 0 ltac:(lia)).
Qed.

Lemma fat_iget_ok d m name (i : inode (extent * extent * fat_pvt_inode)) :
  cinv (fst d) -> chars name -> name <> [] -> i_mode i = DT_DIR -> fat_node_ok (i_mode i, i_size i, i_pvt i) ->
  exists d', call_iget (M := M) (d, m) (name ++ [0]) i = Ok ((d', m), fat_lookup (i_pvt i) name) /\ cinv (fst d').
Proof.
  intros Hc Hn Hne Hm Hnode. destruct d as [c uc]. unfold call_iget, fat_lookup. destruct (i_pvt i) as [[te ne] q].
  destruct Hnode as (_ & Hd & _). specialize (Hd Hm). cbn [fst snd vol_iget fat_volume]. unfold fat_iget, vfat_iget. cbn [fst snd].
  destruct (decide (length name <= 260)%nat) as [Hl|Hl].
  - destruct (to_dir Htree _ Hd) as (l & rest & Hch & Hfl & Hent & Hok & Hend).
    assert (1 <= length name <= 260)%nat as Hlen by (destruct name; [done|simpl in *; lia]).
    destruct (find_entry_ok cp cp_zero shift sbi fat_secs Hlay fuel c name q l (files (p_start q)) rest Hc Hn Hlen Hch Hfl Hent Hok Hend)
      as (mn & c' & -> & -> & Hc'). cbn [mbind result_bind]. exists (c', uc). split; [|done].
    by destruct (lookup _ _ _ _).
  - rewrite find_entry_long by (done || lia). by exists (c, uc).
Qed.

#[export] Instance fat_spec : FsSpec (fat_state * M) (extent * extent * fat_pvt_inode).
Proof.
  refine {| rest_ok r := cinv (fst (fst r)) /\ forall a, length (env_read (snd r) a) = mem_size a;
            node_ok := fat_node_ok; fs_lookup := fat_lookup; fs_target _ := [] |}.
  - intros [d m] n [Hc Hm]. cbn. destruct (env_malloc m n) as [m' ok] eqn:E. cbn. split; [done|]. intros a.
    pose proof (env_malloc_length m n a) as H. rewrite E in H. simpl in H. by rewrite H.
  - intros [d m] name i [Hc Hm] Hn Hne Hmode Hnode.
    destruct (fat_iget_ok d m name i Hc Hn Hne Hmode Hnode) as (d' & E & Hc'). exists (d', m). by split.
  - intros. by eapply fat_lookup_node.
  - by intros size [[te ne] q] (? & _).
  - done.
Defined.

Lemma fat_no_links : no_links.
Proof.
  intros p c m. cbn [fs_lookup fat_spec]. unfold fat_lookup. case_decide; [|done].
  destruct (mangle_dos_name _ _); [|done..]. destruct (lookup _ _ _ _); [|done]. intros [= <-].
  unfold n_mode, entry_inode, get_inode_mode. cbn. by repeat case_decide.
Qed.

(** The chain of a file that was opened can be followed. *)
Lemma fat_start_at (c : C) q size : chain_of (start_cluster q) size -> at_start q size -> cinv c ->
  fat_at sbi fat_secs (start_cluster q) size (FatInode c q size) 0.
Proof.
  intros Hch (Ho & Hh & Hs) Hc. split; [|by exists 0]. constructor; cbn [fi_cache fi_size fi_pvt]; try done.
  - rewrite Ho. lia.
  - split; [done|]. right. rewrite Ho, Z.div_0_l by (pose proof (secs_range _ _ _ Hlay); lia). by destruct Hs as [?|?]; [left|right].
Qed.

(** C3. A file of a FAT volume, from its path to its bytes, for a name without
    backslashes (which the code does not convert to slashes, as its comment says that
    it does): the components of the name are looked up, directory by directory, in the
    lists of files of the volume.  If the name is that of a regular file, its handle
    is given; and if the file has a first cluster ([stored]) and is not empty, the
    first read puts the bytes of the clusters of its chain in the memory at the given
    address, as many as were asked for or as the file has, and closes the file when
    these are all.  Otherwise the answer is -1, and the name is not that of a regular
    file, if there was a free slot and memory for the name.  The counts of references
    stay exact. *)
Theorem fat_open_read (st : @vfs (fat_state * M) (extent * extent * fat_pvt_inode)) root cwd buf name w rest addr sectors :
  vfs_ok st root cwd -> name <> [] -> Forall (fun c => not_whitespace c = true) name -> not_whitespace w = false ->
  Forall (fun c => c <> backslash) name ->
  Z.of_nat (length name) < FILENAME_MAX <= Z.of_nat (length buf) ->
  room (v_heap st) (roots st) (Z.to_nat 120000) ->
  0 < sectors < 0x80000000 -> sectors * 2 ^ shift <= 0x80000000 -> sectors * 2 ^ shift <= Z.of_nat (mem_size addr) ->
  let path := mangled slash_only name in
  exists st1 rv fd, open_file search_fuel st buf (name ++ w :: rest) = Ok (st1, rv, fd) /\ vfs_ok st1 root cwd /\
    ((exists size q l, resolves root (start root cwd path) (components name) ((DT_REG, size, new_pvt q) :: l) /\
        fd = Some (Filedata size shift rv) /\
        (stored q -> 0 < size ->
         let n := Z.min (sectors * 2 ^ shift) size in
         exists st2, pmapi_read_file st1 rv addr sectors = Ok (st2, if decide (n < size) then rv else 0, n) /\
           vfs_ok st2 root cwd /\
           take (Z.to_nat n) (env_read (snd (v_rest st2)) addr) =
             take (Z.to_nat n) (fat_contents sbi fat_secs (start_cluster q) size))) \/
     (rv = -1 /\ fd = None /\ v_files st1 = v_files st /\
        (In no_file (v_files st) -> snd (env_malloc (snd (v_rest st)) (Z.of_nat (length path) + 1)) = true ->
         forall n l, resolves root (start root cwd path) (components name) (n :: l) -> n_mode n <> DT_REG))).
Proof.
  intros Hok Hne Hname Hw Hback Hlen Hroom Hsec Hsm Hmem path. unfold path. rewrite <- (mangled_components name), <- (mangled_no_backslash name) by done.
  clear path. set (path := mangled slash_or_back name).
  destruct (mangled_string slash_or_back name (drop (Z.to_nat FILENAME_MAX - redundant slash_or_back name) buf) Hne Hname ltac:(lia))
    as ([r Er] & Hmne & Hchars & Hl).
  pose proof (vfat_mangle_name_ok name w rest buf Hname Hw Hlen) as Em. cbn zeta in Em, Er. rewrite Er in Em.
  unfold FILENAME_MAX in Hlen.
  destruct (open_mangled (FS := fat_spec) st root cwd buf (name ++ w :: rest) path r) as (st1 & rv & fd & E & Hok1 & Hres & _);
    [exact Em|done|by split|unfold path; lia|done|].
  exists st1, rv, fd. split; [exact E|]. split; [done|].
  destruct Hres as [k p i l Hk Efs Hi Hp Hm Hch Hl'|Efs Hno].
  2: { right. splits; [done..|]. intros H1 H2 n l. apply Hno; [done| |apply fat_no_links].
       cbn [malloc_ok volume_ops]. by destruct (env_malloc _ _). }
  left.
  assert (place_ok (node_of i :: l)) as [Hnode _].
  { destruct (vo_dirs _ _ _ Hok) as [Hd1 Hd2]. assert (dirs_ok (start root cwd path)) as Hds by (unfold start; by destruct (absolute _)).
    eapply (resolves_place root _ _ _ Hd1 Hl'); [by apply dirs_place|done]. }
  unfold node_of in *. rewrite Hm in *. destruct (i_pvt i) as [[te ne] q] eqn:Epv.
  destruct Hnode as (_ & _ & Hreg). destruct (Hreg eq_refl) as [Eq Hst]. injection Eq as -> ->.
  exists (i_size i), q, l. split; [exact Hl'|]. split; [by rewrite <- shift_eq|].
  intros Hstored Hpos. set (n := Z.min _ _). destruct (Hst Hstored) as [Hchain Hat]. pose proof Hchain as (Hsz & Hcl & Hfl).
  pose proof (vo_rest _ _ _ Hok1) as [Hcinv Hmemsize].
  set (fs := fat_fs shift sbi fat_secs Hlay (start_cluster q) (i_size i) Hsz Hcl shift_eq data_valid fuel Hfl).
  destruct (read_open_file (FS := fat_spec) (i_size i) (XF := fs) eq_refl) with (st := st1) (root := root) (cwd := cwd)
    (k := k) (p := p) (i := i) (addr := addr) (sectors := sectors) (pos := 0) (te := Extent 0 0 0) (ne := Extent 0 0 0) (q := q)
    as (st2 & E2 & Hok2 & _ & Hdata); try done; try lia.
  - intros [c uc] f l0 m m' [_ Hm0] [Hinv _] Hlen'. split; [apply Hinv|]. intros a. rewrite Hlen'. apply Hm0.
  - rewrite Efs. apply list_lookup_insert_eq. by eapply lookup_lt_Some.
  - apply (first_call (V := fat_volume) (i_size i) (XF := fs) eq_refl); try rewrite shift_eq; try lia; [|by rewrite Hmemsize].
    by apply fat_start_at.
  - intros l0 Hl0. by apply (fat_map_total shift sbi fat_secs Hlay (start_cluster q) (i_size i) Hsz Hcl shift_eq data_valid fuel Hfl).
  - exists st2. rewrite Z.add_0_l, Z.sub_0_r, shift_eq in *. splits; [exact E2|done|].
    fold n in Hdata. etransitivity; [exact Hdata|]. f_equal. symmetry. apply fat_contents_eq.
Qed.
End Fat.

(** ** An example

    The volume of FatDirSpec, on a device with sectors of 64 bytes. *)

#[local] Instance demo_dir_device : SectorDevice.
Proof.
  refine {| sector_shift := 6; disk_sector := demo_block; valid_sector _ := True;
            rdwr_sectors start count old := concat (demo_block <$> seqZ start count) |}; [lia| |done].
  intros b. unfold demo_block. by repeat case_decide.
Defined.

#[local] Existing Instance demo_dir_cache.
#[local] Existing Instance list_memory.

Lemma demo_tree_ok : tree_ok 6 demo_dir_sb 5 1 [2] (fun _ => demo_files).
Proof.
  constructor.
  - intros s ->%list_elem_of_singleton. exists [2; 3], [replicate 32 0].
    splits; [exact demo_dir_chain|simpl; lia|by vm_compute|exact demo_files_ok|done].
  - intros s f _ Hf. repeat (apply elem_of_cons in Hf as [->|Hf]; [done|]). by apply not_elem_of_nil in Hf.
  - intros s f _ Hf _ _.
    assert (entry_cluster (f_short f) = 2 /\ de_size (f_short f) = 5) as [-> ->]
      by (repeat (apply elem_of_cons in Hf as [->|Hf]; [done|]); by apply not_elem_of_nil in Hf).
    unfold chain_of. change (file_clusters demo_dir_sb 5) with 1. splits; [done|done| |lia].
    intros k Hk. assert (k = 0) as -> by lia. vm_compute. done.
Qed.

(** The volume, mounted, with 100 bytes of memory. *)
Definition demo_uc : unicache := fun _ => (0, 0).

Definition demo_fat_vfs : @vfs (unit * unicache * list Z) (extent * extent * fat_pvt_inode) :=
  mounted 8 128 (new_pvt (Pvt 0 2 0 2)) [0x2f; 0] (tt, demo_uc, replicate 100 9).

Abbreviation demo_ops := (volume_ops (V := fat_volume 6 demo_dir_sb demo_cp 5)).
Abbreviation demo_fat_spec := (fat_spec 6 demo_dir_sb demo_cp 5 1 demo_dir_layout (conj eq_refl eq_refl) [2] (fun _ => demo_files)
  demo_tree_ok (fun a => (100 - Z.to_nat a)%nat)).

Definition demo_fat_root : list (@node (extent * extent * fat_pvt_inode)) := [(DT_DIR, 128, new_pvt (Pvt 0 2 0 2))].

Lemma demo_fat_vfs_ok : vfs_ok (FS := demo_fat_spec) demo_fat_vfs demo_fat_root demo_fat_root.
Proof.
  apply mounted_ok; [done| |].
  - split; [done|]. intros a. change (length (drop (Z.to_nat a) (replicate 100 9)) = (100 - Z.to_nat a)%nat).
    by rewrite length_drop, length_replicate.
  - split; [done|]. split; [by left|done].
Qed.

(** The path [/aB] is that of the file [Ab]. *)
Lemma fat_open_read_witness :
  let path := mangled slash_only [0x2f; 0x61; 0x42] in
  exists st1 rv fd, open_file (FO := demo_ops) search_fuel demo_fat_vfs (replicate 256 9) ([0x2f; 0x61; 0x42] ++ 0x20 :: [0]) = Ok (st1, rv, fd) /\
    vfs_ok (FS := demo_fat_spec) st1 demo_fat_root demo_fat_root /\
    ((exists size q l, resolves (FS := demo_fat_spec) demo_fat_root (start demo_fat_root demo_fat_root path) (components [0x2f; 0x61; 0x42])
          ((DT_REG, size, new_pvt q) :: l) /\
        fd = Some (Filedata size 6 rv) /\
        (stored demo_dir_sb q -> 0 < size ->
         let n := Z.min (1 * 2 ^ 6) size in
         exists st2, pmapi_read_file (FO := demo_ops) st1 rv 10 1 = Ok (st2, if decide (n < size) then rv else 0, n) /\
           vfs_ok (FS := demo_fat_spec) st2 demo_fat_root demo_fat_root /\
           take (Z.to_nat n) (env_read (snd (v_rest st2)) 10) =
             take (Z.to_nat n) (fat_contents demo_dir_sb 1 (start_cluster q) size))) \/
     (rv = -1 /\ fd = None /\ v_files st1 = v_files demo_fat_vfs /\
        (In no_file (v_files demo_fat_vfs) ->
         snd (env_malloc (snd (v_rest demo_fat_vfs)) (Z.of_nat (length path) + 1)) = true ->
         forall n l, resolves (FS := demo_fat_spec) demo_fat_root (start demo_fat_root demo_fat_root path) (components [0x2f; 0x61; 0x42]) (n :: l) ->
           n_mode n <> DT_REG))).
Proof.
  apply (fat_open_read (SD := demo_dir_device) 6 demo_dir_sb demo_cp 5 1 demo_dir_layout (conj eq_refl eq_refl) (@eq_refl Z 6) (fun _ _ => I) [2]
    (fun _ => demo_files) demo_tree_ok (fun a => (100 - Z.to_nat a)%nat) demo_fat_vfs demo_fat_root demo_fat_root (replicate 256 9)
    [0x2f; 0x61; 0x42] 0x20 [0] 10 1).
  - exact demo_fat_vfs_ok.
  - done.
  - repeat constructor.
  - done.
  - by repeat constructor.
  - vm_compute. split; [done|discriminate].
  - vm_compute. done.
  - lia.
  - lia.
  - vm_compute. discriminate.
Defined.

(** The bytes of the cluster of the file are read to the address 10. *)
Example demo_fat_read :
  match open_file (FO := demo_ops) search_fuel demo_fat_vfs (replicate 256 9) [0x2f; 0x61; 0x42; 0] with
  | Ok (st1, rv, _) =>
      rv = 1 /\ match pmapi_read_file (FO := demo_ops) st1 rv 10 1 with
                | Ok (st2, h, n) => h = 0 /\ n = 5 /\ take 5 (env_read (snd (v_rest st2)) 10) = [4; 4; 4; 4; 4]
                | _ => False end
  | _ => False end.
Proof. vm_compute. done. Qed.

End FatVfs.
