(* ===== verification/Ext2.v ===== *)
(** * The ext2, ext3 and ext4 file systems (libcore/fs/ext2)

    The map from the blocks of a file to the blocks of the volume, by indirect
    blocks and by extents; inodes, directories and links; the superblock.
    Structures on the disk are their bytes, with the fields read at their
    offsets; reading outside of them is [Undef]. *)

From Stdlib Require Import ZArith Lia.
From S2P Require Import Prelude Dirent CStr Cache BlockCache GetFsSec.
Import Dirent.Dirent CStr.CStr.

Module Ext2.

(** ** Data (ext2_fs.h) *)

Definition EXT2_SUPER_MAGIC : Z := 0xef53.
Definition EXT2_ROOT_INO : Z := 2.
Definition EXT2_NDIR_BLOCKS : Z := 12.
Definition EXT2_IND_BLOCK : Z := EXT2_NDIR_BLOCKS.
Definition EXT2_DIND_BLOCK : Z := EXT2_IND_BLOCK + 1.
Definition EXT2_TIND_BLOCK : Z := EXT2_DIND_BLOCK + 1.
Definition EXT4_EXT_MAGIC : Z := 0xf30a.
Definition EXT4_EXTENTS_FLAG : Z := 0x80000.

(** struct ext4_extent_header, at the start of [b] *)
Definition eh_magic (b : list Z) : result Z := get16 b 0.
Definition eh_entries (b : list Z) : result Z := get16 b 2.
Definition eh_depth (b : list Z) : result Z := get16 b 6.

(** Where entry [i] of EXT4_FIRST_INDEX or EXT4_FIRST_EXTENT is. *)
Definition entry_offset (i : Z) : Z := 12 + 12 * i.

(** struct ext4_extent_idx *)
Definition ei_block (b : list Z) (i : Z) : result Z := get32 b (entry_offset i).
Definition ei_leaf_lo (b : list Z) (i : Z) : result Z := get32 b (entry_offset i + 4).
Definition ei_leaf_hi (b : list Z) (i : Z) : result Z := get16 b (entry_offset i + 8).

(** struct ext4_extent *)
Definition ee_block (b : list Z) (i : Z) : result Z := get32 b (entry_offset i).
Definition ee_len (b : list Z) (i : Z) : result Z := get16 b (entry_offset i + 4).
Definition ee_start_hi (b : list Z) (i : Z) : result Z := get16 b (entry_offset i + 6).
Definition ee_start_lo (b : list Z) (i : Z) : result Z := get32 b (entry_offset i + 8).

(** struct ext2_dir_entry, at offset [o] of [b] *)
Definition d_inode (b : list Z) (o : Z) : result Z := get32 b o.
Definition d_rec_len (b : list Z) (o : Z) : result Z := get16 b (o + 4).
Definition d_name_len (b : list Z) (o : Z) : result Z := get8 b (o + 6).
Definition d_file_type (b : list Z) (o : Z) : result Z := get8 b (o + 7).
Definition d_name_at (b : list Z) (o : Z) : list Z := drop (Z.to_nat (o + 8)) b.

(** struct ext2_sb_info *)
Record ext2_sb_info := SB {
  s_inodes_per_block : Z; s_inodes_per_group : Z; s_blocks_per_group : Z; s_desc_per_block : Z;
  s_groups_count : Z; s_first_data_block : Z; s_inode_size : Z }.

(** The fields of struct inode that ext2 fills; [i_block] is the 60 bytes of
    struct ext2_pvt_inode. *)
Record inode := Inode {
  mode : Z; size : Z; atime : Z; ctime : Z; mtime : Z; dtime : Z; blocks : Z; flags : Z; file_acl : Z;
  i_block : list Z }.

Section Code.
Context {C : Type} `{BC : !BlockCache C}.
Context (block_shift sec_shift : Z) (sbi : ext2_sb_info).

Abbreviation BLOCK_SIZE := (2 ^ block_shift).

(** ** Blocks of a file (bmap.c) *)

(** The first of the entries from [i] on whose key is greater than [block],
    or their number. *)
Fixpoint search_entries (key : Z -> result Z) (block : Z) (n : nat) (i : Z) : result Z :=
  match n with
  | O => Ok i
  | S n => k ← key i; if decide (block < k) then Ok i else search_entries key block n (i + 1)
  end.

(** One round of [while (1)] in [ext4_find_leaf]: [eh] are the bytes of the
    header and what follows. *)
Definition find_leaf_step (block : Z) (s : C * list Z) : result (ctl (C * list Z) (C * option (list Z))) :=
  let '(c, eh) := s in
  magic ← eh_magic eh;
  if decide (magic <> EXT4_EXT_MAGIC) then Ok (Break (c, None)) else
  depth ← eh_depth eh;
  if decide (depth = 0) then Ok (Break (c, Some eh)) else
  entries ← eh_entries eh;
  i ← search_entries (ei_block eh) block (Z.to_nat entries) 0;
  let i := i - 1 in
  if decide (i < 0) then Ok (Break (c, None)) else
  hi ← ei_leaf_hi eh i;
  lo ← ei_leaf_lo eh i;
  let blk := u64 (Z.shiftl hi 32 + lo) in
  Ok (Continue (cblock c blk)).

Definition ext4_find_leaf (fuel : nat) (c : C) (eh : list Z) (block : Z) : result (C * option (list Z)) :=
  loop fuel (find_leaf_step block) (c, eh).

(** The block and the number of blocks, [None] where it is not written. *)
Definition bmap_extent (fuel : nat) (c : C) (i : inode) (block : Z) : result (C * Z * option Z) :=
  '(c, leaf) ← ext4_find_leaf fuel c (i_block i) block;
  match leaf with
  | None => Ok (c, 0, None)
  | Some leaf =>
      entries ← eh_entries leaf;
      k ← search_entries (ee_block leaf) block (Z.to_nat entries) 0;
      let k := k - 1 in
      if decide (k < 0) then Ok (c, 0, None) else
      first ← ee_block leaf k;
      let block := u32 (block - first) in
      n ← ee_len leaf k;
      if decide (block >= n) then Ok (c, 0, None) else
      hi ← ee_start_hi leaf k;
      lo ← ee_start_lo leaf k;
      let start := u64 (Z.shiftl hi 32 + lo) in
      Ok (c, u64 (start + block), Some (n - block))
  end.

(** [while (--count)] of [scan_set_nblocks]: [n] entries are left. *)
Fixpoint scan_run (map : list Z) (o : Z) (n : nat) (next skip cnt : Z) : result Z :=
  match n with
  | O => Ok cnt
  | S n =>
      x ← get32 map o;
      if decide (x = next) then scan_run map (o + 4) n (u32 (next + skip)) skip (cnt + 1) else Ok cnt
  end.

(** [map + o / 4] is the pointer. *)
Definition scan_set_nblocks (map : list Z) (o : Z) (count : Z) : result (Z * Z) :=
  blk ← get32 map o;
  let skip := if decide (blk <> 0) then 1 else 0 in
  cnt ← scan_run map (o + 4) (Z.to_nat (count - 1)) (u32 (blk + skip)) skip 1;
  Ok (blk, cnt).

(** [while (levels--)]: the block of pointers and the index in it, or the
    number of blocks of a hole. *)
Fixpoint indirect_levels (c : C) (start block : Z) (levels : nat) (blk : list Z) (index : Z) :
    result (C * (Z + list Z * Z)) :=
  let addr_shift := block_shift - 2 in
  let addr_count := 2 ^ addr_shift in
  match levels with
  | O => Ok (c, inr (blk, index))
  | S levels =>
      if decide (start = 0) then Ok (c, inl (u32 (Z.shiftl addr_count (Z.of_nat levels * addr_shift))))
      else
        let '(c, blk) := cblock c start in
        let index := Z.land (Z.shiftr block (Z.of_nat levels * addr_shift)) (addr_count - 1) in
        start ← get32 blk (4 * index);
        indirect_levels c start block levels blk index
  end.

Definition bmap_indirect (c : C) (start block : Z) (levels : nat) : result (C * Z * Z) :=
  '(c, r) ← indirect_levels c start block levels [] 0;
  match r with
  | inl n => Ok (c, 0, n)
  | inr (blk, index) =>
      '(b, n) ← scan_set_nblocks blk (4 * index) (2 ^ (block_shift - 2) - index);
      Ok (c, b, n)
  end.

(** [i_block[k]] *)
Definition block_ptr (i : inode) (k : Z) : result Z := get32 (i_block i) (4 * k).

Definition bmap_traditional (c : C) (i : inode) (block : Z) : result (C * Z * option Z) :=
  let addr_per_block := Z.shiftr BLOCK_SIZE 2 in
  let shft_per_block := block_shift - 2 in
  let direct_blocks := EXT2_NDIR_BLOCKS in
  let indirect_blocks := addr_per_block in
  let double_blocks := u32 (Z.shiftl addr_per_block shft_per_block) in
  let triple_blocks := u32 (Z.shiftl double_blocks shft_per_block) in
  let indirect k block levels :=
    p ← block_ptr i k; '(c, b, n) ← bmap_indirect c p (u32 block) levels; Ok (c, b, Some n) in
  if decide (block < direct_blocks) then
    '(b, n) ← scan_set_nblocks (i_block i) (4 * block) (direct_blocks - block); Ok (c, b, Some n)
  else
    let block := block - direct_blocks in
    if decide (block < indirect_blocks) then indirect EXT2_IND_BLOCK block 1%nat
    else
      let block := block - indirect_blocks in
      if decide (block < double_blocks) then indirect EXT2_DIND_BLOCK block 2%nat
      else
        let block := block - double_blocks in
        if decide (block < triple_blocks) then indirect EXT2_TIND_BLOCK block 3%nat
        else Ok (c, 0, None).

Definition ext2_bmap (fuel : nat) (c : C) (i : inode) (block : Z) : result (C * Z * option Z) :=
  if decide (Z.land (flags i) EXT4_EXTENTS_FLAG <> 0) then bmap_extent fuel c i (u32 block)
  else bmap_traditional c i block.

(** The state of an open file for [generic_getfssec]. *)
Abbreviation open_inode := (C * inode)%type.

(** [nblocks] is 0 when it is not set. *)
Definition ext2_next_extent (fuel : nat) (s : open_inode) (e : extent) (lstart : Z) :
    result (open_inode * extent * bool) :=
  let '(c, i) := s in
  let blktosec := block_shift - sec_shift in
  let blkmask := 2 ^ blktosec - 1 in
  '(c, block, nblocks) ← ext2_bmap fuel c i (Z.shiftr lstart blktosec);
  let nblocks := match nblocks with Some n => n | None => 0 end in
  let pstart := if decide (block = 0) then EXTENT_ZERO
                else Z.lor (u64 (Z.shiftl block blktosec)) (Z.land lstart blkmask) in
  Ok ((c, i), Extent pstart (GetFsSec.lstart e) (u32 (u32 (Z.shiftl nblocks blktosec) - Z.land lstart blkmask)), false).

(** ** Inodes and directories (ext2.c) *)

(** [DT_UNKNOWN] for the types it does not know; the bound is one too high. *)
Definition ext2_cvt_type (d_file_type : Z) : result dirent_type :=
  if decide (d_file_type > 8) then Ok DT_UNKNOWN
  else of_option ([DT_UNKNOWN; DT_REG; DT_DIR; DT_CHR; DT_BLK; DT_FIFO; DT_SOCK; DT_LNK] !! Z.to_nat d_file_type).

(** The bytes from the descriptor on; the stride is the size of the structure,
    32. *)
Definition ext2_get_group_desc (c : C) (group_num : Z) : result (C * option (list Z)) :=
  if decide (group_num >= s_groups_count sbi) then Ok (c, None)
  else if decide (s_desc_per_block sbi = 0) then Undef
  else
    let desc_block := group_num / s_desc_per_block sbi in
    let desc_index := group_num mod s_desc_per_block sbi in
    let desc_block := u32 (desc_block + s_first_data_block sbi + 1) in
    let '(c, data) := cblock c desc_block in
    Ok (c, Some (drop (Z.to_nat (32 * desc_index)) data)).

Definition bg_inode_table (desc : list Z) : result Z := get32 desc 8.

(** [name] has [len] characters. *)
Definition ext2_match_entry (name : list Z) (len : Z) (data : list Z) (o : Z) : result bool :=
  ino ← d_inode data o;
  if decide (ino = 0) then Ok false else
  n ← d_name_len data o;
  if decide (len <> n) then Ok false else
  d ← memcmp name (d_name_at data o) (Z.to_nat len);
  Ok (bool_decide (d = 0)).

Definition ext2_next_entry (data : list Z) (o : Z) : result Z := n ← d_rec_len data o; Ok (u32 (o + n)).

(** The number of blocks is not asked for; it is dropped.  The block 0 is what
    the cache has for a hole. *)
Definition ext2_get_cache (fuel : nat) (c : C) (i : inode) (lblock : Z) : result (C * list Z) :=
  '(c, pblock, _) ← ext2_bmap fuel c i lblock; Ok (cblock c pblock).

(** One entry: the next offset, or the end of the block, or the entry. *)
Definition find_entry_step (dname : list Z) (len maxoffset : Z) (data : list Z) (offset : Z) :
    result (ctl Z (option Z)) :=
  if decide (offset < u32 (maxoffset - 8)) then
    n ← d_rec_len data offset;
    if decide (n > u32 (maxoffset - offset)) then Ok (Break None) else
    m ← ext2_match_entry dname len data offset;
    if (m : bool) then Ok (Break (Some offset)) else Ok (Continue (u32 (offset + n)))
  else Ok (Break None).

(** One block of the directory. *)
Definition find_block_step (fuel : nat) (i : inode) (dname : list Z) (len : Z) (s : C * Z * Z) :
    result (ctl (C * Z * Z) (C * option (list Z * Z))) :=
  let '(c, pos, index) := s in
  if decide (pos < size i) then
    '(c, data) ← ext2_get_cache fuel c i index;
    let maxoffset := Z.min BLOCK_SIZE (u32 (pos - size i)) in
    r ← loop fuel (find_entry_step dname len maxoffset data) 0;
    match r with
    | Some o => Ok (Break (c, Some (data, o)))
    | None => Ok (Continue (c, u32 (pos + BLOCK_SIZE), index + 1))
    end
  else Ok (Break (c, None)).

(** The block of the entry, and its offset. *)
Definition ext2_find_entry (fuel : nat) (c : C) (i : inode) (dname : list Z) : result (C * option (list Z * Z)) :=
  len ← strlen dname;
  loop fuel (find_block_step fuel i dname len) (c, 0, 0).

(** The bytes from the inode on. *)
Definition ext2_get_inode (c : C) (inr : Z) : result (C * option (list Z)) :=
  let inr := u32 (inr - 1) in
  if decide (s_inodes_per_group sbi = 0) then Undef else
  let inode_group := inr / s_inodes_per_group sbi in
  let inode_offset := inr mod s_inodes_per_group sbi in
  '(c, desc) ← ext2_get_group_desc c inode_group;
  match desc with
  | None => Ok (c, None)
  | Some desc =>
      table ← bg_inode_table desc;
      if decide (s_inodes_per_block sbi = 0) then Undef else
      let block_num := u32 (table + inode_offset / s_inodes_per_block sbi) in
      let block_off := inode_offset mod s_inodes_per_block sbi in
      let '(c, data) := cblock c block_num in
      Ok (c, Some (drop (Z.to_nat (u32 (block_off * s_inode_size sbi))) data))
  end.

Definition fill_inode (e_inode : list Z) : result inode :=
  i_mode ← get16 e_inode 0;
  i_size ← get32 e_inode 4;
  i_atime ← get32 e_inode 8;
  i_ctime ← get32 e_inode 12;
  i_mtime ← get32 e_inode 16;
  i_dtime ← get32 e_inode 20;
  i_blocks ← get32 e_inode 28;
  i_flags ← get32 e_inode 32;
  i_file_acl ← get32 e_inode 104;
  Ok (Inode (IFTODT i_mode) i_size i_atime i_ctime i_mtime i_dtime i_blocks i_flags i_file_acl (sub e_inode 40 60)).

Definition ext2_iget_by_inr (c : C) (inr : Z) : result (C * option inode) :=
  '(c, e_inode) ← ext2_get_inode c inr;
  match e_inode with
  | None => Ok (c, None)
  | Some e_inode => i ← fill_inode e_inode; Ok (c, Some i)
  end.

Definition ext2_iget_root (c : C) : result (C * option inode) := ext2_iget_by_inr c EXT2_ROOT_INO.

Definition ext2_iget (fuel : nat) (c : C) (dname : list Z) (parent : inode) : result (C * option inode) :=
  '(c, de) ← ext2_find_entry fuel c parent dname;
  match de with
  | None => Ok (c, None)
  | Some (data, o) => ino ← d_inode data o; ext2_iget_by_inr c ino
  end.

(** [while (bytes)]: [buf] has what was written so far. *)
Definition get_file_step (fuel : nat) (i : inode) (s : C * Z * Z * list Z) :
    result (ctl (C * Z * Z * list Z) (C * list Z)) :=
  let '(c, bytes, index, buf) := s in
  if decide (bytes = 0) then Ok (Break (c, buf)) else
  let chunk := Z.min bytes BLOCK_SIZE in
  '(c, data) ← ext2_get_cache fuel c i index;
  Ok (Continue (c, bytes - chunk, index + 1, buf ++ take (Z.to_nat chunk) data)).

(** The bytes that are written to the buffer: all of the file, or more. *)
Definition cache_get_file (fuel : nat) (c : C) (i : inode) (bytes : Z) : result (C * list Z) :=
  let bytes := if decide (size i > bytes) then size i else bytes in
  loop fuel (get_file_step fuel i) (c, bytes, 0, []).

(** The number of bytes, or -1, and the bytes. *)
Definition ext2_readlink (fuel : nat) (c : C) (i : inode) : result (C * Z * list Z) :=
  let sec_per_block := 2 ^ (block_shift - sec_shift) in
  if decide (size i > BLOCK_SIZE) then Ok (c, -1, []) else
  let fast_symlink := bool_decide ((if decide (file_acl i <> 0) then sec_per_block else 0) = blocks i) in
  if fast_symlink then
    if decide (size i <= Z.of_nat (length (i_block i))) then Ok (c, size i, take (Z.to_nat (size i)) (i_block i))
    else Undef
  else '(c, buf) ← cache_get_file fuel c i (size i); Ok (c, size i, buf).

(** The new offset and the entry; [None] at the end of the directory. *)
Definition ext2_readdir (fuel : nat) (c : C) (i : inode) (offset : Z) : result (C * Z * option dirent) :=
  let index := Z.shiftr offset block_shift in
  if decide (offset >= size i) then Ok (c, offset, None) else
  '(c, data) ← ext2_get_cache fuel c i index;
  let o := Z.land offset (BLOCK_SIZE - 1) in
  ino ← d_inode data o;
  n ← d_name_len data o;
  ft ← d_file_type data o;
  ty ← ext2_cvt_type ft;
  if decide (Z.of_nat (length (d_name_at data o)) < n) then Undef else
  rec_len ← d_rec_len data o;
  Ok (c, u32 (offset + rec_len),
      Some (Dirent_ ino offset (u16 (d_name_offset + n + 1)) (dt_value ty) (take (Z.to_nat n) (d_name_at data o)))).

End Code.

(** ** The superblock *)

(** [sb] are the 1024 bytes of struct ext2_super_block, and [d] the device;
    the result is the block shift, the fields of [sbi], and the device with its
    cache, where block 0 is set to zeros and locked; [None] for another file
    system. *)
Definition ext2_fs_init `{BD : BlockDevice} (d : Cache.device) (sb : list Z) :
    result (option (Z * ext2_sb_info * Cache.device)) :=
  magic ← get16 sb 56;
  if decide (magic <> EXT2_SUPER_MAGIC) then Ok None else
  log_block_size ← get32 sb 24;
  let block_shift := s32 (u32 (log_block_size + 10)) in
  if decide (0 <= block_shift < 31) then
    let block_size := 2 ^ block_shift in
    inodes_per_group ← get32 sb 40;
    blocks_per_group ← get32 sb 32;
    inode_size ← get16 sb 88;
    if decide (inode_size = 0 \/ blocks_per_group = 0) then Undef else
    desc_size ← get16 sb 254;
    let desc_size := if decide (desc_size < 32) then 32 else desc_size in
    blocks_count ← get32 sb 4;
    first_data_block ← get32 sb 20;
    Ok (Some (block_shift,
      SB (block_size / inode_size) inodes_per_group blocks_per_group (block_size / desc_size)
         (u32 (blocks_count - first_data_block + blocks_per_group - 1) / blocks_per_group)
         first_data_block inode_size,
      Cache.lock_zero_block (Cache.cache_init d block_shift)))
  else Undef.

End Ext2.
