(* ===== verification/Ext2Spec.v ===== *)
(** * ext2: the block map and the contents of a file

    The map of a file by indirect blocks is a radix tree of block numbers; the
    one of ext4 is a sorted tree of extents.  [bmap_traditional] and
    [bmap_extent] compute these maps, with runs of blocks that are right, and
    reading a file gives the blocks of its map, with zeros for the holes. *)

From Stdlib Require Import ZArith Lia.
From S2P Require Import Prelude BlockCache GetFsSec Ext2.
Import Ext2.Ext2 GetFsSec.GetFsSec.

Module Ext2Spec.

(** A 32-bit field. *)
Definition le32 (b : list Z) (o : Z) : Z := le_num (sub b o 4).

Lemma get32_ok b o : 0 <= o -> o + 4 <= Z.of_nat (length b) -> get32 b o = Ok (le32 b o).
Proof. intros. by apply getle_ok. Qed.

Lemma le32_range b o : Forall byte_ok b -> 0 <= o -> o + 4 <= Z.of_nat (length b) -> 0 <= le32 b o < 0x100000000.
Proof. intros Hb Ho Hl. apply (getle_range 4 b o); [done|by apply getle_ok]. Qed.

(** ** Runs of pointers *)

Lemma scan_run_ok map n o next skip cnt : Forall byte_ok map ->
  0 <= o -> o + 4 * Z.of_nat n <= Z.of_nat (length map) ->
  exists k, scan_run map o n next skip cnt = Ok (cnt + Z.of_nat k) /\ (k <= n)%nat /\
    forall j, 0 <= j < Z.of_nat k -> le32 map (o + 4 * j) = u32 (next + skip * j) \/ le32 map (o + 4 * j) = next /\ j = 0.
Proof.
  intros Hb. revert o next cnt. induction n as [|n IH]; intros o next cnt Ho Hl; cbn [scan_run].
  - exists 0%nat. rewrite Z.add_0_r. split_and!; [done|done|]. intros j Hj. lia.
  - rewrite get32_ok by lia. cbn [mbind result_bind]. case_decide as Hx.
    + destruct (IH (o + 4) (u32 (next + skip)) (cnt + 1) ltac:(lia) ltac:(lia)) as (k & -> & Hk & Hrun).
      exists (S k). split_and!; [f_equal; lia|lia|]. intros j Hj. destruct (decide (j = 0)) as [->|Hj0].
      * right. rewrite Z.mul_0_r, Z.add_0_r. done.
      * left. destruct (Hrun (j - 1) ltac:(lia)) as [E|[E E0]].
        -- replace (o + 4 + 4 * (j - 1)) with (o + 4 * j) in E by lia. rewrite E. unfold u32.
           rewrite Zplus_mod_idemp_l. f_equal. lia.
        -- assert (j = 1) as -> by lia. replace (o + 4 + 4 * (1 - 1)) with (o + 4 * 1) in E by lia. rewrite E. f_equal. lia.
    + exists 0%nat. rewrite Z.add_0_r. split_and!; [done|lia|]. intros j Hj. lia.
Qed.

(** The run that starts at a pointer: consecutive blocks, or holes. *)
Definition run_of (b j : Z) : Z := if decide (b = 0) then 0 else b + j.

Lemma scan_ok map o count : Forall byte_ok map -> 0 <= o -> 1 <= count -> o + 4 * count <= Z.of_nat (length map) ->
  (forall j, 0 <= j < count -> le32 map (o + 4 * j) < 0xffffffff) ->
  exists n, scan_set_nblocks map o count = Ok (le32 map o, n) /\ 1 <= n <= count /\
    forall j, 0 <= j < n -> le32 map (o + 4 * j) = run_of (le32 map o) j.
Proof.
  intros Hb Ho Hc Hl Hsmall. unfold scan_set_nblocks. rewrite get32_ok by lia. cbn [mbind result_bind].
  pose proof (le32_range map o Hb Ho ltac:(lia)) as Hr. set (blk := le32 map o) in *.
  set (skip := if decide (blk <> 0) then 1 else 0).
  destruct (scan_run_ok map (Z.to_nat (count - 1)) (o + 4) (u32 (blk + skip)) skip 1 Hb ltac:(lia) ltac:(lia)) as (k & -> & Hk & Hrun).
  cbn [mbind result_bind]. exists (1 + Z.of_nat k). split_and!; [done|lia|lia|].
  assert (forall m : nat, (m <= k)%nat -> le32 map (o + 4 * Z.of_nat m) = run_of blk (Z.of_nat m)) as H.
  { induction m as [|m IHm]; intros Hm.
    - rewrite Z.mul_0_r, Z.add_0_r. unfold run_of, blk. case_decide; lia.
    - specialize (IHm ltac:(lia)). pose proof (Hsmall (Z.of_nat m) ltac:(lia)) as Hs. rewrite IHm in Hs.
      assert (le32 map (o + 4 * Z.of_nat (S m)) = u32 (blk + skip * Z.of_nat (S m))) as ->.
      { destruct (Hrun (Z.of_nat m) ltac:(lia)) as [E|[E E0]];
          replace (o + 4 + 4 * Z.of_nat m) with (o + 4 * Z.of_nat (S m)) in E by lia; rewrite E; unfold u32.
        - rewrite Zplus_mod_idemp_l. f_equal. lia.
        - assert (m = 0%nat) as -> by lia. f_equal. lia. }
      unfold run_of, skip in *. destruct (decide (blk = 0)) as [E0|E0].
      + rewrite E0, decide_False by tauto. done.
      + rewrite decide_True by done. rewrite u32_small; lia. }
  intros j Hj. specialize (H (Z.to_nat j) ltac:(lia)). by rewrite Z2Nat.id in H by lia.
Qed.

Section Map.
Context {C : Type} `{BC : !BlockCache C}.
Context (block_shift : Z) (shift_ok : 10 <= block_shift <= 12) (csize_ok : csize = 2 ^ block_shift).

(** Pointers in a block. *)
Abbreviation A := (2 ^ (block_shift - 2)).

Lemma A_range : 256 <= A <= 1024 /\ 2 ^ block_shift = 4 * A.
Proof.
  split; [change 256 with (2 ^ 8); change 1024 with (2 ^ 10); split; apply Z.pow_le_mono_r; lia|].
  replace block_shift with (2 + (block_shift - 2)) at 1 by lia. by rewrite Z.pow_add_r by lia.
Qed.

Definition ptr (b k : Z) : Z := le32 (cdata b) (4 * k).

Lemma cdata_size b : Z.of_nat (length (cdata b)) = 4 * A.
Proof. rewrite cdata_length, csize_ok. apply A_range. Qed.

Lemma ptr_range b k : 0 <= k < A -> 0 <= ptr b k < 0x100000000.
Proof. intros Hk. apply le32_range; [apply cdata_bytes|lia|]. rewrite cdata_size. lia. Qed.

(** The block of index [l] under a tree of pointers. *)
Fixpoint tree (levels : nat) (b l : Z) : Z :=
  match levels with
  | O => b
  | S n => if decide (b = 0) then 0 else tree n (ptr b (l / A ^ Z.of_nat n mod A)) l
  end.

(** No block of pointers is missing on the way to [l]. *)
Fixpoint full (levels : nat) (b l : Z) : Prop :=
  match levels with
  | O => True
  | S n => b <> 0 /\ full n (ptr b (l / A ^ Z.of_nat n mod A)) l
  end.

(** The index in a block of pointers at some level. *)
Lemma level_index n l : 0 <= l ->
  Z.land (Z.shiftr l (Z.of_nat n * (block_shift - 2))) (A - 1) = l / A ^ Z.of_nat n mod A.
Proof.
  intros Hl. rewrite land_ones_mod, shiftr_div by nia. rewrite <- Z.pow_mul_r by lia.
  by rewrite (Z.mul_comm (block_shift - 2)).
Qed.

(** Indices in the same last block of pointers. *)
Lemma same_block n l j : 0 <= l -> 0 <= l mod A + j < A -> (l + j) / A ^ Z.of_nat (S n) = l / A ^ Z.of_nat (S n).
Proof.
  intros Hl Hj. pose proof A_range as [HA _]. rewrite Nat2Z.inj_succ, Z.pow_succ_r by lia.
  assert (0 < A ^ Z.of_nat n) by (apply Z.pow_pos_nonneg; lia). rewrite <- !Z.div_div by lia. f_equal.
  pose proof (Z.div_mod l A ltac:(lia)) as Ed. symmetry. apply (Z.div_unique_pos _ _ _ (l mod A + j)); lia.
Qed.

(** The way down: the last block of pointers, and the index in it. *)
Lemma levels_ok n c b l blk index : cinv c -> 0 <= l -> full (S n) b l -> 0 <= b < 0x100000000 ->
  exists c' q, indirect_levels block_shift c b l (S n) blk index = Ok (c', inr (cdata q, l mod A)) /\ cinv c' /\
    forall j, 0 <= l mod A + j < A -> 0 <= l + j -> tree (S n) b (l + j) = ptr q (l mod A + j).
Proof.
  revert c b blk index. induction n as [|n IH]; intros c b blk index Hc Hl Hf Hb; destruct Hf as [Hb0 Hf];
    pose proof A_range as [HA _].
  - cbn [indirect_levels]. rewrite decide_False by done.
    destruct (cblock_ok c b Hc) as [E Hc']; [change (u64 (-1)) with 0xffffffffffffffff; lia|].
    destruct (cblock c b) as [c1 data]. simpl in E, Hc'. subst data.
    rewrite level_index by done. change (Z.of_nat 0) with 0. rewrite Z.pow_0_r, Z.div_1_r.
    pose proof (Z.mod_pos_bound l A ltac:(lia)) as Hm.
    rewrite get32_ok by (rewrite ?cdata_size; lia). cbn [mbind result_bind]. exists c1, b. splits; try done.
    intros j Hj Hlj. cbn [tree]. rewrite decide_False by done. change (Z.of_nat 0) with 0.
    rewrite Z.pow_0_r, Z.div_1_r. f_equal. pose proof (Z.div_mod l A ltac:(lia)) as Ed.
    symmetry. apply (Z.mod_unique_pos _ _ (l / A)); lia.
  - cbn [indirect_levels]. rewrite decide_False by done.
    destruct (cblock_ok c b Hc) as [E Hc']; [change (u64 (-1)) with 0xffffffffffffffff; lia|].
    destruct (cblock c b) as [c1 data]. simpl in E, Hc'. subst data.
    rewrite (level_index (S n)) by done. set (k := l / A ^ Z.of_nat (S n) mod A) in *.
    assert (0 <= k < A) as Hk by (apply Z.mod_pos_bound; lia).
    rewrite get32_ok by (rewrite ?cdata_size; clearbody k; lia). cbn [mbind result_bind].
    destruct (IH c1 (ptr b k) (cdata b) k Hc' Hl Hf (ptr_range b k Hk)) as (c2 & q & E2 & Hc2 & Ht).
    cbn [indirect_levels] in E2. fold (ptr b k). rewrite E2. exists c2, q. splits; try done.
    intros j Hj Hlj. rewrite <- Ht by done. cbn [tree]. rewrite (decide_False (P := b = 0)) by done.
    replace ((l + j) / A ^ Z.of_nat (S n) mod A) with k; [done|]. unfold k. by rewrite same_block.
Qed.

(** A subtree of [A ^ k] blocks has one way down to it. *)
Lemma same_subtree k n l j : 0 <= k <= Z.of_nat n -> 0 <= l -> 0 <= l mod A ^ k + j < A ^ k ->
  (l + j) / A ^ Z.of_nat n = l / A ^ Z.of_nat n.
Proof.
  intros Hk Hl Hj. pose proof A_range as [HA _]. replace (Z.of_nat n) with (k + (Z.of_nat n - k)) by lia.
  rewrite Z.pow_add_r by lia. assert (0 < A ^ k) by (apply Z.pow_pos_nonneg; lia).
  assert (0 < A ^ (Z.of_nat n - k)) by (apply Z.pow_pos_nonneg; lia). rewrite <- !Z.div_div by lia. f_equal.
  pose proof (Z.div_mod l (A ^ k) ltac:(lia)) as Ed. symmetry. apply (Z.div_unique_pos _ _ _ (l mod A ^ k + j)); lia.
Qed.

#[export] Instance full_dec levels b l : Decision (full levels b l).
Proof. revert b. induction levels as [|n IH]; intros b; cbn [full]; apply _. Defined.

(** The way down where a block of pointers is missing: the number is that of the
    blocks of the subtree that is missing, and there is none of them from the
    block to the end of the subtree. *)
Lemma levels_missing n c b l blk index : cinv c -> 0 <= l -> (n <= 2)%nat -> ~ full (S n) b l -> 0 <= b < 0x100000000 ->
  exists c' k, indirect_levels block_shift c b l (S n) blk index = Ok (c', inl (A ^ k)) /\ cinv c' /\ 1 <= k <= Z.of_nat (S n) /\
    forall j, 0 <= l mod A ^ k + j < A ^ k -> tree (S n) b (l + j) = 0.
Proof.
  pose proof A_range as [HA _]. revert c b blk index. induction n as [|n IH]; intros c b blk index Hc Hl Hn Hf Hb;
    cbn [indirect_levels]; (case_decide as Hb0; [|cbn [full] in Hf]).
  - exists c, 1. subst b. rewrite Z.mul_0_l, Z.shiftl_0_r, Z.pow_1_r, u32_small by lia. splits; try done; lia.
  - tauto.
  - exists c, (Z.of_nat (S (S n))). subst b.
    assert (Z.shiftl A (Z.of_nat (S n) * (block_shift - 2)) = A ^ Z.of_nat (S (S n))) as ->.
    { rewrite shiftl_mul by nia. rewrite <- !Z.pow_mul_r, <- Z.pow_add_r by nia. f_equal. lia. }
    rewrite u32_small; [splits; try done; lia|]. split; [apply Z.pow_nonneg; lia|].
    rewrite <- Z.pow_mul_r by lia. change 0x100000000 with (2 ^ 32). apply Z.pow_lt_mono_r; nia.
  - destruct (cblock_ok c b Hc) as [E Hc']; [change (u64 (-1)) with 0xffffffffffffffff; lia|].
    destruct (cblock c b) as [c1 data]. simpl in E, Hc'. subst data.
    rewrite (level_index (S n)) by done. set (i := l / A ^ Z.of_nat (S n) mod A) in *.
    assert (0 <= i < A) as Hi by (apply Z.mod_pos_bound; lia).
    rewrite get32_ok by (rewrite ?cdata_size; clearbody i; lia). cbn [mbind result_bind].
    destruct (IH c1 (ptr b i) (cdata b) i Hc' Hl ltac:(lia)) as (c2 & k & E2 & Hc2 & Hk & Ht); [tauto|by apply ptr_range|].
    cbn [indirect_levels] in E2. fold (ptr b i). rewrite E2. exists c2, k. splits; [done|done|lia|lia|].
    intros j Hj. rewrite <- (Ht j Hj). cbn [tree]. rewrite (decide_False (P := b = 0)) by done.
    replace ((l + j) / A ^ Z.of_nat (S n) mod A) with i; [done|]. unfold i. by rewrite (same_subtree k) by (lia || done).
Qed.

(** A map and the run that the code gives for a block. *)
Definition run_ok (f : Z -> Z) (l n : Z) : Prop :=
  1 <= n <= 0x10000 /\ forall j, 0 <= j < n -> f (l + j) = run_of (f l) j.

Lemma indirect_ok n c b l : cinv c -> 0 <= l -> full (S n) b l -> 0 <= b < 0x100000000 ->
  (forall j, 0 <= l mod A + j < A -> 0 <= l + j -> tree (S n) b (l + j) < 0xffffffff) ->
  exists c' m, bmap_indirect block_shift c b l (S n) = Ok (c', tree (S n) b l, m) /\ cinv c' /\
    m <= A - l mod A /\ run_ok (tree (S n) b) l m.
Proof.
  intros Hc Hl Hf Hb Hsmall. pose proof A_range as [HA _]. pose proof (Z.mod_pos_bound l A ltac:(lia)) as Hm.
  destruct (levels_ok n c b l [] 0 Hc Hl Hf Hb) as (c' & q & E & Hc' & Ht).
  unfold bmap_indirect. rewrite E. cbn [mbind result_bind].
  assert (forall j, 0 <= j < A - l mod A -> le32 (cdata q) (4 * (l mod A) + 4 * j) = tree (S n) b (l + j)) as Hp.
  { intros j Hj. rewrite Ht by lia. unfold ptr. f_equal. lia. }
  destruct (scan_ok (cdata q) (4 * (l mod A)) (A - l mod A) (cdata_bytes q) ltac:(lia) ltac:(lia)) as (m & -> & Hm1 & Hrun).
  { rewrite cdata_size. lia. }
  { intros j Hj. rewrite Hp by done. apply Hsmall; lia. }
  cbn [mbind result_bind]. pose proof (Hp 0 ltac:(lia)) as E0. rewrite Z.mul_0_r, !Z.add_0_r in E0. rewrite E0 in *.
  exists c', m. splits; [done|done|lia|]. split; [lia|]. intros j Hj. rewrite <- Hp by lia. by apply Hrun.
Qed.

(** ** The map of a file by indirect blocks *)

Section File.
Context (i : inode) (i_length : length (i_block i) = 60%nat) (i_bytes : Forall byte_ok (i_block i)).

Definition root_ptr (k : Z) : Z := le32 (i_block i) (4 * k).

Definition block_map (l : Z) : Z :=
  if decide (l < 12) then root_ptr l
  else if decide (l - 12 < A) then tree 1 (root_ptr 12) (l - 12)
  else if decide (l - 12 - A < A * A) then tree 2 (root_ptr 13) (l - 12 - A)
  else if decide (l - 12 - A - A * A < A * A * A) then tree 3 (root_ptr 14) (l - 12 - A - A * A)
  else 0.

Definition full_map (l : Z) : Prop :=
  if decide (l < 12) then True
  else if decide (l - 12 < A) then full 1 (root_ptr 12) (l - 12)
  else if decide (l - 12 - A < A * A) then full 2 (root_ptr 13) (l - 12 - A)
  else full 3 (root_ptr 14) (l - 12 - A - A * A).

#[export] Instance full_map_dec l : Decision (full_map l).
Proof. unfold full_map. repeat case_decide; apply _. Defined.

Context (map_small : forall l, 0 <= l -> block_map l < 0xffffffff).

Lemma root_ptr_ok k : 0 <= k < 15 -> block_ptr i k = Ok (root_ptr k) /\ 0 <= root_ptr k < 0x100000000.
Proof.
  intros Hk. unfold block_ptr, root_ptr. rewrite get32_ok by lia. split; [done|]. apply le32_range; [done|lia|lia].
Qed.

(** A range of the map that one tree covers. *)
Lemma range_ok n k base c l : (forall l', base <= l' < base + A ^ Z.of_nat (S n) -> block_map l' = tree (S n) (root_ptr k) (l' - base)) ->
  0 <= k < 15 -> 0 <= base -> cinv c -> base <= l < base + A ^ Z.of_nat (S n) -> A ^ Z.of_nat (S n) <= 0x40000000 ->
  full (S n) (root_ptr k) (l - base) ->
  exists c' m, (p ← block_ptr i k; '(c, b, n) ← bmap_indirect block_shift c p (u32 (l - base)) (S n); Ok (c, b, Some n)) =
      Ok (c', block_map l, Some m) /\ cinv c' /\ run_ok block_map l m.
Proof.
  intros Hmap Hk Hbase Hc Hl HAn Hf. destruct (root_ptr_ok k Hk) as [-> Hr]. cbn [mbind result_bind].
  pose proof A_range as [HA _]. rewrite u32_small by lia.
  assert (forall j, 0 <= (l - base) mod A + j < A -> 0 <= l - base + j < A ^ Z.of_nat (S n)) as Hin.
  { intros j Hj. rewrite Nat2Z.inj_succ, Z.pow_succ_r in * by lia.
    assert (0 < A ^ Z.of_nat n) as HP by (apply Z.pow_pos_nonneg; lia). set (P := A ^ Z.of_nat n) in *.
    pose proof (Z.div_mod (l - base) A ltac:(lia)) as Ed. pose proof (Z.div_pos (l - base) A ltac:(lia) ltac:(lia)).
    assert ((l - base) / A < P) by (apply Z.div_lt_upper_bound; lia). nia. }
  destruct (indirect_ok n c (root_ptr k) (l - base) Hc ltac:(lia) Hf Hr) as (c' & m & E & Hc' & Hm & Hm1 & Hrun).
  { intros j Hj _. replace (l - base + j) with (l + j - base) by lia. specialize (Hin j Hj).
    rewrite <- Hmap by lia. apply map_small. lia. }
  rewrite E. cbn [mbind result_bind]. rewrite Hmap by lia. exists c', m. splits; [done|done|]. split; [done|].
  intros j Hj. pose proof (Z.mod_pos_bound (l - base) A ltac:(lia)). specialize (Hin j ltac:(lia)). rewrite !Hmap by lia.
  replace (l + j - base) with (l - base + j) by lia. by apply Hrun.
Qed.

(** The ranges of the map that are trees. *)
Lemma traditional_tree c l : 12 <= l < 12 + A + A * A + A * A * A ->
  exists n k base, bmap_traditional block_shift c i l =
      (p ← block_ptr i k; '(c, b, n) ← bmap_indirect block_shift c p (u32 (l - base)) (S n); Ok (c, b, Some n)) /\
    (full_map l <-> full (S n) (root_ptr k) (l - base)) /\ 0 <= k < 15 /\ (n <= 2)%nat /\ 0 <= base <= l /\
    l < base + A ^ Z.of_nat (S n) /\ A ^ Z.of_nat (S n) <= 0x40000000 /\ base = 12 + (if decide (n = 0)%nat then 0 else if decide (n = 1)%nat then A else A + A * A) /\
    forall l', base <= l' < base + A ^ Z.of_nat (S n) -> block_map l' = tree (S n) (root_ptr k) (l' - base).
Proof.
  intros Hl. pose proof A_range as [HA HB]. unfold bmap_traditional, full_map, EXT2_IND_BLOCK, EXT2_DIND_BLOCK, EXT2_TIND_BLOCK, EXT2_NDIR_BLOCKS.
  assert (A * A * A <= 0x40000000) as H3 by nia.
  assert (Z.shiftr (2 ^ block_shift) 2 = A) as ->.
  { rewrite shiftr_div, HB by lia. change (2 ^ 2) with 4. rewrite Z.mul_comm, Z.div_mul; lia. }
  rewrite (shiftl_mul A) by lia. rewrite (u32_small (A * A)) by nia. rewrite (shiftl_mul (A * A)), (u32_small (A * A * A)) by nia.
  rewrite !(decide_False (P := l < 12)) by lia.
  assert (A ^ Z.of_nat 1 = A) as E1 by (change (Z.of_nat 1) with 1; apply Z.pow_1_r).
  assert (A ^ Z.of_nat 2 = A * A) as E2 by (change (Z.of_nat 2) with 2; apply Z.pow_2_r).
  assert (A ^ Z.of_nat 3 = A * A * A) as E3 by (change (Z.of_nat 3) with (Z.succ 2); rewrite Z.pow_succ_r, Z.pow_2_r by lia; lia).
  replace (l - 12 - A) with (l - (12 + A)) in * by lia. replace (l - (12 + A) - A * A) with (l - (12 + A + A * A)) in * by lia.
  repeat case_decide; try lia.
  - exists 0%nat, 12, 12. rewrite E1. splits; try done; try lia; try (simpl; lia).
    intros l' Hl'. unfold block_map. by rewrite decide_False, decide_True by lia.
  - exists 1%nat, 13, (12 + A). rewrite E2. splits; try done; try lia; try (simpl; lia).
    intros l' Hl'. unfold block_map. rewrite decide_False, decide_False, decide_True by lia. f_equal. lia.
  - exists 2%nat, 14, (12 + A + A * A). rewrite E3. splits; try done; try lia; try (simpl; lia).
    intros l' Hl'. unfold block_map. rewrite decide_False, decide_False, decide_False, decide_True by lia. f_equal. lia.
Qed.

Lemma traditional_ok c l : cinv c -> 0 <= l < 12 + A + A * A + A * A * A -> full_map l ->
  exists c' m, bmap_traditional block_shift c i l = Ok (c', block_map l, Some m) /\ cinv c' /\ run_ok block_map l m.
Proof.
  intros Hc Hl Hf. destruct (decide (l < 12)) as [Hd|Hd].
  - unfold bmap_traditional, EXT2_NDIR_BLOCKS. rewrite decide_True by done.
    destruct (scan_ok (i_block i) (4 * l) (12 - l) i_bytes ltac:(lia) ltac:(lia) ltac:(lia)) as (m & -> & Hm & Hrun).
    + intros j Hj. specialize (map_small (l + j) ltac:(lia)). unfold block_map in map_small. rewrite decide_True in map_small by lia.
      unfold root_ptr in map_small. by rewrite Z.mul_add_distr_l in map_small.
    + cbn [mbind result_bind]. exists c, m. unfold block_map at 1. rewrite decide_True by done. splits; [done|done|]. split; [lia|].
      intros j Hj. unfold block_map. rewrite !decide_True by lia. unfold root_ptr. rewrite Z.mul_add_distr_l. by apply Hrun.
  - destruct (traditional_tree c l ltac:(lia)) as (n & k & base & -> & Hfull & Hk & _ & Hb & Hlt & HAn & _ & Hmap).
    apply (range_ok n k base); try done; try lia. by apply Hfull.
Qed.

(** Where the subtrees of [A ^ k] blocks start. *)
Definition subtree_base (k : Z) : Z := if decide (k = 1) then 12 else if decide (k = 2) then 12 + A else 12 + A + A * A.

Lemma traditional_missing c l : cinv c -> 0 <= l < 12 + A + A * A + A * A * A -> ~ full_map l ->
  exists c' k, bmap_traditional block_shift c i l = Ok (c', block_map l, Some (A ^ k)) /\ cinv c' /\ 1 <= k <= 3 /\ block_map l = 0 /\
    forall j, 0 <= j -> (l - subtree_base k) mod A ^ k + j < A ^ k -> block_map (l + j) = 0.
Proof.
  intros Hc Hl Hf. pose proof A_range as [HA _]. destruct (decide (l < 12)) as [Hd|Hd].
  { destruct Hf. unfold full_map. by rewrite decide_True. }
  destruct (traditional_tree c l ltac:(lia)) as (n & k & base & -> & Hfull & Hk & Hn & Hb & Hlt & HAn & Ebase & Hmap).
  destruct (root_ptr_ok k Hk) as [-> Hr]. cbn [mbind result_bind]. rewrite u32_small by lia. unfold bmap_indirect.
  destruct (levels_missing n c (root_ptr k) (l - base) [] 0 Hc ltac:(lia) Hn ltac:(tauto) Hr) as (c' & q & -> & Hc' & Hq & Ht).
  cbn [mbind result_bind]. assert (0 < A ^ q) as HAq by (apply Z.pow_pos_nonneg; lia).
  assert ((l - subtree_base q) mod A ^ q = (l - base) mod A ^ q) as Em.
  { assert (exists z, subtree_base q = base + z * A ^ q) as [z ->].
    { subst base. unfold subtree_base. assert (q = 1 \/ q = 2 \/ q = 3) as [-> | [-> | ->]] by lia; cbn [decide]; repeat case_decide; try lia;
        rewrite ?Z.pow_1_r, ?Z.pow_2_r; [exists 0|exists (-1)|exists (-1 - A)|exists 0|exists (-1)|exists 0]; lia. }
    replace (l - (base + z * A ^ q)) with (l - base + - z * A ^ q) by lia. by rewrite Z.mod_add by lia. }
  pose proof (Z.mod_pos_bound (l - base) (A ^ q) HAq) as Hmb.
  assert (forall j, 0 <= j -> (l - base) mod A ^ q + j < A ^ q -> block_map (l + j) = 0) as Hz.
  { intros j Hj0 Hj. rewrite Hmap; [replace (l + j - base) with (l - base + j) by lia; apply Ht; lia|].
    pose proof (same_subtree q (S n) (l - base) j ltac:(lia) ltac:(lia) ltac:(lia)) as Es.
    rewrite (Z.div_small (l - base)) in Es by lia. apply Z.div_small_iff in Es; lia. }
  assert (block_map l = 0) as E0 by (rewrite <- (Z.add_0_r l); apply Hz; lia).
  exists c', q. rewrite E0, Em. splits; try done; lia.
Qed.

(** C21. The block map of a file without extents is the radix tree of its pointers:
    the block is the one in the tree, 0 for a hole and where a block of pointers is
    missing.  Where none is missing on the way to the block, the blocks of the run
    that is given with it follow it, or are holes as well.  Where one is missing,
    the number given is that of all blocks under the missing pointer, and the
    blocks from this one to the last of these are holes; so the run is right for
    the first block under the pointer and too long for the others. *)
Theorem ext2_bmap_blocks (fuel : nat) (c : C) (l : Z) :
  Z.land (flags i) EXT4_EXTENTS_FLAG = 0 ->
  cinv c -> 0 <= l < 12 + A + A * A + A * A * A ->
  exists c' m, ext2_bmap block_shift fuel c i l = Ok (c', block_map l, Some m) /\ cinv c' /\
    (full_map l -> 1 <= m <= 0x10000 /\ forall j, 0 <= j < m -> block_map (l + j) = run_of (block_map l) j) /\
    (~ full_map l -> exists k, 1 <= k <= 3 /\ m = A ^ k /\ block_map l = 0 /\
      forall j, 0 <= j -> (l - subtree_base k) mod A ^ k + j < A ^ k -> block_map (l + j) = 0).
Proof.
  intros Hfl Hc Hl. unfold ext2_bmap. rewrite decide_False by tauto. destruct (decide (full_map l)) as [Hf|Hf].
  - destruct (traditional_ok c l Hc Hl Hf) as (c' & m & -> & Hc' & Hm & Hrun). exists c', m. by splits.
  - destruct (traditional_missing c l Hc Hl Hf) as (c' & k & -> & Hc' & Hk & E0 & Hz). exists c', (A ^ k). splits; try done. by exists k.
Qed.

Lemma tree_range n b l : 0 <= b < 0x100000000 -> 0 <= tree n b l < 0x100000000.
Proof.
  pose proof A_range as [HA _]. revert b. induction n as [|n IH]; intros b Hb; cbn [tree]; [done|].
  case_decide; [lia|]. apply IH, ptr_range, Z.mod_pos_bound. lia.
Qed.

Lemma block_map_range l : 0 <= l -> 0 <= block_map l < 0x100000000.
Proof.
  clear map_small. intros Hl. unfold block_map. repeat case_decide; try lia; try apply tree_range; apply root_ptr_ok; lia.
Qed.

End File.

(** ** The map of a file by extents *)

Definition le16 (b : list Z) (o : Z) : Z := le_num (sub b o 2).

Lemma get16_ok b o : 0 <= o -> o + 2 <= Z.of_nat (length b) -> get16 b o = Ok (le16 b o).
Proof. intros. by apply getle_ok. Qed.

Lemma le16_range b o : Forall byte_ok b -> 0 <= o -> o + 2 <= Z.of_nat (length b) -> 0 <= le16 b o < 0x10000.
Proof. intros Hb Ho Hl. apply (getle_range 2 b o); [done|by apply getle_ok]. Qed.

(** The first block, the number of blocks, and the block of the volume. *)
Record ext := Ext { e_first : Z; e_len : Z; e_start : Z }.

Definition covers (b : Z) (e : ext) : Prop := e_first e <= b < e_first e + e_len e.

#[export] Instance covers_dec b e : Decision (covers b e) := _.

(** The block of a list of extents, the reference for the search in a tree. *)
Definition extent_map (es : list ext) (b : Z) : option Z :=
  (fun e => e_start e + (b - e_first e)) <$> head (filter (covers b) es).

Lemma extent_map_None es b : (forall e, e ∈ es -> ~ covers b e) -> extent_map es b = None.
Proof.
  intros H. unfold extent_map. destruct (filter (covers b) es) as [|e l] eqn:E; [done|].
  assert (e ∈ filter (covers b) es) as He by (rewrite E; left).
  apply list_elem_of_filter in He as [Hc He]. by apply H in He.
Qed.

Lemma extent_map_Some es b e : e ∈ es -> covers b e -> (forall e', e' ∈ es -> covers b e' -> e' = e) ->
  extent_map es b = Some (e_start e + (b - e_first e)).
Proof.
  intros He Hc Hu. unfold extent_map. destruct (filter (covers b) es) as [|e' l] eqn:E.
  - assert (e ∈ filter (covers b) es) as H by (by apply list_elem_of_filter). rewrite E in H. by apply elem_of_nil in H.
  - assert (e' ∈ filter (covers b) es) as H by (rewrite E; left). apply list_elem_of_filter in H as [Hc' He'].
    by rewrite (Hu e' He' Hc').
Qed.

(** The entries of a node. *)
Definition entries (eh : list Z) : Z := le16 eh 2.
Definition key (eh : list Z) (k : Z) : Z := le32 eh (entry_offset k).
Definition child (eh : list Z) (k : Z) : Z := le16 eh (entry_offset k + 8) * 0x100000000 + le32 eh (entry_offset k + 4).
Definition leaf_ext (eh : list Z) (k : Z) : ext :=
  Ext (key eh k) (le16 eh (entry_offset k + 4)) (le16 eh (entry_offset k + 6) * 0x100000000 + le32 eh (entry_offset k + 8)).

(** Where the range of entry [k] starts; that of the last one ends at [hi]. *)
Definition bound (eh : list Z) (hi k : Z) : Z := if decide (k < entries eh) then key eh k else hi.

Fixpoint extents (depth : nat) (eh : list Z) : list ext :=
  match depth with
  | O => leaf_ext eh <$> seqZ 0 (entries eh)
  | S d => seqZ 0 (entries eh) ≫= fun k => extents d (cdata (child eh k))
  end.

Record node_ok (depth : nat) (eh : list Z) : Prop := {
  no_bytes : Forall byte_ok eh;
  no_length : entry_offset (entries eh) <= Z.of_nat (length eh);
  no_magic : le16 eh 0 = EXT4_EXT_MAGIC;
  no_depth : le16 eh 6 = Z.of_nat depth }.

(** A tree whose extents are sorted and lie in [lo, hi). *)
Fixpoint tree_ok (depth : nat) (eh : list Z) (lo hi : Z) : Prop :=
  node_ok depth eh /\
  forall k, 0 <= k < entries eh -> lo <= key eh k <= bound eh hi (k + 1) /\ bound eh hi (k + 1) <= hi /\
    match depth with
    | O => e_first (leaf_ext eh k) + e_len (leaf_ext eh k) <= bound eh hi (k + 1) /\ 0 < e_start (leaf_ext eh k)
    | S d => tree_ok d (cdata (child eh k)) (key eh k) (bound eh hi (k + 1))
    end.

Lemma tree_node d eh lo hi : tree_ok d eh lo hi -> node_ok d eh.
Proof. destruct d; intros H; apply H. Qed.

Lemma node_header d eh : node_ok d eh -> 12 <= Z.of_nat (length eh) /\ 0 <= entries eh < 0x10000.
Proof.
  intros [Hb Hl _ _]. unfold entry_offset, entries in *.
  destruct (decide (4 <= length eh)%nat) as [H4|H4].
  - pose proof (le16_range eh 2 Hb) as H. lia.
  - assert (length (sub eh 2 2) <= 2)%nat as Hs by (unfold sub; rewrite length_take; lia).
    pose proof (le_num_range (sub eh 2 2) (sub_bytes _ _ _ Hb)) as [H _]. unfold le16 in *. lia.
Qed.

(** Ranges that follow each other. *)
Lemma steps_mono (f : Z -> Z) n j k : (forall k, 0 <= k < n -> f k <= f (k + 1)) -> 0 <= j <= k -> k <= n -> f j <= f k.
Proof.
  intros Hf Hj Hk. assert (forall m : nat, j + Z.of_nat m <= n -> f j <= f (j + Z.of_nat m)) as H.
  { intros m. induction m as [|m IH]; intros Hm; [by rewrite Z.add_0_r|].
    specialize (Hf (j + Z.of_nat m) ltac:(lia)). specialize (IH ltac:(lia)).
    replace (j + Z.of_nat (S m)) with (j + Z.of_nat m + 1) by lia. lia. }
  specialize (H (Z.to_nat (k - j)) ltac:(lia)). by replace (j + Z.of_nat (Z.to_nat (k - j))) with k in H by lia.
Qed.

Section Tree.
Context (eh : list Z) (lo hi : Z) (d : nat) (Ht : tree_ok d eh lo hi).

Lemma bound_key k : k < entries eh -> bound eh hi k = key eh k.
Proof. intros. unfold bound. by rewrite decide_True. Qed.

Lemma bounds_mono j k : 0 <= j <= k -> k <= entries eh -> bound eh hi j <= bound eh hi k.
Proof.
  apply steps_mono. intros l Hl. rewrite (bound_key l) by lia.
  destruct d; destruct Ht as [_ H]; apply (H l Hl).
Qed.

(** A block is in the range of one entry only. *)
Lemma bound_unique b j k : 0 <= j < entries eh -> 0 <= k < entries eh ->
  key eh j <= b < bound eh hi (j + 1) -> key eh k <= b < bound eh hi (k + 1) -> j = k.
Proof.
  intros Hj Hk Bj Bk. rewrite <- bound_key in Bj, Bk by lia. destruct (Z.lt_trichotomy j k) as [?|[?|?]]; [|done|].
  - pose proof (bounds_mono (j + 1) k ltac:(lia) ltac:(lia)). lia.
  - pose proof (bounds_mono (k + 1) j ltac:(lia) ltac:(lia)). lia.
Qed.

End Tree.

Lemma elem_of_index d eh e : e ∈ extents (S d) eh <-> exists k, 0 <= k < entries eh /\ e ∈ extents d (cdata (child eh k)).
Proof.
  cbn [extents]. rewrite list_elem_of_bind. split.
  - intros (k & He & Hk). apply elem_of_seqZ in Hk. exists k. split; [lia|done].
  - intros (k & Hk & He). exists k. split; [done|]. apply elem_of_seqZ. lia.
Qed.

Lemma elem_of_leaf eh e : e ∈ extents 0 eh <-> exists k, 0 <= k < entries eh /\ e = leaf_ext eh k.
Proof.
  cbn [extents]. rewrite list_elem_of_fmap. split.
  - intros (k & -> & Hk). apply elem_of_seqZ in Hk. exists k. split; [lia|done].
  - intros (k & Hk & ->). exists k. split; [done|]. apply elem_of_seqZ. lia.
Qed.

Lemma extents_range d eh lo hi e : tree_ok d eh lo hi -> e ∈ extents d eh -> lo <= e_first e /\ e_first e + e_len e <= hi.
Proof.
  revert eh lo hi. induction d as [|d IH]; intros eh lo hi Ht He.
  - apply elem_of_leaf in He as (k & Hk & ->). destruct Ht as [_ H]. specialize (H k Hk).
    change (e_first (leaf_ext eh k)) with (key eh k) in *. lia.
  - apply elem_of_index in He as (k & Hk & He). destruct Ht as [_ H]. specialize (H k Hk) as (Hb & Hh & Hc).
    apply (IH _ _ _ Hc) in He. lia.
Qed.

(** The extents are disjoint. *)
Lemma extents_disjoint d eh lo hi b e e' : tree_ok d eh lo hi ->
  e ∈ extents d eh -> e' ∈ extents d eh -> covers b e -> covers b e' -> e' = e.
Proof.
  revert eh lo hi. induction d as [|d IH]; intros eh lo hi Ht He He' Hc Hc'.
  - apply elem_of_leaf in He as (k & Hk & ->), He' as (k' & Hk' & ->). f_equal.
    apply (bound_unique eh lo hi 0 Ht b); [done..| |]; destruct Ht as [_ H]; [specialize (H k' Hk')|specialize (H k Hk)];
      unfold covers in *; change (e_first (leaf_ext eh ?j)) with (key eh j) in *; cbn [e_first leaf_ext] in *; lia.
  - apply elem_of_index in He as (k & Hk & He), He' as (k' & Hk' & He').
    pose proof Ht as [_ H]. pose proof (H k Hk) as (_ & _ & Tk). pose proof (H k' Hk') as (_ & _ & Tk').
    pose proof (extents_range _ _ _ _ _ Tk He). pose proof (extents_range _ _ _ _ _ Tk' He'). unfold covers in *.
    assert (k' = k) as -> by (apply (bound_unique eh lo hi (S d) Ht b); [done|done|lia|lia]).
    by apply (IH _ _ _ Tk).
Qed.

(** The search for the first entry that is greater. *)
Lemma search_entries_ok f K block n i : (forall j, i <= j < i + Z.of_nat n -> f j = Ok (K j)) ->
  exists r, search_entries f block n i = Ok r /\ i <= r <= i + Z.of_nat n /\
    (forall j, i <= j < r -> K j <= block) /\ (r < i + Z.of_nat n -> block < K r).
Proof.
  revert i. induction n as [|n IH]; intros i Hf; cbn [search_entries].
  - exists i. splits; [done|lia|lia|lia|lia].
  - rewrite (Hf i) by lia. cbn [mbind result_bind]. case_decide.
    + exists i. splits; [done|lia|lia|lia|done].
    + destruct (IH (i + 1)) as (r & -> & Hr & Hlow & Hup); [intros; apply Hf; lia|]. exists r. splits; [done|lia|lia| |intros; apply Hup; lia].
      intros j Hj. destruct (decide (j = i)) as [->|]; [lia|apply Hlow; lia].
Qed.

(** In a node: the entry whose range has the block. *)
Lemma node_search d eh lo hi block : tree_ok d eh lo hi -> block < hi ->
  exists r, search_entries (fun k => get32 eh (entry_offset k)) block (Z.to_nat (entries eh)) 0 = Ok r /\
    (r = 0 /\ (forall k, 0 <= k < entries eh -> block < key eh k) \/
     1 <= r <= entries eh /\ key eh (r - 1) <= block < bound eh hi r).
Proof.
  intros Ht Hh. destruct (node_header d eh (tree_node _ _ _ _ Ht)) as [Hl Hn].
  pose proof (no_length _ _ (tree_node _ _ _ _ Ht)) as Hlen. unfold entry_offset in *.
  destruct (search_entries_ok (fun k => get32 eh (12 + 12 * k)) (key eh) block (Z.to_nat (entries eh)) 0) as (r & -> & Hr & Hlow & Hup).
  { intros j Hj. apply get32_ok; lia. }
  exists r. split; [done|]. destruct (decide (r = 0)) as [->|Hr0].
  - left. split; [done|]. intros k Hk. specialize (Hup ltac:(lia)).
    pose proof (bounds_mono eh lo hi d Ht 0 k ltac:(lia) ltac:(lia)) as Hm. rewrite !bound_key in Hm by lia. lia.
  - right. split; [lia|]. split; [apply Hlow; lia|]. unfold bound. case_decide; [apply Hup; lia|done].
Qed.

Lemma node_fields d eh : node_ok d eh ->
  eh_magic eh = Ok EXT4_EXT_MAGIC /\ eh_depth eh = Ok (Z.of_nat d) /\ eh_entries eh = Ok (entries eh).
Proof.
  intros Hn. destruct (node_header d eh Hn) as [Hl _]. destruct Hn as [_ _ Hm Hd].
  unfold eh_magic, eh_depth, eh_entries. rewrite !get16_ok by lia. by rewrite Hm, Hd.
Qed.

Lemma entry_fields d eh k : node_ok d eh -> 0 <= k < entries eh -> forall o, 0 <= o ->
  (o <= 8 -> get32 eh (entry_offset k + o) = Ok (le32 eh (entry_offset k + o)) /\ 0 <= le32 eh (entry_offset k + o) < 0x100000000) /\
  (o <= 10 -> get16 eh (entry_offset k + o) = Ok (le16 eh (entry_offset k + o)) /\ 0 <= le16 eh (entry_offset k + o) < 0x10000).
Proof.
  intros [Hb Hl _ _] Hk o Ho. unfold entry_offset in *.
  split; intros; (split; [apply get32_ok || apply get16_ok; lia|apply le32_range || apply le16_range; by (lia || idtac)]).
Qed.

(** A 48-bit block number. *)
Lemma block_number hi lo : 0 <= hi < 0x10000 -> 0 <= lo < 0x100000000 ->
  u64 (Z.shiftl hi 32 + lo) = hi * 0x100000000 + lo /\ 0 <= hi * 0x100000000 + lo < 0x1000000000000.
Proof. intros. rewrite shiftl_mul by lia. change (2 ^ 32) with 0x100000000. rewrite u64_small by lia. lia. Qed.

(** Down the tree to the leaf whose range has the block. *)
Lemma find_leaf_ok d fuel c eh lo hi block : cinv c -> tree_ok d eh lo hi -> lo <= block < hi -> (d < fuel)%nat ->
  exists c' r, ext4_find_leaf fuel c eh block = Ok (c', r) /\ cinv c' /\
    match r with
    | Some leaf => exists lo hi, tree_ok 0 leaf lo hi /\ lo <= block < hi /\
        forall e, e ∈ extents 0 leaf -> e ∈ extents d eh
    | None => True
    end /\
    forall e, e ∈ extents d eh -> covers block e -> exists leaf, r = Some leaf /\ e ∈ extents 0 leaf.
Proof.
  revert fuel c eh lo hi. induction d as [|d IH]; intros fuel c eh lo hi Hc Ht Hb Hf;
    (destruct fuel as [|fuel]; [lia|]); unfold ext4_find_leaf;
    destruct (node_fields _ _ (tree_node _ _ _ _ Ht)) as (Em & Ed & En).
  - rewrite (loop_break _ _ _ (c, Some eh)) by (unfold find_leaf_step; rewrite Em; simpl; by rewrite Ed).
    exists c, (Some eh). splits; try done; [by exists lo, hi|]. intros e He _. by exists eh.
  - destruct (node_search (S d) eh lo hi block Ht ltac:(lia)) as (r & Er & Hr).
    assert (find_leaf_step block (c, eh) = if decide (r = 0) then Ok (Break (c, None))
      else Ok (Continue (cblock c (child eh (r - 1))))) as Estep.
    { unfold find_leaf_step. rewrite Em. cbn [mbind result_bind]. rewrite decide_False by congruence.
      rewrite Ed. cbn [mbind result_bind]. rewrite decide_False by lia. rewrite En. cbn [mbind result_bind].
      change (ei_block eh) with (fun k => get32 eh (entry_offset k)). rewrite Er. cbn [mbind result_bind].
      destruct Hr as [[-> _]|[Hr _]]; [done|]. rewrite !decide_False by lia.
      destruct (entry_fields _ eh (r - 1) (tree_node _ _ _ _ Ht) ltac:(lia) 4 ltac:(lia)) as [H4 _].
      destruct (entry_fields _ eh (r - 1) (tree_node _ _ _ _ Ht) ltac:(lia) 8 ltac:(lia)) as [_ H8].
      destruct H4 as [E4 R4]; [lia|]. destruct H8 as [E8 R8]; [lia|].
      unfold ei_leaf_hi, ei_leaf_lo. rewrite E4, E8. cbn [mbind result_bind].
      by destruct (block_number _ _ R8 R4) as [-> _]. }
    destruct Hr as [[-> Hlow]|[Hr Hk]].
    + rewrite (loop_break _ _ _ (c, None) Estep). exists c, None. splits; try done.
      intros e He Hcov. apply elem_of_index in He as (k & Hk & He). destruct Ht as [_ H]. pose proof (H k Hk) as (_ & _ & Tk).
      apply (extents_range _ _ _ _ _ Tk) in He. specialize (Hlow k Hk). unfold covers in Hcov. lia.
    + rewrite decide_False in Estep by lia. set (k := r - 1) in *. replace r with (k + 1) in Hk by lia.
      pose proof Ht as [_ H]. pose proof (H k ltac:(lia)) as (Hkb & Hkh & Tk).
      assert (0 <= child eh k < 0x1000000000000) as Rc.
      { destruct (entry_fields _ eh k (tree_node _ _ _ _ Ht) ltac:(lia) 4 ltac:(lia)) as [[_ R4] _]; [lia|].
        destruct (entry_fields _ eh k (tree_node _ _ _ _ Ht) ltac:(lia) 8 ltac:(lia)) as [_ [_ R8]]; [lia|].
        apply (block_number _ _ R8 R4). }
      destruct (cblock_ok c (child eh k) Hc) as [E Hc']; [change (u64 (-1)) with 0xffffffffffffffff; lia|].
      destruct (cblock c (child eh k)) as [c1 data]. simpl in E, Hc'. subst data.
      rewrite (loop_continue _ _ _ _ Estep).
      destruct (IH fuel c1 (cdata (child eh k)) _ _ Hc' Tk Hk ltac:(lia)) as (c2 & r2 & E2 & Hc2 & Hleaf & Hcov).
      unfold ext4_find_leaf in E2. rewrite E2. exists c2, r2. splits; [done|done| |].
      * destruct r2 as [leaf|]; [|done]. destruct Hleaf as (lo' & hi' & Tl & Hl & Hsub). exists lo', hi'.
        splits; [done|lia|lia|]. intros e He. apply elem_of_index. exists k. split; [lia|by apply Hsub].
      * intros e He Hce. apply elem_of_index in He as (k' & Hk' & He). pose proof (H k' Hk') as (_ & _ & Tk').
        pose proof (extents_range _ _ _ _ _ Tk' He). pose proof Hce as Hce'. unfold covers in Hce'.
        assert (k' = k) as -> by (apply (bound_unique eh lo hi (S d) Ht block); [done|lia|lia|lia]).
        by apply Hcov.
Qed.

Section ExtentFile.
Context (i : inode) (d : nat) (Ht : tree_ok d (i_block i) 0 0x100000000).


Lemma bmap_extent_ok (fuel : nat) (c : C) (block : Z) :
  cinv c -> 0 <= block < 0x100000000 -> (d < fuel)%nat ->
  exists c' b n, bmap_extent fuel c i block = Ok (c', b, n) /\ cinv c' /\
    match n with
    | Some n => (exists e, e ∈ extents d (i_block i) /\ covers block e /\ b = e_start e + (block - e_first e) /\
          n = e_first e + e_len e - block) /\
        1 <= n <= 0x10000 /\ forall j, 0 <= j < n -> extent_map (extents d (i_block i)) (block + j) = Some (run_of b j)
    | None => b = 0 /\ extent_map (extents d (i_block i)) block = None
    end.
Proof.
  intros Hc Hb Hf. destruct (find_leaf_ok d fuel c (i_block i) _ _ block Hc Ht Hb Hf) as (c' & r & E & Hc' & Hleaf & Hcov).
  unfold bmap_extent. rewrite E. cbn [mbind result_bind].
  destruct r as [leaf|].
  2: { exists c', 0, None. splits; try done. apply extent_map_None. intros e He Hce.
       by destruct (Hcov e He Hce) as (? & ? & _). }
  destruct Hleaf as (lo & hi & Tl & Hl & Hsub). pose proof (tree_node _ _ _ _ Tl) as Hno.
  destruct (node_fields _ _ Hno) as (_ & _ & ->). cbn [mbind result_bind].
  destruct (node_search 0 leaf lo hi block Tl ltac:(lia)) as (r & Er & Hr).
  change (ee_block leaf) with (fun k => get32 leaf (entry_offset k)). rewrite Er. cbn [mbind result_bind].
  destruct Hr as [[-> Hlow]|[Hr Hk]].
  { exists c', 0, None. splits; try done. apply extent_map_None. intros e He Hce.
    destruct (Hcov e He Hce) as (? & [= <-] & Hel). apply elem_of_leaf in Hel as (k & Hk & ->).
    specialize (Hlow k Hk). unfold covers in Hce. change (e_first (leaf_ext leaf k)) with (key leaf k) in Hce. lia. }
  rewrite decide_False by lia. set (k := r - 1) in *. replace r with (k + 1) in Hk by lia.
  pose proof (entry_fields _ leaf k Hno ltac:(lia)) as Hfld.
  destruct (Hfld 0 ltac:(lia)) as [[E0 R0] _]; [lia|]. destruct (Hfld 4 ltac:(lia)) as [_ [E4 R4]]; [lia|].
  destruct (Hfld 6 ltac:(lia)) as [_ [E6 R6]]; [lia|]. destruct (Hfld 8 ltac:(lia)) as [[E8 R8] _]; [lia|].
  rewrite Z.add_0_r in E0, R0. fold (key leaf k) in E0, R0. unfold ee_len, ee_start_hi, ee_start_lo.
  rewrite E0, E4. cbn [mbind result_bind]. rewrite (u32_small (block - key leaf k)) by lia.
  pose proof Tl as [_ Hext]. specialize (Hext k ltac:(lia)) as (_ & _ & Hend & Hpos).
  assert (leaf_ext leaf k ∈ extents 0 leaf) as Hin by (apply elem_of_leaf; exists k; split; [lia|done]).
  set (len := le16 leaf (entry_offset k + 4)) in *. set (e := leaf_ext leaf k) in *.
  assert (e_first e = key leaf k /\ e_len e = len) as [Ef El] by done.
  destruct (decide (block - key leaf k >= len)) as [Hge|Hge].
  { exists c', 0, None. splits; try done. apply extent_map_None. intros e' He Hce.
    destruct (Hcov e' He Hce) as (? & [= <-] & Hel). apply elem_of_leaf in Hel as (k' & Hk' & ->).
    destruct (decide (k' = k)) as [->|Hne]; [unfold covers in Hce; fold e in Hce; lia|]. apply Hne.
    apply (bound_unique leaf lo hi 0 Tl block); [done|lia| |lia]. destruct Tl as [_ Hext'].
    specialize (Hext' k' Hk') as (_ & _ & ? & _). unfold covers in Hce.
    change (e_first (leaf_ext leaf k')) with (key leaf k') in *. lia. }
  rewrite E6, E8. cbn [mbind result_bind]. destruct (block_number _ _ R6 R8) as [-> Rs].
  fold (e_start e). change (_ * 0x100000000 + _) with (e_start e) in Rs |- *.
  exists c', (e_start e + (block - key leaf k)), (Some (len - (block - key leaf k))).
  rewrite u64_small by lia. splits; [done|done| |lia|lia|].
  { exists e. splits; [by apply Hsub|unfold covers; lia|done|lia]. }
  intros j Hj.
  rewrite (extent_map_Some _ _ e).
  - f_equal. unfold run_of. rewrite decide_False by lia. lia.
  - by apply Hsub.
  - unfold covers. lia.
  - intros e' He' Hce'. apply (extents_disjoint d (i_block i) _ _ (block + j) e e' Ht); [by apply Hsub|done| |done].
    unfold covers. lia.
Qed.

(** C22. The block of a file with an extent tree is the one of the extent that
    covers it, wherever the leaf with the extent is, and the number of blocks
    given with it is exactly the rest of the blocks of this extent; no number is
    given exactly when no extent covers the block. *)
Theorem ext2_bmap_extents (fuel : nat) (c : C) (block : Z) :
  Z.land (flags i) EXT4_EXTENTS_FLAG <> 0 -> cinv c -> 0 <= block < 0x100000000 -> (d < fuel)%nat ->
  exists c' b n, ext2_bmap block_shift fuel c i block = Ok (c', b, n) /\ cinv c' /\
    match n with
    | Some n => (exists e, e ∈ extents d (i_block i) /\ covers block e /\ b = e_start e + (block - e_first e) /\
          n = e_first e + e_len e - block) /\
        1 <= n <= 0x10000 /\ forall j, 0 <= j < n -> extent_map (extents d (i_block i)) (block + j) = Some (run_of b j)
    | None => b = 0 /\ extent_map (extents d (i_block i)) block = None
    end.
Proof.
  intros Hfl Hc Hb Hf. unfold ext2_bmap. rewrite decide_True, u32_small by done. by apply bmap_extent_ok.
Qed.

End ExtentFile.

(** ** Reading a file

    What the block map of a file promises to the reader of extents: [bmap] is
    the block of the volume, 0 for a hole, [None] where the code says that
    there is none. *)

Definition bmap_law (fuel : nat) (i : inode) (bmap : Z -> option Z) (blocks : Z) : Prop :=
  forall c l, cinv c -> 0 <= l < blocks ->
  exists c' b n, ext2_bmap block_shift fuel c i l = Ok (c', b, n) /\ cinv c' /\
    match n with
    | Some n => 1 <= n <= 0x10000 /\ forall j, 0 <= j < n -> bmap (l + j) = Some (run_of b j)
    | None => b = 0 /\ bmap l = None
    end.

Lemma blocks_law fuel i blocks : length (i_block i) = 60%nat -> Forall byte_ok (i_block i) ->
  (forall l, 0 <= l -> block_map i l < 0xffffffff) -> (forall l, 0 <= l < blocks -> full_map i l) ->
  Z.land (flags i) EXT4_EXTENTS_FLAG = 0 -> blocks <= 12 + A + A * A + A * A * A ->
  bmap_law fuel i (fun l => if decide (0 <= l) then Some (block_map i l) else None) blocks.
Proof.
  intros Hlen Hb Hs Hfull Hfl Hbl c l Hc Hl. unfold ext2_bmap. rewrite decide_False by tauto.
  destruct (traditional_ok i Hlen Hb Hs c l Hc ltac:(lia) (Hfull l Hl)) as (c' & m & -> & Hc' & Hm & Hrun).
  exists c', (block_map i l), (Some m). splits; try done; try lia. intros j Hj.
  rewrite decide_True by lia. f_equal. by apply Hrun.
Qed.

Lemma extents_law d fuel i blocks : tree_ok d (i_block i) 0 0x100000000 -> (d < fuel)%nat ->
  Z.land (flags i) EXT4_EXTENTS_FLAG <> 0 -> blocks <= 0x100000000 ->
  bmap_law fuel i (extent_map (extents d (i_block i))) blocks.
Proof.
  intros Ht Hf Hfl Hbl c l Hc Hl. unfold ext2_bmap. rewrite decide_True, u32_small by (done || lia).
  destruct (bmap_extent_ok i d Ht fuel c l Hc ltac:(lia) Hf) as (c' & b & n & E & Hc' & Hn). exists c', b, n. splits; try done.
  destruct n; [apply Hn|done].
Qed.

Section Read.
Context `{SD : SectorDevice} (shift_le : 9 <= sector_shift <= block_shift).
Context (fuel : nat) (i : inode) (bmap : Z -> option Z).

Abbreviation sec_per_block := (2 ^ (block_shift - sector_shift)).

Definition file_blocks : Z := (size i + 2 ^ block_shift - 1) / 2 ^ block_shift.

Context (size_ok : 0 <= size i <= 0x100000000 - 2 ^ sector_shift).
Context (law : bmap_law fuel i bmap file_blocks).
Context (bmap_range : forall l b, bmap l = Some b -> 0 <= b < 0x1000000000000).
Context (bmap_valid : forall l b j, bmap l = Some b -> b <> 0 -> 0 <= j < sec_per_block -> valid_sector (b * sec_per_block + j)).

Definition block_sector (b j : Z) : Z := if decide (b = 0) then EXTENT_ZERO else b * sec_per_block + j.

Definition ext2_sector_map (l : Z) : option Z :=
  (fun b => block_sector b (l mod sec_per_block)) <$> bmap (l / sec_per_block).

Lemma sec_per_block_range : 1 <= sec_per_block <= 8 /\ 2 ^ block_shift = sec_per_block * 2 ^ sector_shift.
Proof.
  split; [change 1 with (2 ^ 0); change 8 with (2 ^ 3); split; apply Z.pow_le_mono_r; lia|].
  rewrite <- Z.pow_add_r by lia. f_equal. lia.
Qed.

Lemma sector_map_ok l p : ext2_sector_map l = Some p -> p = EXTENT_ZERO \/ valid_sector p.
Proof.
  unfold ext2_sector_map. intros (b & Hb & ->)%fmap_Some. pose proof sec_per_block_range as [Hs _].
  unfold block_sector. case_decide as H0; [by left|right].
  eapply bmap_valid; [done|done|]. apply Z.mod_pos_bound. lia.
Qed.

(** A run of blocks is an extent of sectors. *)
Lemma run_maps l b n : 0 <= l -> 1 <= n <= 0x10000 -> (l + n) * sec_per_block < 0x100000000 ->
  (forall j, 0 <= j < n -> bmap (l + j) = Some (run_of b j)) -> 0 <= b < 0x1000000000000 ->
  extent_maps ext2_sector_map
    (Extent (if decide (b = 0) then EXTENT_ZERO else b * sec_per_block) (l * sec_per_block) (n * sec_per_block)).
Proof.
  intros Hl Hn Hlast Hrun Hb. pose proof sec_per_block_range as [Hs _].
  destruct ReadFile.special_values as [Ez Ev]. set (k := sec_per_block) in *.
  unfold extent_maps; cbn [pstart lstart len]. splits; [nia|nia|nia| |].
  { intros _. case_decide; [by left|right]. split; nia. }
  intros j Hj. unfold ext2_sector_map. rewrite (Z.add_comm (l * k)). fold k.
  rewrite Z.div_add, Z.mod_add by lia.
  assert (0 <= j / k < n) by (split; [apply Z.div_pos; lia|apply Z.div_lt_upper_bound; lia]).
  rewrite (Z.add_comm (j / k)), Hrun by lia. simpl. f_equal.
  pose proof (Z.div_mod j k ltac:(lia)). pose proof (Z.mod_pos_bound j k ltac:(lia)).
  unfold run_of. case_decide as Hb0; unfold block_sector; fold k.
  - rewrite decide_True by done. by rewrite ReadFile.next_psector_zero.
  - rewrite decide_False by lia. rewrite ReadFile.next_psector_normal by nia. nia.
Qed.

Definition ext2_inv (s : C * inode) : Prop := cinv s.1 /\ s.2 = i.

(** The map can be asked for any sector where a block starts. *)
Definition ext2_at (s : C * inode) (l : Z) : Prop := ext2_inv s /\ (sec_per_block | l).

Lemma ext2_next_extent_ok s e l : ext2_at s l -> 0 <= l -> l * 2 ^ sector_shift < size i ->
  exists s' e' err, ext2_next_extent block_shift sector_shift fuel s e l = Ok (s', e', err) /\
    if err || bool_decide (len e' = 0) then ext2_sector_map l = None /\ ext2_at s' l
    else extent_maps ext2_sector_map (Extent (pstart e') l (len e')) /\ ext2_at s' (l + len e').
Proof.
  destruct s as [c i']. intros [[Hc Ei] [m ->]] Hl Hlt. simpl in Hc, Ei. subst i'.
  pose proof sec_per_block_range as [Hs Eb]. set (k := sec_per_block) in *.
  assert (0 < 2 ^ sector_shift) by (apply Z.pow_pos_nonneg; lia).
  assert (2 ^ sector_shift >= 512) as H512.
  { change 512 with (2 ^ 9). apply Z.le_ge. apply Z.pow_le_mono_r; lia. }
  assert (0 <= m < file_blocks) as Hm.
  { split; [nia|]. unfold file_blocks. rewrite Eb. apply Z.lt_le_trans with ((m + 1)); [lia|].
    apply Z.div_le_lower_bound; nia. }
  assert (m * k < 0x800000) as Hmk by nia.
  unfold ext2_next_extent. rewrite shiftr_div by lia. fold k. rewrite Z.div_mul by lia.
  destruct (law c m Hc Hm) as (c' & b & n & -> & Hc' & Hn). cbn [mbind result_bind].
  assert (Z.land (m * k) (k - 1) = (m * k) mod k) as El by (apply land_ones_mod; lia).
  fold k. rewrite El, Z.mod_mul, Z.lor_0_r, Z.sub_0_r by lia.
  do 3 eexists. split; [reflexivity|]. cbn [len pstart orb].
  destruct n as [n|].
  - destruct Hn as [Hn Hrun]. rewrite (shiftl_mul n) by lia. fold k. rewrite !(u32_small (n * k)) by nia.
    pose proof (Hrun 0 ltac:(lia)) as E0. rewrite Z.add_0_r in E0.
    assert (0 <= b < 0x1000000000000) as Hb.
    { apply bmap_range in E0. unfold run_of in E0. case_decide; lia. }
    rewrite bool_decide_false by nia. split; [|split; [done|exists (m + n); lia]]. rewrite shiftl_mul by lia. fold k.
    rewrite u64_small by nia. apply run_maps; try done; nia.
  - destruct Hn as [-> Hn]. rewrite Z.shiftl_0_l, bool_decide_true by done.
    unfold ext2_sector_map. fold k. rewrite Z.div_mul by lia. rewrite Hn. split; [done|]. split; [done|by exists m].
Qed.

#[export] Instance ext2_fs : ExtentFS (C * inode) := {|
  extent_ops := {| next_extent := ext2_next_extent block_shift sector_shift fuel; inode_size := size i |};
  fs_at := ext2_at;
  inode_size_range := size_ok; sector_map := ext2_sector_map;
  sector_map_valid := sector_map_ok; GetFsSec.next_extent_ok := fun s e l H _ => ext2_next_extent_ok s e l H |}.

(** The contents of a block of the map, and of the file. *)
Definition block_data (b : option Z) : list Z :=
  match b with
  | Some b => if decide (b = 0) then replicate (Z.to_nat (2 ^ block_shift)) 0
              else region disk_sector (b * sec_per_block) sec_per_block
  | None => []
  end.

Definition ext2_contents : list Z :=
  take (Z.to_nat (size i)) (concat ((fun l => block_data (bmap l)) <$> seqZ 0 file_blocks)).

Context (mapped : forall l, 0 <= l < file_blocks -> bmap l <> None).

Lemma block_sectors l : 0 <= l < file_blocks ->
  block_data (bmap l) = ReadFile.sectors_data (l * sec_per_block) sec_per_block.
Proof.
  intros Hl. pose proof sec_per_block_range as [Hs Eb]. set (k := sec_per_block) in *.
  assert (forall j, 0 <= j < k -> (l * k + j) / k = l /\ (l * k + j) mod k = j) as Hj.
  { intros j Hj. rewrite (Z.add_comm _ j), Z.div_add, Z.mod_add, Z.div_small, Z.mod_small by lia. lia. }
  pose proof (mapped l Hl) as Hm. destruct (bmap l) as [b|] eqn:E; [|done]. simpl. unfold ReadFile.sectors_data.
  rewrite (ReadFile.fmap_seqZ_shift (fun j => ReadFile.file_sector j)
    (fun j => if decide (b = 0) then replicate (Z.to_nat (2 ^ sector_shift)) 0 else disk_sector j) (l * k) (b * k) k).
  2: { intros j Hjk. destruct (Hj j Hjk) as [Ed Em]. unfold ReadFile.file_sector. simpl.
       unfold ext2_sector_map. fold k. rewrite Ed, E, Em. simpl. unfold block_sector. fold k.
       destruct (decide (b = 0)) as [Hb0|Hb0]; [by rewrite decide_True|]. rewrite decide_False; [done|].
       apply bmap_range in E. destruct ReadFile.special_values as [-> _]. nia. }
  case_decide as Hb0; [|done].
  rewrite ReadFile.concat_replicate, Eb by lia. f_equal. rewrite Z2Nat.inj_mul; lia.
Qed.

Lemma ext2_contents_eq : ext2_contents = ReadFile.file_bytes.
Proof.
  pose proof sec_per_block_range as [Hs Eb]. assert (0 < 2 ^ sector_shift) by (apply Z.pow_pos_nonneg; lia).
  assert (0 <= file_blocks) as Hf by (apply Z.div_pos; nia).
  unfold ext2_contents. rewrite (ReadFile.sectors_groups _ sec_per_block) by (lia || (intros; by apply block_sectors)).
  apply (ReadFile.file_bytes_take (FS := ext2_fs)). unfold ReadFile.file_sectors. simpl.
  assert (size i <= file_blocks * 2 ^ block_shift).
  { unfold file_blocks. pose proof (Z.div_mod (size i + 2 ^ block_shift - 1) (2 ^ block_shift)).
    pose proof (Z.mod_pos_bound (size i + 2 ^ block_shift - 1) (2 ^ block_shift)). nia. }
  apply Z.lt_succ_r. apply Z.div_lt_upper_bound; nia.
Qed.

(** The map has every sector of the file. *)
Lemma ext2_map_total l : 0 <= l < ReadFile.file_sectors -> ext2_sector_map l <> None.
Proof.
  intros Hl. unfold ext2_sector_map. pose proof sec_per_block_range as [Hs Eb].
  assert (0 < 2 ^ sector_shift) by (apply Z.pow_pos_nonneg; lia). unfold ReadFile.file_sectors in Hl. simpl in *.
  destruct (bmap _) eqn:E; [done|]. apply mapped in E; [done|].
  assert (size i <= file_blocks * 2 ^ block_shift).
  { unfold file_blocks. pose proof (Z.div_mod (size i + 2 ^ block_shift - 1) (2 ^ block_shift)).
    pose proof (Z.mod_pos_bound (size i + 2 ^ block_shift - 1) (2 ^ block_shift)). nia. }
  split; [apply Z.div_pos; lia|]. apply Z.div_lt_upper_bound; [lia|].
  assert ((size i + 2 ^ sector_shift - 1) / 2 ^ sector_shift < sec_per_block * file_blocks + 1)
    by (apply Z.div_lt_upper_bound; nia). lia.
Qed.

(** C20. Reading a file of an ext2 volume whose blocks the map has returns the
    bytes of these blocks, with zeros for the holes, cut at the size of the
    file. *)
Theorem ext2_reads_file (f : ReadFile.inode) (offset sectors : Z) (buf : list Z) (rfuel : nat) :
  ReadFile.call_ok f offset sectors buf -> (Z.to_nat (sectors + 1) < rfuel)%nat ->
  let n := Z.min (sectors * 2 ^ sector_shift) (size i - offset) in
  exists f' buf' more,
    ReadFile.generic_getfssec rfuel f offset buf sectors = Ok (f', buf', offset + n, more, n) /\
    ReadFile.inode_ok f' /\ length buf' = length buf /\
    take (Z.to_nat n) buf' = take (Z.to_nat n) (drop (Z.to_nat offset) ext2_contents).
Proof.
  intros Hc Hf n. destruct (ReadFile.request_bounds _ _ _ _ Hc) as (Hr & Hfs & _ & _ & Hal).
  destruct (ReadFile.getfssec_full f offset sectors buf rfuel Hc Hf) as (f' & buf' & Hok & He).
  - intros j Hj. apply ext2_map_total. pose proof (ReadFile.co_offset _ _ _ _ Hc) as Ho.
    assert (0 < 2 ^ sector_shift) by (apply Z.pow_pos_nonneg; lia).
    enough (0 <= offset / 2 ^ sector_shift) by lia. apply Z.div_pos; lia.
  - simpl in He. do 3 eexists. split; [exact He|]. destruct Hok as [? _ _ ? Hd _].
    rewrite ext2_contents_eq. splits; done.
Qed.

End Read.

End Map.

(** ** Examples

    Blocks of 1024 bytes and sectors of 512.  The first file has the blocks 10,
    11 and 12, a hole of nine blocks, and the blocks 30 and 31 by the indirect
    block 20; the second has the extents of the leaf in block 21: three blocks
    from 40 on, and, after a hole of two blocks, ten from 60 on. *)


Definition demo_indirect : list Z := concat (le_bytes 4 <$> [30; 31]) ++ replicate 1016 0.

Definition demo_header (n depth : Z) : list Z := concat (le_bytes 2 <$> [EXT4_EXT_MAGIC; n; 4; depth; 0; 0]).

Definition demo_leaf : list Z :=
  demo_header 2 0 ++ le_bytes 4 0 ++ le_bytes 2 3 ++ le_bytes 2 0 ++ le_bytes 4 40
    ++ le_bytes 4 5 ++ le_bytes 2 10 ++ le_bytes 2 0 ++ le_bytes 4 60 ++ replicate 988 0.

Definition demo_block (b : Z) : list Z :=
  if decide (b = 20) then demo_indirect else if decide (b = 21) then demo_leaf else replicate 1024 (b mod 256).

Lemma demo_block_length b : length (demo_block b) = 1024%nat.
Proof. unfold demo_block. case_decide; [by vm_compute|]. case_decide; [by vm_compute|]. apply length_replicate. Qed.

#[local] Instance demo_ext2_cache : BlockCache unit.
Proof.
  refine {| cblock c b := (c, demo_block b); cinv _ := True; cdata := demo_block; csize := 1024 |}.
  - done.
  - intros b. by rewrite demo_block_length.
  - intros b. unfold demo_block. case_decide; [by_compute|]. case_decide; [by_compute|].
    apply Forall_replicate, Z.mod_pos_bound. done.
  - done.
Defined.

#[local] Instance demo_ext2_device : SectorDevice.
Proof.
  refine {| sector_shift := 9; disk_sector p := replicate 512 (p mod 256); valid_sector _ := True;
            rdwr_sectors start count old := concat ((fun p => replicate 512 (p mod 256)) <$> seqZ start count) |}; [lia| |done].
  intros p. by rewrite length_replicate.
Defined.

Definition demo_file : inode :=
  Inode 8 13824 0 0 0 0 0 0 0 (concat (le_bytes 4 <$> [10; 11; 12; 0; 0; 0; 0; 0; 0; 0; 0; 0; 20; 0; 0])).

Definition demo_ext_file : inode :=
  Inode 8 15360 0 0 0 0 0 EXT4_EXTENTS_FLAG 0 (demo_header 1 1 ++ le_bytes 4 0 ++ le_bytes 4 21 ++ replicate 40 0).

Lemma demo_csize : csize (C := unit) = 2 ^ 10.
Proof. done. Qed.

Lemma demo_shift : 10 <= 10 <= 12.
Proof. lia. Qed.

(** A property of a finite range, by computation. *)
Lemma below_decide (P : Z -> Prop) `{forall l, Decision (P l)} n :
  bool_decide (Forall P (seqZ 0 n)) = true -> forall l, 0 <= l < n -> P l.
Proof. intros HF%bool_decide_eq_true l Hl. rewrite Forall_forall in HF. apply HF, elem_of_seqZ. lia. Qed.

Lemma demo_small l : 0 <= l -> block_map 10 demo_file l < 0xffffffff.
Proof.
  intros Hl. unfold block_map. change (2 ^ (10 - 2)) with 256. repeat case_decide; try lia.
  - enough (forall l, 0 <= l < 12 -> root_ptr demo_file l < 0xffffffff) as E by (apply E; lia). clear.
    apply (below_decide (fun l => root_ptr demo_file l < 0xffffffff)). by vm_compute.
  - assert (0 <= l - 12 < 256) as Hr by lia. revert Hr. generalize (l - 12). clear.
    apply (below_decide (fun l => tree 10 1 (root_ptr demo_file 12) l < 0xffffffff)). by vm_compute.
  - change (root_ptr demo_file 13) with 0. simpl. lia.
  - change (root_ptr demo_file 14) with 0. simpl. lia.
Qed.

Lemma demo_full l : 0 <= l < 14 -> full_map 10 demo_file l.
Proof.
  intros Hl. unfold full_map. change (2 ^ (10 - 2)) with 256. case_decide; [done|].
  rewrite decide_True by lia. split; [|done]. by vm_compute.
Qed.

Lemma demo_bytes : Forall byte_ok (i_block demo_file).
Proof. by_compute. Qed.

Lemma ext2_bmap_blocks_witness :
  let right l := exists c' m, ext2_bmap 10 3 tt demo_file l = Ok (c', block_map 10 demo_file l, Some m) /\ cinv c' /\
    (full_map 10 demo_file l -> 1 <= m <= 0x10000 /\
      forall j, 0 <= j < m -> block_map 10 demo_file (l + j) = run_of (block_map 10 demo_file l) j) /\
    (~ full_map 10 demo_file l -> exists k, 1 <= k <= 3 /\ m = 256 ^ k /\ block_map 10 demo_file l = 0 /\
      forall j, 0 <= j -> (l - subtree_base 10 k) mod 256 ^ k + j < 256 ^ k -> block_map 10 demo_file (l + j) = 0) in
  right 12 /\ right 300.
Proof.
  split; (apply (ext2_bmap_blocks 10 demo_shift demo_csize demo_file eq_refl demo_bytes demo_small 3 tt);
    [done|done|change (2 ^ (10 - 2)) with 256; lia]).
Defined.

(** No block of pointers is missing on the way to block 12, and one is for block 300.
    The number of holes given there is that of the whole subtree from block 268 on,
    which ends 32 blocks earlier. *)
Example demo_missing : bool_decide (full_map 10 demo_file 12) = true /\ bool_decide (full_map 10 demo_file 300) = false /\
  ext2_bmap 10 3 tt demo_file 300 = Ok (tt, 0, Some 65536).
Proof. by vm_compute. Qed.

Example demo_blocks : block_map 10 demo_file <$> seqZ 0 15 = [10; 11; 12; 0; 0; 0; 0; 0; 0; 0; 0; 0; 30; 31; 0].
Proof. by vm_compute. Qed.

Example demo_block_run : ext2_bmap 10 3 tt demo_file 12 = Ok (tt, 30, Some 2).
Proof. by vm_compute. Qed.

Lemma demo_tree : tree_ok 1 (i_block demo_ext_file) 0 0x100000000.
Proof.
  split; [constructor; by_compute|]. change (entries (i_block demo_ext_file)) with 1. intros k Hk.
  assert (k = 0) as -> by lia. change (child (i_block demo_ext_file) 0) with 21. splits; [by_compute..|].
  split; [constructor; by_compute|]. change (entries (cdata 21)) with 2. intros k' Hk'.
  assert (k' = 0 \/ k' = 1) as [-> | ->] by lia; splits; by_compute.
Qed.

Lemma ext2_bmap_extents_witness :
  exists c' b n, ext2_bmap 10 3 tt demo_ext_file 7 = Ok (c', b, n) /\ cinv c' /\
    match n with
    | Some n => (exists e, e ∈ extents 1 (i_block demo_ext_file) /\ covers 7 e /\ b = e_start e + (7 - e_first e) /\
          n = e_first e + e_len e - 7) /\
        1 <= n <= 0x10000 /\ forall j, 0 <= j < n -> extent_map (extents 1 (i_block demo_ext_file)) (7 + j) = Some (run_of b j)
    | None => b = 0 /\ extent_map (extents 1 (i_block demo_ext_file)) 7 = None
    end.
Proof. apply (ext2_bmap_extents 10 demo_shift demo_ext_file 1 demo_tree 3 tt 7); [by vm_compute|done|lia|lia]. Defined.

Example demo_extent_runs :
  (ext2_bmap 10 3 tt demo_ext_file <$> [2; 4; 7]) = [Ok (tt, 42, Some 1); Ok (tt, 0, None); Ok (tt, 62, Some 8)].
Proof. by vm_compute. Qed.

Abbreviation demo_bmap := (fun l => if decide (0 <= l) then Some (block_map 10 demo_file l) else None).

Lemma demo_law : bmap_law 10 3 demo_file demo_bmap (file_blocks 10 demo_file).
Proof.
  apply (blocks_law 10 demo_shift demo_csize); [done|apply demo_bytes|apply demo_small|apply demo_full|done|by_compute].
Qed.

Lemma demo_size_fits : 0 <= size demo_file <= 0x100000000 - 2 ^ sector_shift.
Proof. by_compute. Qed.

Lemma demo_bmap_range l b : demo_bmap l = Some b -> 0 <= b < 0x1000000000000.
Proof.
  cbn beta. case_decide; [|done]. intros [= <-].
  pose proof (block_map_range 10 demo_shift demo_csize demo_file eq_refl demo_bytes l). lia.
Qed.

Lemma demo_shift_le : 9 <= sector_shift <= 10.
Proof. simpl. lia. Qed.

Definition demo_open : ReadFile.inode (S := unit * inode) :=
  ReadFile.Inode (Extent 0 0 0) (Extent 0 0 0) (tt, demo_file).

Lemma demo_mapped l : 0 <= l < file_blocks 10 demo_file -> demo_bmap l <> None.
Proof. intros Hl. cbn beta. by rewrite decide_True by lia. Qed.

Abbreviation demo_fs := (ext2_fs 10 demo_shift demo_shift_le 3 demo_file demo_bmap demo_size_fits demo_law
  demo_bmap_range (fun _ _ _ _ _ _ => I)).

Lemma ext2_reads_file_witness :
  exists f' buf' more,
    ReadFile.generic_getfssec (EO := extent_ops (ExtentFS := demo_fs)) 40 demo_open 0 (replicate 3072 255) 6 = Ok (f', buf', 3072, more, 3072) /\
    ReadFile.inode_ok (FS := demo_fs) f' /\ length buf' = 3072%nat /\
    take (Z.to_nat 3072) buf' = take (Z.to_nat 3072) (drop (Z.to_nat 0) (ext2_contents 10 demo_file demo_bmap)).
Proof.
  apply (ext2_reads_file 10 demo_shift demo_shift_le 3 demo_file demo_bmap demo_size_fits demo_law
      demo_bmap_range (fun _ _ _ _ _ _ => I) demo_mapped demo_open 0 6 (replicate 3072 255) 40); [|lia].
  constructor; [| |lia|by_compute|by exists 0|by vm_compute|by vm_compute].
  - unfold ReadFile.inode_ok. simpl. splits; try done; try lia. intros _. split; [done|by exists 0].
  - left. split; [done|by exists 0].
Defined.

End Ext2Spec.
