(* ===== verification/Ext2DirSpec.v ===== *)
(** * ext2: directories, inodes and links

    A directory is a list of blocks, each a list of entries; looking up a name
    finds the first entry with the name that is in use.  Inodes are read from the
    tables of their groups.  The target of a link is in its inode or in its first
    block. *)

From Stdlib Require Import ZArith Lia.
From S2P Require Import Prelude Dirent CStr BlockCache GetFsSec Ext2 Ext2Spec.
Import Dirent.Dirent CStr.CStr Ext2.Ext2 Ext2Spec.Ext2Spec.

Module Ext2DirSpec.

(** ** Entries *)

(** An entry on the disk; [e_pad] are the bytes up to the next one. *)
Record entry := Entry { e_ino : Z; e_type : Z; e_name : list Z; e_pad : list Z }.

Definition e_rec_len (e : entry) : Z := 8 + Z.of_nat (length (e_name e) + length (e_pad e)).

Definition encode_entry (e : entry) : list Z :=
  le_bytes 4 (e_ino e) ++ le_bytes 2 (e_rec_len e) ++ [Z.of_nat (length (e_name e)); e_type e] ++ e_name e ++ e_pad e.

Definition entry_ok (e : entry) : Prop := 0 <= e_ino e < 0x100000000 /\ (length (e_name e) <= 255)%nat /\ e_rec_len e < 0x10000.

(** The name of an entry that is in use. *)
Definition has_name (n : list Z) (e : entry) : bool := bool_decide (e_ino e <> 0 /\ e_name e = n).

Lemma getle_at n v pre post o : 0 <= v < 2 ^ (8 * Z.of_nat n) -> o = Z.of_nat (length pre) ->
  getle n (pre ++ le_bytes n v ++ post) o = Ok v.
Proof.
  intros Hv ->. rewrite getle_ok by (rewrite ?length_app, ?le_bytes_length; lia). f_equal.
  unfold sub. rewrite Nat2Z.id, drop_app_length, take_app_length' by (by rewrite le_bytes_length).
  rewrite le_num_le_bytes. by apply Z.mod_small.
Qed.

Lemma get8_at v pre post o : o = Z.of_nat (length pre) -> get8 (pre ++ v :: post) o = Ok v.
Proof. intros ->. unfold get8. rewrite decide_True by lia. by rewrite Nat2Z.id, lookup_app_r, Nat.sub_diag by lia. Qed.

Lemma encode_length e : Z.of_nat (length (encode_entry e)) = e_rec_len e.
Proof. unfold encode_entry, e_rec_len. rewrite !length_app, !le_bytes_length. simpl. lia. Qed.

Lemma dir_entry_fields pre e post : entry_ok e -> let o := Z.of_nat (length pre) in let data := pre ++ encode_entry e ++ post in
  d_inode data o = Ok (e_ino e) /\ d_rec_len data o = Ok (e_rec_len e) /\
  d_name_len data o = Ok (Z.of_nat (length (e_name e))) /\ d_file_type data o = Ok (e_type e) /\
  d_name_at data o = e_name e ++ e_pad e ++ post.
Proof.
  intros (Hi & Hn & Hr) o data. unfold data, encode_entry. set (r := e_rec_len e) in *.
  assert (0 <= r) by (unfold r, e_rec_len; lia).
  splits.
  - unfold d_inode, get32. rewrite <- !app_assoc. by apply getle_at.
  - unfold d_rec_len, get16. rewrite <- !app_assoc, app_assoc. apply getle_at; [done|]. rewrite length_app, le_bytes_length. lia.
  - unfold d_name_len. rewrite <- !app_assoc. cbn [app]. rewrite (app_assoc pre), (app_assoc (pre ++ _)).
    apply get8_at. rewrite !length_app, !le_bytes_length. lia.
  - unfold d_file_type. rewrite <- !app_assoc. cbn [app]. rewrite (app_assoc pre), (app_assoc (pre ++ _)), cons_middle, (app_assoc (_ ++ _)).
    apply get8_at. rewrite !length_app, !le_bytes_length. simpl. lia.
  - unfold d_name_at. rewrite <- !app_assoc. rewrite (app_assoc pre), (app_assoc (pre ++ _)), (app_assoc (_ ++ _)).
    apply drop_app_length'. rewrite !length_app, !le_bytes_length. simpl. lia.
Qed.

Lemma match_entry_ok pre e post n : entry_ok e -> chars n ->
  ext2_match_entry (n ++ [0]) (Z.of_nat (length n)) (pre ++ encode_entry e ++ post) (Z.of_nat (length pre)) = Ok (has_name n e).
Proof.
  intros He Hn. destruct (dir_entry_fields pre e post He) as (Ei & _ & El & _ & Ename). unfold ext2_match_entry.
  rewrite Ei. cbn [mbind result_bind]. unfold has_name. case_decide as Hz; [by rewrite bool_decide_false by tauto|].
  rewrite El. cbn [mbind result_bind]. case_decide as Hl.
  - rewrite bool_decide_false; [done|]. intros [_ E]. by rewrite E in Hl.
  - rewrite Ename, Nat2Z.id. destruct (memcmp_ok n (e_name e) [0] (e_pad e ++ post) (length n) eq_refl ltac:(lia)) as (d & -> & Hd).
    cbn [mbind result_bind]. f_equal. apply bool_decide_ext. rewrite Hd. split; [by intros ->|by intros [_ ->]].
Qed.

Lemma find_app {A} (f : A -> bool) l1 l2 : find f (l1 ++ l2) = match find f l1 with Some x => Some x | None => find f l2 end.
Proof. induction l1 as [|x l1 IH]; [done|]. cbn [app find]. by destruct (f x). Qed.

(** ** The search in a directory *)

Section Dir.
Context {C : Type} `{BC : !BlockCache C}.
Context (block_shift : Z) (shift_ok : 10 <= block_shift <= 12) (csize_ok : csize = 2 ^ block_shift).

Abbreviation BLOCK_SIZE := (2 ^ block_shift).

Lemma block_size_range : 1024 <= BLOCK_SIZE <= 4096.
Proof using shift_ok. clear csize_ok. assert (block_shift = 10 \/ block_shift = 11 \/ block_shift = 12) as [->|[->| ->]] by lia; done. Qed.

(** The entry that was found, by its place in the block. *)
Definition found (r : option Z) (data : list Z) (e : option entry) : Prop :=
  match r, e with
  | Some o, Some e => d_inode data o = Ok (e_ino e)
  | None, None => True
  | _, _ => False
  end.

Lemma search_dir_block n es : chars n -> n <> [] -> forall pre fuel data,
  data = pre ++ concat (encode_entry <$> es) -> Z.of_nat (length data) = BLOCK_SIZE -> Forall entry_ok es -> (length es < fuel)%nat ->
  exists r, loop fuel (find_entry_step (n ++ [0]) (Z.of_nat (length n)) BLOCK_SIZE data) (Z.of_nat (length pre)) = Ok r /\
    found r data (find (has_name n) es).
Proof using shift_ok.
  clear csize_ok. intros Hn Hne. pose proof block_size_range as HB.
  induction es as [|e es IH]; intros pre fuel data Ed Hlen Hes Hf; (destruct fuel as [|fuel]; [simpl in Hf; lia|]).
  - exists None. split; [|done]. apply loop_break. unfold find_entry_step.
    rewrite u32_small, decide_False; [done| |lia]. rewrite Ed, length_app in Hlen. simpl in Hlen. lia.
  - apply Forall_cons in Hes as [He Hes]. rewrite fmap_cons in Ed. cbn [concat] in Ed. simpl in Hf.
    set (post := concat (encode_entry <$> es)) in *.
    assert (Z.of_nat (length pre) + e_rec_len e + Z.of_nat (length post) = BLOCK_SIZE) as Hsum.
    { rewrite Ed, !length_app in Hlen. pose proof (encode_length e). lia. }
    destruct (dir_entry_fields pre e post He) as (Ei & Er & _). rewrite <- Ed in Ei, Er.
    assert (8 <= e_rec_len e) as H8 by (unfold e_rec_len; lia).
    cbn [find]. destruct (decide (Z.of_nat (length pre) < BLOCK_SIZE - 8)) as [Hlt|Hge].
    + assert (find_entry_step (n ++ [0]) (Z.of_nat (length n)) BLOCK_SIZE data (Z.of_nat (length pre)) =
        if has_name n e then Ok (Break (Some (Z.of_nat (length pre)))) else Ok (Continue (Z.of_nat (length pre) + e_rec_len e))) as Est.
      { unfold find_entry_step. rewrite u32_small, decide_True by lia. rewrite Er. cbn [mbind result_bind].
        rewrite u32_small, decide_False by lia. rewrite Ed, match_entry_ok by done. cbn [mbind result_bind].
        by rewrite u32_small by lia. }
      destruct (has_name n e).
      * exists (Some (Z.of_nat (length pre))). split; [by apply loop_break|done].
      * erewrite loop_continue by exact Est. destruct (IH (pre ++ encode_entry e) fuel data) as (r & E & Hr); try done; [by rewrite <- app_assoc|lia|].
        exists r. split; [|done]. rewrite length_app, Nat2Z.inj_add, encode_length in E. exact E.
    + (* the last entry has no name *)
      assert (e_rec_len e = 8 /\ post = []) as [E8 Ep] by (split; [lia|apply nil_length_inv; lia]).
      assert (es = []) as ->.
      { destruct es as [|e' es]; [done|]. unfold post in Ep. rewrite fmap_cons in Ep. apply app_nil in Ep as [Ep _].
        apply (f_equal length) in Ep. pose proof (encode_length e'). unfold e_rec_len in *. simpl in Ep. lia. }
      assert (has_name n e = false) as ->.
      { apply bool_decide_eq_false. intros [_ E]. unfold e_rec_len in E8. rewrite E in E8. destruct n; [done|simpl in E8; lia]. }
      exists None. split; [|done]. apply loop_break. unfold find_entry_step. by rewrite u32_small, decide_False by lia.
Qed.

Context (fuel : nat).

(** The inode [i] is a directory with these blocks of entries. *)
Record dir_blocks (i : inode) (bs : list (list entry)) : Prop := {
  db_size : size i = Z.of_nat (length bs) * BLOCK_SIZE /\ size i < 0x100000000 - BLOCK_SIZE;
  db_fuel : (length bs < fuel)%nat;
  db_map : exists bmap, bmap_law block_shift fuel i bmap (Z.of_nat (length bs)) /\
    forall k es, bs !! k = Some es -> Forall entry_ok es /\ (length es < fuel)%nat /\
      exists b, bmap (Z.of_nat k) = Some b /\ 0 <= b < u64 (-1) /\ cdata b = concat (encode_entry <$> es) }.

(** A block of a file through its map. *)
Lemma get_cache_ok i bmap blocks c k b : bmap_law block_shift fuel i bmap blocks -> cinv c -> 0 <= k < blocks ->
  bmap k = Some b -> 0 <= b < u64 (-1) ->
  exists c', ext2_get_cache block_shift fuel c i k = Ok (c', cdata b) /\ cinv c'.
Proof using shift_ok.
  intros Hlaw Hc Hk Hb Hr. destruct (Hlaw c k Hc Hk) as (c1 & b1 & n & E & Hc1 & Hn). unfold ext2_get_cache. rewrite E.
  cbn [mbind result_bind]. assert (b1 = b) as ->.
  { destruct n as [n|]; [|by destruct Hn; congruence]. destruct Hn as [Hn Hrun]. specialize (Hrun 0 ltac:(lia)).
    rewrite Z.add_0_r, Hb in Hrun. injection Hrun as ->. unfold run_of. case_decide; lia. }
  destruct (cblock_ok c1 b Hc1 Hr) as [E2 Hc2]. destruct (cblock c1 b) as [c2 data]. simpl in *. subst data. by exists c2.
Qed.

Lemma find_blocks n i bs : chars n -> n <> [] -> dir_blocks i bs -> forall rest k c m,
  drop k bs = rest -> (k <= length bs)%nat -> cinv c -> (length rest < m)%nat ->
  exists c' r, loop m (find_block_step block_shift fuel i (n ++ [0]) (Z.of_nat (length n))) (c, Z.of_nat k * BLOCK_SIZE, Z.of_nat k) = Ok (c', r) /\
    cinv c' /\ found (snd <$> r) (default [] (fst <$> r)) (find (has_name n) (concat rest)).
Proof using shift_ok csize_ok.
  intros Hn Hne [[Hsz Hsmall] _ (bmap & Hlaw & Hmap)]. pose proof block_size_range as HB. rewrite Hsz in Hsmall.
  induction rest as [|es rest IH]; intros k c m Hd Hk Hc Hm; (destruct m as [|m]; [simpl in Hm; lia|]).
  - exists c, None. split; [|done]. apply loop_break. unfold find_block_step. rewrite decide_False; [done|].
    apply (f_equal length) in Hd. rewrite length_drop in Hd. simpl in Hd. assert (k = length bs) as -> by lia. lia.
  - assert (bs !! k = Some es) as Hes by (rewrite <- (Nat.add_0_r k), <- lookup_drop, Hd; done).
    pose proof (lookup_lt_Some _ _ _ Hes) as Hkl. destruct (Hmap k es Hes) as (Hok & Hlf & b & Hb & Hbr & Hdata).
    destruct (get_cache_ok i bmap _ c (Z.of_nat k) b Hlaw Hc ltac:(lia) Hb Hbr) as (c1 & E & Hc1).
    assert (Z.of_nat (length (cdata b)) = BLOCK_SIZE) as Hdl by (rewrite cdata_length; exact csize_ok).
    destruct (search_dir_block n es Hn Hne [] fuel (cdata b) Hdata Hdl Hok Hlf) as (r & Er & Hr).
    assert (find_block_step block_shift fuel i (n ++ [0]) (Z.of_nat (length n)) (c, Z.of_nat k * BLOCK_SIZE, Z.of_nat k) =
      match r with
      | Some o => Ok (Break (c1, Some (cdata b, o)))
      | None => Ok (Continue (c1, Z.of_nat (Datatypes.S k) * BLOCK_SIZE, Z.of_nat (Datatypes.S k)))
      end) as Est.
    { unfold find_block_step. rewrite decide_True by nia. rewrite E. cbn [mbind result_bind].
      assert (Z.min BLOCK_SIZE (u32 (Z.of_nat k * BLOCK_SIZE - size i)) = BLOCK_SIZE) as ->.
      { unfold u32. rewrite Hsz. assert ((Z.of_nat k * BLOCK_SIZE - Z.of_nat (length bs) * BLOCK_SIZE) mod 0x100000000 =
          Z.of_nat k * BLOCK_SIZE - Z.of_nat (length bs) * BLOCK_SIZE + 0x100000000) as ->; [|nia].
        symmetry. apply (Z.mod_unique _ _ (-1)); nia. }
      change (Z.of_nat (length [])) with 0 in Er. rewrite Er. cbn [mbind result_bind].
      rewrite u32_small by nia. destruct r; [done|]. do 3 f_equal; [f_equal|]; lia. }
    cbn [concat]. rewrite find_app. destruct r as [o|].
    + exists c1, (Some (cdata b, o)). split; [by apply loop_break|]. split; [done|]. simpl. unfold found in *.
      by destruct (find (has_name n) es).
    + erewrite loop_continue by exact Est. unfold found in Hr. destruct (find (has_name n) es); [done|].
      apply IH; [|lia|done|simpl in Hm; lia]. by rewrite <- Nat.add_1_r, <- drop_drop, Hd.
Qed.

(** The search finds the first entry that is in use and has the name. *)
Lemma dir_find_ok c i bs n : cinv c -> chars n -> n <> [] -> dir_blocks i bs ->
  exists c' r, ext2_find_entry block_shift fuel c i (n ++ [0]) = Ok (c', r) /\ cinv c' /\
    found (snd <$> r) (default [] (fst <$> r)) (find (has_name n) (concat bs)).
Proof using shift_ok csize_ok.
  intros Hc Hn Hne Hdir. unfold ext2_find_entry. rewrite strlen_ok by done. cbn [mbind result_bind].
  apply (find_blocks n i bs Hn Hne Hdir bs 0 c fuel); [done|lia|done|apply Hdir].
Qed.

(** ** Inodes *)

Context (sbi : ext2_sb_info).

Record sb_ok : Prop := {
  so_inodes : 0 < s_inodes_per_group sbi /\ 0 < s_inodes_per_block sbi;
  so_desc : 0 < s_desc_per_block sbi /\ 32 * s_desc_per_block sbi <= BLOCK_SIZE;
  so_inode : 128 <= s_inode_size sbi /\ s_inodes_per_block sbi * s_inode_size sbi <= BLOCK_SIZE;
  so_first : 0 <= s_first_data_block sbi /\ s_groups_count sbi + s_first_data_block sbi + 1 < 0x100000000 }.

(** The descriptor of a group, and where its table of inodes starts. *)
Definition group_desc (g : Z) : list Z :=
  drop (Z.to_nat (32 * (g mod s_desc_per_block sbi))) (cdata (g / s_desc_per_block sbi + s_first_data_block sbi + 1)).

Definition inode_table (g : Z) : Z := le32 (group_desc g) 8.

(** The bytes of an inode, from its place in the table on. *)
Definition inode_bytes (inr : Z) : list Z :=
  let g := (inr - 1) / s_inodes_per_group sbi in
  let j := (inr - 1) mod s_inodes_per_group sbi in
  drop (Z.to_nat (j mod s_inodes_per_block sbi * s_inode_size sbi)) (cdata (inode_table g + j / s_inodes_per_block sbi)).

Definition disk_inode (inr : Z) : option inode :=
  if decide ((inr - 1) / s_inodes_per_group sbi < s_groups_count sbi) then
    match fill_inode (inode_bytes inr) with Ok i => Some i | _ => None end
  else None.

(** The tables are on the volume. *)
Definition tables_ok : Prop := forall g, 0 <= g < s_groups_count sbi ->
  inode_table g + s_inodes_per_group sbi < 0x100000000.

Lemma fill_inode_ok b : 108 <= Z.of_nat (length b) -> exists i, fill_inode b = Ok i.
Proof using. clear. intros Hl. unfold fill_inode. rewrite !get16_ok, !get32_ok by lia. cbn [mbind result_bind]. eauto. Qed.

(** An entry of a table of [n] entries of [sz] bytes that fit in a block. *)
Lemma table_entry k n sz B : 0 <= k < n -> 0 < sz -> n * sz <= B -> 0 <= k * sz /\ k * sz + sz <= B.
Proof using. clear. nia. Qed.

Lemma cache_block c b : cinv c -> 0 <= b < u64 (-1) -> exists c', cblock c b = (c', cdata b) /\ cinv c'.
Proof using. clear. intros Hc Hb. destruct (cblock_ok c b Hc Hb) as [E Hc']. destruct (cblock c b) as [c' d]. simpl in *. subst d. by exists c'. Qed.

Lemma disk_inode_ok c inr : cinv c -> sb_ok -> tables_ok -> 1 <= inr < 0x100000000 ->
  exists c', ext2_iget_by_inr sbi c inr = Ok (c', disk_inode inr) /\ cinv c'.
Proof using shift_ok csize_ok.
  intros Hc [[Hipg Hipb] [Hdpb Hd] [Hsz Hin] [Hf1 Hf2]] Htab Hr. pose proof block_size_range as HB.
  assert (forall b, Z.of_nat (length (cdata b)) = BLOCK_SIZE) as Hlen by (intros b; rewrite cdata_length; exact csize_ok).
  unfold ext2_iget_by_inr, ext2_get_inode, disk_inode. rewrite u32_small by lia. rewrite decide_False by lia.
  set (g := (inr - 1) / s_inodes_per_group sbi). set (j := (inr - 1) mod s_inodes_per_group sbi).
  assert (0 <= g) as Hg0 by (apply Z.div_pos; lia). assert (0 <= j < s_inodes_per_group sbi) as Hj by (apply Z.mod_pos_bound; lia).
  unfold ext2_get_group_desc. destruct (decide (g < s_groups_count sbi)) as [Hg|Hg].
  2: { rewrite decide_True by lia. exists c. by split. }
  rewrite (decide_False (P := g >= _)), (decide_False (P := s_desc_per_block sbi = 0)) by lia.
  assert (0 <= g / s_desc_per_block sbi <= g) as Hgd by (split; [apply Z.div_pos; lia|apply Z.div_le_upper_bound; nia]).
  rewrite (u32_small (g / _ + _ + 1)) by lia.
  destruct (cache_block c (g / s_desc_per_block sbi + s_first_data_block sbi + 1) Hc) as (c1 & -> & Hc1); [change (u64 (-1)) with 0xffffffffffffffff; lia|].
  cbn [mbind result_bind]. fold (group_desc g). unfold bg_inode_table.
  pose proof (Z.mod_pos_bound g (s_desc_per_block sbi) Hdpb) as Hgm.
  assert (12 <= Z.of_nat (length (group_desc g))) as Hgl.
  { unfold group_desc. rewrite length_drop. specialize (Hlen (g / s_desc_per_block sbi + s_first_data_block sbi + 1)).
    pose proof (table_entry _ _ 32 BLOCK_SIZE Hgm ltac:(lia) ltac:(lia)). lia. }
  rewrite get32_ok by lia. cbn [mbind result_bind]. rewrite decide_False by lia. fold (inode_table g).
  assert (0 <= inode_table g) as Ht0.
  { unfold inode_table, le32. apply le_num_range. apply sub_bytes. unfold group_desc. apply Forall_drop, cdata_bytes. }
  assert (0 <= j / s_inodes_per_block sbi <= j) as Hjd by (split; [apply Z.div_pos; lia|apply Z.div_le_upper_bound; nia]).
  specialize (Htab g ltac:(lia)). rewrite (u32_small (inode_table g + _)) by lia.
  destruct (cache_block c1 (inode_table g + j / s_inodes_per_block sbi) Hc1) as (c2 & -> & Hc2); [change (u64 (-1)) with 0xffffffffffffffff; lia|].
  cbn [mbind result_bind]. pose proof (Z.mod_pos_bound j (s_inodes_per_block sbi) Hipb) as Hjm.
  pose proof (table_entry _ _ (s_inode_size sbi) BLOCK_SIZE Hjm ltac:(lia) Hin) as [Ho1 Ho2]. rewrite (u32_small (_ mod _ * _)) by lia.
  unfold inode_bytes. fold g j. destruct (fill_inode_ok (drop (Z.to_nat (j mod s_inodes_per_block sbi * s_inode_size sbi))
    (cdata (inode_table g + j / s_inodes_per_block sbi)))) as [i Ei].
  { rewrite length_drop. specialize (Hlen (inode_table g + j / s_inodes_per_block sbi)). lia. }
  rewrite Ei. cbn [mbind result_bind]. by exists c2.
Qed.

(** ** Links *)

Context (sec_shift : Z).

Definition is_fast (i : inode) : bool :=
  bool_decide ((if decide (file_acl i <> 0) then 2 ^ (block_shift - sec_shift) else 0) = blocks i).

(** The bytes of the target, in the inode or in the first block. *)
Definition link_bytes (bmap : Z -> option Z) (i : inode) : list Z :=
  take (Z.to_nat (size i)) (if is_fast i then i_block i else match bmap 0 with Some b => cdata b | None => [] end).

Record link_ok (bmap : Z -> option Z) (i : inode) : Prop := {
  lo_size : 0 <= size i <= BLOCK_SIZE;
  lo_fast : is_fast i = true -> size i <= Z.of_nat (length (i_block i));
  lo_slow : is_fast i = false -> bmap_law block_shift fuel i bmap 1 /\ exists b, bmap 0 = Some b /\ 0 <= b < u64 (-1) }.

Lemma readlink_ok bmap c i : cinv c -> link_ok bmap i -> (2 <= fuel)%nat ->
  exists c', ext2_readlink block_shift sec_shift fuel c i = Ok (c', size i, link_bytes bmap i) /\ cinv c' /\
    Z.of_nat (length (link_bytes bmap i)) = size i.
Proof using shift_ok csize_ok.
  intros Hc [Hsz Hfast Hslow] Hf. unfold ext2_readlink, link_bytes. rewrite decide_False by lia. fold (is_fast i).
  destruct (is_fast i).
  - rewrite decide_True by auto. exists c. splits; [done..|]. rewrite length_take. specialize (Hfast eq_refl). lia.
  - destruct (Hslow eq_refl) as (Hlaw & b & Eb & Hb). rewrite Eb. unfold cache_get_file. rewrite decide_False by lia.
    assert (Z.of_nat (length (cdata b)) = BLOCK_SIZE) as Hlen by (rewrite cdata_length; exact csize_ok).
    assert (Z.of_nat (length (take (Z.to_nat (size i)) (cdata b))) = size i) as Ht by (rewrite length_take; lia).
    destruct (get_cache_ok i bmap 1 c 0 b Hlaw Hc ltac:(lia) Eb Hb) as (c1 & E & Hc1). clear Hlaw Hslow.
    destruct (decide (size i = 0)) as [Hz|Hz].
    + exists c. rewrite Hz in *. destruct fuel as [|f]; [lia|]. erewrite loop_break by reflexivity. by splits.
    + destruct fuel as [|[|f]]; [lia..|]. erewrite loop_continue.
      2: { unfold get_file_step. rewrite decide_False by done. rewrite E. cbn [mbind result_bind]. reflexivity. }
      erewrite loop_break.
      2: { unfold get_file_step. rewrite decide_True by lia. reflexivity. }
      cbn [mbind result_bind app]. rewrite Z.min_l by lia. by exists c1.
Qed.

End Dir.
End Ext2DirSpec.
