(* ===== verification/Ext2Vfs.v ===== *)
(** * ext2 under the virtual file system

    The methods of ext2 as a [Volume], and what path lookup needs of it:
    directories are lists of entries, a name is that of the inode of its first entry,
    and a link has a target.  Opening a path, also through links, and reading the
    file gives the bytes of the blocks of the file that the path leads to. *)

From Stdlib Require Import ZArith Lia.
From S2P Require Import Prelude CStr Dirent Mangle BlockCache GetFsSec Inode Vfs VfsSpec ExtentVfs Ext2 Ext2Spec Ext2DirSpec.
Import CStr.CStr Dirent.Dirent Mangle.Mangle GetFsSec.GetFsSec Inode.Inode Vfs.Vfs VfsSpec.VfsSpec ExtentVfs.ExtentVfs
  Ext2Spec.Ext2Spec Ext2DirSpec.Ext2DirSpec.

Module Ext2Vfs.

Section Ext2.
Context {C : Type} `{BC : !BlockCache C} `{SD : SectorDevice}.
Context (block_shift : Z) (sbi : Ext2.ext2_sb_info) (fuel : nat).

(** ** The methods (ext2_fs_ops) *)

(** The mode of an inode as a value of the enumeration; path lookup only asks for
    directories, regular files and links. *)
Definition dt_of (mode : Z) : dirent_type :=
  if decide (mode = 1) then DT_FIFO else if decide (mode = 2) then DT_CHR else if decide (mode = 4) then DT_DIR
  else if decide (mode = 6) then DT_BLK else if decide (mode = 8) then DT_REG else if decide (mode = 10) then DT_LNK
  else if decide (mode = 12) then DT_SOCK else if decide (mode = 14) then DT_WHT else DT_UNKNOWN.

Definition new_node (i : Ext2.inode) : dirent_type * Z * Ext2.inode := (dt_of (Ext2.mode i), Ext2.size i, i).

Definition vol_ext2_iget (c : C) (name : list Z) (dir : Ext2.inode) : result (C * option (dirent_type * Z * Ext2.inode)) :=
  '(c, o) ← Ext2.ext2_iget block_shift sbi fuel c name dir;
  Ok (c, match o with Some i => Some (new_node i) | None => None end).

Definition vol_ext2_readdir (c : C) (size : Z) (dir : Ext2.inode) (offset : Z) : result (C * Ext2.inode * Z * option dirent) :=
  '(c, offset, e) ← Ext2.ext2_readdir block_shift fuel c dir offset; Ok (c, dir, offset, e).

#[export] Instance ext2_volume : Volume C Ext2.inode := {|
  vol_file := (C * Ext2.inode)%type;
  vol_iget := vol_ext2_iget;
  vol_readlink := Some (fun c _ i => Ext2.ext2_readlink block_shift sector_shift fuel c i);
  vol_mangle_name := generic_mangle_name; vol_readdir := Some vol_ext2_readdir;
  vol_open c i _ := (c, i);
  vol_close _ f := (fst f, snd f, Ext2.size (snd f));
  vol_extents size := {| next_extent := Ext2.ext2_next_extent block_shift sector_shift fuel; inode_size := size |};
  vol_size size := eq_refl |}.

(** ** The tree *)

Context {M : Type} `{EN : !Environment M}.
Context (shift_ok : 10 <= block_shift <= 12) (csize_ok : csize = 2 ^ block_shift) (shift_le : 9 <= sector_shift <= block_shift).
Context (fuel_ok : (2 <= fuel)%nat).

(** The inodes of the volume, the entries of the directories, and the maps of the
    blocks. *)
Context (in_tree : Ext2.inode -> Prop) (dirs : Ext2.inode -> list (list entry)) (bmaps : Ext2.inode -> Z -> option Z).

(** A regular file whose blocks can be read. *)
Record file_ok (i : Ext2.inode) : Prop := {
  fo_size : 0 <= Ext2.size i <= 0x100000000 - 2 ^ sector_shift;
  fo_law : bmap_law block_shift fuel i (bmaps i) (file_blocks block_shift i);
  fo_range l b : bmaps i l = Some b -> 0 <= b < 0x1000000000000;
  fo_valid l b j : bmaps i l = Some b -> b <> 0 -> 0 <= j < 2 ^ (block_shift - sector_shift) ->
    valid_sector (b * 2 ^ (block_shift - sector_shift) + j);
  fo_mapped l : 0 <= l < file_blocks block_shift i -> bmaps i l <> None }.

Record tree_ok : Prop := {
  to_sb : sb_ok block_shift sbi /\ tables_ok sbi;
  to_dir i : in_tree i -> Ext2.mode i = 4 -> dir_blocks block_shift fuel i (dirs i);
  to_sub i e d : in_tree i -> Ext2.mode i = 4 -> e ∈ concat (dirs i) -> e_ino e <> 0 -> disk_inode sbi (e_ino e) = Some d -> in_tree d;
  to_link i : in_tree i -> Ext2.mode i = 10 -> link_ok block_shift fuel sector_shift (bmaps i) i /\
    chars (link_bytes block_shift sector_shift (bmaps i) i);
  to_file i : in_tree i -> Ext2.mode i = 8 -> file_ok i }.

Context (Htree : tree_ok) (mem_size : Z -> nat).

(** ** What path lookup needs *)

Abbreviation pvt := (extent * extent * Ext2.inode)%type.

Definition ext2_node_ok (n : dirent_type * Z * pvt) : Prop :=
  let '(mode, size, (te, ne, i)) := n in
  mode = dt_of (Ext2.mode i) /\ size = Ext2.size i /\ in_tree i /\ (mode = DT_REG -> (te, ne, i) = new_pvt i).

Definition ext2_node (i : Ext2.inode) : dirent_type * Z * pvt := (dt_of (Ext2.mode i), Ext2.size i, new_pvt i).

Definition ext2_lookup (p : pvt) (name : list Z) : option (dirent_type * Z * pvt) :=
  e ← find (has_name name) (concat (dirs (snd p))); ext2_node <$> disk_inode sbi (e_ino e).

Lemma dt_of_inv mode : (dt_of mode = DT_DIR -> mode = 4) /\ (dt_of mode = DT_REG -> mode = 8) /\ (dt_of mode = DT_LNK -> mode = 10).
Proof. unfold dt_of. repeat case_decide; splits; by try (intros [=]). Qed.

Lemma find_used name l e : find (has_name name) l = Some e -> e ∈ l /\ e_ino e <> 0.
Proof. intros [Hin Hn]%find_some. apply bool_decide_eq_true in Hn as [? _]. split; [|done]. by apply list_elem_of_In. Qed.

Lemma used_inode i e : in_tree i -> Ext2.mode i = 4 -> e ∈ concat (dirs i) -> e_ino e <> 0 -> 1 <= e_ino e < 0x100000000.
Proof.
  intros Hi Hm He H0. destruct (db_map _ _ _ _ (to_dir Htree i Hi Hm)) as (bmap & _ & Hb).
  apply list_elem_of_In, in_concat in He as (es & Hes & He). apply list_elem_of_In, list_elem_of_lookup in Hes as [k Hk].
  destruct (Hb k es Hk) as (Hall & _). rewrite Forall_forall in Hall.
  destruct (Hall e ltac:(by apply list_elem_of_In)) as (? & _). lia.
Qed.

Lemma ext2_iget_ok c m name (i : Inode.inode pvt) : cinv c -> chars name -> name <> [] -> i_mode i = DT_DIR ->
  ext2_node_ok (i_mode i, i_size i, i_pvt i) ->
  exists c', call_iget (M := M) (c, m) (name ++ [0]) i = Ok ((c', m), ext2_lookup (i_pvt i) name) /\ cinv c'.
Proof.
  intros Hc Hn Hne Hm Hnode. unfold call_iget, ext2_lookup. destruct (i_pvt i) as [[te ne] q].
  destruct Hnode as (Emode & _ & Hq & _). rewrite Hm in Emode. symmetry in Emode. apply dt_of_inv in Emode.
  cbn [fst snd vol_iget ext2_volume]. unfold vol_ext2_iget, Ext2.ext2_iget.
  destruct (dir_find_ok block_shift shift_ok csize_ok fuel c q (dirs q) name Hc Hn Hne (to_dir Htree q Hq Emode))
    as (c1 & r & -> & Hc1 & Hr). cbn [mbind result_bind].
  destruct (find (has_name name) (concat (dirs q))) as [e|] eqn:Ef; (destruct r as [[data o]|]; simpl in Hr; try done).
  - rewrite Hr. cbn [mbind result_bind option_bind]. destruct (find_used _ _ _ Ef) as [Hin H0].
    destruct (to_sb Htree) as [Hsb Htab].
    destruct (disk_inode_ok block_shift shift_ok csize_ok sbi c1 (e_ino e) Hc1 Hsb Htab (used_inode q e Hq Emode Hin H0))
      as (c2 & -> & Hc2). cbn [mbind result_bind]. exists c2. split; [|done]. by destruct (disk_inode sbi (e_ino e)).
  - by exists c1.
Qed.

Lemma ext2_lookup_node size p name m : ext2_node_ok (DT_DIR, size, p) -> ext2_lookup p name = Some m -> ext2_node_ok m.
Proof.
  destruct p as [[te ne] q]. intros (Emode & _ & Hq & _). symmetry in Emode. apply dt_of_inv in Emode. unfold ext2_lookup. cbn [snd].
  destruct (find (has_name name) (concat (dirs q))) as [e|] eqn:Ef; [|done]. cbn [mbind option_bind].
  destruct (disk_inode sbi (e_ino e)) as [d|] eqn:Ed; [|done]. intros [= <-]. destruct (find_used _ _ _ Ef) as [Hin H0].
  unfold ext2_node, ext2_node_ok, new_pvt. splits; [done|done|by eapply (to_sub Htree q e)|done].
Qed.

Definition ext2_target (p : pvt) : list Z := link_bytes block_shift sector_shift (bmaps (snd p)) (snd p).

#[export] Instance ext2_spec : FsSpec (C * M) pvt.
Proof.
  refine {| rest_ok r := cinv (fst r) /\ forall a, length (env_read (snd r) a) = mem_size a;
            VfsSpec.node_ok := ext2_node_ok; fs_lookup := ext2_lookup; fs_target := ext2_target |}.
  - intros [d m] n [Hc Hm]. cbn. destruct (env_malloc m n) as [m' ok] eqn:E. cbn. split; [done|]. intros a.
    pose proof (env_malloc_length m n a) as H. rewrite E in H. simpl in H. by rewrite H.
  - intros [c m] name i [Hc Hm] Hn Hne Hmode Hnode.
    destruct (ext2_iget_ok c m name i Hc Hn Hne Hmode Hnode) as (c' & E & Hc'). exists (c', m). by split.
  - intros. by eapply ext2_lookup_node.
  - intros size [[te ne] q] (Em & -> & Hq & _). symmetry in Em. apply dt_of_inv in Em.
    destruct (to_link Htree q Hq Em) as [[Hsz _ _] _].
    pose proof (block_size_range block_shift shift_ok). lia.
  - intros rl [c m] i Erl [Hc Hmem] Hmode Hnode. injection Erl as <-. destruct (i_pvt i) as [[te ne] q] eqn:Ep.
    destruct Hnode as (Em & Es & Hq & _). rewrite Hmode in Em. symmetry in Em. apply dt_of_inv in Em.
    destruct (to_link Htree q Hq Em) as [Hlink Hch]. cbn [fst snd].
    destruct (readlink_ok block_shift shift_ok csize_ok fuel sector_shift (bmaps q) c q Hc Hlink fuel_ok) as (c' & E & Hc' & Hl).
    exists (c', m). unfold ext2_target. cbn [snd]. rewrite Hl, E. cbn [mbind result_bind]. splits; try done. rewrite Es. lia.
Defined.

(** C4. A file of an ext2 volume, from its path to its bytes: the components
    of the name are looked up, directory by directory, in the lists of entries
    of the volume, and links are followed.  If the name is that of a regular
    file, its handle is given, and unless the file is empty the first read puts the
    bytes of the blocks of the file in the memory at the given address, as many as
    were asked for or as the file has, and closes the file when these are all.
    Otherwise the answer is -1.  If there was a free slot and memory does not run out,
    this means that the name does not reach a regular file through at most 19 links,
    none of them empty, such that the lengths of the path and of the links add up to
    less than 4096 ([reachable]); on a volume without links, that it is not the name of
    a regular file at all.  The counts of references stay exact. *)
Theorem ext2_open_read (st : @vfs (C * M) pvt) root cwd buf name w rest addr sectors :
  vfs_ok st root cwd -> name <> [] -> Forall (fun c => not_whitespace c = true) name -> not_whitespace w = false ->
  Z.of_nat (length name) < FILENAME_MAX <= Z.of_nat (length buf) ->
  room (v_heap st) (roots st) (Z.to_nat 120000) ->
  0 < sectors < 0x80000000 -> sectors * 2 ^ sector_shift <= 0x80000000 -> sectors * 2 ^ sector_shift <= Z.of_nat (mem_size addr) ->
  exists st1 rv fd, open_file search_fuel st buf (name ++ w :: rest) = Ok (st1, rv, fd) /\ vfs_ok st1 root cwd /\
    ((exists q l, resolves root (start root cwd (mangled slash_only name)) (components name) (ext2_node q :: l) /\ Ext2.mode q = 8 /\
        fd = Some (Filedata (Ext2.size q) sector_shift rv) /\
        (0 < Ext2.size q ->
         let n := Z.min (sectors * 2 ^ sector_shift) (Ext2.size q) in
         exists st2, pmapi_read_file st1 rv addr sectors = Ok (st2, if decide (n < Ext2.size q) then rv else 0, n) /\
           vfs_ok st2 root cwd /\
           take (Z.to_nat n) (env_read (snd (v_rest st2)) addr) =
             take (Z.to_nat n) (ext2_contents block_shift q (bmaps q)))) \/
     (rv = -1 /\ fd = None /\ v_files st1 = v_files st /\
        (In no_file (v_files st) -> snd (env_malloc (snd (v_rest st)) (Z.of_nat (length (mangled slash_only name)) + 1)) = true ->
         no_links -> forall n l, resolves root (start root cwd (mangled slash_only name)) (components name) (n :: l) -> n_mode n <> DT_REG) /\
        (In no_file (v_files st) -> (forall m n, snd (env_malloc m n) = true) ->
         forall n l, reachable root cwd (mangled slash_only name) (n :: l) -> n_mode n <> DT_REG))).
Proof.
  intros Hok Hne Hname Hw Hlen Hroom Hsec Hsm Hmem. rewrite <- (mangled_components name).
  destruct (mangled_string slash_only name (drop (Z.to_nat FILENAME_MAX - redundant slash_only name) buf) Hne Hname ltac:(lia))
    as ([r Er] & Hmne & Hchars & Hl).
  pose proof (mangle_name_ok name w rest buf Hname Hw Hlen) as Em. cbn zeta in Em, Er. rewrite Er in Em.
  unfold FILENAME_MAX in Hlen. set (path := mangled slash_only name) in *.
  destruct (open_mangled (FS := ext2_spec) st root cwd buf (name ++ w :: rest) path r) as (st1 & rv & fd & E & Hok1 & Hres & Hlim);
    [exact Em|done|by split|lia|done|].
  exists st1, rv, fd. split; [exact E|]. split; [done|].
  destruct Hres as [k p i l Hk Efs Hi Hp Hm Hch Hl'|Efs Hno].
  2: { right. splits; [done..| |].
       - intros H1 H2 H3 n l. apply Hno; [done| |done]. cbn [malloc_ok volume_ops]. by destruct (env_malloc _ _).
       - intros H1 H2. apply Hlim; [done|done|]. split; [|by left]. intros r0 n0 _. specialize (H2 (snd r0) n0).
         cbn [malloc_ok volume_ops]. by destruct (env_malloc _ _). }
  left.
  assert (place_ok (node_of i :: l)) as [Hnode _].
  { destruct (vo_dirs _ _ _ Hok) as [Hd1 Hd2]. assert (dirs_ok (start root cwd path)) as Hds by (unfold start; by destruct (absolute _)).
    eapply (resolves_place root _ _ _ Hd1 Hl'); [by apply dirs_place|done]. }
  unfold node_of in *. rewrite Hm in *. destruct (i_pvt i) as [[te ne] q] eqn:Epv.
  destruct Hnode as (Em' & Es & Hq & Hreg). injection (Hreg eq_refl) as -> ->. pose proof Em' as E8. symmetry in E8. apply dt_of_inv in E8.
  rewrite Em', Es in Hl'. exists q, l. split; [exact Hl'|]. split; [done|]. rewrite Es. split; [done|].
  intros Hpos. set (n := Z.min _ _). destruct (to_file Htree q Hq E8) as [Hsz Hlaw Hrange Hvalid Hmap].
  pose proof (vo_rest _ _ _ Hok1) as [Hcinv Hmemsize].
  set (fs := ext2_fs block_shift shift_ok shift_le fuel q (bmaps q) Hsz Hlaw Hrange Hvalid).
  destruct (read_open_file (FS := ext2_spec) (Ext2.size q) (XF := fs) eq_refl) with (st := st1) (root := root) (cwd := cwd)
    (k := k) (p := p) (i := i) (addr := addr) (sectors := sectors) (pos := 0) (te := Extent 0 0 0) (ne := Extent 0 0 0) (q := q)
    as (st2 & E2 & Hok2 & _ & Hdata); try done; try lia.
  - intros c f l0 m m' [_ Hm0] [Hinv _] Hlen'. split; [apply Hinv|]. intros a. rewrite Hlen'. apply Hm0.
  - rewrite Efs. apply list_lookup_insert_eq. by eapply lookup_lt_Some.
  - apply (first_call (V := ext2_volume) (Ext2.size q) (XF := fs) eq_refl); try lia; [|by rewrite Hmemsize].
    split; [by split|by exists 0].
  - intros l0 Hl0. by apply (ext2_map_total block_shift shift_ok shift_le fuel q (bmaps q) Hsz Hlaw Hrange Hvalid Hmap).
  - exists st2. rewrite Z.add_0_l, Z.sub_0_r in *. splits; [exact E2|done|].
    fold n in Hdata. etransitivity; [exact Hdata|]. f_equal. symmetry. by apply ext2_contents_eq.
Qed.

End Ext2.

(** ** An example

    A volume with blocks of 1024 bytes, on a device with sectors of 512: the
    descriptor of the group is in block 2, the table of eight inodes in block 3.
    The root, inode 2, has its entries in block 10: the file [f], inode 4, of
    1500 bytes in the blocks 11 and 12, and [l], inode 3, a link to [/f]. *)

Definition disk_inode_bytes (mode size : Z) (block : list Z) : list Z :=
  le_bytes 4 mode ++ le_bytes 4 size ++ replicate 32 0 ++ block ++ replicate (88 - length block) 0.

Definition demo_table : list Z :=
  replicate 128 0 ++ disk_inode_bytes 0x4000 1024 [10] ++ disk_inode_bytes 0xa000 2 [0x2f; 0x66] ++
  disk_inode_bytes 0x8000 1500 [11; 0; 0; 0; 12] ++ replicate 512 0.

Definition demo_entries : list entry := [Entry 4 1 [0x66] [0; 0; 0]; Entry 3 7 [0x6c] (replicate 1003 0)].

Definition demo_volume (b : Z) : list Z :=
  if decide (b = 2) then replicate 8 0 ++ [3] ++ replicate 1015 0 else if decide (b = 3) then demo_table
  else if decide (b = 10) then concat (encode_entry <$> demo_entries) else replicate 1024 (b mod 256).

Lemma demo_volume_length b : length (demo_volume b) = 1024%nat.
Proof. unfold demo_volume. do 3 (case_decide; [by vm_compute|]). apply length_replicate. Qed.

#[local] Instance demo_volume_cache : BlockCache unit.
Proof.
  refine {| cblock c b := (c, demo_volume b); cinv _ := True; cdata := demo_volume; csize := 1024 |}.
  - done.
  - intros b. by rewrite demo_volume_length.
  - intros b. unfold demo_volume. do 3 (case_decide; [by_compute|]). apply Forall_replicate, Z.mod_pos_bound. done.
  - done.
Defined.

Definition demo_sector (p : Z) : list Z :=
  let l := drop (Z.to_nat (512 * (p mod 2))) (demo_volume (p / 2)) in take 512 l ++ replicate (512 - length l) 0.

Lemma volume_csize : csize (C := unit) = 2 ^ 10.
Proof. done. Qed.

#[local] Instance demo_volume_device : SectorDevice.
Proof.
  refine {| sector_shift := 9; disk_sector := demo_sector; valid_sector _ := True;
            rdwr_sectors start count old := concat (demo_sector <$> seqZ start count) |}; [lia| |done].
  intros p. unfold demo_sector. rewrite length_app, length_take, length_replicate. change (Z.to_nat (2 ^ 9)) with 512%nat. lia.
Defined.

#[local] Existing Instance list_memory.

Lemma demo_sectors : 9 <= sector_shift <= 10.
Proof. simpl. lia. Qed.

Lemma fuel_2 : (2 <= 3)%nat.
Proof. lia. Qed.

Definition demo_sb : Ext2.ext2_sb_info := Ext2.SB 8 8 8192 32 1 1 128.

Definition demo_root_inode : Ext2.inode := Ext2.Inode 4 1024 0 0 0 0 0 0 0 ([10] ++ replicate 59 0).
Definition demo_link_inode : Ext2.inode := Ext2.Inode 10 2 0 0 0 0 0 0 0 ([0x2f; 0x66] ++ replicate 58 0).
Definition demo_file_inode : Ext2.inode := Ext2.Inode 8 1500 0 0 0 0 0 0 0 ([11; 0; 0; 0; 12] ++ replicate 55 0).

Definition demo_tree (i : Ext2.inode) : Prop := i ∈ [demo_root_inode; demo_link_inode; demo_file_inode].
Definition demo_bmap (i : Ext2.inode) (l : Z) : option Z := if decide (0 <= l) then Some (block_map 10 i l) else None.

(** The blocks of an inode with pointers to the first twelve only. *)
Lemma small_map_law i blocks : length (Ext2.i_block i) = 60%nat -> Forall byte_ok (Ext2.i_block i) ->
  root_ptr i <$> [12; 13; 14] = [0; 0; 0] -> Forall (fun k => root_ptr i k < 0xffffffff) (seqZ 0 12) ->
  Ext2.flags i = 0 -> blocks <= 12 ->
  bmap_law (C := unit) 10 3 i (demo_bmap i) blocks /\ forall l b, demo_bmap i l = Some b -> 0 <= b < 0x1000000000000.
Proof.
  intros Hlen Hb [= E12 E13 E14] Hs Hfl Hbl. split.
  - apply (blocks_law 10 demo_shift volume_csize); try done; [|intros; unfold full_map; by rewrite decide_True by lia|by rewrite Hfl|by etransitivity].
    intros l Hl. unfold block_map. rewrite E12, E13, E14. repeat case_decide; cbn [tree]; try done.
    rewrite Forall_forall in Hs. apply Hs, elem_of_seqZ. lia.
  - intros l b. unfold demo_bmap. case_decide; [|done]. intros [= <-].
    pose proof (block_map_range 10 demo_shift volume_csize i Hlen Hb l). lia.
Qed.

Lemma ext2_demo_ok : tree_ok 10 demo_sb 3 demo_tree (fun _ => [demo_entries]) demo_bmap.
Proof.
  constructor.
  - split; [constructor; by_compute|]. intros g Hg. simpl in Hg. assert (g = 0) as -> by lia. by vm_compute.
  - intros i Hi Hm. assert (i = demo_root_inode) as -> by (repeat (apply elem_of_cons in Hi as [->|Hi]; [done|]); by apply not_elem_of_nil in Hi).
    constructor; [by_compute|simpl; lia|]. exists (demo_bmap demo_root_inode). split; [apply small_map_law; by_compute|].
    intros k es Hk. destruct k; [|done]. injection Hk as <-. split; [repeat constructor; by_compute|]. split; [simpl; lia|].
    exists 10. by_compute.
  - intros i e d _ _ He _. unfold demo_tree. cbn [concat app] in He.
    repeat (apply elem_of_cons in He as [->|He]; [vm_compute; intros [= <-]; set_solver|]). by apply not_elem_of_nil in He.
  - intros i Hi Hm. assert (i = demo_link_inode) as -> by (repeat (apply elem_of_cons in Hi as [->|Hi]; [done|]); by apply not_elem_of_nil in Hi).
    split; [|by_compute]. constructor; [by_compute|by_compute|done].
  - intros i Hi Hm. assert (i = demo_file_inode) as -> by (repeat (apply elem_of_cons in Hi as [->|Hi]; [done|]); by apply not_elem_of_nil in Hi).
    destruct (small_map_law demo_file_inode (file_blocks 10 demo_file_inode)) as [Hlaw Hr]; [by_compute..|].
    constructor; [by_compute|exact Hlaw|exact Hr|done|]. intros l Hl. unfold demo_bmap. by rewrite decide_True by lia.
Qed.

(** The volume, mounted, with 2000 bytes of memory. *)
Definition demo_ext2_vfs : @vfs (unit * list Z) (extent * extent * Ext2.inode) :=
  mounted 8 1024 (new_pvt demo_root_inode) [0x2f; 0] (tt, replicate 2000 9).

Abbreviation demo_ops := (volume_ops (V := ext2_volume 10 demo_sb 3)).
Abbreviation demo_ext2_spec := (ext2_spec 10 demo_sb 3 demo_shift volume_csize fuel_2 demo_tree (fun _ => [demo_entries]) demo_bmap
  ext2_demo_ok (fun a => (2000 - Z.to_nat a)%nat)).

Definition demo_ext2_root : list (@node (extent * extent * Ext2.inode)) := [ext2_node demo_root_inode].

Lemma demo_ext2_vfs_ok : vfs_ok (FS := demo_ext2_spec) demo_ext2_vfs demo_ext2_root demo_ext2_root.
Proof.
  apply mounted_ok; [done| |].
  - split; [done|]. intros a. change (length (drop (Z.to_nat a) (replicate 2000 9)) = (2000 - Z.to_nat a)%nat).
    by rewrite length_drop, length_replicate.
  - cbn [VfsSpec.node_ok ext2_spec]. unfold ext2_node_ok, new_pvt. split; [done|]. split; [done|]. split; [by left|done].
Qed.

(** The path [/l] is that of a link to the file. *)
Lemma ext2_open_read_witness :
  let name := [0x2f; 0x6c] in
  exists st1 rv fd, open_file (FO := demo_ops) search_fuel demo_ext2_vfs (replicate 256 9) (name ++ 0x20 :: [0]) = Ok (st1, rv, fd) /\
    vfs_ok (FS := demo_ext2_spec) st1 demo_ext2_root demo_ext2_root /\
    ((exists q l, resolves (FS := demo_ext2_spec) demo_ext2_root (start demo_ext2_root demo_ext2_root (mangled slash_only name))
          (components name) (ext2_node q :: l) /\ Ext2.mode q = 8 /\
        fd = Some (Filedata (Ext2.size q) 9 rv) /\
        (0 < Ext2.size q ->
         let n := Z.min (2 * 2 ^ 9) (Ext2.size q) in
         exists st2, pmapi_read_file (FO := demo_ops) st1 rv 10 2 = Ok (st2, if decide (n < Ext2.size q) then rv else 0, n) /\
           vfs_ok (FS := demo_ext2_spec) st2 demo_ext2_root demo_ext2_root /\
           take (Z.to_nat n) (env_read (snd (v_rest st2)) 10) = take (Z.to_nat n) (ext2_contents 10 q (demo_bmap q)))) \/
     (rv = -1 /\ fd = None /\ v_files st1 = v_files demo_ext2_vfs /\
        (In no_file (v_files demo_ext2_vfs) ->
         snd (env_malloc (snd (v_rest demo_ext2_vfs)) (Z.of_nat (length (mangled slash_only name)) + 1)) = true ->
         no_links (FS := demo_ext2_spec) ->
         forall n l, resolves (FS := demo_ext2_spec) demo_ext2_root (start demo_ext2_root demo_ext2_root (mangled slash_only name))
           (components name) (n :: l) -> n_mode n <> DT_REG) /\
        (In no_file (v_files demo_ext2_vfs) -> (forall m n, snd (env_malloc (Environment := list_memory) m n) = true) ->
         forall n l, reachable (FS := demo_ext2_spec) demo_ext2_root demo_ext2_root (mangled slash_only name) (n :: l) -> n_mode n <> DT_REG))).
Proof.
  apply (ext2_open_read (SD := demo_volume_device) 10 demo_sb 3 demo_shift volume_csize demo_sectors fuel_2 demo_tree (fun _ => [demo_entries])
    demo_bmap ext2_demo_ok (fun a => (2000 - Z.to_nat a)%nat) demo_ext2_vfs demo_ext2_root demo_ext2_root (replicate 256 9)
    [0x2f; 0x6c] 0x20 [0] 10 2).
  - exact demo_ext2_vfs_ok.
  - done.
  - repeat constructor.
  - done.
  - vm_compute. split; [done|discriminate].
  - vm_compute. done.
  - lia.
  - change (2 * 512 <= 0x80000000). lia.
  - vm_compute. discriminate.
Defined.

(** The file is reached through the link, within the limits, so that the answer is not
    -1. *)
Example demo_reachable : reachable (FS := demo_ext2_spec) demo_ext2_root demo_ext2_root [0x2f; 0x6c]
  (ext2_node demo_file_inode :: demo_ext2_root).
Proof.
  exists 1%nat, 2%nat. split; [|by split]. change (components [0x2f; 0x6c]) with [[0x6c]].
  change 2%nat with (Z.to_nat (n_size (ext2_node demo_link_inode)) + 0)%nat.
  apply (rea_link (FS := demo_ext2_spec) demo_ext2_root 0 0 (ext2_node demo_root_inode) [] [0x6c] (ext2_node demo_link_inode) []);
    [done..|by vm_compute|done|by vm_compute|].
  assert (fs_target (FsSpec := demo_ext2_spec) (n_pvt (ext2_node demo_link_inode)) = [0x2f; 0x66]) as -> by by vm_compute.
  apply (rea_enter (FS := demo_ext2_spec) demo_ext2_root 0 0 (ext2_node demo_root_inode) [] [0x66] (ext2_node demo_file_inode) []);
    [done..|by vm_compute|done|by left|constructor].
Qed.

(** The path [/l] is that of the link to [/f]; its bytes are those of the blocks 11
    and 12. *)
Example demo_ext2_read :
  match open_file (FO := demo_ops) search_fuel demo_ext2_vfs (replicate 256 9) [0x2f; 0x6c; 0] with
  | Ok (st1, rv, _) =>
      rv = 1 /\ match pmapi_read_file (FO := demo_ops) st1 rv 10 3 with
                | Ok (st2, h, n) => h = 0 /\ n = 1500 /\
                    take 1500 (env_read (snd (v_rest st2)) 10) = replicate 1024 11 ++ replicate 476 12
                | _ => False end
  | _ => False end.
Proof. vm_compute. done. Qed.

End Ext2Vfs.
