(* ===== verification/Printf.v ===== *)
(** * Formatted output (libcomcore/vsnprintf.c, snprintf.c, sprintf.c)

    The state machine of vsnprintf reads the format character by character.  It
    writes through the macro EMIT and through [format_int], and looks at the
    number [o] of characters that were output; these three are the class
    [Sink], whose instance [buffer_sink] is the bounded buffer of the code.
    The other instance of PrintfSpec.v keeps the text that is written. *)

From Stdlib Require Import ZArith Lia Ascii.
From S2P Require Import Prelude CStr.
Import CStr.CStr.

Module Printf.

(** ** Data *)

Definition chr (c : ascii) : Z := Z.of_nat (nat_of_ascii c).
Arguments chr c%_char.

(** enum flags *)
Definition FL_ZERO : Z := 0x01.
Definition FL_MINUS : Z := 0x02.
Definition FL_PLUS : Z := 0x04.
Definition FL_TICK : Z := 0x08.
Definition FL_SPACE : Z := 0x10.
Definition FL_HASH : Z := 0x20.
Definition FL_SIGNED : Z := 0x40.
Definition FL_UPPER : Z := 0x80.

(** [flags & f] as a condition *)
Definition flag (flags f : Z) : bool := negb (bool_decide (Z.land flags f = 0)).

(** enum ranks *)
Definition rank_char : Z := -2.
Definition rank_short : Z := -1.
Definition rank_int : Z := 0.
Definition rank_long : Z := 1.
Definition rank_longlong : Z := 2.
Definition INTMAX_RANK : Z := rank_longlong.
Definition SIZE_T_RANK : Z := rank_long.
Definition PTRDIFF_T_RANK : Z := rank_long.

Definition lcdigits : list Z := chr <$> ["0"; "1"; "2"; "3"; "4"; "5"; "6"; "7"; "8"; "9"; "a"; "b"; "c"; "d"; "e"; "f"]%char.
Definition ucdigits : list Z := chr <$> ["0"; "1"; "2"; "3"; "4"; "5"; "6"; "7"; "8"; "9"; "A"; "B"; "C"; "D"; "E"; "F"]%char.

(** Arithmetic of type int overflows into undefined behaviour. *)
Definition int (x : Z) : result Z :=
  if decide (- 0x80000000 <= x < 0x80000000) then Ok x else Undef.

(** The output variables of both functions: the buffer, [q] as an index in it,
    and [o]. *)
Record cursor := Cur { buf : list Z; q : Z; o : Z }.

Definition EMIT (n : Z) (c : cursor) (x : Z) : result cursor :=
  if decide (o c < n) then b ← store (buf c) (q c) x; Ok (Cur b (q c + 1) (u32 (o c + 1)))
  else Ok (Cur (buf c) (q c) (u32 (o c + 1))).

(** [while (width > m) { EMIT(x); width--; }], with [k] rounds. *)
Fixpoint emit_pad {T} (emit : T -> Z -> result T) (k : nat) (x : Z) (t : T) : result T :=
  match k with
  | O => Ok t
  | S k => t ← emit t x; emit_pad emit k x t
  end.

(** ** format_int *)

(** [while (tmpval)]: the variables are [tmpval] and [ndigits]. *)
Definition count_step (base : Z) (s : Z * Z) : result (ctl (Z * Z) Z) :=
  let '(tmpval, ndigits) := s in
  if decide (tmpval = 0) then Ok (Break ndigits) else Ok (Continue (tmpval / base, ndigits + 1)).

(** [while (ndigits > 0)]: from right to left. *)
Definition number_step (digits : list Z) (n base tickskip : Z) (s : list Z * Z * Z * Z * Z * Z) :
    result (ctl (list Z * Z * Z * Z * Z * Z) (list Z)) :=
  let '(b, qq, oo, val, ndigits, b4tick) := s in
  if decide (ndigits > 0) then
    '(b, qq, oo, ndigits, b4tick) ←
      (if decide (b4tick = 0) then
         b ← (if decide (oo - 1 < n) then store b (qq - 1) (chr "_") else Ok b);
         Ok (b, qq - 1, oo - 1, ndigits - 1, tickskip - 1)
       else Ok (b, qq, oo, ndigits, b4tick - 1));
    d ← of_option (digits !! Z.to_nat (val mod base));
    b ← (if decide (oo - 1 < n) then store b (qq - 1) d else Ok b);
    Ok (Continue (b, qq - 1, oo - 1, val / base, ndigits - 1, b4tick))
  else Ok (Break b).

(** [q] is the index of the place in [b]; the new buffer and [o] are
    returned. *)
Definition format_int (b : list Z) (q n val flags base width prec : Z) : result (list Z * Z) :=
  let digits := if flag flags FL_UPPER then ucdigits else lcdigits in
  let negative := flag flags FL_SIGNED && bool_decide (s64 val < 0) in
  if decide (negative = true /\ s64 val = - 0x8000000000000000) then Undef else
  let minus := negative in
  let val := if (negative : bool) then u64 (- s64 val) else val in
  ndigits ← loop 65 (count_step base) (val, 0);
  let prec := if flag flags FL_HASH && bool_decide (base = 8) && bool_decide (prec < ndigits + 1)
              then ndigits + 1 else prec in
  let ndigits := if decide (ndigits < prec) then prec else if decide (val = 0) then 1 else ndigits in
  let tickskip := if flag flags FL_TICK then (if decide (base = 16) then 4 else 3) else ndigits in
  ndigits ← int (ndigits + (ndigits - 1) / tickskip);
  let nchars := ndigits in
  nchars ← (if (minus || flag flags (Z.lor FL_PLUS FL_SPACE)) then int (nchars + 1) else Ok nchars);
  nchars ← (if flag flags FL_HASH && bool_decide (base = 16) then int (nchars + 2) else Ok nchars);
  let c := Cur b q 0 in
  (* Emit early space padding *)
  let early := negb (flag flags (Z.lor FL_MINUS FL_ZERO)) && bool_decide (width > nchars) in
  c ← (if (early : bool) then emit_pad (EMIT n) (Z.to_nat (width - nchars)) (chr " ") c else Ok c);
  let width := if (early : bool) then nchars else width in
  (* Emit nondigits *)
  c ← (if (minus : bool) then EMIT n c (chr "-")
       else if flag flags FL_PLUS then EMIT n c (chr "+")
       else if flag flags FL_SPACE then EMIT n c (chr " ") else Ok c);
  c ← (if flag flags FL_HASH && bool_decide (base = 16) then
         c ← EMIT n c (chr "0"); EMIT n c (if flag flags FL_UPPER then chr "X" else chr "x")
       else Ok c);
  (* Emit zero padding *)
  let zeros := bool_decide (Z.land flags (Z.lor FL_MINUS FL_ZERO) = FL_ZERO) && bool_decide (width > ndigits)
               && bool_decide (width > nchars) in
  c ← (if (zeros : bool) then emit_pad (EMIT n) (Z.to_nat (width - nchars)) (chr "0") c else Ok c);
  let width := if (zeros : bool) then nchars else width in
  (* Generate the number *)
  let q := Printf.q c + ndigits in
  let o := u32 (o c + ndigits) in
  b ← loop (S (Z.to_nat ndigits)) (number_step digits n base tickskip) (buf c, q, o, val, ndigits, tickskip);
  (* Emit late space padding *)
  c ← (if flag flags FL_MINUS then emit_pad (EMIT n) (Z.to_nat (width - nchars)) (chr " ") (Cur b q o)
       else Ok (Cur b q o));
  Ok (buf c, Printf.o c).

(** ** What vsnprintf uses of the output *)

Class Sink (T : Type) := {
  emit : T -> Z -> result T;
  emit_int : T -> Z -> Z -> Z -> Z -> Z -> result T;
  emitted : T -> Z }.

(** The buffer of [n] characters. *)
Definition buffer_sink (n : Z) : Sink cursor := {|
  emit := EMIT n;
  emit_int c val flags base width prec :=
    '(b, sz) ← format_int (buf c) (q c) (if decide (o c < n) then n - o c else 0) val flags base width prec;
    Ok (Cur b (q c + sz) (u32 (o c + sz)));
  emitted := o |}.

(** ** vsnprintf *)

Inductive state := st_normal | st_flags | st_width | st_prec | st_modifiers.

(** The arguments are the words on the stack, and [stores] what [%n] writes:
    address, size and value. *)
Record vars := Vars {
  ap : list Z; stores : list (Z * Z * Z);
  rank : Z; width : Z; prec : Z; flags : Z; st : state }.

Definition va_word (ap : list Z) : result (Z * list Z) :=
  match ap with w :: ap => Ok (w, ap) | [] => Undef end.

Definition va_longlong (ap : list Z) : result (Z * list Z) :=
  '(lo, ap) ← va_word ap; '(hi, ap) ← va_word ap; Ok (lo + 0x100000000 * hi, ap).

Definition s8 (x : Z) : Z := (x + 0x80) mod 0x100 - 0x80.
Definition s16 (x : Z) : Z := (x + 0x8000) mod 0x10000 - 0x8000.

(** The argument of [%d] and [%i]. *)
Definition signed_arg (rank : Z) (ap : list Z) : result (Z * list Z) :=
  if decide (rank = rank_longlong) then va_longlong ap
  else
    '(w, ap) ← va_word ap;
    Ok (u64 (if decide (rank = rank_char) then s8 w else if decide (rank = rank_short) then s16 w else s32 w), ap).

(** The argument of [%o], [%u], [%x] and [%X]. *)
Definition unsigned_arg (rank : Z) (ap : list Z) : result (Z * list Z) :=
  if decide (rank = rank_longlong) then va_longlong ap
  else
    '(w, ap) ← va_word ap;
    Ok (if decide (rank = rank_char) then u8 w else if decide (rank = rank_short) then u16 w else w, ap).

(** The size of the object that [%n] writes. *)
Definition rank_size (rank : Z) : Z :=
  if decide (rank = rank_char) then 1 else if decide (rank = rank_short) then 2
  else if decide (rank = rank_longlong) then 8 else 4.

Definition null_string : list Z := chr <$> ["("; "n"; "u"; "l"; "l"; ")"; "000"]%char.

Section Code.
Context {T : Type} `{SK : !Sink T}.

(** The bytes of the memory from an address on. *)
Context (mem : Z -> list Z).

(** [for (i = slen; i; i--)] *)
Fixpoint emit_chars (n : nat) (sarg : list Z) (t : T) : result T :=
  match n with
  | O => Ok t
  | S n => match sarg with
           | sch :: sarg => t ← emit t sch; emit_chars n sarg t
           | [] => Undef
           end
  end.

(** [is_string:] *)
Definition put_string (sarg : list Z) (slen width prec flags : Z) (t : T) : result T :=
  let slen := if decide (prec <> -1 /\ slen > prec) then prec else slen in
  let pad := Z.to_nat (width - slen) in
  t ← (if decide (width > slen /\ flag flags FL_MINUS = false)
       then emit_pad emit pad (if flag flags FL_ZERO then chr "0" else chr " ") t else Ok t);
  t ← emit_chars (Z.to_nat slen) sarg t;
  if decide (width > slen /\ flag flags FL_MINUS = true) then emit_pad emit pad (chr " ") t else Ok t.

(** [switch (ch)] of the output modifiers. *)
Definition convert (ch rank flags width prec : Z) (ap : list Z) (stores : list (Z * Z * Z)) (t : T) :
    result (list Z * list (Z * Z * Z) * T) :=
  let is_integer '(val, ap) flags base prec :=
    t ← emit_int t val flags base width prec; Ok (ap, stores, t) in
  let is_unsigned flags base := v ← unsigned_arg rank ap; is_integer v flags base prec in
  let pointer flags := v ← va_word ap; is_integer v (Z.lor flags FL_HASH) 16 8 in
  if decide (ch = chr "P") then pointer (Z.lor flags FL_UPPER)
  else if decide (ch = chr "p") then pointer flags
  else if decide (ch = chr "d" \/ ch = chr "i") then v ← signed_arg rank ap; is_integer v (Z.lor flags FL_SIGNED) 10 prec
  else if decide (ch = chr "o") then is_unsigned flags 8
  else if decide (ch = chr "u") then is_unsigned flags 10
  else if decide (ch = chr "X") then is_unsigned (Z.lor flags FL_UPPER) 16
  else if decide (ch = chr "x") then is_unsigned flags 16
  else if decide (ch = chr "c") then
    '(w, ap) ← va_word ap; t ← put_string [u8 w] 1 width prec flags t; Ok (ap, stores, t)
  else if decide (ch = chr "s") then
    '(a, ap) ← va_word ap;
    let sarg := if decide (a = 0) then null_string else mem a in
    slen ← strlen sarg; t ← put_string sarg slen width prec flags t; Ok (ap, stores, t)
  else if decide (ch = chr "n") then
    '(a, ap) ← va_word ap; Ok (ap, stores ++ [(a, rank_size rank, emitted t)], t)
  else t ← emit t ch; Ok (ap, stores, t).

(** The rank after a length modifier, [None] for another character. *)
Definition modifier (ch rank : Z) : option Z :=
  if decide (ch = chr "h") then Some (rank - 1)
  else if decide (ch = chr "l") then Some (rank + 1)
  else if decide (ch = chr "j") then Some INTMAX_RANK
  else if decide (ch = chr "z") then Some SIZE_T_RANK
  else if decide (ch = chr "t") then Some PTRDIFF_T_RANK
  else if decide (ch = chr "L" \/ ch = chr "q") then Some (rank + 2)
  else None.

(** The flag of a character, [None] for another character. *)
Definition flag_char (ch : Z) : option Z :=
  if decide (ch = chr "-") then Some FL_MINUS
  else if decide (ch = chr "+") then Some FL_PLUS
  else if decide (ch = chr "'") then Some FL_TICK
  else if decide (ch = chr " ") then Some FL_SPACE
  else if decide (ch = chr "#") then Some FL_HASH
  else if decide (ch = chr "0") then Some FL_ZERO
  else None.

Definition is_digit (ch : Z) : bool := bool_decide (chr "0" <= ch <= chr "9").

(** [while ((ch = *p++))]; where the code takes back the character, [p] is the
    same in the next round. *)
Definition vsnprintf_step (s : list Z * vars * T) : result (ctl (list Z * vars * T) (vars * T)) :=
  let '(p0, v, t) := s in
  match p0 with
  | [] => Undef
  | ch :: p =>
    if decide (ch = 0) then Ok (Break (v, t)) else
    let 'Vars ap stores rank width prec flags st := v in
    match st with
    | st_normal =>
        if decide (ch = chr "%") then Ok (Continue (p, Vars ap stores rank_int 0 (-1) 0 st_flags, t))
        else t ← emit t ch; Ok (Continue (p, v, t))
    | st_flags =>
        match flag_char ch with
        | Some f => Ok (Continue (p, Vars ap stores rank width prec (Z.lor flags f) st_flags, t))
        | None => Ok (Continue (p0, Vars ap stores rank width prec flags st_width, t))
        end
    | st_width =>
        if is_digit ch then
          w ← int (width * 10); w ← int (w + (ch - chr "0"));
          Ok (Continue (p, Vars ap stores rank w prec flags st_width, t))
        else if decide (ch = chr "*") then
          '(w, ap) ← va_word ap;
          if decide (s32 w < 0) then
            w ← int (- s32 w); Ok (Continue (p, Vars ap stores rank w prec (Z.lor flags FL_MINUS) st_width, t))
          else Ok (Continue (p, Vars ap stores rank (s32 w) prec flags st_width, t))
        else if decide (ch = chr ".") then Ok (Continue (p, Vars ap stores rank width 0 flags st_prec, t))
        else Ok (Continue (p0, Vars ap stores rank width prec flags st_modifiers, t))
    | st_prec =>
        if is_digit ch then
          w ← int (prec * 10); w ← int (w + (ch - chr "0"));
          Ok (Continue (p, Vars ap stores rank width w flags st_prec, t))
        else if decide (ch = chr "*") then
          '(w, ap) ← va_word ap;
          Ok (Continue (p, Vars ap stores rank width (if decide (s32 w < 0) then -1 else s32 w) flags st_prec, t))
        else Ok (Continue (p0, Vars ap stores rank width prec flags st_modifiers, t))
    | st_modifiers =>
        match modifier ch rank with
        | Some rank => Ok (Continue (p, Vars ap stores rank width prec flags st_modifiers, t))
        | None =>
            let rank := Z.max rank_char (Z.min rank rank_longlong) in
            '(ap, stores, t) ← convert ch rank flags width prec ap stores t;
            Ok (Continue (p, Vars ap stores rank width prec flags st_normal, t))
        end
    end
  end.

Definition vsnprintf_loop (format ap : list Z) (t : T) : result (vars * T) :=
  loop (S (4 * length format)) vsnprintf_step (format, Vars ap [] rank_int 0 (-1) 0 st_normal, t).

End Code.

(** The new buffer, the value that is returned, and the stores of [%n]. *)
Definition vsnprintf (mem : Z -> list Z) (buffer : list Z) (n : Z) (format ap : list Z) :
    result (list Z * Z * list (Z * Z * Z)) :=
  '(v, c) ← vsnprintf_loop (SK := buffer_sink n) mem format ap (Cur buffer 0 0);
  b ← (if decide (o c < n) then store (buf c) (q c) 0
       else if decide (n > 0) then store (buf c) (n - 1) 0 else Ok (buf c));
  Ok (b, s32 (o c), stores v).

Definition snprintf (mem : Z -> list Z) (buffer : list Z) (n : Z) (format ap : list Z) :
    result (list Z * Z * list (Z * Z * Z)) := vsnprintf mem buffer n format ap.

Definition sprintf (mem : Z -> list Z) (buffer format ap : list Z) : result (list Z * Z * list (Z * Z * Z)) :=
  vsnprintf mem buffer (u32 (-1)) format ap.

(** [buf] is what the array holds before; the result has the buffer that
    [myputs] gets. *)
Definition printf (mem : Z -> list Z) (buf format ap : list Z) : result (list Z * Z * list (Z * Z * Z)) :=
  vsnprintf mem buf 1024 format ap.

End Printf.
