(* ===== verification/PrintfSpec.v ===== *)
(** * Formatted output: the text and the buffer

    [int_text] is the reference for the conversion of a number: padding, sign,
    prefix, digits.  The sink [text_sink] keeps the text of a format; the
    theorems say that the code writes this text into a buffer of any size, cut
    and terminated, and that the digits of a number have its value. *)

From Stdlib Require Import ZArith Lia Ascii String.
From S2P Require Import Prelude CStr Printf.
Import CStr.CStr Printf.Printf.

Module PrintfSpec.

Lemma Ok_bind {A B} (a : A) (f : A -> result B) : (Ok a ≫= f) = f a.
Proof. done. Qed.

Lemma int_ok x : - 0x80000000 <= x < 0x80000000 -> int x = Ok x.
Proof. intros. unfold int. by rewrite decide_True. Qed.

(** ** Characters in a buffer *)

(** [b] with the characters of [l] from index [i] on. *)
Definition overwrite (b : list Z) (i : Z) (l : list Z) : list Z :=
  take (Z.to_nat i) b ++ l ++ drop (Z.to_nat i + length l) b.

Lemma overwrite_length b i l : 0 <= i -> i + Z.of_nat (length l) <= Z.of_nat (length b) ->
  length (overwrite b i l) = length b.
Proof. intros. unfold overwrite. rewrite !length_app, length_take, length_drop. lia. Qed.

Lemma overwrite_nil b i : overwrite b i [] = b.
Proof. unfold overwrite. simpl. rewrite Nat.add_0_r. apply take_drop. Qed.

Lemma overwrite_store b i l x : 0 <= i -> i + Z.of_nat (length l) < Z.of_nat (length b) ->
  store (overwrite b i l) (i + Z.of_nat (length l)) x = Ok (overwrite b i (l ++ [x])).
Proof.
  intros Hi Hl. unfold store. rewrite decide_True by (rewrite overwrite_length by lia; lia). f_equal.
  unfold overwrite.
  destruct (lookup_lt_is_Some_2 b (Z.to_nat i + length l)%nat ltac:(lia)) as [y Hy].
  rewrite (drop_S b y (Z.to_nat i + length l) Hy), app_assoc.
  rewrite insert_app_r_alt by (rewrite length_app, length_take; lia).
  rewrite length_app, length_take. replace (_ - _)%nat with 0%nat by lia. simpl.
  rewrite <- !app_assoc, length_app. simpl. do 4 f_equal. lia.
Qed.

(** From right to left. *)
Lemma overwrite_front b i l x : 0 < i -> i + Z.of_nat (length l) <= Z.of_nat (length b) ->
  store (overwrite b i l) (i - 1) x = Ok (overwrite b (i - 1) (x :: l)).
Proof.
  intros Hi Hl. unfold store. rewrite decide_True by (rewrite overwrite_length by lia; lia). f_equal.
  unfold overwrite. destruct (lookup_lt_is_Some_2 b (Z.to_nat (i - 1)) ltac:(lia)) as [y Hy].
  replace (Z.to_nat i) with (S (Z.to_nat (i - 1))) by lia. rewrite (take_S_r b (Z.to_nat (i - 1)) y Hy).
  rewrite <- app_assoc, insert_app_r_alt by (rewrite length_take; lia).
  rewrite length_take. replace (_ - _)%nat with 0%nat by lia. simpl. do 4 f_equal. lia.
Qed.

Lemma overwrite_app b i l1 l2 : 0 <= i -> i + Z.of_nat (length l1 + length l2) <= Z.of_nat (length b) ->
  overwrite (overwrite b i l1) (i + Z.of_nat (length l1)) l2 = overwrite b i (l1 ++ l2).
Proof.
  intros Hi Hl. unfold overwrite. rewrite length_app, <- app_assoc.
  rewrite (app_assoc (take _ b) l1), take_app_length' by (rewrite length_app, length_take; lia).
  rewrite <- app_assoc. do 3 f_equal. rewrite drop_app_ge by (rewrite length_app, length_take; lia).
  rewrite drop_drop, length_app, length_take. f_equal. lia.
Qed.

(** Where a place of [n] characters at [i0] ends in the buffer, when [k]
    characters are output. *)
Definition room (b : list Z) (i n k : Z) : Prop := 0 <= i /\ 0 <= n /\ (0 < n -> i + Z.min n k <= Z.of_nat (length b)).

Lemma room_le b i n k k' : room b i n k -> k' <= k -> room b i n k'.
Proof. unfold room. lia. Qed.

(** What the variables of the code hold after a text was output. *)
Record out_ok (b0 : list Z) (i n : Z) (c : cursor) (text : list Z) : Prop := {
  oo_buf : buf c = overwrite b0 i (take (Z.to_nat n) text);
  oo_o : o c = Z.of_nat (length text);
  oo_q : Z.of_nat (length text) <= n -> q c = i + Z.of_nat (length text);
  oo_pos : 0 <= q c }.

Lemma out_ok_nil b0 i n : 0 <= i -> out_ok b0 i n (Cur b0 i 0) [].
Proof. intros. constructor; simpl; [by rewrite take_nil, overwrite_nil|done|lia|done]. Qed.

Section Out.
Context (b0 : list Z) (i n : Z).
Implicit Types (c : cursor) (text : list Z).

Lemma emit_ok c text x : out_ok b0 i n c text -> room b0 i n (Z.of_nat (length text) + 1) ->
  Z.of_nat (length text) + 1 < 0x100000000 ->
  exists c', EMIT n c x = Ok c' /\ out_ok b0 i n c' (text ++ [x]).
Proof.
  intros [Hb Ho Hq Hp] (Hi & Hn & Hr) Hl. unfold EMIT. rewrite Ho, u32_small by lia.
  assert (Z.of_nat (length (text ++ [x])) = Z.of_nat (length text) + 1) as El by (rewrite length_app; simpl; lia).
  case_decide as Hd.
  - rewrite Hb, Hq, take_ge, overwrite_store by lia. cbn [mbind result_bind]. eexists. split; [reflexivity|].
    constructor; cbn [buf o q]; [rewrite take_ge by lia; done|lia|lia|lia].
  - eexists. split; [reflexivity|]. constructor; cbn [buf o q]; [|lia|lia|done].
    rewrite Hb. by rewrite take_app_le by lia.
Qed.

Lemma pad_ok k x c text : out_ok b0 i n c text -> room b0 i n (Z.of_nat (length text) + Z.of_nat k) ->
  Z.of_nat (length text) + Z.of_nat k < 0x100000000 ->
  exists c', emit_pad (EMIT n) k x c = Ok c' /\ out_ok b0 i n c' (text ++ replicate k x).
Proof.
  revert c text. induction k as [|k IH]; intros c text Hc Hr Hl; cbn [emit_pad replicate].
  - rewrite app_nil_r. by exists c.
  - destruct (emit_ok c text x Hc) as (c1 & -> & Hc1); [eapply room_le; [exact Hr|lia]|lia|]. cbn [mbind result_bind].
    destruct (IH c1 (text ++ [x]) Hc1) as (c2 & -> & Hc2); [rewrite length_app; simpl; eapply room_le; [exact Hr|lia]|rewrite length_app; simpl; lia|].
    exists c2. by rewrite <- app_assoc in Hc2.
Qed.

(** A part of the code that outputs a piece of text. *)
Definition emits (f : cursor -> result cursor) (piece : list Z) : Prop := forall c text,
  out_ok b0 i n c text -> room b0 i n (Z.of_nat (length (text ++ piece))) ->
  Z.of_nat (length (text ++ piece)) < 0x100000000 ->
  exists c', f c = Ok c' /\ out_ok b0 i n c' (text ++ piece).

Lemma emits_nil : emits (fun c => Ok c) [].
Proof. intros c text Hc _ _. rewrite app_nil_r. by exists c. Qed.

Lemma emits_char x : emits (fun c => EMIT n c x) [x].
Proof. intros c text Hc. rewrite length_app, Nat2Z.inj_add. apply (emit_ok c text x Hc). Qed.

Lemma emits_pad k x : emits (fun c => emit_pad (EMIT n) k x c) (replicate k x).
Proof. intros c text Hc. rewrite length_app, length_replicate, Nat2Z.inj_add. apply (pad_ok k x c text Hc). Qed.

Lemma emits_seq f g p1 p2 : emits f p1 -> emits g p2 -> emits (fun c => c ← f c; g c) (p1 ++ p2).
Proof.
  intros Hf Hg c text Hc. rewrite app_assoc. intros Hr Hl.
  destruct (Hf c text Hc) as (c1 & -> & Hc1).
  - eapply room_le; [exact Hr|rewrite (length_app (text ++ p1)); lia].
  - rewrite (length_app (text ++ p1)) in Hl. lia.
  - cbn [mbind result_bind]. by apply Hg.
Qed.

Lemma emits_if (a : bool) f g p1 p2 : emits f p1 -> emits g p2 ->
  emits (fun c => if a then f c else g c) (if a then p1 else p2).
Proof. by destruct a. Qed.

End Out.

(** ** Flags *)

Lemma land_bit f k : 0 <= k -> Z.land f (2 ^ k) = 0 \/ Z.land f (2 ^ k) = 2 ^ k.
Proof.
  intros Hk. destruct (Z.testbit f k) eqn:E; [right|left]; apply Z.bits_inj'; intros j Hj;
    rewrite Z.land_spec, Z.pow2_bits_eqb, ?Z.bits_0 by lia; destruct (Z.eqb_spec k j) as [->|]; rewrite ?E;
    by rewrite ?andb_false_r.
Qed.

Lemma flag_lor f a b : flag f (Z.lor a b) = flag f a || flag f b.
Proof.
  unfold flag. rewrite Z.land_lor_distr_r. rewrite <- negb_andb. f_equal.
  rewrite <- bool_decide_and. apply bool_decide_ext. apply Z.lor_eq_0_iff.
Qed.

(** The flag 0 without the flag -. *)
Lemma only_zero f : bool_decide (Z.land f (Z.lor FL_MINUS FL_ZERO) = FL_ZERO) = negb (flag f FL_MINUS) && flag f FL_ZERO.
Proof.
  unfold flag. rewrite Z.land_lor_distr_r, negb_involutive. unfold FL_MINUS, FL_ZERO.
  destruct (land_bit f 1 ltac:(lia)) as [E1|E1], (land_bit f 0 ltac:(lia)) as [E0|E0];
    change (2 ^ 1) with 2 in *; change (2 ^ 0) with 1 in *; by rewrite E0, E1.
Qed.

(** ** The text of a number *)

Fixpoint num_digits (fuel : nat) (base m : Z) : Z :=
  match fuel with
  | O => 0
  | S fuel => if decide (m = 0) then 0 else 1 + num_digits fuel base (m / base)
  end.

Section Int.
Context (val flags base width prec : Z).

Definition upper : bool := flag flags FL_UPPER.
Definition negative : bool := flag flags FL_SIGNED && bool_decide (s64 val < 0).
Definition magnitude : Z := if negative then - s64 val else val.

Definition hash8 : bool := flag flags FL_HASH && bool_decide (base = 8).
Definition hash16 : bool := flag flags FL_HASH && bool_decide (base = 16).

(** The number of digits, with leading zeros. *)
Definition digits_count : Z :=
  let nd := num_digits 64 base magnitude in
  Z.max 1 (Z.max nd (if hash8 then Z.max prec (nd + 1) else prec)).

Definition group : Z := if flag flags FL_TICK then (if decide (base = 16) then 4 else 3) else digits_count.

(** With the marks between the groups. *)
Definition places : Z := digits_count + (digits_count - 1) / group.

Definition digit_char (d : Z) : Z := if decide (d < 10) then chr "0" + d else (if upper then chr "A" else chr "a") + d - 10.

(** The character at a place, counted from the right. *)
Definition place_char (j : Z) : Z :=
  if decide (j mod (group + 1) = group) then chr "_"
  else digit_char (magnitude / base ^ (j - j / (group + 1)) mod base).

Definition number_text : list Z := reverse (place_char <$> seqZ 0 places).

Definition sign_text : list Z :=
  if negative then [chr "-"] else if flag flags FL_PLUS then [chr "+"]
  else if flag flags FL_SPACE then [chr " "] else [].

Definition prefix_text : list Z := if hash16 then [chr "0"; if upper then chr "X" else chr "x"] else [].

Definition int_text : list Z :=
  let nchars := places + Z.of_nat (length (sign_text ++ prefix_text)) in
  let pad x := replicate (Z.to_nat (width - nchars)) x in
  let left := flag flags FL_MINUS in
  let zero := flag flags FL_ZERO in
  (if negb left && negb zero then pad (chr " ") else []) ++ sign_text ++ prefix_text ++
  (if negb left && zero then pad (chr "0") else []) ++ number_text ++
  (if left then pad (chr " ") else []).


(** ** The conversion of a number *)

Context (base_ok : 2 <= base <= 16) (val_ok : 0 <= val < 0x10000000000000000).

Lemma magnitude_range : 0 <= magnitude < 0x10000000000000000.
Proof. unfold magnitude, negative. destruct (flag flags FL_SIGNED); simpl; [|lia]. case_bool_decide; unfold s64 in *; dlia. Qed.

Lemma group_pos : 1 <= digits_count /\ 1 <= group.
Proof. unfold group, digits_count. repeat case_match; lia. Qed.

Lemma places_mod : 1 <= places mod (group + 1) <= group /\ digits_count <= places.
Proof.
  pose proof group_pos as [Hd Hg]. unfold places. set (d := digits_count) in *. set (g := group) in *. clearbody d g.
  pose proof (Z.div_mod (d - 1) g ltac:(lia)) as E. pose proof (Z.mod_pos_bound (d - 1) g ltac:(lia)) as Hm.
  pose proof (Z.div_pos (d - 1) g ltac:(lia) ltac:(lia)). set (a := (d - 1) / g) in *. set (r := (d - 1) mod g) in *.
  replace ((d + a) mod (g + 1)) with (r + 1); [lia|]. apply (Z.mod_unique_pos _ _ a); lia.
Qed.

Lemma digit_lookup d : 0 <= d < base ->
  (if upper then ucdigits else lcdigits) !! Z.to_nat d = Some (digit_char d).
Proof.
  intros Hd. assert (d ∈ seqZ 0 16) as H by (apply elem_of_seqZ; lia). revert H. unfold digit_char.
  change (seqZ 0 16) with [0; 1; 2; 3; 4; 5; 6; 7; 8; 9; 10; 11; 12; 13; 14; 15].
  rewrite !elem_of_cons, elem_of_nil. clear. intros H. destruct_or! H; subst; destruct upper; done.
Qed.

Lemma count_loop f m k : 0 <= m < base ^ Z.of_nat f ->
  loop (S f) (count_step base) (m, k) = Ok (k + num_digits f base m).
Proof.
  revert m k. induction f as [|f IH]; intros m k Hm.
  - assert (m = 0) as -> by (rewrite Z.pow_0_r in Hm; lia). rewrite (loop_break _ _ _ k); [|done]. simpl. f_equal. lia.
  - cbn [num_digits]. destruct (decide (m = 0)) as [->|H0].
    + rewrite (loop_break _ _ _ k) by done. f_equal. lia.
    + rewrite (loop_continue _ _ _ (m / base, k + 1)) by (unfold count_step; by rewrite decide_False).
      rewrite IH; [f_equal; lia|]. rewrite Nat2Z.inj_succ, Z.pow_succ_r in Hm by lia.
      split; [apply Z.div_pos; lia|apply Z.div_lt_upper_bound; lia].
Qed.

(** The digits that the first [j] places from the right have. *)
Definition done_digits (j : Z) : Z := j - j / (group + 1).

Lemma next_place j : 0 <= j ->
  (j mod (group + 1) = group -> (j + 1) mod (group + 1) = 0 /\ done_digits (j + 1) = done_digits j) /\
  (j mod (group + 1) <> group -> (j + 1) mod (group + 1) = j mod (group + 1) + 1 /\ done_digits (j + 1) = done_digits j + 1 /\ 0 <= done_digits j).
Proof.
  intros Hj. pose proof group_pos as [_ Hg]. unfold done_digits. set (g := group) in *. clearbody g.
  pose proof (Z.div_mod j (g + 1) ltac:(lia)) as E. pose proof (Z.mod_pos_bound j (g + 1) ltac:(lia)) as Hm.
  pose proof (Z.div_pos j (g + 1) ltac:(lia) ltac:(lia)).
  set (a := j / (g + 1)) in *. set (r := j mod (g + 1)) in *. split; intros Hr.
  - replace ((j + 1) / (g + 1)) with (a + 1) by (apply (Z.div_unique_pos _ _ _ 0); lia).
    split; [symmetry; apply (Z.mod_unique_pos _ _ (a + 1)); lia|lia].
  - replace ((j + 1) / (g + 1)) with a by (apply (Z.div_unique_pos _ _ _ (r + 1)); lia).
    split_and!; [symmetry; apply (Z.mod_unique_pos _ _ a); lia|lia|nia].
Qed.

Lemma number_text_length : Z.of_nat (length number_text) = places.
Proof. pose proof places_mod. pose proof group_pos. unfold number_text. rewrite length_reverse, length_fmap, length_seqZ. lia. Qed.

Lemma number_text_drop m : 0 < m <= places ->
  drop (Z.to_nat (m - 1)) number_text = place_char (places - m) :: drop (Z.to_nat m) number_text.
Proof.
  intros Hm. pose proof number_text_length as Hl.
  assert (number_text !! Z.to_nat (m - 1) = Some (place_char (places - m))) as E.
  { unfold number_text in *. rewrite length_reverse in Hl. rewrite reverse_lookup by lia.
    rewrite list_lookup_fmap, lookup_seqZ_lt by lia. simpl. do 2 f_equal. lia. }
  rewrite (drop_S _ _ _ E). do 2 f_equal. lia.
Qed.

(** The loop that writes a number after [t] characters of [n]. *)
Section Number.
Context (b : list Z) (i t n q0 : Z) (Hi : 0 <= i) (Ht : 0 <= t).
Context (Hq : t <= n -> 0 < n -> q0 = i + t /\ i + Z.min n (t + places) <= Z.of_nat (length b)).

(** The buffer and the variables when [m] places are left. *)
Definition number_buf (m : Z) : list Z :=
  overwrite b (i + t + m) (take (Z.to_nat (n - t - m)) (drop (Z.to_nat m) number_text)).

Definition number_state (m : Z) : list Z * Z * Z * Z * Z * Z :=
  (number_buf m, q0 + m, t + m, magnitude / base ^ done_digits (places - m), m, group - (places - m) mod (group + 1)).

Lemma put_place m x : 0 < m <= places -> x = place_char (places - m) ->
  (if decide (t + m - 1 < n) then store (number_buf m) (q0 + m - 1) x else Ok (number_buf m)) = Ok (number_buf (m - 1)).
Proof.
  intros Hm ->. pose proof number_text_length as Hlen. unfold number_buf. rewrite number_text_drop by lia. case_decide as Hlt.
  - destruct (Hq ltac:(lia) ltac:(lia)) as [-> Hr].
    rewrite overwrite_front; [|lia|rewrite length_take, length_drop; lia].
    replace (i + t + (m - 1)) with (i + t + m - 1) by lia.
    replace (Z.to_nat (n - t - (m - 1))) with (S (Z.to_nat (n - t - m))) by lia. done.
  - replace (Z.to_nat (n - t - m)) with 0%nat by lia. replace (Z.to_nat (n - t - (m - 1))) with 0%nat by lia.
    by rewrite !overwrite_nil.
Qed.

Abbreviation digits := (if upper then ucdigits else lcdigits).

(** The part of a round that writes a digit. *)
Lemma put_digit m : 0 < m <= places -> (places - m) mod (group + 1) <> group ->
  (d ← of_option (digits !! Z.to_nat ((magnitude / base ^ done_digits (places - m)) mod base));
   b ← (if decide (t + m - 1 < n) then store (number_buf m) (q0 + m - 1) d else Ok (number_buf m));
   Ok (@Continue _ (list Z) (b, q0 + m - 1, t + m - 1, magnitude / base ^ done_digits (places - m) / base, m - 1,
     group - (places - m) mod (group + 1) - 1))) = Ok (Continue (number_state (m - 1))).
Proof.
  intros Hm Hj. pose proof group_pos as [Hd Hg]. pose proof magnitude_range as Hmag.
  destruct (next_place (places - m) ltac:(lia)) as [_ Hnext]. destruct (Hnext Hj) as (Em & Ed & H0).
  rewrite digit_lookup by (apply Z.mod_pos_bound; lia). cbn [of_option mbind result_bind].
  rewrite (put_place m) by (done || (unfold place_char; by rewrite decide_False)). cbn [mbind result_bind].
  unfold number_state. replace (places - (m - 1)) with (places - m + 1) by lia. rewrite Em, Ed, Z.pow_add_r, Z.pow_1_r by lia.
  rewrite Z.div_div by (lia || (apply Z.pow_nonzero; lia)). do 2 f_equal. tuple_lia.
Qed.

Lemma number_loop m fuel : 0 <= m <= places -> (Z.to_nat m < fuel)%nat ->
  loop fuel (number_step digits n base group) (number_state m) =
  Ok (overwrite b (i + t) (take (Z.to_nat (n - t)) number_text)).
Proof.
  pose proof places_mod as [Hpm Hdp]. pose proof group_pos as [Hd Hg].
  revert m. induction fuel as [|fuel IH]; intros m Hm Hf; [lia|].
  destruct (decide (m = 0)) as [->|Hm0].
  { rewrite (loop_break _ _ _ (number_buf 0)); [unfold number_buf; by rewrite Z.add_0_r, Z.sub_0_r|].
    unfold number_step, number_state. by rewrite decide_False by lia. }
  destruct (next_place (places - m) ltac:(lia)) as [Hnext _].
  destruct (decide ((places - m) mod (group + 1) = group)) as [Hj|Hj].
  - destruct (Hnext Hj) as [Em Ed].
    assert (m <> 1) as Hm1 by (intros ->; replace (places - 1 + 1) with places in Em by lia; lia).
    rewrite <- (IH (m - 2)) by lia. apply loop_continue. unfold number_step, number_state. rewrite decide_True by lia.
    rewrite Hj, (decide_True (P := group - group = 0)) by lia.
    rewrite (put_place m) by (done || (unfold place_char; by rewrite decide_True) || lia).
    cbn [mbind result_bind]. replace (places - m + 1) with (places - (m - 1)) in * by lia.
    rewrite <- Ed. replace (group - 1) with (group - (places - (m - 1)) mod (group + 1) - 1) by lia.
    replace (q0 + m - 1) with (q0 + (m - 1)) by lia. replace (t + m - 1) with (t + (m - 1)) by lia.
    replace (m - 2) with (m - 1 - 1) by lia. apply put_digit; lia.
  - rewrite <- (IH (m - 1)) by lia. apply loop_continue. unfold number_step, number_state. rewrite decide_True by lia.
    pose proof (Z.mod_pos_bound (places - m) (group + 1) ltac:(lia)).
    rewrite (decide_False (P := group - _ = 0)) by lia. cbn [mbind result_bind]. apply put_digit; lia || done.
Qed.

End Number.

(** The number, after other text. *)
Lemma number_ok b i n c text fuel : out_ok b i n c text -> room b i n (Z.of_nat (length (text ++ number_text))) ->
  Z.of_nat (length (text ++ number_text)) < 0x100000000 -> (Z.to_nat places < fuel)%nat ->
  exists b', loop fuel (number_step (if upper then ucdigits else lcdigits) n base group)
      (buf c, q c + places, u32 (o c + places), magnitude, places, group) = Ok b' /\
    out_ok b i n (Cur b' (q c + places) (u32 (o c + places))) (text ++ number_text).
Proof.
  pose proof number_text_length as Hnl. rewrite length_app, Nat2Z.inj_add, Hnl.
  intros [Hb Ho Hqq Hpos] (Hi & Hn & Hr) Hl Hf. pose proof places_mod as [Hpm _]. pose proof group_pos as [Hd Hg].
  assert (0 <= places) as Hp0 by lia. set (t := Z.of_nat (length text)) in *.
  assert (length (buf c) = length b) as Hlb.
  { destruct (decide (n = 0)) as [->|]; [by rewrite Hb, overwrite_nil|]. rewrite Hb. apply overwrite_length; [done|].
    rewrite length_take. specialize (Hr ltac:(lia)). lia. }
  assert (t <= n -> 0 < n -> q c = i + t /\ i + Z.min n (t + places) <= Z.of_nat (length (buf c))) as Hq
    by (intros; rewrite Hlb; split; [by apply Hqq|by apply Hr]).
  pose proof (number_loop (buf c) i t n (q c) Hi ltac:(lia) Hq places fuel ltac:(lia) Hf) as Hloop.
  unfold number_state, number_buf in Hloop.
  rewrite drop_ge, take_nil, overwrite_nil, Z.sub_diag in Hloop by lia.
  change (done_digits 0) with 0 in Hloop. rewrite Z.pow_0_r, Z.div_1_r, Z.mod_0_l, Z.sub_0_r in Hloop by lia.
  rewrite Ho, (u32_small (t + places)) by lia. eexists. split; [exact Hloop|].
  constructor; cbn [buf o q].
  - rewrite Hb. destruct (decide (t < n)) as [Htn|Htn].
    + specialize (Hr ltac:(lia)). rewrite (take_ge text) by lia. rewrite take_app_ge by lia.
      rewrite overwrite_app by (rewrite ?length_take; lia).
      do 3 f_equal. lia.
    + replace (Z.to_nat (n - t)) with 0%nat by lia. rewrite overwrite_nil, take_app_le by lia. done.
  - rewrite length_app. lia.
  - rewrite length_app. intros. rewrite Hqq by lia. lia.
  - lia.
Qed.

Definition nchars : Z := places + Z.of_nat (length (sign_text ++ prefix_text)).

Lemma sign_length : Z.of_nat (length sign_text) = if negative || flag flags (Z.lor FL_PLUS FL_SPACE) then 1 else 0.
Proof. rewrite flag_lor. unfold sign_text. repeat case_match; simpl in *; simplify_eq; done. Qed.

Lemma prefix_length : Z.of_nat (length prefix_text) = if hash16 then 2 else 0.
Proof. unfold prefix_text. by destruct hash16. Qed.

Lemma int_text_length : nchars <= Z.of_nat (length int_text).
Proof.
  unfold int_text, nchars. rewrite !length_app. pose proof number_text_length. lia.
Qed.

Lemma num_digits_sign f b m : (0 < f)%nat -> 0 <= num_digits f b m /\ (num_digits f b m = 0 <-> m = 0).
Proof.
  assert (forall f m, 0 <= num_digits f b m) as Hnn.
  { clear. induction f as [|f IH]; intros m; cbn [num_digits]; [lia|]. case_decide; [lia|]. specialize (IH (m / b)). lia. }
  intros Hf. destruct f as [|f]; [lia|]. split; [apply Hnn|]. cbn [num_digits].
  specialize (Hnn f (m / b)). case_decide; lia.
Qed.

(** The variables up to the output. *)
Lemma digits_ok : s64 val <> - 0x8000000000000000 ->
  (if negative then u64 (- s64 val) else val) = magnitude /\
  loop 65 (count_step base) (magnitude, 0) = Ok (num_digits 64 base magnitude) /\
  let nd := num_digits 64 base magnitude in
  let prec := if hash8 && bool_decide (prec < nd + 1) then nd + 1 else prec in
  (if decide (nd < prec) then prec else if decide (magnitude = 0) then 1 else nd) = digits_count.
Proof.
  intros Hmin. pose proof magnitude_range as Hm. split; [|split].
  - unfold magnitude. destruct negative eqn:E; [|done]. apply u64_small. revert E. unfold negative.
    intros [_ E%bool_decide_eq_true]%andb_prop. unfold s64 in *. dlia.
  - rewrite (count_loop 64); [done|]. split; [lia|]. apply Z.lt_le_trans with (2 ^ 64); [change (2 ^ 64) with 0x10000000000000000; lia|].
    apply Z.pow_le_mono_l. lia.
  - cbn zeta. assert (0 <= num_digits 64 base magnitude /\ (num_digits 64 base magnitude = 0 <-> magnitude = 0)) as [Hn Hz].
    { apply num_digits_sign; lia. }
    unfold digits_count. set (nd := num_digits 64 base magnitude) in *. clearbody nd.
    destruct hash8; cbn [andb]; [case_bool_decide|]; repeat case_decide; lia.
Qed.

Lemma sign_emits b i n : emits b i n
  (fun c => if negative then EMIT n c (chr "-") else if flag flags FL_PLUS then EMIT n c (chr "+")
            else if flag flags FL_SPACE then EMIT n c (chr " ") else Ok c) sign_text.
Proof. unfold sign_text. repeat apply emits_if; apply emits_char || apply emits_nil. Qed.

Lemma prefix_emits b i n : emits b i n
  (fun c => if hash16 then c ← EMIT n c (chr "0"); EMIT n c (if upper then chr "X" else chr "x") else Ok c) prefix_text.
Proof.
  unfold prefix_text. apply emits_if; [|apply emits_nil]. apply (emits_seq b i n _ _ [_] [_]); apply emits_char.
Qed.

(** A pad that is only done when it is not empty. *)
Lemma pad_emits b i n (a : bool) w x :
  emits b i n (fun c => if a && bool_decide (w > nchars) then emit_pad (EMIT n) (Z.to_nat (w - nchars)) x c else Ok c)
    (if a then replicate (Z.to_nat (w - nchars)) x else []).
Proof.
  destruct a; simpl; [|apply emits_nil]. case_bool_decide; [apply emits_pad|].
  replace (Z.to_nat (w - nchars)) with 0%nat by lia. apply emits_nil.
Qed.

(** One part of the output in a goal, after the text that [Hc] has; [Hr] and
    [Hl] bound the whole. *)
Ltac out_step H Hc c' Hc' := let E := fresh "E" in
  destruct (H _ _ Hc) as (c' & E & Hc');
  [rewrite !length_app; match goal with Hr : room _ _ _ _ |- _ => eapply room_le; [exact Hr|simpl; lia] end
  |rewrite !length_app; simpl; lia
  |cbn beta in E; rewrite E; clear E; rewrite Ok_bind].

Lemma format_int_ok b i n : s64 val <> - 0x8000000000000000 ->
  room b i n (Z.of_nat (length int_text)) -> Z.of_nat (length int_text) < 0x80000000 ->
  format_int b i n val flags base width prec = Ok (overwrite b i (take (Z.to_nat n) int_text), Z.of_nat (length int_text)).
Proof.
  intros Hmin Hr Hl. destruct (digits_ok Hmin) as (Em & Ec & Ed). pose proof int_text_length as Hnl.
  pose proof number_text_length as Hnt. pose proof sign_length as Hsl. pose proof prefix_length as Hpl.
  assert (nchars = places + Z.of_nat (length sign_text) + Z.of_nat (length prefix_text)) as Enc
    by (unfold nchars; rewrite length_app; lia).
  unfold format_int. rewrite decide_False by tauto. fold negative. rewrite Em, Ec. rewrite Ok_bind.
  fold hash8 hash16 upper. cbv zeta in Ed |- *. rewrite Ed. fold group places.
  rewrite (int_ok places) by lia. rewrite Ok_bind.
  rewrite (flag_lor flags FL_MINUS), only_zero.
  assert ((if negative || flag flags (Z.lor FL_PLUS FL_SPACE) then int (places + 1) else Ok places) =
    Ok (places + Z.of_nat (length sign_text))) as ->.
  { rewrite Hsl in *. destruct (negative || _); [by rewrite int_ok by lia|by rewrite Z.add_0_r]. }
  rewrite Ok_bind.
  assert ((if hash16 then int (places + Z.of_nat (length sign_text) + 2) else Ok (places + Z.of_nat (length sign_text))) = Ok nchars) as ->.
  { rewrite Enc, Hpl in *. destruct hash16; [by rewrite int_ok by lia|by rewrite Z.add_0_r]. }
  rewrite Ok_bind.
  set (early := negb (flag flags FL_MINUS || flag flags FL_ZERO)). set (zero := negb (flag flags FL_MINUS) && flag flags FL_ZERO).
  set (w := if early && bool_decide (width > nchars) then nchars else width).
  assert (zero && bool_decide (w > places) && bool_decide (w > nchars) = zero && bool_decide (w > nchars)) as ->.
  { destruct zero; [|done]. cbn [andb]. repeat case_bool_decide; lia || done. }
  set (A := if early then replicate (Z.to_nat (width - nchars)) (chr " ") else []).
  set (Z0 := if zero then replicate (Z.to_nat (w - nchars)) (chr "0") else []).
  set (L := if flag flags FL_MINUS then replicate (Z.to_nat (w - nchars)) (chr " ") else []).
  assert (int_text = A ++ sign_text ++ prefix_text ++ Z0 ++ number_text ++ L) as Et.
  { unfold int_text, A, Z0, L, w, early, zero. fold nchars. by destruct (flag flags FL_MINUS), (flag flags FL_ZERO). }
  rewrite Et in *. clear Et. rewrite !length_app in Hr, Hl, Hnl.
  pose proof (pad_emits b i n early width (chr " ")) as HA. fold A in HA.
  pose proof (pad_emits b i n zero w (chr "0")) as HZ. fold Z0 in HZ.
  out_step HA (out_ok_nil b i n (proj1 Hr)) c1 Hc1.
  out_step (sign_emits b i n) Hc1 c2 Hc2. out_step (prefix_emits b i n) Hc2 c3 Hc3.
  out_step HZ Hc3 c4 Hc4.
  destruct (number_ok b i n c4 _ (S (Z.to_nat places)) Hc4) as (b' & -> & Hc5);
    [rewrite !length_app; eapply room_le; [exact Hr|simpl; lia]|rewrite !length_app; simpl; lia|lia|].
  rewrite Ok_bind.
  assert (emits b i n (fun c => if flag flags FL_MINUS then
    emit_pad (EMIT n) (Z.to_nat ((if zero && bool_decide (w > nchars) then nchars else w) - nchars)) (chr " ") c else Ok c) L) as HL.
  { unfold L, zero. destruct (flag flags FL_MINUS); [apply emits_pad|apply emits_nil]. }
  out_step HL Hc5 c6 Hc6. destruct Hc6 as [-> -> _ _]. by rewrite <- !app_assoc.
Qed.

(** ** The digits read back *)

Definition digit_value (c : Z) : Z :=
  if decide (c <= chr "9") then c - chr "0" else if decide (c <= chr "F") then c - chr "A" + 10 else c - chr "a" + 10.

(** The number that digits in a base write, with marks between them. *)
Definition digits_value (l : list Z) : Z :=
  foldr (fun c acc => if decide (c = chr "_") then acc else digit_value c + base * acc) 0 (reverse l).

Lemma digit_char_value d : 0 <= d < base -> digit_char d <> chr "_" /\ digit_value (digit_char d) = d.
Proof.
  intros Hd. assert (d ∈ seqZ 0 16) as H by (apply elem_of_seqZ; lia). revert H. unfold digit_char.
  change (seqZ 0 16) with [0; 1; 2; 3; 4; 5; 6; 7; 8; 9; 10; 11; 12; 13; 14; 15].
  rewrite !elem_of_cons, elem_of_nil. clear. intros H. destruct_or! H; subst; destruct upper; done.
Qed.

Lemma places_value k j : 0 <= j -> exists e, 0 <= e /\ done_digits (j + Z.of_nat k) = done_digits j + e /\
  foldr (fun c acc => if decide (c = chr "_") then acc else digit_value c + base * acc) 0
    (place_char <$> seqZ j (Z.of_nat k)) = (magnitude / base ^ done_digits j) mod base ^ e.
Proof.
  revert j. induction k as [|k IH]; intros j Hj.
  - exists 0. rewrite !Z.add_0_r. split_and!; [lia|lia|]. by rewrite Z.pow_0_r, Z.mod_1_r.
  - destruct (IH (j + 1) ltac:(lia)) as (e & He & Ed & Ev). rewrite seqZ_cons by lia.
    replace (Z.succ j) with (j + 1) by lia. replace (Z.pred (Z.of_nat (S k))) with (Z.of_nat k) by lia.
    rewrite fmap_cons. cbn [foldr]. replace (j + Z.of_nat (S k)) with (j + 1 + Z.of_nat k) by lia.
    rewrite Ev. destruct (next_place j Hj) as [Ht Hdg].
    destruct (decide (j mod (group + 1) = group)) as [Hm|Hm].
    + destruct (Ht Hm) as [_ E1]. rewrite E1 in *. exists e.
      rewrite decide_True; [done|]. unfold place_char. by rewrite decide_True.
    + destruct (Hdg Hm) as (_ & E1 & H0). rewrite E1 in *. exists (e + 1). split_and!; [lia|lia|].
      assert (place_char j = digit_char (magnitude / base ^ done_digits j mod base)) as ->
        by (unfold place_char; by rewrite decide_False).
      destruct (digit_char_value ((magnitude / base ^ done_digits j) mod base)) as [Hc Hv]; [apply Z.mod_pos_bound; lia|].
      rewrite decide_False, Hv by done. rewrite !Z.pow_add_r, !Z.pow_1_r by lia.
      rewrite <- Z.div_div by (lia || (apply Z.pow_nonzero; lia)).
      rewrite (Z.mul_comm (base ^ e)), Z.rem_mul_r by (lia || (apply Z.pow_pos_nonneg; lia)). done.
Qed.

Lemma num_digits_bound f m : 0 <= m < base ^ Z.of_nat f -> m < base ^ num_digits f base m.
Proof.
  revert m. induction f as [|f IH]; intros m Hm; cbn [num_digits]; [lia|]. case_decide as H0; [subst; lia|].
  rewrite Nat2Z.inj_succ, Z.pow_succ_r in Hm by lia.
  assert (m / base < base ^ num_digits f base (m / base)) as Hd.
  { apply IH. split; [apply Z.div_pos; lia|apply Z.div_lt_upper_bound; lia]. }
  assert (0 <= num_digits f base (m / base)) as Hn.
  { destruct f; [simpl; lia|]. apply num_digits_sign. lia. }
  rewrite Z.pow_add_r, Z.pow_1_r by lia. pose proof (Z.div_mod m base ltac:(lia)). pose proof (Z.mod_pos_bound m base ltac:(lia)). nia.
Qed.

Lemma number_value : digits_value number_text = magnitude.
Proof.
  unfold digits_value, number_text. rewrite reverse_involutive. pose proof magnitude_range as Hm.
  pose proof number_text_length as Hl. destruct (places_value (Z.to_nat places) 0 ltac:(lia)) as (e & He & Ed & Ev).
  rewrite Z2Nat.id in Ed, Ev by lia. rewrite Ev. clear Ev.
  change (done_digits 0) with 0 in *. rewrite Z.pow_0_r, Z.div_1_r, !Z.add_0_l in *.
  assert (e = digits_count) as ->.
  { rewrite <- Ed. pose proof group_pos as [Hd Hg]. unfold done_digits, places. set (d := digits_count) in *. set (g := group) in *.
    clearbody d g. pose proof (Z.div_mod (d - 1) g ltac:(lia)). pose proof (Z.mod_pos_bound (d - 1) g ltac:(lia)).
    set (a := (d - 1) / g) in *. replace ((d + a) / (g + 1)) with a; [lia|].
    apply (Z.div_unique_pos _ _ _ ((d - 1) mod g + 1)); lia. }
  apply Z.mod_small. split; [lia|]. eapply Z.lt_le_trans; [apply (num_digits_bound 64)|].
  - split; [lia|]. apply Z.lt_le_trans with (2 ^ 64); [change (2 ^ 64) with 0x10000000000000000; lia|apply Z.pow_le_mono_l; lia].
  - apply Z.pow_le_mono_r; [lia|]. unfold digits_count. case_match; lia.
Qed.

(** A number is written as its reference text: padding, sign, prefix and
    digits, right or left adjusted, with zeros or marks if asked for; only the
    part that fits is written, and the full length is returned.  The digits
    read back are the magnitude of the number. *)
Theorem format_int_correct b i n : s64 val <> - 0x8000000000000000 ->
  room b i n (Z.of_nat (length int_text)) -> Z.of_nat (length int_text) < 0x80000000 ->
  format_int b i n val flags base width prec = Ok (overwrite b i (take (Z.to_nat n) int_text), Z.of_nat (length int_text)) /\
  digits_value number_text = magnitude.
Proof. intros Hmin Hr Hl. split; [by apply format_int_ok|apply number_value]. Qed.

End Int.

(** ** The text of a format *)

(** The sink that keeps the text; the least number cannot be negated. *)
#[local] Instance text_sink : Sink (list Z) := {|
  emit t x := Ok (t ++ [x]);
  emit_int t val flags base width prec :=
    if decide (s64 val = - 0x8000000000000000) then Undef else Ok (t ++ int_text val flags base width prec);
  emitted t := Z.of_nat (length t) |}.

Definition word_ok (w : Z) : Prop := 0 <= w < 0x100000000.

Section Sim.
Context (mem : Z -> list Z) (b : list Z) (n : Z).

#[local] Instance the_sink : Sink cursor := buffer_sink n.

Abbreviation emits := (emits b 0 n).

Lemma emits_int val flags base width prec : s64 val <> - 0x8000000000000000 -> 2 <= base <= 16 -> 0 <= val < 0x10000000000000000 ->
  Z.of_nat (length (int_text val flags base width prec)) < 0x80000000 ->
  emits (fun c => emit_int c val flags base width prec) (int_text val flags base width prec).
Proof.
  intros Hmin Hbase Hval Hlen c text [Hb Ho Hq Hpos]. set (it := int_text _ _ _ _ _) in *.
  rewrite length_app, Nat2Z.inj_add. intros (_ & Hn & Hr) Hl. simpl.
  set (t := Z.of_nat (length text)) in *.
  assert (length (buf c) = length b) as Hlb.
  { destruct (decide (n = 0)) as [->|]; [by rewrite Hb, overwrite_nil|]. rewrite Hb. apply overwrite_length; [done|].
    rewrite length_take. specialize (Hr ltac:(lia)). lia. }
  rewrite format_int_ok; [|done|done|done| |exact Hlen].
  2: { fold it. rewrite Ho. split; [done|]. case_decide; [|lia]. split; [lia|]. intros. rewrite Hlb, Hq by lia. lia. }
  fold it. cbn [mbind result_bind]. rewrite Ho, u32_small by lia. eexists. split; [reflexivity|].
  constructor; cbn [buf o q]; rewrite ?length_app; try lia.
  case_decide as Hd.
  - rewrite Hb, Hq, (take_ge text), take_app_ge by lia. replace (Z.to_nat n - length text)%nat with (Z.to_nat (n - t)) by lia.
    apply (overwrite_app b 0 text); [lia|]. specialize (Hr ltac:(lia)). rewrite length_take. lia.
  - simpl. rewrite overwrite_nil, Hb. by rewrite take_app_le by lia.
Qed.

Lemma pad_text k x (t : list Z) : emit_pad emit k x t = Ok (t ++ replicate k x).
Proof.
  revert t. induction k as [|k IH]; intros t; simpl; [by rewrite app_nil_r|]. by rewrite IH, <- app_assoc.
Qed.

Lemma chars_text k sarg (t r : list Z) : emit_chars k sarg t = Ok r ->
  r = t ++ take k sarg /\ emits (emit_chars k sarg) (take k sarg).
Proof.
  revert sarg t. induction k as [|k IH]; intros sarg t; simpl.
  - intros [= <-]. rewrite app_nil_r. split; [done|apply emits_nil].
  - destruct sarg as [|x sarg]; [done|]. intros H. apply IH in H as [-> He]. rewrite <- app_assoc. split; [done|].
    apply (emits_seq b 0 n (fun c => EMIT n c x) _ [x]); [apply emits_char|done].
Qed.

Lemma string_text sarg slen width prec flags (t r : list Z) : put_string sarg slen width prec flags t = Ok r ->
  exists piece, r = t ++ piece /\ emits (put_string sarg slen width prec flags) piece.
Proof.
  unfold put_string. set (len := if decide (prec <> -1 /\ slen > prec) then prec else slen).
  set (k := Z.to_nat (width - len)). set (x := if flag flags FL_ZERO then _ else _).
  set (p1 := if decide (width > len /\ flag flags FL_MINUS = false) then replicate k x else []).
  set (p3 := if decide (width > len /\ flag flags FL_MINUS = true) then replicate k (chr " ") else []).
  assert ((if decide (width > len /\ flag flags FL_MINUS = false) then emit_pad emit k x t else Ok t) = Ok (t ++ p1)) as ->.
  { unfold p1. case_decide; [apply pad_text|by rewrite app_nil_r]. }
  cbn [mbind result_bind]. destruct (emit_chars (Z.to_nat len) sarg (t ++ p1)) as [t2| |] eqn:E2; [|done..].
  apply chars_text in E2 as [-> He]. cbn [mbind result_bind].
  assert ((if decide (width > len /\ flag flags FL_MINUS = true) then emit_pad emit k (chr " ") ((t ++ p1) ++ take (Z.to_nat len) sarg)
    else Ok ((t ++ p1) ++ take (Z.to_nat len) sarg)) = Ok (t ++ p1 ++ take (Z.to_nat len) sarg ++ p3)) as ->.
  { unfold p3. case_decide; [rewrite pad_text|rewrite app_nil_r]; by rewrite <- !app_assoc. }
  intros [= <-]. exists (p1 ++ take (Z.to_nat len) sarg ++ p3). split; [done|].
  apply (emits_seq b 0 n (fun c => if decide (width > len /\ flag flags FL_MINUS = false) then emit_pad (EMIT n) k x c else Ok c)).
  { unfold p1. case_decide; [apply emits_pad|apply emits_nil]. }
  apply (emits_seq b 0 n _ (fun c => if decide (width > len /\ flag flags FL_MINUS = true) then emit_pad (EMIT n) k (chr " ") c else Ok c)).
  { done. }
  unfold p3. case_decide; [apply emits_pad|apply emits_nil].
Qed.

(** The two sinks in step: what one does with a text, the other does with a
    buffer that has it. *)
Definition simulated {X} (t : list Z) (rt : result (X * list Z)) (f : cursor -> result (X * cursor)) : Prop :=
  forall x r, rt = Ok (x, r) -> exists piece, r = t ++ piece /\
    forall c, out_ok b 0 n c t -> room b 0 n (Z.of_nat (length r)) -> Z.of_nat (length r) < 0x80000000 ->
    exists c', f c = Ok (x, c') /\ out_ok b 0 n c' r.

Lemma sim_bind {A X} (m : result A) t (g : A -> result (X * list Z)) h :
  (forall a, m = Ok a -> simulated t (g a) (h a)) -> simulated t (m ≫= g) (fun c => m ≫= fun a => h a c).
Proof. intros H x r E. destruct m as [a| |]; [|done..]. by apply (H a). Qed.

Lemma sim_emits {X} (x : X) t piece f : emits f piece ->
  simulated t (Ok (x, t ++ piece)) (fun c => c ← f c; Ok (x, c)).
Proof.
  intros Hf y r [= <- <-]. exists piece. split; [done|]. intros c Hc Hr Hl.
  destruct (Hf c t Hc Hr ltac:(lia)) as (c' & -> & Hc'). by exists c'.
Qed.

Lemma sim_pure {X} (x : X) t : simulated t (Ok (x, t)) (fun c => Ok (x, c)).
Proof. intros y r [= <- <-]. exists []. rewrite app_nil_r. split; [done|]. intros c Hc _ _. by exists c. Qed.

Lemma sim_string {X} (x : X) t sarg slen width prec flags :
  simulated t (t ← put_string sarg slen width prec flags t; Ok (x, t))
    (fun c => c ← put_string sarg slen width prec flags c; Ok (x, c)).
Proof.
  destruct (put_string sarg slen width prec flags t) as [r| |] eqn:E; [|intros ? ? [=]..].
  apply string_text in E as (piece & -> & He). by apply sim_emits.
Qed.

Lemma sim_int {X} (x : X) t val flags base width prec : 2 <= base <= 16 -> 0 <= val < 0x10000000000000000 ->
  simulated t (t ← emit_int t val flags base width prec; Ok (x, t))
    (fun c => c ← emit_int c val flags base width prec; Ok (x, c)).
Proof.
  intros Hb Hv. simpl. case_decide as Hm; [intros ? ? [=]|]. cbn [mbind result_bind]. intros y r [= <- <-].
  eexists. split; [reflexivity|]. intros c Hc Hr Hl. rewrite length_app in Hl.
  destruct (emits_int val flags base width prec Hm Hb Hv ltac:(lia) c t Hc Hr) as (c' & E & Hc'); [rewrite length_app; lia|].
  simpl in E. rewrite E. by exists c'.
Qed.

Lemma va_word_ok w ap ap' : Forall word_ok ap -> va_word ap = Ok (w, ap') -> word_ok w /\ Forall word_ok ap'.
Proof. destruct 1; [done|]. by intros [= <- <-]. Qed.

Lemma va_longlong_ok v ap ap' : Forall word_ok ap -> va_longlong ap = Ok (v, ap') ->
  0 <= v < 0x10000000000000000 /\ Forall word_ok ap'.
Proof.
  intros H. unfold va_longlong. intros ([lo ap1] & E1 & ([hi ap2] & E2 & [= <- <-])%bind_Ok_inv)%bind_Ok_inv.
  apply va_word_ok in E1 as [H1 H2]; [|done]. apply va_word_ok in E2 as [H3 H4]; [|done]. unfold word_ok in *. split; [lia|done].
Qed.

Lemma signed_arg_ok v rank ap ap' : Forall word_ok ap -> signed_arg rank ap = Ok (v, ap') ->
  0 <= v < 0x10000000000000000 /\ Forall word_ok ap'.
Proof.
  intros H. unfold signed_arg. case_decide; [by apply va_longlong_ok|].
  intros ([w ap1] & E1 & [= <- <-])%bind_Ok_inv. apply va_word_ok in E1 as [H1 H2]; [|done]. split; [apply u64_range|done].
Qed.

Lemma unsigned_arg_ok v rank ap ap' : Forall word_ok ap -> unsigned_arg rank ap = Ok (v, ap') ->
  0 <= v < 0x10000000000000000 /\ Forall word_ok ap'.
Proof.
  intros H. unfold unsigned_arg. case_decide; [by apply va_longlong_ok|].
  intros ([w ap1] & E1 & [= <- <-])%bind_Ok_inv. apply va_word_ok in E1 as [H1 H2]; [|done]. split; [|done].
  pose proof (u8_range w). pose proof (u16_range w). unfold word_ok in *. repeat case_decide; lia.
Qed.

Lemma convert_sim ch rank flags width prec ap stores t : Forall word_ok ap ->
  simulated t (convert mem ch rank flags width prec ap stores t)
    (fun c => convert mem ch rank flags width prec ap stores c).
Proof.
  intros Hap. unfold convert.
  repeat case_decide;
    try (apply sim_bind; intros [v ap'] E;
         first [apply va_word_ok in E as [? ?]|apply signed_arg_ok in E as [? ?]|apply unsigned_arg_ok in E as [? ?]]; [|done]).
  all: try (apply sim_int; [lia|by unfold word_ok in *; lia || idtac]).
  - apply sim_string.
  - apply sim_bind. intros slen _. apply sim_string.
  - intros x r [= <- <-]. exists []. rewrite app_nil_r. split; [done|]. intros c Hc _ _. exists c.
    simpl. by rewrite (oo_o _ _ _ _ _ Hc).
  - apply (sim_emits _ t [ch] (fun c => EMIT n c ch)), emits_char.
Qed.

Lemma convert_args ch rank flags width prec ap stores (t : list Z) ap' stores' r : Forall word_ok ap ->
  convert mem ch rank flags width prec ap stores t = Ok (ap', stores', r) -> Forall word_ok ap'.
Proof.
  intros Hap. unfold convert.
  repeat case_decide;
    try (intros ([v ap1] & E & Hk)%bind_Ok_inv; revert Hk;
         first [apply va_word_ok in E as [? ?]|apply signed_arg_ok in E as [? ?]|apply unsigned_arg_ok in E as [? ?]]; [|done]);
    try (intros (? & _ & [= <- _ _])%bind_Ok_inv; done).
  - intros (? & _ & (? & _ & [= <- _ _])%bind_Ok_inv)%bind_Ok_inv; done.
  - by intros [= <- _ _].
Qed.


(** One round. *)
Definition step_simulated (p : list Z) (v : vars) (t : list Z) (res : ctl (list Z * vars * list Z) (vars * list Z)) : Prop :=
  match res with
  | Continue (p', v', r) => Forall word_ok (ap v') /\ exists piece, r = t ++ piece /\
      forall c, out_ok b 0 n c t -> room b 0 n (Z.of_nat (length r)) -> Z.of_nat (length r) < 0x80000000 ->
      exists c', vsnprintf_step mem (p, v, c) = Ok (Continue (p', v', c')) /\ out_ok b 0 n c' r
  | Break (v', r) => r = t /\ forall c, vsnprintf_step mem (p, v, c) = Ok (Break (v', c))
  end.

(** A round without output. *)
Lemma silent p v t p' v' : Forall word_ok (ap v') ->
  (forall c, vsnprintf_step mem (p, v, c) = Ok (Continue (p', v', c))) -> step_simulated p v t (Continue (p', v', t)).
Proof. intros Hap H. split; [done|]. exists []. rewrite app_nil_r. split; [done|]. intros c Hc _ _. by exists c. Qed.

(** Ends a case without output, with what is known of the code's tests. *)
Ltac silent := apply silent; [done|intros c; cbn [vsnprintf_step]; rewrite decide_False by done;
  repeat first [rewrite decide_True by done | rewrite decide_False by done
    | match goal with E : _ = Ok _ |- _ => rewrite E | E : _ = Some _ |- _ => rewrite E
      | E : _ = None |- _ => rewrite E | E : is_digit _ = _ |- _ => rewrite E end
    | progress cbn [mbind result_bind]]; done].

Lemma digit_case x y (g : Z -> result (ctl (list Z * vars * list Z) (vars * list Z))) res :
  (w ← int x; w ← int (w + y); g w) = Ok res -> exists w w', int x = Ok w /\ int (w + y) = Ok w' /\ g w' = Ok res.
Proof. intros (w & E & (w' & E' & H)%bind_Ok_inv)%bind_Ok_inv. eauto. Qed.

Lemma step_sim p v t res : Forall word_ok (ap v) -> vsnprintf_step mem (p, v, t) = Ok res -> step_simulated p v t res.
Proof.
  intros Hap. destruct p as [|ch p]; [done|]. cbn [vsnprintf_step]. case_decide as Hz.
  { intros [= <-]. split; [done|]. intros c. cbn [vsnprintf_step]. by rewrite decide_True. }
  destruct v as [ap stores rank width prec flags []]; cbn [Printf.ap] in *.
  - case_decide as Hp; [intros [= <-]; silent|].
    intros [= <-]. split; [done|]. exists [ch]. split; [done|]. intros c Hc Hr Hl. cbn [vsnprintf_step].
    rewrite !decide_False by done. destruct (emits_char b 0 n ch c t Hc Hr ltac:(lia)) as (c' & E & Hc').
    simpl. rewrite E. by exists c'.
  - destruct (flag_char ch) as [f|] eqn:E; intros [= <-]; silent.
  - destruct (is_digit ch) eqn:Ed; [intros (w & w' & E1 & E2 & [= <-])%digit_case; silent|].
    case_decide as Hs; [|case_decide as Hd; intros [= <-]; silent].
    intros ([w ap'] & E1 & H)%bind_Ok_inv. pose proof (va_word_ok _ _ _ Hap E1) as [_ Hap']. revert H.
    case_decide as Hn; [intros (w' & E2 & [= <-])%bind_Ok_inv; silent|intros [= <-]; silent].
  - destruct (is_digit ch) eqn:Ed; [intros (w & w' & E1 & E2 & [= <-])%digit_case; silent|].
    case_decide as Hs; [|intros [= <-]; silent].
    intros ([w ap'] & E1 & [= <-])%bind_Ok_inv. pose proof (va_word_ok _ _ _ Hap E1) as [_ Hap']. silent.
  - destruct (modifier ch rank) as [rk|] eqn:E; [intros [= <-]; silent|].
    intros ([[ap' stores'] r] & E1 & [= <-])%bind_Ok_inv. split; [exact (convert_args _ _ _ _ _ _ _ _ _ _ _ Hap E1)|].
    destruct (convert_sim _ _ _ _ _ _ _ _ Hap _ _ E1) as (piece & -> & Hsim). exists piece. split; [done|].
    intros c Hc Hr Hl. destruct (Hsim c Hc Hr Hl) as (c' & E2 & Hc'). cbn [vsnprintf_step].
    rewrite decide_False, E by done. rewrite E2. by exists c'.
Qed.

Lemma loop_sim fuel p v t v' r : Forall word_ok (ap v) ->
  loop fuel (vsnprintf_step mem) (p, v, t) = Ok (v', r) -> (exists piece, r = t ++ piece) /\
  forall c, out_ok b 0 n c t -> room b 0 n (Z.of_nat (length r)) -> Z.of_nat (length r) < 0x80000000 ->
  exists c', loop fuel (vsnprintf_step mem) (p, v, c) = Ok (v', c') /\ out_ok b 0 n c' r.
Proof.
  revert p v t. induction fuel as [|fuel IH]; intros p v t Hap; [done|].
  intros (res & Es & Hl)%bind_Ok_inv. pose proof (step_sim _ _ _ _ Hap Es) as Hs.
  destruct res as [[[p1 v1] t1]|[v1 t1]].
  - destruct Hs as (Hap1 & piece & -> & Hs). destruct (IH _ _ _ Hap1 Hl) as [[piece2 ->] Hc2].
    split; [exists (piece ++ piece2); by rewrite app_assoc|]. intros c Hc Hr Hlen.
    rewrite (length_app (t ++ piece)) in Hr, Hlen.
    destruct (Hs c Hc) as (c1 & E1 & Hc1); [eapply room_le; [exact Hr|lia]|lia|].
    destruct (Hc2 c1 Hc1) as (c2 & E2 & Hc2'); [rewrite length_app; done|rewrite length_app; lia|].
    exists c2. split; [|done]. by rewrite (loop_continue _ _ _ _ E1).
  - destruct Hs as [-> Hs]. injection Hl as <- <-. split; [exists []; by rewrite app_nil_r|].
    intros c Hc _ _. exists c. split; [|done]. by rewrite (loop_break _ _ _ _ (Hs c)).
Qed.

End Sim.

(** The text of a format and the stores of its [%n]. *)
Definition format_text (mem : Z -> list Z) (format ap : list Z) : result (list Z * list (Z * Z * Z)) :=
  '(v, text) ← vsnprintf_loop mem format ap []; Ok (text, stores v).

(** What a buffer of [n] characters gets of a text. *)
Definition cut (n : Z) (text : list Z) : list Z :=
  if decide (n = 0) then [] else take (Z.to_nat (n - 1)) text ++ [0].

Lemma terminate b n c text : out_ok b 0 n c text -> 0 <= n ->
  (0 < n -> Z.min n (Z.of_nat (length text) + 1) <= Z.of_nat (length b)) ->
  (if decide (o c < n) then store (buf c) (q c) 0 else if decide (n > 0) then store (buf c) (n - 1) 0 else Ok (buf c)) =
  Ok (overwrite b 0 (cut n text)).
Proof.
  intros [-> -> Hq _] Hn Hb. unfold cut. repeat case_decide; try lia.
  - rewrite Hq, take_ge, (overwrite_store b 0 text) by lia. do 3 f_equal. by rewrite take_ge by lia.
  - assert (exists x, take (Z.to_nat n) text = take (Z.to_nat (n - 1)) text ++ [x]) as [x ->].
    { destruct (lookup_lt_is_Some_2 text (Z.to_nat (n - 1)) ltac:(lia)) as [x Hx]. exists x.
      rewrite <- (take_S_r _ _ _ Hx). f_equal. lia. }
    set (l := take (Z.to_nat (n - 1)) text). assert (length l = Z.to_nat (n - 1)) as Hl by (unfold l; rewrite length_take; lia).
    unfold store. rewrite decide_True by (rewrite overwrite_length; rewrite ?length_app; simpl; lia). f_equal.
    unfold overwrite. simpl. rewrite <- app_assoc, insert_app_r_alt by lia. replace (_ - _)%nat with 0%nat by lia.
    simpl. rewrite <- app_assoc, !length_app. done.
  - by replace n with 0 by lia.
Qed.

Lemma vsnprintf_ok (mem : Z -> list Z) (buffer : list Z) (n : Z) (format ap text : list Z) (sts : list (Z * Z * Z)) :
  format_text mem format ap = Ok (text, sts) -> Forall word_ok ap -> Z.of_nat (length text) < 0x80000000 ->
  0 <= n -> (0 < n -> Z.min n (Z.of_nat (length text) + 1) <= Z.of_nat (length buffer)) ->
  vsnprintf mem buffer n format ap = Ok (overwrite buffer 0 (cut n text), Z.of_nat (length text), sts).
Proof.
  intros Ht Hap Hl Hn Hb. unfold format_text in Ht. apply bind_Ok_inv in Ht as ([v r] & Ht & [= <- <-]).
  unfold vsnprintf_loop in Ht. apply (loop_sim mem buffer n) in Ht as [_ Hsim]; [|done].
  destruct (Hsim (Cur buffer 0 0)) as (c & E & Hc); [by apply out_ok_nil|split; [done|split; [done|lia]]|done|].
  unfold vsnprintf, vsnprintf_loop. unfold the_sink in E. rewrite E. cbn [mbind result_bind].
  rewrite (terminate _ _ _ _ Hc Hn Hb). cbn [mbind result_bind]. rewrite (oo_o _ _ _ _ _ Hc).
  by rewrite s32_small by lia.
Qed.

(** C38. Whatever the size of the buffer, vsnprintf writes the text of the
    format, cut to leave room for a zero, and the zero, and nothing outside;
    it returns the length of the whole text, and [%n] gets the number of
    characters of the whole text so far.  A buffer of size 0 is not touched. *)
Theorem vsnprintf_correct (mem : Z -> list Z) (buffer : list Z) (n : Z) (format ap text : list Z) (sts : list (Z * Z * Z)) :
  format_text mem format ap = Ok (text, sts) -> Forall word_ok ap -> Z.of_nat (length text) < 0x80000000 ->
  0 <= n -> (0 < n -> Z.min n (Z.of_nat (length text) + 1) <= Z.of_nat (length buffer)) ->
  vsnprintf mem buffer n format ap = Ok (overwrite buffer 0 (cut n text), Z.of_nat (length text), sts).
Proof. apply vsnprintf_ok. Qed.

(** ** Termination *)

(** The rounds that are left at most. *)
Definition rounds (p : list Z) (s : state) : nat :=
  (4 * length p + match s with st_normal => 0 | st_flags => 3 | st_width => 2 | st_prec => 2 | st_modifiers => 1 end)%nat.

Lemma bind_ends {A B} (m : result A) (f : A -> result B) :
  m <> NoFuel -> (forall a, m = Ok a -> f a <> NoFuel) -> (m ≫= f) <> NoFuel.
Proof. destruct m; simpl; [|done..]. intros _ H. by apply H. Qed.

Lemma int_ends x : int x <> NoFuel.
Proof. unfold int. by case_decide. Qed.

Lemma va_word_ends ap : va_word ap <> NoFuel.
Proof. by destruct ap. Qed.

Lemma va_longlong_ends ap : va_longlong ap <> NoFuel.
Proof. by destruct ap as [|? []]. Qed.

Lemma strlen_ends s : strlen s <> NoFuel.
Proof. induction s as [|c s IH]; simpl; [done|]. case_decide; [done|]. by apply bind_ends. Qed.

Lemma emit_chars_ends k s (t : list Z) : emit_chars k s t <> NoFuel.
Proof. revert s t. induction k as [|k IH]; intros [|x s] t; simpl; [done..|]. apply IH. Qed.

Lemma emit_pad_ends k x (t : list Z) : emit_pad emit k x t <> NoFuel.
Proof. by rewrite pad_text. Qed.

Create HintDb ends.
#[local] Hint Resolve emit_pad_ends int_ends va_word_ends va_longlong_ends strlen_ends emit_chars_ends : ends.

(** Splits the sequence of a computation that only has parts that end. *)
Ltac ends := repeat first [done | solve [auto with ends] | apply bind_ends; [|intros ? _] | case_match].

Lemma put_string_ends s slen width prec flags (t : list Z) : put_string s slen width prec flags t <> NoFuel.
Proof. unfold put_string. ends. Qed.

Lemma emit_int_ends (t : list Z) val flags base width prec : emit_int t val flags base width prec <> NoFuel.
Proof. simpl. by case_decide. Qed.

#[local] Hint Resolve put_string_ends emit_int_ends : ends.

Lemma convert_ends mem ch rank flags width prec ap stores (t : list Z) :
  convert mem ch rank flags width prec ap stores t <> NoFuel.
Proof.
  unfold convert, signed_arg, unsigned_arg. repeat case_decide; ends.
Qed.

Lemma step_ends mem p v (t : list Z) : match vsnprintf_step mem (p, v, t) with
  | Ok (Continue (p', v', _)) => (rounds p' (st v') < rounds p (st v))%nat
  | NoFuel => False
  | _ => True
  end.
Proof.
  destruct p as [|ch p]; [done|]. cbn [vsnprintf_step]. case_decide; [done|].
  destruct v as [ap stores rank width prec flags []].
  - case_decide; unfold rounds; simpl; lia.
  - destruct (flag_char ch); unfold rounds; simpl; lia.
  - destruct (is_digit ch); [|repeat case_decide; [|unfold rounds; simpl; lia..]].
    + unfold int. repeat (case_decide; simpl; [|done]). unfold rounds; simpl; lia.
    + destruct ap; simpl; [done|]. unfold int. repeat (case_decide; simpl); try done; unfold rounds; simpl; lia.
  - destruct (is_digit ch); [|repeat case_decide; [|unfold rounds; simpl; lia..]].
    + unfold int. repeat (case_decide; simpl; [|done]). unfold rounds; simpl; lia.
    + destruct ap; simpl; [done|]. unfold rounds; simpl; lia.
  - destruct (modifier ch rank); [unfold rounds; simpl; lia|].
    pose proof (convert_ends mem ch (Z.max rank_char (Z.min rank rank_longlong)) flags width prec ap stores t) as He.
    destruct (convert _ _ _ _ _ _ _ _ _) as [[[ap' stores'] r]| |]; [|done..]. unfold rounds; simpl; lia.
Qed.

(** The rounds that the model allows are enough. *)
Lemma format_text_ends mem format ap : format_text mem format ap <> NoFuel.
Proof.
  unfold format_text, vsnprintf_loop. apply bind_ends; [|by intros [v t] _].
  assert (forall fuel p v (t : list Z), (rounds p (st v) < fuel)%nat -> loop fuel (vsnprintf_step mem) (p, v, t) <> NoFuel) as H.
  { induction fuel as [|fuel IH]; intros p v t Hf; [lia|]. pose proof (step_ends mem p v t) as Hs.
    cbn [loop]. unfold loop at 1. fold (@loop (list Z * vars * list Z) (vars * list Z)).
    destruct (vsnprintf_step mem (p, v, t)) as [[[[p' v'] t']|]| |]; simpl; try done. apply IH. lia. }
  apply H. unfold rounds. simpl. lia.
Qed.

(** ** Strings in a format *)

Lemma emit_string s rest (t : list Z) : emit_chars (length s) (s ++ rest) t = Ok (t ++ s).
Proof.
  revert t. induction s as [|c s IH]; intros t; simpl; [by rewrite app_nil_r|]. by rewrite IH, <- app_assoc.
Qed.

Lemma put_string_plain s rest (t : list Z) : put_string (s ++ rest) (Z.of_nat (length s)) 0 (-1) 0 t = Ok (t ++ s).
Proof.
  unfold put_string. rewrite (decide_False (P := -1 <> -1 /\ _)) by tauto. rewrite decide_False by lia.
  cbn [mbind result_bind]. rewrite Nat2Z.id, emit_string. cbn [mbind result_bind]. by rewrite decide_False by lia.
Qed.

Lemma percent_s mem p a args v (t : list Z) s rest fuel :
  a <> 0 -> mem a = s ++ 0 :: rest -> chars s -> ap v = a :: args -> st v = st_normal ->
  loop (4 + fuel) (vsnprintf_step mem) (chr "%" :: chr "s" :: p, v, t) =
  loop fuel (vsnprintf_step mem) (p, Vars args (stores v) rank_int 0 (-1) 0 st_normal, t ++ s).
Proof.
  intros Ha Hm Hs Eap Est. destruct v as [ap0 sts rk w pr fl st0]. cbn [ap st stores] in *. subst ap0 st0.
  change (4 + fuel)%nat with (Datatypes.S (Datatypes.S (Datatypes.S (Datatypes.S fuel)))).
  do 3 (erewrite loop_continue by reflexivity). erewrite loop_continue; [reflexivity|].
  change (vsnprintf_step mem (chr "s" :: p, Vars (a :: args) sts rank_int 0 (-1) 0 st_modifiers, t)) with
    ('(ap, stores, t) ← (slen ← strlen (if decide (a = 0) then null_string else mem a);
       t ← put_string (if decide (a = 0) then null_string else mem a) slen 0 (-1) 0 t; Ok (args, sts, t));
     Ok (Continue (p, Vars ap stores rank_int 0 (-1) 0 st_normal, t)) : result (ctl (list Z * vars * list Z) (vars * list Z))).
  rewrite decide_False, Hm, strlen_ok by done. cbn [mbind result_bind]. by rewrite put_string_plain.
Qed.

(** Three strings. *)
Lemma format_sss mem a b c s1 s2 s3 r1 r2 r3 : a <> 0 -> b <> 0 -> c <> 0 ->
  mem a = s1 ++ 0 :: r1 -> mem b = s2 ++ 0 :: r2 -> mem c = s3 ++ 0 :: r3 -> chars s1 -> chars s2 -> chars s3 ->
  format_text mem [chr "%"; chr "s"; chr "%"; chr "s"; chr "%"; chr "s"; 0] [a; b; c] = Ok (s1 ++ s2 ++ s3, []).
Proof.
  intros. unfold format_text, vsnprintf_loop.
  change (Datatypes.S (4 * length [chr "%"; chr "s"; chr "%"; chr "s"; chr "%"; chr "s"; 0])) with (4 + (4 + (4 + 17)))%nat.
  rewrite (percent_s _ _ a [b; c] _ _ s1 r1), (percent_s _ _ b [c] _ _ s2 r2), (percent_s _ _ c [] _ _ s3 r3) by done. change 17%nat with (Datatypes.S 16). erewrite loop_break by reflexivity.
  cbn [mbind result_bind stores app]. by rewrite <- app_assoc.
Qed.

(** ** Examples *)

Definition cstr (s : String.string) : list Z := (chr <$> list_ascii_of_string s) ++ [0].

Abbreviation demo_flags := (Z.lor FL_TICK (Z.lor FL_SIGNED FL_PLUS)).

Example int_text_demo : int_text 1234567 demo_flags 10 12 (-1) ++ [0] = cstr "  +1_234_567"%string.
Proof. by vm_compute. Qed.

Lemma format_int_correct_witness :
  format_int (replicate 14 0) 1 9 1234567 demo_flags 10 12 (-1) =
    Ok (overwrite (replicate 14 0) 1 (take (Z.to_nat 9) (int_text 1234567 demo_flags 10 12 (-1))), 12) /\
  digits_value 10 (number_text 1234567 demo_flags 10 (-1)) = magnitude 1234567 demo_flags.
Proof.
  apply (format_int_correct 1234567 demo_flags 10 12 (-1) ltac:(lia) ltac:(lia) (replicate 14 0) 1 9).
  - by vm_compute.
  - split; [lia|]. split; [lia|]. intros _. by vm_compute.
  - by vm_compute.
Defined.

(** The word 0x100 points to the string "disk". *)
Definition demo_mem (a : Z) : list Z := if decide (a = 0x100) then cstr "disk"%string else [].
Definition demo_format : list Z := cstr "%s=%#06x,%-4d|"%string.
Definition demo_args : list Z := [0x100; 0x2f; u32 (-7)].

Definition demo_text : list Z := take 17 (cstr "disk=0x002f,-7  |"%string).

Lemma vsnprintf_correct_witness :
  vsnprintf demo_mem (replicate 10 1) 9 demo_format demo_args =
    Ok (overwrite (replicate 10 1) 0 (cut 9 demo_text), Z.of_nat (length demo_text), []).
Proof.
  apply (vsnprintf_correct demo_mem (replicate 10 1) 9 demo_format demo_args demo_text []);
    [by vm_compute|by_compute|by vm_compute|lia|]. intros _. by vm_compute.
Defined.

Example demo_cut : vsnprintf demo_mem (replicate 10 1) 9 demo_format demo_args = Ok (cstr "disk=0x0"%string ++ [1], 17, []).
Proof. by vm_compute. Qed.

End PrintfSpec.
