(* ===== verification/Console.v ===== *)
(** * The console and the serial port for debugging

    console.c, printf.c, vdprintf.c and dprintf.c: characters go to the screen by
    the DOS service of the assembly core, and debug messages to a serial port,
    that is set up with the first of them.  On both a new line is sent with a
    carriage return before it. *)

From Stdlib Require Import ZArith Lia.
From S2P Require Import Prelude CStr Printf PrintfSpec.
Import CStr.CStr Printf.Printf PrintfSpec.PrintfSpec.

Module Console.

(** ** The screen (console.c) *)

(** [__intcall], for the registers that are not zero, EAX and EDX. *)
Class Intcall (K : Type) := intcall : K -> Z -> Z * Z -> K.

(** Bytes 0 and 1 of a register. *)
Definition set_byte0 (r b : Z) : Z := r - r mod 0x100 + u8 b.
Definition set_byte1 (r b : Z) : Z := r - (r / 0x100 mod 0x100) * 0x100 + u8 b * 0x100.

Section Screen.
Context {K : Type} `{IC : !Intcall K}.

(** The static register structure is part of the state. *)
Definition put_char (s : K * (Z * Z)) (c : Z) : K * (Z * Z) :=
  let '(k, (eax, edx)) := s in
  let ireg := (set_byte1 eax 0x02, set_byte0 edx c) in (intcall k 0x21 ireg, ireg).

(** The call for the carriage return makes no other one. *)
Definition myputchar (s : K * (Z * Z)) (c : Z) : K * (Z * Z) :=
  let s := if decide (c = 10) then put_char s 13 else s in put_char s c.

Fixpoint myputs (s : K * (Z * Z)) (str : list Z) : result (K * (Z * Z)) :=
  match str with
  | [] => Undef
  | c :: str => if decide (c = 0) then Ok s else myputs (myputchar s c) str
  end.

(** printf: [buf] is what the array holds before. *)
Definition printf (mem : Z -> list Z) (s : K * (Z * Z)) (buf format ap : list Z) :
    result (K * (Z * Z) * Z * list (Z * Z * Z)) :=
  '(b, rv, sts) ← Printf.printf mem buf format ap; s ← myputs s b; Ok (s, rv, sts).

End Screen.

(** ** The serial port (vdprintf.c) *)

Definition BUFFER_SIZE : Z := 4096.

(** enum serial_port_regs *)
Definition THR : Z := 0.
Definition DLL : Z := 0.
Definition DLM : Z := 1.
Definition IER : Z := 1.
Definition IIR : Z := 2.
Definition FCR : Z := 2.
Definition LCR : Z := 3.
Definition LSR : Z := 5.

Definition debug_base : Z := 0x3f8.

(** [inb] and [outb] *)
Class Ports (P : Type) := { inb : P -> Z -> P * Z; outb : P -> Z -> Z -> P }.

Section Serial.
Context {P : Type} `{PT : !Ports P}.

Abbreviation out p v r := (outb p v (debug_base + r)).
Abbreviation get p r := (inb p (debug_base + r)).

(** [while ((inb(debug_base + LSR) & 0x20) == 0)] *)
Definition wait_step (p : P) : result (ctl P P) :=
  let '(p, v) := get p LSR in
  if decide (Z.land v 0x20 = 0) then Ok (Continue p) else Ok (Break p).

Definition send (fuel : nat) (p : P) (c : Z) : result P :=
  p ← loop fuel wait_step p; Ok (out p (u8 c) THR).

Definition debug_putc (fuel : nat) (p : P) (c : Z) : result P :=
  p ← (if decide (c = 10) then send fuel p 13 else Ok p); send fuel p c.

(** The port to 115200 n81; whether it is there. *)
Definition debug_setup (p : P) : P * bool :=
  let p := out p 0x83 LCR in
  let p := out p 0x01 DLL in
  let p := out p 0x00 DLM in
  let '(p, _) := get p IER in
  let '(p, dll) := get p DLL in
  let '(p, dlm) := get p DLM in
  let '(p, lcr) := get p LCR in
  let p := out p 0x03 LCR in
  let '(p, _) := get p IER in
  let p := out p 0x00 IER in
  let '(p, _) := get p IER in
  if decide (dll <> 0x01 \/ dlm <> 0x00 \/ lcr <> 0x83) then (p, false)
  else
    let p := out p 0x01 FCR in
    let '(p, _) := get p IER in
    let '(p, iir) := get p IIR in
    (if decide (iir < 0xc0) then let p := out p 0x00 FCR in fst (get p IER) else p, true).

(** [while (rv--)] *)
Fixpoint debug_puts (fuel : nat) (p : P) (buffer : list Z) (rv : nat) : result P :=
  match rv with
  | O => Ok p
  | S rv => match buffer with [] => Undef | c :: buffer => p ← debug_putc fuel p c; debug_puts fuel p buffer rv end
  end.

(** The port with [debug_init] and [debug_ok], and the stores of [%n]; [buffer] is what
    the array holds before. *)
Definition vdprintf (fuel : nat) (mem : Z -> list Z) (s : P * bool * bool) (buffer format ap : list Z) :
    result (P * bool * bool * list (Z * Z * Z)) :=
  '(b, rv, sts) ← vsnprintf mem buffer BUFFER_SIZE format ap;
  if decide (rv < 0) then Ok (s, sts) else
  let rv := if decide (rv > BUFFER_SIZE - 1) then BUFFER_SIZE - 1 else rv in
  let '(p, debug_init, debug_ok) := s in
  let '(p, debug_ok) := if (debug_init : bool) then (p, debug_ok) else debug_setup p in
  if negb debug_ok then Ok (p, true, debug_ok, sts)
  else p ← debug_puts fuel p b (Z.to_nat rv); Ok (p, true, debug_ok, sts).

Definition dprintf (fuel : nat) (mem : Z -> list Z) (s : P * bool * bool) (buffer format ap : list Z) :
    result (P * bool * bool * list (Z * Z * Z)) := vdprintf fuel mem s buffer format ap.

End Serial.

(** ** What a screen and a serial port do

    The service 2 of interrupt 0x21 shows the character in DL.  A 16550 port has
    the divisor latches in its registers 0 and 1 while bit 7 of the line control
    is set, and sends what is written to register 0 otherwise; bit 5 of the line
    status tells when it can take a character. *)

Class Screen (K : Type) `{IC : !Intcall K} := {
  shown : K -> list Z;
  show k eax edx : eax / 0x100 mod 0x100 = 2 -> shown (intcall k 0x21 (eax, edx)) = shown k ++ [edx mod 0x100] }.

Record uart := Uart { u_lcr : Z; u_dll : Z; u_dlm : Z; u_sent : list Z }.

Definition latched (u : uart) : Prop := Z.land (u_lcr u) 0x80 <> 0.

#[export] Instance latched_dec u : Decision (latched u) := _.

Definition uart_write (u : uart) (v r : Z) : uart :=
  if decide (r = LCR) then Uart v (u_dll u) (u_dlm u) (u_sent u)
  else if decide (r = DLL) then
    if decide (latched u) then Uart (u_lcr u) v (u_dlm u) (u_sent u) else Uart (u_lcr u) (u_dll u) (u_dlm u) (u_sent u ++ [v])
  else if decide (r = DLM /\ latched u) then Uart (u_lcr u) (u_dll u) v (u_sent u)
  else u.

(** The registers whose value is known. *)
Definition uart_read (u : uart) (r : Z) : option Z :=
  if decide (r = LCR) then Some (u_lcr u)
  else if decide (latched u) then (if decide (r = DLL) then Some (u_dll u) else if decide (r = DLM) then Some (u_dlm u) else None)
  else None.

Class Uart16550 (P : Type) `{PT : !Ports P} := {
  regs : P -> uart;
  busy : P -> nat;
  max_busy : nat;
  busy_max p : (busy p <= max_busy)%nat;
  write_regs p v r : 0 <= r < 8 -> regs (outb p v (debug_base + r)) = uart_write (regs p) v r;
  read_regs p r : 0 <= r < 8 -> regs (fst (inb p (debug_base + r))) = regs p;
  read_value p r v : 0 <= r < 8 -> uart_read (regs p) r = Some v -> snd (inb p (debug_base + r)) = v;
  ready_now p : busy p = 0%nat -> Z.land (snd (inb p (debug_base + LSR))) 0x20 <> 0;
  ready_soon p n : busy p = S n -> (busy (fst (inb p (debug_base + LSR))) <= n)%nat }.

(** An empty bus: what is read has all bits set. *)
Class NoPort (P : Type) `{PT : !Ports P} := { floating p r : snd (inb p r) = 0xff }.

(** A new line with a carriage return before it. *)
Definition crlf (text : list Z) : list Z := text ≫= fun c => if decide (c = 10) then [13; 10] else [c].

Lemma crlf_cons c text : crlf (c :: text) = (if decide (c = 10) then [13; 10] else [c]) ++ crlf text.
Proof. done. Qed.

Section ScreenSpec.
Context {K : Type} `{SC : Screen K}.

Lemma put_char_ok k eax edx c : exists k' r, put_char (k, (eax, edx)) c = (k', r) /\ shown k' = shown k ++ [u8 c].
Proof.
  unfold put_char. eexists _, _. split; [reflexivity|]. rewrite show.
  - do 2 f_equal. unfold set_byte0, u8. dlia.
  - unfold set_byte1, u8. dlia.
Qed.

Lemma myputchar_ok k r c : exists k' r', myputchar (k, r) c = (k', r') /\
  shown k' = shown k ++ (u8 <$> if decide (c = 10) then [13; 10] else [c]).
Proof.
  destruct r as [eax edx]. unfold myputchar. case_decide as Hc.
  - subst c. destruct (put_char_ok k eax edx 13) as (k1 & [a1 d1] & -> & E1). destruct (put_char_ok k1 a1 d1 10) as (k2 & r2 & -> & E2).
    exists k2, r2. split; [done|]. by rewrite E2, E1, <- app_assoc.
  - apply put_char_ok.
Qed.

(** A string is shown up to its end. *)
Lemma myputs_ok k r str rest : chars str -> exists k' r', myputs (k, r) (str ++ 0 :: rest) = Ok (k', r') /\
  shown k' = shown k ++ (u8 <$> crlf str).
Proof.
  intros Hs. revert k r. induction Hs as [|c str Hc Hs IH]; intros k r; cbn [app myputs].
  - exists k, r. split; [by rewrite decide_True|by rewrite app_nil_r].
  - rewrite decide_False by done. destruct (myputchar_ok k r c) as (k1 & r1 & -> & E1). destruct (IH k1 r1) as (k2 & r2 & -> & E2).
    exists k2, r2. split; [done|]. by rewrite E2, E1, crlf_cons, fmap_app, app_assoc.
Qed.
End ScreenSpec.

(** printf shows the text of its format, cut to the 1023 characters of its buffer. *)
Lemma printf_shows {K} `{SC : Screen K} (mem : Z -> list Z) (k : K) r (buf format ap text : list Z) sts :
  format_text mem format ap = Ok (text, sts) -> Forall word_ok ap -> Z.of_nat (length text) < 0x80000000 ->
  chars text -> length buf = Z.to_nat 1024 ->
  exists k' r', printf mem (k, r) buf format ap = Ok ((k', r'), Z.of_nat (length text), sts) /\
    shown k' = shown k ++ (u8 <$> crlf (take 1023 text)).
Proof.
  intros Ht Hap Hl Hch Hb. unfold printf, Printf.printf. rewrite (vsnprintf_ok mem buf 1024 format ap text sts Ht Hap Hl) by lia.
  cbn [mbind result_bind]. unfold cut. rewrite decide_False by lia. change (Z.to_nat (1024 - 1)) with 1023%nat.
  unfold overwrite. rewrite take_0, <- app_assoc. cbn [app].
  destruct (myputs_ok k r (take 1023 text)) with (rest := drop (Z.to_nat 0 + length (take 1023 text ++ [0])) buf) as (k' & r' & E & Hs).
  { by apply Forall_take. }
  exists k', r'. split; [|done]. cbn [app] in E. by rewrite E.
Qed.

(** ** The serial port *)

Section SerialSpec.
Context {P : Type} `{UP : Uart16550 P}.
Context (fuel : nat) (fuel_ok : (max_busy < fuel)%nat).

Lemma wait_ok p : exists p', loop fuel wait_step p = Ok p' /\ regs p' = regs p.
Proof.
  assert (forall n p, (busy p < n)%nat -> exists p', loop n wait_step p = Ok p' /\ regs p' = regs p) as H.
  { clear p. induction n as [|n IH]; intros p Hn; [lia|].
    pose proof (read_regs p LSR ltac:(done)) as Hr. pose proof (ready_now p) as H0. pose proof (ready_soon p) as H1.
    destruct (inb p (debug_base + LSR)) as [p1 v] eqn:E. cbn [fst snd] in *. destruct (decide (Z.land v 0x20 = 0)) as [Hv|Hv].
    - destruct (busy p) as [|m]; [by destruct (H0 eq_refl)|]. specialize (H1 m eq_refl).
      destruct (IH p1 ltac:(lia)) as (p2 & E2 & Hr2). exists p2. split; [|congruence].
      rewrite (loop_continue _ _ _ p1); [done|]. unfold wait_step. by rewrite E, decide_True.
    - exists p1. split; [|done]. apply loop_break. unfold wait_step. by rewrite E, decide_False. }
  apply H. pose proof (busy_max p). lia.
Qed.

(** The port after the setup. *)
Definition sending (p : P) : Prop := ~ latched (regs p).

Lemma send_ok p c : sending p -> exists p', send fuel p c = Ok p' /\ sending p' /\ u_sent (regs p') = u_sent (regs p) ++ [u8 c].
Proof.
  intros Hs. unfold send. destruct (wait_ok p) as (p1 & -> & Hr). cbn [mbind result_bind]. eexists. split; [reflexivity|].
  unfold sending. rewrite write_regs, Hr by done. unfold uart_write. rewrite decide_False, decide_True, decide_False by done. by split.
Qed.

Lemma debug_putc_ok p c : sending p -> exists p', debug_putc fuel p c = Ok p' /\ sending p' /\
  u_sent (regs p') = u_sent (regs p) ++ (u8 <$> if decide (c = 10) then [13; 10] else [c]).
Proof.
  intros Hs. unfold debug_putc. case_decide as Hc; [|by apply send_ok]. subst c.
  destruct (send_ok p 13 Hs) as (p1 & -> & Hs1 & E1). cbn [mbind result_bind].
  destruct (send_ok p1 10 Hs1) as (p2 & -> & Hs2 & E2). exists p2. splits; try done. by rewrite E2, E1, <- app_assoc.
Qed.

Lemma debug_puts_ok p text rest : sending p -> exists p', debug_puts fuel p (text ++ rest) (length text) = Ok p' /\ sending p' /\
  u_sent (regs p') = u_sent (regs p) ++ (u8 <$> crlf text).
Proof.
  revert p. induction text as [|c text IH]; intros p Hs; cbn [app length debug_puts].
  - exists p. split; [by destruct rest|]. split; [done|]. change (u8 <$> crlf []) with (@nil Z). by rewrite app_nil_r.
  - destruct (debug_putc_ok p c Hs) as (p1 & -> & Hs1 & E1). cbn [mbind result_bind].
    destruct (IH p1 Hs1) as (p2 & -> & Hs2 & E2). exists p2. splits; try done. by rewrite E2, E1, crlf_cons, fmap_app, app_assoc.
Qed.

(** The registers after a write, and what is read. *)
Lemma write_lcr p v l a b t : regs p = Uart l a b t -> regs (outb p v (debug_base + LCR)) = Uart v a b t.
Proof. intros E. by rewrite write_regs, E. Qed.

Lemma write_dll p v a b t : regs p = Uart 0x83 a b t -> regs (outb p v (debug_base + DLL)) = Uart 0x83 v b t.
Proof. intros E. by rewrite write_regs, E. Qed.

Lemma write_dlm p v a b t : regs p = Uart 0x83 a b t -> regs (outb p v (debug_base + DLM)) = Uart 0x83 a v t.
Proof. intros E. by rewrite write_regs, E. Qed.

Lemma write_ier p v a b t : regs p = Uart 0x03 a b t -> regs (outb p v (debug_base + IER)) = Uart 0x03 a b t.
Proof. intros E. by rewrite write_regs, E. Qed.

Lemma write_fcr p v u : regs p = u -> regs (outb p v (debug_base + FCR)) = u.
Proof. intros E. by rewrite write_regs, E. Qed.

Lemma port_read_ok p r u : 0 <= r < 8 -> regs p = u -> exists p' v, inb p (debug_base + r) = (p', v) /\ regs p' = u /\
  forall w, uart_read u r = Some w -> v = w.
Proof.
  intros Hr <-. pose proof (read_regs p r Hr) as E. pose proof (fun w => read_value p r w Hr) as Ev.
  destruct (inb p (debug_base + r)) as [p' v]. exists p', v. by splits.
Qed.

(** Reading a register of the port. *)
Ltac read_step H :=
  match goal with
  | |- context [inb ?p (debug_base + ?r)] =>
      let q := fresh "p" in let v := fresh "v" in let E := fresh "E" in let H' := fresh "H" in let Hv := fresh "Hv" in
      destruct (port_read_ok p r _ ltac:(done) H) as (q & v & E & H' & Hv); rewrite E; clear E; clear H; rename H' into H; cbn [fst snd]
  end.

(** The setup finds the port and sends nothing. *)
Lemma debug_setup_ok p : exists p', debug_setup p = (p', true) /\ sending p' /\ u_sent (regs p') = u_sent (regs p).
Proof.
  unfold debug_setup. destruct (regs p) as [l a b t] eqn:R. cbn [u_sent].
  apply (write_lcr p 0x83) in R. apply (write_dll _ 0x01) in R. apply (write_dlm _ 0x00) in R. cbv zeta.
  read_step R. read_step R. read_step R. read_step R. specialize (Hv0 _ eq_refl). specialize (Hv1 _ eq_refl). specialize (Hv2 _ eq_refl).
  cbn [u_lcr u_dll u_dlm] in *. subst. apply (write_lcr _ 0x03) in R. read_step R. apply (write_ier _ 0x00) in R. read_step R.
  rewrite decide_False by lia. apply (write_fcr _ 0x01) in R. read_step R. read_step R. unfold sending.
  case_decide.
  - apply (write_fcr _ 0x00) in R. read_step R. eexists. split; [reflexivity|]. rewrite R. split; [by intros []|done].
  - eexists. split; [reflexivity|]. rewrite R. split; [by intros []|done].
Qed.

(** The static variables agree with the port. *)
Definition debug_state_ok (s : P * bool * bool) : Prop :=
  let '(p, init, ok) := s in if (init : bool) then ok = true /\ sending p else True.

(** A debug message is sent to the serial port: the text of its format, cut to the
    4095 characters of the buffer, with a carriage return before each new line, after
    all that was sent before.  The port is set up with the first message, and each
    character waits until the port can take it. *)
Theorem vdprintf_sends (mem : Z -> list Z) (s : P * bool * bool) (buffer format ap text : list Z) sts :
  format_text mem format ap = Ok (text, sts) -> Forall word_ok ap -> Z.of_nat (length text) < 0x80000000 ->
  length buffer = Z.to_nat BUFFER_SIZE -> debug_state_ok s ->
  exists p', vdprintf fuel mem s buffer format ap = Ok (p', true, true, sts) /\ debug_state_ok (p', true, true) /\
    u_sent (regs p') = u_sent (regs (fst (fst s))) ++ (u8 <$> crlf (take (Z.to_nat (BUFFER_SIZE - 1)) text)).
Proof.
  intros Ht Hap Hl Hb Hs. unfold vdprintf. unfold BUFFER_SIZE in *. rewrite (vsnprintf_ok mem buffer 4096 format ap text sts Ht Hap Hl) by lia.
  cbn [mbind result_bind]. rewrite decide_False by lia. set (rv := if decide (_ > _) then _ else _).
  set (shown := take (Z.to_nat (4096 - 1)) text).
  assert (Z.to_nat rv = length shown) as -> by (unfold rv, shown; rewrite length_take; case_decide; lia).
  unfold cut. rewrite decide_False by lia. fold shown. unfold overwrite. rewrite take_0. cbn [app]. rewrite <- app_assoc.
  destruct s as [[p init] ok]. cbn [fst].
  assert (exists p1, (if init then (p, ok) else debug_setup p) = (p1, true) /\ sending p1 /\ u_sent (regs p1) = u_sent (regs p))
    as (p1 & -> & Hs1 & <-).
  { destruct init; [|apply debug_setup_ok]. destruct Hs as [-> Hs]. by exists p. }
  cbn [negb]. destruct (debug_puts_ok p1 shown ([0] ++ drop (Z.to_nat 0 + length (shown ++ [0])) buffer) Hs1) as (p2 & -> & Hs2 & E2).
  cbn [mbind result_bind]. exists p2. by splits.
Qed.
End SerialSpec.

(** Without a port nothing is sent: the setup sees it, and no message waits. *)
Lemma vdprintf_absent {P} `{NP : NoPort P} fuel (mem : Z -> list Z) (s : P * bool * bool) (buffer format ap text : list Z) sts :
  format_text mem format ap = Ok (text, sts) -> Forall word_ok ap -> Z.of_nat (length text) < 0x80000000 ->
  length buffer = Z.to_nat BUFFER_SIZE -> (s.1.2 = true -> s.2 = false) ->
  exists p', vdprintf fuel mem s buffer format ap = Ok (p', true, false, sts) /\ (s.1.2 = true -> p' = s.1.1).
Proof.
  intros Ht Hap Hl Hb Hs. unfold vdprintf. unfold BUFFER_SIZE in *. rewrite (vsnprintf_ok mem buffer 4096 format ap text sts Ht Hap Hl) by lia.
  cbn [mbind result_bind]. rewrite decide_False by lia. destruct s as [[p init] ok]. cbn [fst snd] in *. destruct init.
  - rewrite Hs by done. cbn [negb]. by exists p.
  - assert (exists p', debug_setup p = (p', false)) as [p' ->]; [|by exists p'].
    unfold debug_setup. cbv zeta.
    repeat match goal with
    | |- context [inb ?p ?r] => pose proof (floating p r); destruct (inb p r) as [? ?]; cbn [fst snd] in *; subst
    end. rewrite decide_True by lia. by eexists.
Qed.

(** ** An example

    A port that is busy for two polls after each character. *)

Definition port : Type := uart * nat.

#[local] Instance port_io : Ports port := {
  inb p r := let '(u, n) := p in
    if decide (r - debug_base = LSR) then ((u, Nat.pred (Nat.min n 2)), if decide (n = 0%nat) then 0x60 else 0x00)
    else ((u, n), default (if decide (r - debug_base = IIR) then 0xc1 else 0) (uart_read u (r - debug_base)));
  outb p v r := let '(u, n) := p in
    (uart_write u v (r - debug_base), if decide (r - debug_base = THR /\ ~ latched u) then 2%nat else n) }.

Lemma base_offset r : debug_base + r - debug_base = r.
Proof. lia. Qed.

#[local] Instance port_16550 : Uart16550 port.
Proof.
  refine {| regs := fst; busy p := Nat.min (snd p) 2; max_busy := 2 |}.
  - intros [u n]. simpl. lia.
  - intros [u n] v r _. cbn [outb port_io fst]. by rewrite base_offset.
  - intros [u n] r _. cbn [inb port_io]. rewrite base_offset. by case_decide.
  - intros [u n] r v _. cbn [inb port_io fst]. rewrite base_offset. case_decide as Hr; [subst r|by intros ->].
    unfold uart_read. rewrite decide_False by done. by case_decide.
  - intros [u n]. cbn [inb port_io snd]. rewrite base_offset, decide_True by done. intros Hn. by rewrite decide_True by lia.
  - intros [u n] m. cbn [inb port_io snd fst]. rewrite base_offset, decide_True by done. cbn [fst snd]. lia.
Defined.

Definition demo_port : port * bool * bool := ((Uart 0 0 0 [], 0%nat), false, false).

Lemma demo_port_fuel : (max_busy < 3)%nat.
Proof. simpl. lia. Qed.

Lemma vdprintf_sends_witness :
  exists p', vdprintf 3 demo_mem demo_port (replicate (Z.to_nat 4096) 1) demo_format demo_args = Ok (p', true, true, []) /\
    debug_state_ok (p', true, true) /\
    u_sent (regs p') = u_sent (regs (fst (fst demo_port))) ++ (u8 <$> crlf (take (Z.to_nat (BUFFER_SIZE - 1)) demo_text)).
Proof.
  apply (vdprintf_sends 3 demo_port_fuel demo_mem demo_port (replicate (Z.to_nat 4096) 1) demo_format demo_args demo_text []);
    [by vm_compute|by_compute|by vm_compute|by rewrite length_replicate|done].
Defined.

(** The text [a], a new line and [b]. *)
Example demo_sent : match vdprintf 3 demo_mem demo_port (replicate (Z.to_nat 4096) 1) [97; 10; 98; 0] [] with
  | Ok ((u, _), init, ok, _) => u_sent u = [97; 13; 10; 98] /\ u_lcr u = 3 /\ init = true /\ ok = true
  | _ => False end.
Proof. by vm_compute. Qed.

End Console.
