(* ===== verification/Config.v ===== *)
(** * Looking for the configuration file (fs/lib/searchconfig.c, loadconfig.c, newconfig.c)

    The names of the file are tried in a list of directories; the first that the
    assembly core can open is the configuration file, its real path is kept in
    [ConfigName], and its directory becomes the current one. *)

From Stdlib Require Import ZArith Lia Ascii String.
From S2P Require Import Prelude CStr Dirent Mangle Inode Vfs VfsSpec VfsPath VfsCwd Printf PrintfSpec.
Import CStr.CStr Dirent.Dirent Mangle.Mangle Inode.Inode Vfs.Vfs VfsSpec.VfsSpec VfsPath.VfsPath VfsCwd.VfsCwd
  Printf.Printf PrintfSpec.PrintfSpec.

Module Config.

(** set_flags of core.h: the bits of the result of an operation are replaced. *)
Definition RESULT_FLAGS : Z := 0x1 + 0x4 + 0x10 + 0x40 + 0x80 + 0x800.
Definition set_flags (eflags flags : Z) : Z := Z.lor (Z.ldiff eflags RESULT_FLAGS) flags.

Section Code.
Context {S P : Type} `{FO : !FsOps S P}.

(** [call16(core_open, &regs, &regs)], with the name in [ConfigName], which is at
    the given address. *)
Context (call_core_open : @vfs S P -> com32sys_t -> list Z -> result (@vfs S P * com32sys_t)).
Context (ConfigName_offs : Z).

(** The state, and what is in [ConfigName] and in [confignamebuf]. *)
Record config := Config { c_vfs : @vfs S P; c_name : list Z; c_buf : list Z }.

(** The pointers of the call of snprintf, and the strings there. *)
Definition sss : list Z := [chr "%"; chr "s"; chr "%"; chr "s"; chr "%"; chr "s"; 0].
Definition strings (sd sep sf : list Z) (p : Z) : list Z := if decide (p = 1) then sd else if decide (p = 2) then sep else sf.

(** The name of a file in a directory. *)
Definition join_name (buf sd sf : list Z) : result (list Z) :=
  c ← get8 sd 0;
  last ← (if decide (c <> 0) then n ← strlen sd; get8 sd (n - 1) else Ok 0);
  let sep := if decide (c <> 0 /\ last = slash) then [0] else [slash; 0] in
  '(buf, _, _) ← snprintf (strings sd sep sf) buf FILENAME_MAX sss [1; 2; 3];
  Ok buf.

(** The body of the inner loop: does [core_open] open the file? *)
Definition try_name (fuel : nat) (c : config) (sd sf : list Z) : result (config * bool) :=
  let '(Config st name buf) := c in
  buf ← join_name buf sd sf;
  '(st, name, s) ← realpath fuel st name buf FILENAME_MAX;
  if decide (s = size_error) then Ok (Config st name buf, false) else
  let regs := Regs 0 0 0 0 (set_low_word 0 ConfigName_offs) 0 0 0 in
  '(st, regs) ← call_core_open st regs name;
  Ok (Config st name buf, bool_decide (Z.land (r_eflags regs) EFLAGS_ZF = 0)).

Fixpoint try_names (fuel : nat) (c : config) (sd : list Z) (filenames : list (list Z)) : result (config * bool) :=
  match filenames with
  | [] => Ok (c, false)
  | sf :: filenames =>
      '(c, found) ← try_name fuel c sd sf;
      if found : bool then Ok (c, true) else try_names fuel c sd filenames
  end.

(** The result of chdir is not looked at.  [cwd_buf] is the local array of chdir. *)
Fixpoint search_config (fuel : nat) (c : config) (cwd_buf : list Z) (search_directories filenames : list (list Z)) :
    result (config * Z) :=
  match search_directories with
  | [] => Ok (c, -1)
  | sd :: search_directories =>
      '(c, found) ← try_names fuel c sd filenames;
      if found : bool then
        '(st, _) ← chdir fuel (c_vfs c) cwd_buf sd; Ok (Config st (c_name c) (c_buf c), 0)
      else search_config fuel c cwd_buf search_directories filenames
  end.

Definition fallback_directories : list (list Z) := [cstr "/boot/syslinux"%string; cstr "/syslinux"%string; cstr "/"%string].
Definition config_names : list (list Z) := [cstr "extlinux.conf"%string; cstr "syslinux.cfg"%string].

Definition generic_load_config (fuel : nat) (c : config) (cwd_buf CurrentDirName : list Z) : result (config * Z) :=
  search_config fuel c cwd_buf (CurrentDirName :: fallback_directories) config_names.

(** The zero flag tells the assembly core that there is no configuration file. *)
Definition pm_load_config (fuel : nat) (c : config) (cwd_buf CurrentDirName : list Z) (regs : com32sys_t) :
    result (config * com32sys_t) :=
  '(c, err) ← generic_load_config fuel c cwd_buf CurrentDirName;
  Ok (c, Regs (r_eax regs) (r_ebx regs) (r_ecx regs) (r_esi regs) (r_edi regs) (r_ds regs) (r_es regs)
           (set_flags (r_eflags regs) (if decide (err <> 0) then EFLAGS_ZF else 0))).

(** [while ( *p && !not_whitespace( *p)) p++] *)
Fixpoint skip_blanks (p : list Z) : result (list Z) :=
  match p with
  | [] => Undef
  | c :: p' => if decide (c <> 0 /\ not_whitespace c = false) then skip_blanks p' else Ok p
  end.

(** [target_cwd] and [cwd_buf] are what is in the local arrays. *)
Definition pm_is_config_file (fuel : nat) (c : config) (KernelName cmd_line target_cwd cwd_buf : list Z) : result config :=
  '(st, name, _) ← realpath fuel (c_vfs c) (c_name c) KernelName FILENAME_MAX;
  p ← skip_blanks cmd_line;
  x ← of_option (head p);
  if decide (x <> 0) then
    target_cwd ← op_mangle_name target_cwd p;
    '(st, _) ← chdir fuel st cwd_buf target_cwd;
    Ok (Config st name (c_buf c))
  else Ok (Config st name (c_buf c)).

End Code.

Arguments config : clear implicits.

End Config.
