(* ===== verification/ConfigSpec.v ===== *)
(** * Looking for the configuration file: what is found

    The file is the first, in the order of the directories and then of the
    names, that the assembly core can open.  Of that core the theorems ask for what
    its documentation in getc.inc says, in [core_open_ok]: the zero flag is set when
    the file was not found or has no bytes, and also when the stack of open files is
    full. *)

From Stdlib Require Import ZArith Lia Ascii String.
From S2P Require Import Prelude CStr Dirent Mangle Inode Vfs VfsSpec VfsPath VfsCwd Printf PrintfSpec Config.
Import Printf.Printf PrintfSpec.PrintfSpec CStr.CStr Dirent.Dirent Mangle.Mangle Inode.Inode Vfs.Vfs VfsSpec.VfsSpec
  VfsPath.VfsPath VfsCwd.VfsCwd Config.Config.

Module ConfigSpec.

(** ** The name of a file in a directory *)

Definition ends_in_slash (d : list Z) : bool := bool_decide (last d = Some slash).

Definition candidate (d f : list Z) : list Z := d ++ (if ends_in_slash d then [] else [slash]) ++ f.

Lemma last_byte d t : d <> [] -> exists c, get8 (d ++ 0 :: t) (Z.of_nat (length d) - 1) = Ok c /\ last d = Some c.
Proof.
  intros Hd. destruct (exists_last Hd) as (d' & c & ->). exists c. rewrite last_snoc. split; [|done].
  unfold get8. rewrite length_app. simpl. rewrite decide_True by lia. replace (Z.to_nat _) with (length d') by lia.
  rewrite <- app_assoc. by rewrite lookup_app_r, Nat.sub_diag by lia.
Qed.

Lemma join_name_ok buf d f t1 t2 : d <> [] -> chars d -> chars f -> (length (candidate d f) < 256)%nat -> length buf = 256%nat ->
  join_name buf (d ++ 0 :: t1) (f ++ 0 :: t2) =
    Ok (candidate d f ++ 0 :: drop (Datatypes.S (length (candidate d f))) buf).
Proof.
  intros Hd Hcd Hcf Hlen Hbuf. unfold join_name.
  destruct d as [|c d]; [done|]. pose proof Hcd as [Hc _]%Forall_cons. change (get8 ((c :: d) ++ 0 :: t1) 0) with (Ok c).
  cbn [mbind result_bind]. rewrite decide_True by done. rewrite strlen_ok by done. cbn [mbind result_bind].
  destruct (last_byte (c :: d) t1 Hd) as (x & -> & Hx). cbn [mbind result_bind].
  set (sep := if decide (c <> 0 /\ x = slash) then [0] else [slash; 0]).
  assert (sep = (if ends_in_slash (c :: d) then [] else [slash]) ++ [0]) as Hsep.
  { unfold sep, ends_in_slash. rewrite Hx. destruct (decide (x = slash)) as [->|Hn].
    - by rewrite decide_True, bool_decide_true by done.
    - rewrite decide_False, bool_decide_false by (congruence || tauto). done. }
  clearbody sep. unfold snprintf.
  rewrite (vsnprintf_ok _ buf FILENAME_MAX sss [1; 2; 3] (candidate (c :: d) f) []).
  - cbn [mbind result_bind]. f_equal. unfold overwrite, cut, FILENAME_MAX. rewrite decide_False by lia.
    rewrite (take_ge (candidate (c :: d) f)) by lia. change (Z.to_nat 0) with 0%nat. rewrite take_0, app_nil_l. rewrite <- app_assoc. cbn [app]. do 3 f_equal.
    rewrite length_app. simpl. lia.
  - unfold candidate. apply (format_sss _ 1 2 3 (c :: d) _ f t1 [] t2); try done.
    destruct (ends_in_slash _); by repeat constructor.
  - repeat constructor; unfold word_ok; lia.
  - lia.
  - done.
  - intros _. unfold FILENAME_MAX. lia.
Qed.

Lemma candidate_components d f : d <> [] -> components (candidate d f) = components d ++ components f.
Proof.
  intros Hd. unfold candidate, ends_in_slash. case_bool_decide as He; [|by cbn [app]; rewrite components_app].
  destruct (exists_last Hd) as (d' & c & ->). rewrite last_snoc in He. injection He as ->.
  rewrite <- app_assoc. cbn [app]. rewrite !components_app. by rewrite app_nil_r.
Qed.

Lemma candidate_start {P} (root l : list (@node P)) d f : d <> [] -> start root l (candidate d f) = start root l d.
Proof. unfold start, absolute, candidate. by destruct d. Qed.

Lemma candidate_ok d f : d <> [] -> chars d -> chars f -> path_ok (candidate d f).
Proof.
  intros Hd Hcd Hcf. unfold candidate. split; [|by destruct d]. apply Forall_app. split; [done|]. apply Forall_app. split; [|done].
  destruct (ends_in_slash d); by repeat constructor.
Qed.

(** The directory of a file that a path leads to. *)
Lemma resolves_prefix {S P} `{FS : FsSpec S P} root l cs l' : dirs_ok root -> resolves root l cs l' ->
  forall cs1 cs2, cs = cs1 ++ cs2 -> cs2 <> [] -> dirs_ok l -> exists m, resolves root l cs1 m /\ dirs_ok m.
Proof.
  intros Hroot. induction 1 as [|l cs l' _ IH|l cs l' _ IH|n l c m cs l' Hd Hdd Hl Hm Hcs _ IH|n l c m cs l' Hd Hdd Hl Hm _ IH];
    intros cs1 cs2 E Hne Hdirs; (destruct cs1 as [|c1 cs1]; [by eexists; split; [constructor|]|]); [done|injection E as <- ->..].
  - destruct (IH cs1 cs2 eq_refl Hne Hdirs) as (x & ? & ?). exists x. by split; [constructor|].
  - assert (dirs_ok (up l)) as Hu by (destruct l as [|a [|b l]]; [done..|by apply Forall_cons in Hdirs as [_ ?]]).
    destruct (IH cs1 cs2 eq_refl Hne Hu) as (x & ? & ?). exists x. by split; [constructor|].
  - assert (n_mode m = DT_DIR) as Hmd by (destruct Hcs as [Hcs|]; [by apply app_nil in Hcs as [_ ?]|done]).
    assert (dirs_ok (m :: n :: l)) as Hmn.
    { constructor; [|done]. split; [|done]. pose proof Hdirs as [[Hn Hnd] _]%Forall_cons. destruct n as [[md sz] pv].
      unfold n_mode in Hnd. simpl in Hnd. subst md. by apply (lookup_node _ _ _ _ Hn Hl). }
    destruct (IH cs1 cs2 eq_refl Hne Hmn) as (x & ? & ?). exists x. split; [|done]. by econstructor; [..|right|].
  - assert (dirs_ok (start root (n :: l) (fs_target (n_pvt m)))) as Hs by (unfold start; by destruct (absolute _)).
    destruct (IH (components (fs_target (n_pvt m)) ++ cs1) cs2 (app_assoc _ _ _) Hne Hs) as (x & ? & ?).
    exists x. split; [|done]. by eapply res_link.
Qed.

(** ** The search *)

Section Find.
Context {S P : Type} `{FS : FsSpec S P}.
Context (call_core_open : @vfs S P -> com32sys_t -> list Z -> result (@vfs S P * com32sys_t)) (offs : Z).

(** The root of the tree, whether the stack of open files of the assembly core
    has room, and which files it takes. *)
Context (r : @node P) (stack_free : Prop) (accepts : @node P -> Prop).

(** [core_open] of getc.inc looks up the name at DS:DI.  When the zero flag is clear the
    name leads to a file that it takes.  When it is set no file is left open, and
    if there was room, and memory, there is no regular file with bytes that the name
    reaches. *)
Record core_open_ok : Prop := {
  co_call st cwd regs name t n : vfs_ok st [r] cwd -> last cwd = Some r -> path_ok name -> absolute name = true ->
    (length name < 256)%nat -> room (v_heap st) (roots st) (Z.to_nat 120000 + n) ->
    exists st' regs', call_core_open st regs (name ++ 0 :: t) = Ok (st', regs') /\
      vfs_ok st' [r] cwd /\ same_place st st' /\ room (v_heap st') (roots st') n /\
      (Z.land (r_eflags regs') EFLAGS_ZF = 0 -> exists f l, resolves [r] [r] (components name) (f :: l) /\ accepts f) /\
      (Z.land (r_eflags regs') EFLAGS_ZF <> 0 -> v_files st' = v_files st /\
        (stack_free -> In no_file (v_files st) -> links_followed ->
         forall f l, reachable [r] [r] name (f :: l) -> n_mode f = DT_REG -> n_size f = 0)) }.

Context (Hopen : core_open_ok) (Hmem : enough_memory) (cwd : list (@node P)) (Hroot : last cwd = Some r).

Abbreviation target d f := (resolves [r] (start [r] cwd (candidate d f)) (components (candidate d f))).

(** The strings of the search, and that all paths fit in their buffers. *)
Definition dir_ok (d : list Z) : Prop := path_ok d /\ (length d < 256)%nat /\
  forall n l ns, resolves [r] (start [r] cwd d) (components d) (n :: l) -> n_mode n = DT_DIR -> spelled (n :: l) ns ->
    Z.of_nat (length (path_of ns)) < 255.

Definition pair_ok (d f : list Z) : Prop := chars f /\ name_ok f /\ (length (candidate d f) < 256)%nat /\
  forall l ns, target d f l -> spelled l ns -> Z.of_nat (length (path_of ns)) < FILENAME_MAX.

(** The state during the search. *)
Record searching (st : @vfs S P) (c : config S P) (n : nat) : Prop := {
  se_ok : vfs_ok (c_vfs c) [r] cwd;
  se_same : same_place st (c_vfs c);
  se_room : room (v_heap (c_vfs c)) (roots (c_vfs c)) n;
  se_name : length (c_name c) = 256%nat;
  se_buf : length (c_buf c) = 256%nat }.

(** A file that is not there: a regular file that is reached within the limits of
    path lookup has no bytes. *)
Definition missing (st : @vfs S P) (d f : list Z) : Prop :=
  stack_free -> In no_file (v_files st) -> links_followed ->
  forall n l, reachable [r] cwd (candidate d f) (n :: l) -> n_mode n = DT_REG -> n_size n = 0.

(** The file that was found: its real path is in [ConfigName]. *)
Definition located (c : config S P) (d f : list Z) : Prop :=
  exists n l ns t, target d f (n :: l) /\ accepts n /\ spelled (n :: l) ns /\
    resolves [r] [r] (components (absolute_path ns)) (n :: l) /\ c_name c = absolute_path ns ++ 0 :: t.

Lemma same_trans (st1 st2 st3 : @vfs S P) : same_place st1 st2 -> same_place st2 st3 -> same_place st1 st3.
Proof. intros (? & ? & ?) (? & ? & ?). split_and!; congruence. Qed.

Definition one_try : nat := Z.to_nat 240000.

Lemma absolute_path_fits l ns : spelled l ns -> Z.of_nat (length (path_of ns)) < FILENAME_MAX -> (length (absolute_path ns) < 256)%nat.
Proof. unfold FILENAME_MAX. intros _. destruct ns; simpl; lia. Qed.

Lemma try_name_ok st c n d f t1 t2 : searching st c (one_try + n) -> dir_ok d -> pair_ok d f ->
  exists c' found, try_name call_core_open offs search_fuel c (d ++ 0 :: t1) (f ++ 0 :: t2) = Ok (c', found) /\ searching st c' n /\
    (if found : bool then located c' d f else v_files (c_vfs c') = v_files (c_vfs c) /\ missing (c_vfs c) d f).
Proof using Hopen Hmem Hroot.
  intros [Hok Hsame Hroom Hn Hb] ([Hcd Hd] & _ & _) (Hcf & _ & Hlen & Hfit). destruct c as [st1 name buf]. cbn [c_vfs c_name c_buf] in *.
  unfold try_name. rewrite join_name_ok by done. cbn [mbind result_bind].
  set (rest := drop _ buf). assert (length (candidate d f ++ 0 :: rest) = 256%nat) as Hb'.
  { unfold rest. rewrite length_app. cbn [length]. rewrite length_drop. lia. }
  clearbody rest. destruct (realpath_ok st1 r cwd (candidate d f) Hok Hroot) with (spare := (Z.to_nat 120000 + n)%nat) (rest0 := rest)
    (dst := name) (bufsize := FILENAME_MAX) as (st2 & name' & s & -> & Hok2 & Ef2 & Hs2 & Hroom2 & Hres); [|lia| |exact Hmem|exact Hfit|unfold FILENAME_MAX; lia|done|].
  { by apply candidate_ok. }
  { unfold room in *. unfold one_try in *. lia. }
  cbn [mbind result_bind]. pose proof (same_trans _ _ _ Hsame Hs2) as Hsame2.
  destruct Hres as [(l & ns & Hl & Hs & Hpath & -> & ->)|(-> & -> & _ & Hno)].
  2: { rewrite decide_True by done. eexists _, false. split; [reflexivity|].
       split; [|split; [done|intros _ H1 H2 n' l' Hl'; by destruct (Hno H1 H2 (n' :: l'))]].
       constructor; try done. cbn [c_vfs]. unfold room in *. lia. }
  pose proof (absolute_path_fits l ns Hs (Hfit l ns Hl Hs)) as Hfits.
  rewrite decide_False by (unfold size_error; lia).
  destruct (absolute_ok l ns Hs) as [Hpok Habs].
  destruct (co_call Hopen st2 cwd (Regs 0 0 0 0 (set_low_word 0 offs) 0 0 0) (absolute_path ns)
    (drop (Datatypes.S (length (absolute_path ns))) name) n Hok2 Hroot Hpok Habs Hfits Hroom2)
    as (st3 & regs & -> & Hok3 & Hs3 & Hroom3 & Hz & Hnz). cbn [mbind result_bind].
  eexists _, _. split; [reflexivity|]. split.
  - constructor; try done; [by eapply same_trans|]. cbn [c_name]. rewrite length_app. cbn [length]. rewrite length_drop. lia.
  - case_bool_decide as Hf.
    + destruct (Hz Hf) as (n' & l' & Hl' & Hacc). pose proof (resolves_unique _ _ _ _ Hpath _ Hl') as ->.
      exists n', l', ns. eexists. by splits.
    + destruct (Hnz Hf) as [Ef3 Hno]. cbn [c_vfs]. rewrite Ef3, Ef2. split; [done|]. rewrite Ef2 in Hno.
      intros H1 H2 H3 n' l' Hl'%in_limits_resolves Hreg. pose proof (resolves_unique _ _ _ _ Hl _ Hl') as ->.
      apply (Hno H1 H2 H3 n' l'); [|done]. exists 0%nat, 0%nat. splits; [|done|unfold MAX_SYMLINK_BUF; lia].
      assert (start [r] [r] (absolute_path ns) = [r]) as -> by (unfold start; by destruct (absolute _)).
      by apply (target_reaches st1 r cwd (candidate d f) Hok Hroot).
Qed.

Lemma searching_less st c m n : searching st c m -> (n <= m)%nat -> searching st c n.
Proof. intros [? ? Hroom ? ?] Hn. constructor; try done. unfold room in *. lia. Qed.

(** The strings of the code, with what is behind their zeros. *)
Definition terminate_all (l : list (list Z * list Z)) : list (list Z) := (fun '(s, t) => s ++ 0 :: t) <$> l.

Lemma try_names_ok st fs : forall c n d t1, searching st c (length fs * one_try + n) -> dir_ok d -> Forall (pair_ok d) fs.*1 ->
  exists c' found, try_names call_core_open offs search_fuel c (d ++ 0 :: t1) (terminate_all fs) = Ok (c', found) /\ searching st c' n /\
    (if found : bool then exists fs1 f fs2, fs.*1 = fs1 ++ f :: fs2 /\ located c' d f /\ Forall (missing (c_vfs c) d) fs1
     else v_files (c_vfs c') = v_files (c_vfs c) /\ Forall (missing (c_vfs c) d) fs.*1).
Proof using Hopen Hmem Hroot.
  induction fs as [|[f t2] fs IH]; intros c n d t1 Hs Hd Hp.
  - exists c, false. by splits.
  - cbn [fmap list_fmap fst] in Hp. apply Forall_cons in Hp as [Hf Hp]. change (terminate_all ((f, t2) :: fs)) with ((f ++ 0 :: t2) :: terminate_all fs). cbn [try_names length] in Hs |- *.
    destruct (try_name_ok st c (length fs * one_try + n) d f t1 t2) as (c1 & found & -> & Hs1 & Hres); [|done..|].
    { by rewrite (Nat.add_assoc one_try). }
    cbn [mbind result_bind]. destruct found.
    + exists c1, true. splits; [done|by apply (searching_less _ _ (length fs * one_try + n)); [|lia]|].
      exists [], f, fs.*1. by splits.
    + destruct Hres as [Ef Hmiss]. destruct (IH c1 n d t1 Hs1 Hd Hp) as (c2 & found & -> & Hs2 & Hres).
      exists c2, found. splits; [done..|]. unfold missing in *. rewrite Ef in Hres. destruct found.
      * destruct Hres as (fs1 & f' & fs2 & Efs & Hloc & Hm). exists (f :: fs1), f', fs2.
        splits; [by rewrite fmap_cons, Efs|done|]. by constructor.
      * destruct Hres as [-> Hm]. split; [done|]. by constructor.
Qed.

(** What the search answers. *)
Inductive search_answer (c : config S P) (ds fs : list (list Z)) (c' : config S P) : Z -> Prop :=
  | config_found ds1 d ds2 fs1 f fs2 cwd' : ds = ds1 ++ d :: ds2 -> fs = fs1 ++ f :: fs2 ->
      Forall (fun d => Forall (missing (c_vfs c) d) fs) ds1 -> Forall (missing (c_vfs c) d) fs1 ->
      located c' d f -> vfs_ok (c_vfs c') [r] cwd' ->
      (exists n l ns t, cwd' = n :: l /\ resolves [r] (start [r] cwd d) (components d) cwd' /\ n_mode n = DT_DIR /\
        spelled cwd' ns /\ v_cwd_name (c_vfs c') = path_of ns ++ slash :: 0 :: t) \/
      (cwd' = cwd /\ same_place (c_vfs c) (c_vfs c') /\ (In no_file (v_files (c_vfs c')) -> no_links -> False) /\
       (In no_file (v_files (c_vfs c')) -> links_followed -> forall n l, reachable [r] cwd d (n :: l) -> n_mode n <> DT_DIR)) ->
      search_answer c ds fs c' 0
  | config_missing : vfs_ok (c_vfs c') [r] cwd -> same_place (c_vfs c) (c_vfs c') -> v_files (c_vfs c') = v_files (c_vfs c) ->
      Forall (fun d => Forall (missing (c_vfs c) d) fs) ds -> search_answer c ds fs c' (-1).

(** The directory of a file that was found is one that chdir goes to. *)
Lemma located_dir (st : @vfs S P) c d f : vfs_ok st [r] cwd -> d <> [] -> name_ok f -> located c d f ->
  exists n l, resolves [r] (start [r] cwd d) (components d) (n :: l) /\ n_mode n = DT_DIR.
Proof using Hroot.
  intros Hok Hd Hf (n0 & l & ns & t & Hl & _). rewrite candidate_components, candidate_start in Hl by done.
  rewrite (components_name f Hf) in Hl. destruct (vo_dirs _ _ _ Hok) as [Hd1 Hd2].
  assert (dirs_ok (start [r] cwd d)) as Hs by (unfold start; by destruct (absolute _)).
  destruct (resolves_prefix [r] _ _ _ Hd1 Hl _ _ eq_refl ltac:(done) Hs) as (m & Hm & Hmd).
  pose proof (resolves_last _ _ _ _ Hm) as Hlast. destruct m as [|n m].
  - exfalso. assert (last (start [r] cwd d) = Some r) as E by (unfold start; by destruct (absolute _)). by specialize (Hlast E).
  - exists n, m. split; [done|]. by apply Forall_cons in Hmd as [[_ ?] _].
Qed.

Lemma search_config_ok ds fs cwd_buf : length cwd_buf = 256%nat ->
  Forall dir_ok ds.*1 -> Forall (fun d => Forall (pair_ok d) fs.*1) ds.*1 ->
  forall st c, searching st c (length ds * (length fs * one_try) + one_try) ->
  exists c' rv, search_config call_core_open offs search_fuel c cwd_buf (terminate_all ds) (terminate_all fs) = Ok (c', rv) /\
    search_answer c ds.*1 fs.*1 c' rv.
Proof using Hopen Hmem Hroot.
  intros Hbuf. induction ds as [|[d t1] ds IH]; intros Hds Hps st c Hs.
  - exists c, (-1). split; [done|]. by constructor; [apply Hs| | |constructor].
  - cbn [fmap list_fmap fst] in Hds, Hps |- *. apply Forall_cons in Hds as [Hd Hds]. apply Forall_cons in Hps as [Hp Hps].
    change (terminate_all ((d, t1) :: ds)) with ((d ++ 0 :: t1) :: terminate_all ds). cbn [search_config length] in Hs |- *.
    destruct (try_names_ok (c_vfs c) fs c (length ds * (length fs * one_try) + one_try) d t1) as (c1 & found & -> & Hs1 & Hres); [|done..|].
    { destruct Hs as [? ? Hroom ? ?]. constructor; try done. by rewrite Nat.add_assoc. }
    cbn [mbind result_bind]. destruct found.
    + destruct Hres as (fs1 & f & fs2 & Efs & Hloc & Hm). pose proof Hs1 as [Hok1 Hsame1 Hroom1 _ _].
      destruct Hd as (Hdp & Hdl & Hdf).
      destruct (chdir_ok (c_vfs c1) r cwd d Hok1 Hroot Hdp) with (spare := 0%nat) (rest0 := t1) (cwd_buf := cwd_buf)
        as (st2 & rv & -> & Ef2 & Hch); [lia| |exact Hmem|exact Hdf|by rewrite Hbuf|].
      { unfold room, one_try in *. lia. }
      cbn [mbind result_bind]. eexists _, _. split; [reflexivity|].
      destruct Hch as [(-> & n & l & ns & Hl & Hn & Hok2 & Hsp & _ & t & Et)|(-> & Hok2 & Hs2 & Hno & Hlim)].
      * apply (config_found _ _ _ _ [] d ds.*1 fs1 f fs2 (n :: l)); try done. left. by exists n, l, ns, t.
      * apply (config_found _ _ _ _ [] d ds.*1 fs1 f fs2 cwd); try done. right. split; [done|].
        split; [by eapply same_trans|]. cbn [c_vfs]. rewrite Ef2. split; [|done]. intros H1 H2.
        rewrite Efs in Hp. apply Forall_app in Hp as [_ Hp]. apply Forall_cons in Hp as [(_ & Hf & _) _].
        destruct (located_dir _ c1 d f Hok1 (proj2 Hdp) Hf Hloc) as (n & l & Hl & Hn). by apply (Hno H1 H2 n l).
    + destruct Hres as [Ef Hm]. destruct (IH Hds Hps (c_vfs c) c1 Hs1) as (c2 & rv & -> & Hans).
      exists c2, rv. split; [done|].
      pose proof (se_same _ _ _ Hs1) as Hsame1. assert (missing (c_vfs c1) = missing (c_vfs c)) as Em by (unfold missing; by rewrite Ef).
      destruct Hans as [ds1 d' ds2 fs1 f fs2 cwd' Eds Efs Hm1 Hm2 Hloc Hok2 Hcwd|Hok2 Hs2 Ef2 Hm1].
      * apply (config_found _ _ _ _ (d :: ds1) d' ds2 fs1 f fs2 cwd'); try done; [cbn [app]; f_equal; exact Eds| |by rewrite Em in Hm2|].
        -- constructor; [done|]. by rewrite Em in Hm1.
        -- destruct Hcwd as [?|(? & ? & ? & ?)]; [by left|right]. splits; try done. by eapply same_trans.
      * apply config_missing; [done|by eapply same_trans|congruence|]. constructor; [done|]. by rewrite Em in Hm1.
Qed.

(** *** The list of the code *)

Definition str (s : string) : list Z := chr <$> list_ascii_of_string s.

Definition config_dirs (d0 : list Z) : list (list Z) := [d0; str "/boot/syslinux"; str "/syslinux"; str "/"].
Definition config_files : list (list Z) := [str "extlinux.conf"; str "syslinux.cfg"].

(** The zero flag after an operation. *)
Lemma set_flags_zf eflags f : f = 0 \/ f = EFLAGS_ZF -> (Z.land (set_flags eflags f) EFLAGS_ZF = 0 <-> f = 0).
Proof.
  intros Hf. unfold set_flags. assert (Z.land (Z.lor (Z.ldiff eflags RESULT_FLAGS) f) EFLAGS_ZF = f) as ->; [|done].
  apply Z.bits_inj'. intros n Hn. rewrite Z.land_spec, Z.lor_spec, Z.ldiff_spec. destruct (decide (n = 6)) as [->|Hne].
  - change (Z.testbit RESULT_FLAGS 6) with true. change (Z.testbit EFLAGS_ZF 6) with true. by rewrite andb_false_r, orb_false_l, andb_true_r.
  - unfold EFLAGS_ZF in *. change 0x40 with (2 ^ 6) in *. rewrite Z.pow2_bits_false by lia. rewrite andb_false_r.
    destruct Hf as [->| ->]; [by rewrite Z.bits_0|by rewrite Z.pow2_bits_false by lia].
Qed.

(** The zero flag tells whether there is a configuration file. *)
Lemma pm_load_config_ok c cwd_buf d0 t0 regs : length cwd_buf = 256%nat -> Forall dir_ok (config_dirs d0) ->
  Forall (fun d => Forall (pair_ok d) config_files) (config_dirs d0) -> searching (c_vfs c) c (9 * one_try) ->
  exists c' regs' rv, pm_load_config call_core_open offs search_fuel c cwd_buf (d0 ++ 0 :: t0) regs = Ok (c', regs') /\
    search_answer c (config_dirs d0) config_files c' rv /\ (Z.land (r_eflags regs') EFLAGS_ZF = 0 <-> rv = 0).
Proof using Hopen Hmem Hroot.
  intros Hbuf Hd Hp Hs.
  set (ds := [(str "/boot/syslinux", []); (str "/syslinux", []); (str "/", [])] : list (list Z * list Z)).
  set (fs := [(str "extlinux.conf", []); (str "syslinux.cfg", [])] : list (list Z * list Z)).
  destruct (search_config_ok ((d0, t0) :: ds) fs cwd_buf Hbuf Hd Hp (c_vfs c) c) as (c' & rv & E & Hans).
  { change (length ((d0, t0) :: ds)) with 4%nat. change (length fs) with 2%nat. eapply searching_less; [exact Hs|]. lia. }
  unfold pm_load_config, generic_load_config.
  change (terminate_all ((d0, t0) :: ds)) with ((d0 ++ 0 :: t0) :: fallback_directories) in E.
  change (terminate_all fs) with config_names in E. rewrite E. cbn [mbind result_bind]. eexists _, _, rv. split; [reflexivity|].
  split; [exact Hans|]. cbn [r_eflags]. rewrite set_flags_zf by (case_decide; auto).
  destruct Hans; split; done.
Qed.

End Find.



(** ** A core

    The lookup of core_open is pm_searchdir, which takes any file ([core_searchdir]).
    With the test of the length that is documented the file is closed again when it
    has no bytes ([documented_core_open]). *)

Section Core.
Context {S P : Type} `{FS : FsSpec S P}.

Definition with_flags (regs : com32sys_t) (flags : Z) : com32sys_t :=
  Regs (r_eax regs) (r_ebx regs) (r_ecx regs) (r_esi regs) (r_edi regs) (r_ds regs) (r_es regs) flags.
Definition set_zf (regs : com32sys_t) : com32sys_t := with_flags regs (Z.lor (r_eflags regs) EFLAGS_ZF).
Definition clear_zf (regs : com32sys_t) : com32sys_t := with_flags regs (Z.ldiff (r_eflags regs) EFLAGS_ZF).

Lemma set_zf_ok regs : Z.land (r_eflags (set_zf regs)) EFLAGS_ZF <> 0.
Proof.
  intros E0. apply (f_equal (fun x => Z.testbit x 6)) in E0. cbn [set_zf with_flags r_eflags] in E0.
  by rewrite Z.land_spec, Z.lor_spec, orb_true_r in E0.
Qed.

Lemma clear_zf_ok regs : Z.land (r_eflags (clear_zf regs)) EFLAGS_ZF = 0.
Proof.
  apply Z.bits_inj'. intros b Hb. cbn [clear_zf with_flags r_eflags].
  rewrite Z.land_spec, Z.ldiff_spec, Z.bits_0. by destruct (Z.testbit (r_eflags regs) b), (Z.testbit EFLAGS_ZF b).
Qed.

Definition core_searchdir (st : @vfs S P) (regs : com32sys_t) (name : list Z) : result (@vfs S P * com32sys_t) :=
  '(st, rv) ← searchdir search_fuel st name;
  Ok (st, if decide (rv < 0) then set_zf regs else clear_zf regs).

Definition documented_core_open (st : @vfs S P) (regs : com32sys_t) (name : list Z) : result (@vfs S P * com32sys_t) :=
  '(st, rv) ← searchdir search_fuel st name;
  if decide (rv < 0) then Ok (st, set_zf regs) else
  '(k, _, i) ← file_inode st rv;
  if decide (i_size i = 0) then st ← _close_file st k; Ok (st, set_zf regs)
  else Ok (st, clear_zf regs).

(** What both need of [searchdir]. *)
Lemma core_search r (st : @vfs S P) cwd name t n : enough_memory -> vfs_ok st [r] cwd -> last cwd = Some r -> path_ok name -> absolute name = true ->
  (length name < 256)%nat -> room (v_heap st) (roots st) (Z.to_nat 120000 + n) ->
  exists st' rv, searchdir search_fuel st (name ++ 0 :: t) = Ok (st', rv) /\ vfs_ok st' [r] cwd /\ same_place st st' /\
    room (v_heap st') (roots st') n /\
    ((exists k p f l i, rv = Z.of_nat k + 1 /\ v_files st !! k = Some no_file /\ v_files st' = <[k := File true 0 p]> (v_files st) /\
        resolves [r] [r] (components name) (f :: l) /\ node_of i = f /\ file_inode st' rv = Ok (k, File true 0 p, i)) \/
     (rv = -1 /\ v_files st' = v_files st /\
        (In no_file (v_files st) -> links_followed -> forall l, ~ reachable [r] [r] name l))).
Proof.
  intros Hmem Hok Hroot Hp Ha Hl Hroom.
  destruct (search_ok st [r] cwd name Hok Hp ltac:(lia) n Hroom t) as (st' & rv & E & Hok' & Hres & Hs & Hroom' & _ & Hlim).
  assert (start [r] cwd name = [r]) as Est by (unfold start; by rewrite Ha).
  exists st', rv. splits; [done..|]. destruct Hres as [k p l Hk Efs Hp0 Hch Hl'|Efs _].
  - left. assert (k < length (v_files st))%nat as Hkl by (by eapply lookup_lt_Some).
    assert (v_files st' !! k = Some (File true 0 p)) as Hk' by (rewrite Efs; by apply list_lookup_insert_eq).
    destruct (opened_inode st' [r] cwd k p l Hok' Hk' Hp0 Hch) as (f & l' & i & -> & _ & En & Ef).
    rewrite Est in Hl'. exists k, p, f, l', i. by splits.
  - right. splits; [done..|]. intros H1 H2 l Hr. apply (Hlim eq_refl H1 H2 l). unfold reachable in *. rewrite Est.
    revert Hr. unfold start. by rewrite Ha.
Qed.

Lemma core_searchdir_ok r : enough_memory -> core_open_ok core_searchdir r True (fun _ => True).
Proof.
  intros Hmem. split. intros st cwd regs name t n Hok Hroot Hp Ha Hl Hroom.
  destruct (core_search r st cwd name t n Hmem Hok Hroot Hp Ha Hl Hroom) as (st' & rv & E & Hok' & Hs & Hroom' & Hres).
  unfold core_searchdir. rewrite E. cbn [mbind result_bind]. eexists _, _. split; [reflexivity|]. split; [done|]. split; [done|]. split; [done|].
  destruct Hres as [(k & p & f & l & i & -> & _ & _ & Hl' & _)|(-> & Efs & Hno)].
  - rewrite decide_False by lia. split; [by exists f, l|]. intros H. by rewrite clear_zf_ok in H.
  - rewrite decide_True by lia. split; [intros H; by apply set_zf_ok in H|]. intros _. split; [done|].
    intros _ H1 H2 f l Hr. by destruct (Hno H1 H2 (f :: l)).
Qed.


(** The search with the lookup that the core really does: also a file without bytes, or
    a directory, is taken. *)
Lemma search_config_searchdir offs r cwd ds fs cwd_buf (c : config S P) :
  enough_memory -> last cwd = Some r -> length cwd_buf = 256%nat ->
  Forall (dir_ok r cwd) ds.*1 -> Forall (fun d => Forall (pair_ok r cwd d) fs.*1) ds.*1 ->
  searching r cwd (c_vfs c) c (length ds * (length fs * one_try) + one_try) ->
  exists c' rv, search_config core_searchdir offs search_fuel c cwd_buf (terminate_all ds) (terminate_all fs) = Ok (c', rv) /\
    search_answer r True (fun _ => True) cwd c ds.*1 fs.*1 c' rv.
Proof. intros Hmem Hroot Hbuf Hd Hp. apply search_config_ok; try done. by apply core_searchdir_ok. Qed.
End Core.

(** ** An example *)

#[local] Existing Instances demo_ops demo_spec.

Definition demo_config : config unit Z := Config demo_vfs (replicate 256 9) (replicate 256 9).





(** [/a/f] is found, and [/a/] is the current directory then. *)
Example demo_search_config : (fun '(c, rv) => (take 5 (c_name c), v_cwd_name (c_vfs c), rv)) <$>
  search_config documented_core_open 0x1000 search_fuel demo_config (replicate 256 9) [cstr "/"; cstr "l"] [cstr "x"; cstr "f"] =
  Ok ([0x2f; 0x61; 0x2f; 0x66; 0], [0x2f; 0x61; 0x2f; 0], 0).
Proof. vm_compute. done. Qed.

End ConfigSpec.
