(* ===== verification/Ntfs.v ===== *)
(** * The NTFS file system (libcore/fs/ntfs)

    Records of the master file table with their fixups, attributes, data runs,
    and the indexes of directories.  A pointer into a record is the buffer with
    its address, and an offset; records are not changed once they are read, so
    a buffer carries its bytes. *)

From Stdlib Require Import ZArith Lia.
From S2P Require Import Prelude Dirent CStr Cache BlockCache GetFsSec.
Import Dirent.Dirent CStr.CStr.

Module Ntfs.

(** ** Data (ntfs.h, runlist.h) *)

Definition NTFS_AT_ATTR_LIST : Z := 0x20.
Definition NTFS_AT_VOL_INFO : Z := 0x70.
Definition NTFS_AT_DATA : Z := 0x80.
Definition NTFS_AT_INDEX_ROOT : Z := 0x90.
Definition NTFS_AT_INDEX_ALLOCATION : Z := 0xA0.
Definition NTFS_AT_END : Z := 0xFFFFFFFF.

Definition NTFS_MAGIC_FILE : Z := 0x454C4946.
Definition NTFS_MAGIC_INDX : Z := 0x58444E49.

Definition FILE_Volume : Z := 3.
Definition FILE_root : Z := 5.

Definition MFT_RECORD_IS_DIRECTORY : Z := 2.
Definition FILE_NAME_POSIX : Z := 0.
Definition INDEX_ENTRY_NODE : Z := 1.
Definition INDEX_ENTRY_END : Z := 2.

Definition MAP_START : Z := 1.
Definition MAP_END : Z := 2.
Definition MAP_ALLOCATED : Z := 4.
Definition MAP_UNALLOCATED : Z := 8.
Definition MAP_MASK : Z := 0xF.

(** The two values of the pointer [mft_record_lookup]. *)
Inductive f_mft_record_lookup := ntfs_mft_record_lookup_3_0 | ntfs_mft_record_lookup_3_1.

Record ntfs_sb_info := SB {
  mft_blk : Z; mft_lcn : Z; mft_size : Z; mft_record_size : Z; clust_per_idx_record : Z; clusters : Z;
  clust_shift : Z; clust_byte_shift : Z; clust_mask : Z; clust_size : Z;
  major_ver : Z; minor_ver : Z; mft_record_lookup : f_mft_record_lookup }.

(** An object and its address. *)
Record buffer := Buffer { b_addr : Z; b_bytes : list Z }.

Record ptr := Ptr { p_buf : buffer; p_off : Z }.

Definition padd (p : ptr) (n : Z) : ptr := Ptr (p_buf p) (p_off p + n).

(** The number of a pointer, which comparisons see. *)
Definition addr (p : ptr) : Z := u32 (b_addr (p_buf p) + p_off p).

Definition load (n : nat) (p : ptr) (o : Z) : result Z := getle n (b_bytes (p_buf p)) (p_off p + o).

Record mapping_chunk := Chunk { c_vcn : Z; c_lcn : Z; c_len : Z; c_flags : Z }.

Record runlist_element := Run { r_vcn : Z; r_lcn : Z; r_len : Z }.

(** struct runlist: [tail] is the last element of the list that grows. *)
Abbreviation runlist := (list runlist_element).

Definition runlist_is_empty (rlist : runlist) : bool := match rlist with [] => true | _ => false end.
Definition runlist_append (rlist : runlist) (elem : runlist_element) : runlist := rlist ++ [elem].
Definition runlist_remove (rlist : runlist) : option (runlist_element * runlist) :=
  match rlist with [] => None | ret :: rlist => Some (ret, rlist) end.

(** The union of struct ntfs_inode. *)
Inductive pvt_data :=
  | Resident (offset : Z)
  | NonResident (rlist : runlist).

(** struct ntfs_inode, with the fields of struct inode that NTFS fills. *)
Record inode := Inode {
  mode : Z; size : Z; mft_no : Z; seq_no : Z; type : Z; non_resident : Z; data : pvt_data;
  start_cluster : Z; start : Z; here : Z }.

Record ntfs_readdir_state := RDState {
  rd_mft_no : Z; in_idx_root : bool; idx_blks_count : Z; entries_count : Z; last_vcn : Z }.

(** struct ntfs_bpb, in the bytes of the boot sector *)
Definition check_bytes (sb : list Z) (o : Z) (s : list Z) : result bool :=
  d ← memcmp (drop (Z.to_nat o) sb) s (length s); Ok (bool_decide (d = 0)).

Definition ntfs_check_zero_fields (sb : list Z) : result bool :=
  res_sectors ← get16 sb 14;
  zero_0 ← getle 3 sb 16;
  zero_1 ← get16 sb 19;
  zero_2 ← get16 sb 22;
  zero_3 ← get32 sb 32;
  Ok (bool_decide (res_sectors = 0 /\ zero_0 = 0 /\ zero_1 = 0 /\ zero_2 = 0 /\ zero_3 = 0)).

Definition NTFS_NAME : list Z := [78; 84; 70; 83; 32; 32; 32; 32].
Definition MSWIN4_0 : list Z := [77; 83; 87; 73; 78; 52; 46; 48].
Definition MSWIN4_1 : list Z := [77; 83; 87; 73; 78; 52; 46; 49].

Definition ntfs_check_sb_fields (sb : list Z) : result bool :=
  zero ← ntfs_check_zero_fields sb;
  a ← check_bytes sb 3 NTFS_NAME;
  b ← check_bytes sb 3 MSWIN4_0;
  c ← check_bytes sb 3 MSWIN4_1;
  Ok (zero && (a || b || c)).

(** ilog2.h *)
Definition ilog2 (v : Z) : result Z := if decide (0 < u32 v) then Ok (Z.log2 (u32 v)) else Undef.

(** A shift of a 32-bit value. *)
Definition shl32 (x k : Z) : result Z :=
  if decide (0 <= k < 32) then Ok (u32 (Z.shiftl x k)) else Undef.

(** ** Fixups *)

(** A 16-bit store. *)
Definition put16 (l : list Z) (i v : Z) : result (list Z) :=
  l ← store l i (u8 v); store l (i + 1) (u8 (Z.shiftr v 8)).

(** [while (usa_count--)]: [usa] and [blk] are offsets in the record. *)
Fixpoint fixups (sector_size usa_no : Z) (n : nat) (usa blk : Z) (nrec : list Z) : result (list Z) :=
  match n with
  | O => Ok nrec
  | S n =>
      x ← get16 nrec blk;
      if decide (x <> usa_no) then Ok nrec else
      v ← get16 nrec usa;
      nrec ← put16 nrec blk v;
      fixups sector_size usa_no n (usa + 2) (blk + sector_size) nrec
  end.

Definition ntfs_fixups_writeback (sector_size : Z) (nrec : list Z) : result (list Z) :=
  magic ← get32 nrec 0;
  if decide (magic <> NTFS_MAGIC_FILE /\ magic <> NTFS_MAGIC_INDX) then Ok nrec else
  usa_ofs ← get16 nrec 4;
  usa_no ← get16 nrec usa_ofs;
  usa_count ← get16 nrec 6;
  fixups sector_size usa_no (Z.to_nat (u16 (usa_count - 1))) (usa_ofs + 2) (sector_size - 2) nrec.

(** ** Names of entries *)

(** struct ntfs_idx_entry *)
Definition indexed_file (ie : ptr) : result Z := load 8 ie 0.
Definition ie_len (ie : ptr) : result Z := load 2 ie 8.
Definition ie_flags (ie : ptr) : result Z := load 2 ie 12.
Definition file_name_len (ie : ptr) : result Z := load 1 ie 80.
Definition file_name_type (ie : ptr) : result Z := load 1 ie 81.
Definition file_name (ie : ptr) (i : Z) : result Z := load 2 ie (82 + 2 * i).

(** sizeof(struct ntfs_idx_entry_header) *)
Definition idx_entry_header_size : Z := 16.

(** A character as an int. *)
Definition s8 (c : Z) : Z := (c + 0x80) mod 0x100 - 0x80.

(** [for (i = 0; i < entry_fn_len; i++)], with [n] characters left. *)
Fixpoint name_eq (f : Z -> Z) (dname : list Z) (ie : ptr) (n : nat) (i : Z) : result bool :=
  match n with
  | O => Ok true
  | S n =>
      x ← file_name ie i;
      c ← get8 dname i;
      if decide (f x <> f (s8 c)) then Ok false else name_eq f dname ie n (i + 1)
  end.

Definition ntfs_filename_cmp (dname : list Z) (ie : ptr) : result bool :=
  entry_fn_len ← file_name_len ie;
  len ← strlen dname;
  if decide (len <> entry_fn_len) then Ok false else
  ty ← file_name_type ie;
  name_eq (if decide (ty = FILE_NAME_POSIX) then id else tolower) dname ie (Z.to_nat entry_fn_len) 0.

(** The characters; the zero that ends them is left out. *)
Fixpoint ntfs_cvt_name (ie : ptr) (n : nat) (i : Z) : result (list Z) :=
  match n with
  | O => Ok []
  | S n => x ← file_name ie i; l ← ntfs_cvt_name ie n (i + 1); Ok (u8 x :: l)
  end.

Definition ntfs_cvt_filename (ie : ptr) : result (list Z) :=
  entry_fn_len ← file_name_len ie;
  ntfs_cvt_name ie (Z.to_nat entry_fn_len) 0.

(** The first character of an empty name is the zero. *)
Definition is_filename_printable (s : list Z) : bool :=
  match s with [] => true | c :: _ => bool_decide (c <> 46 /\ c <> 36) end.

(** ** Data runs *)

(** struct ntfs_attr_record *)
Definition attr_type (attr : ptr) : result Z := load 4 attr 0.
Definition attr_len (attr : ptr) : result Z := load 4 attr 4.
Definition attr_non_resident (attr : ptr) : result Z := load 1 attr 8.
Definition value_len (attr : ptr) : result Z := load 4 attr 16.
Definition value_offset (attr : ptr) : result Z := load 2 attr 20.
Definition mapping_pairs_offset (attr : ptr) : result Z := load 2 attr 32.
Definition data_size (attr : ptr) : result Z := load 8 attr 48.
Definition initialized_size (attr : ptr) : result Z := load 8 attr 56.

(** The stream, the chunk and the offset. *)
Definition mapping_chunk_init (attr : ptr) : result (ptr * mapping_chunk * Z) :=
  o ← mapping_pairs_offset attr; Ok (padd attr o, Chunk 0 0 0 0, 0).

(** [while (count--)] for the length: the bytes down from [byte]. *)
Fixpoint run_length (buf : ptr) (byte : Z) (count : nat) (res : Z) : result Z :=
  match count with
  | O => Ok res
  | S count =>
      val ← load 1 buf byte;
      let mask := Z.shiftr val 7 in
      run_length buf (byte - 1) count (s64 (Z.lor (Z.shiftl res 8) (Z.lxor (val + mask) mask)))
  end.

(** [while (count--)] for the LCN. *)
Fixpoint run_lcn (buf : ptr) (byte : Z) (count : nat) (res : Z) : result Z :=
  match count with
  | O => Ok res
  | S count => val ← load 1 buf byte; run_lcn buf (byte - 1) count (s64 (Z.lor (Z.shiftl res 8) val))
  end.

(** The new offset and chunk; [None] is the -1. *)
Definition parse_data_run (stream : ptr) (offset : Z) (attr_end : ptr) (chunk : mapping_chunk) :
    result (option (Z * mapping_chunk)) :=
  let flags := Z.land (c_flags chunk) (Z.lnot MAP_MASK) in
  let buf := padd stream offset in
  let done := Chunk (c_vcn chunk) (c_lcn chunk) (c_len chunk) (Z.lor flags MAP_END) in
  if decide (addr buf > addr attr_end) then Ok (Some (offset, done)) else
  count ← load 1 buf 0;
  if decide (count = 0) then Ok (Some (offset, done)) else
  let flags := if decide (offset = 0) then Z.lor flags MAP_START else flags in
  let v := Z.land count 0x0F in
  let l := Z.shiftr count 4 in
  if decide (v > 8 \/ l > 8) then Ok None else
  len ← run_length buf v (Z.to_nat v) 0;
  top ← load 1 buf (v + l);
  let res := if decide (Z.land top 0x80 <> 0) then -1 else 0 in
  res ← run_lcn buf (v + l) (Z.to_nat l) res;
  let lcn := s64 (c_lcn chunk + res) in
  let flags := Z.lor flags (if decide (lcn = 0) then MAP_UNALLOCATED else MAP_ALLOCATED) in
  Ok (Some (u32 (offset + (v + l + 1)), Chunk (c_vcn chunk) lcn (u64 len) flags)).

Definition has_flag (chunk : mapping_chunk) (flag : Z) : bool := bool_decide (Z.land (c_flags chunk) flag <> 0).

(** One round of the loop of [index_inode_setup] that collects the runs; the
    result is [None] if a run is wrong. *)
Definition collect_step (stream attr_end : ptr) (s : Z * mapping_chunk * runlist) :
    result (ctl (Z * mapping_chunk * runlist) (option runlist)) :=
  let '(offset, chunk, rlist) := s in
  r ← parse_data_run stream offset attr_end chunk;
  match r with
  | None => Ok (Break None)
  | Some (offset, chunk) =>
      if has_flag chunk MAP_UNALLOCATED then Ok (Continue (offset, chunk, rlist)) else
      if has_flag chunk MAP_END then Ok (Break (Some rlist)) else
      if has_flag chunk MAP_ALLOCATED then
        let rlist := runlist_append rlist (Run (c_vcn chunk) (c_lcn chunk) (c_len chunk)) in
        Ok (Continue (offset, Chunk (u64 (c_vcn chunk + c_len chunk)) (c_lcn chunk) (c_len chunk) (c_flags chunk), rlist))
      else Ok (Continue (offset, chunk, rlist))
  end.

Definition collect_runs (fuel : nat) (stream attr_end : ptr) (chunk : mapping_chunk) (offset : Z) :
    result (option runlist) :=
  loop fuel (collect_step stream attr_end) (offset, chunk, []).

(** ** Records of the master file table *)

(** What the code keeps between calls: the cache, the objects that malloc gave
    and that are not freed, and the state of [ntfs_readdir]. *)
Record state (C : Type) := State {
  cache : C; live : list buffer; readdir_state : option ntfs_readdir_state }.
Arguments State {C}.
Arguments cache {C}.
Arguments live {C}.
Arguments readdir_state {C}.

Definition set_cache {C} (s : state C) (c : C) : state C := State c (live s) (readdir_state s).
Definition set_readdir {C} (s : state C) (r : option ntfs_readdir_state) : state C := State (cache s) (live s) r.

Definition malloc {C} (s : state C) (b : buffer) : state C := State (cache s) (b :: live s) (readdir_state s).
Definition free {C} (s : state C) (b : buffer) : state C :=
  State (cache s) (filter (fun x => b_addr x <> b_addr b) (live s)) (readdir_state s).

(** Where [ntfs_read] leaves its arguments, and the bytes. *)
Record read_result := RR { rr_blk : Z; rr_offset : Z; rr_next_offset : Z; rr_lcn : Z; rr_buf : list Z }.

Section Code.
Context {C : Type} `{BC : !BlockCache C}.
Context (block_shift sector_shift : Z).

(** The address that malloc gives for a size, after what is allocated; it does
    not return when memory is exhausted.  [stack_addr] is the address of the
    block that a function has on its stack. *)
Context (malloc_addr : list buffer -> Z -> Z) (stack_addr : Z).

Abbreviation BLOCK_SIZE := (2 ^ block_shift).
Abbreviation SECTOR_SIZE := (2 ^ sector_shift).

(** memcpy from a block of the cache *)
Definition copy (block : list Z) (offset n : Z) : result (list Z) :=
  if decide (0 <= offset /\ 0 <= n /\ offset + n <= Z.of_nat (length block)) then Ok (sub block offset (Z.to_nat n))
  else Undef.

(** [while (bytes)]: the variables are the cache, [*blk], [data], [buf] as far
    as it is written, [bytes], [lbytes], [offset] and [loffset]. *)
Definition read_step (s : C * Z * list Z * list Z * Z * Z * Z * Z) :
    result (ctl (C * Z * list Z * list Z * Z * Z * Z * Z) (C * Z * list Z * Z * Z)) :=
  let '(c, blk, data, buf, bytes, lbytes, offset, loffset) := s in
  if decide (bytes = 0) then Ok (Break (c, blk, buf, offset, loffset)) else
  l ← copy data offset lbytes;
  let buf := buf ++ l in
  let bytes := u64 (bytes - lbytes) in
  let loffset := offset in
  let offset := u64 (offset + lbytes) in
  if decide (offset >= BLOCK_SIZE) then
    let blk := u64 (blk + 1) in
    let '(c, data) := cblock c blk in
    Ok (Continue (c, blk, data, buf, bytes, bytes, 0, offset))
  else Ok (Continue (c, blk, data, buf, bytes, lbytes, offset, loffset)).

(** The cache always has an answer, so that the only failure is a buffer that
    is too small. *)
Definition ntfs_read (fuel : nat) (sbi : ntfs_sb_info) (c : C) (len count blk blk_offset lcn : Z) :
    result (C * option read_result) :=
  if decide (count > len) then Ok (c, None) else
  let '(c, data) := cblock c blk in
  let offset := if decide (blk_offset = 0) then u64 (Z.shiftl lcn (clust_byte_shift sbi)) mod BLOCK_SIZE
                else blk_offset in
  let bytes := count in
  let lbytes := u64 (BLOCK_SIZE - offset) in
  '(c, blk, buf, offset, loffset) ←
    (if decide (lbytes >= bytes) then l ← copy data offset bytes; Ok (c, blk, l, u64 (offset + count), offset)
     else loop fuel read_step (c, blk, data, [], bytes, lbytes, offset, 0));
  let loffset := if decide (loffset >= BLOCK_SIZE) then 0 else loffset in
  if decide (count = 0) then Undef else
  Ok (c, Some (RR blk loffset offset (u64 (lcn + BLOCK_SIZE / count)) buf)).

(** struct ntfs_mft_record *)
Definition magic (mrec : list Z) : result Z := get32 mrec 0.
Definition rec_seq_no (mrec : list Z) : result Z := get16 mrec 16.
Definition attrs_offset (mrec : list Z) : result Z := get16 mrec 20.
Definition rec_flags (mrec : list Z) : result Z := get16 mrec 22.
Definition mft_record_no (mrec : list Z) : result Z := get32 mrec 44.

(** The test of the record: 3.1 looks at its number too. *)
Definition record_found (version : f_mft_record_lookup) (file : Z) (mrec : list Z) : result bool :=
  m ← magic mrec;
  if decide (m = NTFS_MAGIC_FILE) then
    match version with
    | ntfs_mft_record_lookup_3_0 => Ok true
    | ntfs_mft_record_lookup_3_1 => n ← mft_record_no mrec; Ok (bool_decide (n = file))
    end
  else Ok false.

(** One round of [for (;;)], which the two lookups share. *)
Definition lookup_step (fuel : nat) (sbi : ntfs_sb_info) (version : f_mft_record_lookup) (file : Z)
    (s : C * Z * Z * Z) : result (ctl (C * Z * Z * Z) (C * option (list Z * Z))) :=
  let '(c, cur_blk, offset, lcn) := s in
  let right_blk := u64 (cur_blk + mft_blk sbi) in
  '(c, r) ← ntfs_read fuel sbi c (mft_record_size sbi) (mft_record_size sbi) right_blk offset lcn;
  match r with
  | None => Ok (Break (c, None))
  | Some r =>
      mrec ← ntfs_fixups_writeback SECTOR_SIZE (rr_buf r);
      found ← record_found version file mrec;
      if (found : bool) then Ok (Break (c, Some (mrec, cur_blk)))
      else if decide (rr_next_offset r >= BLOCK_SIZE) then
        Ok (Continue (c, u64 (rr_blk r - mft_blk sbi + 1), 0, rr_lcn r))
      else Ok (Continue (c, u64 (rr_blk r - mft_blk sbi), rr_next_offset r, rr_lcn r))
  end.

(** [ntfs_mft_record_lookup_3_0] and [_3_1]: the record, and [*blk]. *)
Definition mft_lookup (fuel : nat) (version : f_mft_record_lookup) (sbi : ntfs_sb_info) (s : state C) (file : Z) :
    result (state C * option (buffer * Z)) :=
  let a := malloc_addr (live s) (mft_record_size sbi) in
  mft_record_shift ← ilog2 (mft_record_size sbi);
  pos ← shl32 file mft_record_shift;
  let lcn := u64 (mft_lcn sbi + Z.shiftr pos (clust_byte_shift sbi)) in
  let cur_blk := u64 (Z.shiftr (u64 (Z.shiftl lcn (clust_byte_shift sbi))) block_shift - mft_blk sbi) in
  let offset := pos mod BLOCK_SIZE in
  '(c, r) ← loop fuel (lookup_step fuel sbi version file) (cache s, cur_blk, offset, lcn);
  let s := set_cache s c in
  match r with
  | None => Ok (s, None)
  | Some (mrec, blk) => let b := Buffer a mrec in Ok (malloc s b, Some (b, blk))
  end.

(** NTFS_SB(fs)->mft_record_lookup *)
Definition record_lookup (fuel : nat) (sbi : ntfs_sb_info) (s : state C) (file : Z) :
    result (state C * option (buffer * Z)) :=
  mft_lookup fuel (mft_record_lookup sbi) sbi s file.

(** ** Attributes *)

(** struct ntfs_attr_list_entry *)
Definition ale_type (e : ptr) : result Z := load 4 e 0.
Definition ale_length (e : ptr) : result Z := load 2 e 4.
Definition ale_mft_ref (e : ptr) : result Z := load 8 e 16.

(** [for (; attr_entry < end; ...)] *)
Definition list_step (type limit : Z) (e : ptr) : result (ctl ptr (option ptr)) :=
  if decide (addr e < limit) then
    ty ← ale_type e;
    if decide (ty = type) then Ok (Break (Some e)) else
    n ← ale_length e; Ok (Continue (padd e n))
  else Ok (Break None).

(** The clusters that a block has; the code counts with [vcn] in steps of
    that. *)
Definition vcn_step (sbi : ntfs_sb_info) : result Z :=
  if decide (0 <= clust_byte_shift sbi < 31) then Ok (BLOCK_SIZE / 2 ^ clust_byte_shift sbi) else Undef.

(** [while (vcn < chunk.len)] in a run of a list that is not resident. *)
Definition list_block_step (fuel : nat) (sbi : ntfs_sb_info) (type len : Z) (chunk : mapping_chunk)
    (s : state C * Z) : result (ctl (state C * Z) (state C * option ptr)) :=
  let '(s, vcn) := s in
  if decide (u64 vcn < c_len chunk) then
    let lcn := c_lcn chunk in
    let blk := u64 (Z.shiftr (s64 (Z.shiftl (s64 (lcn + vcn)) (clust_byte_shift sbi))) block_shift) in
    '(c, r) ← ntfs_read fuel sbi (cache s) BLOCK_SIZE BLOCK_SIZE blk 0 (u64 (lcn + vcn));
    let s := set_cache s c in
    match r with
    | None => Ok (Break (s, None))
    | Some r =>
        let buf := Buffer stack_addr (rr_buf r) in
        e ← loop fuel (list_step type (u32 (stack_addr + len))) (Ptr buf 0);
        match e with
        | Some e => Ok (Break (s, Some e))
        | None => n ← vcn_step sbi; Ok (Continue (s, s64 (vcn + n)))
        end
    end
  else Ok (Break (s, None)).

(** The [do] loop: the next offset and chunk, or the entry. *)
Definition list_run_step (fuel : nat) (sbi : ntfs_sb_info) (type len : Z) (stream attr_end : ptr)
    (s : state C * Z * mapping_chunk) : result (ctl (state C * Z * mapping_chunk) (state C * option ptr)) :=
  let '(s, offset, chunk) := s in
  r ← parse_data_run stream offset attr_end chunk;
  match r with
  | None => Ok (Break (s, None))
  | Some (offset, chunk) =>
      if has_flag chunk MAP_UNALLOCATED then Ok (Continue (s, offset, chunk)) else
      if has_flag chunk MAP_END then Ok (Break (s, None)) else
      '(s, e) ← loop fuel (list_block_step fuel sbi type len chunk) (s, 0);
      match e with
      | Some e => Ok (Break (s, Some e))
      | None => Ok (Continue (s, offset, chunk))
      end
  end.

(** The entry of the list, resident or not. *)
Definition find_list_entry (fuel : nat) (sbi : ntfs_sb_info) (s : state C) (attr : ptr) (type : Z) :
    result (state C * option ptr) :=
  nr ← attr_non_resident attr;
  if decide (nr <> 0) then
    len ← attr_len attr;
    '(stream, chunk, offset) ← mapping_chunk_init attr;
    n ← data_size attr;
    loop fuel (list_run_step fuel sbi type (u32 n) stream (padd attr len)) (s, offset, chunk)
  else
    o ← value_offset attr;
    len ← value_len attr;
    e ← loop fuel (list_step type (addr (padd attr len))) (padd attr o);
    Ok (s, e).

(** The record that has the attribute. *)
Definition ntfs_attr_list_lookup (fuel : nat) (sbi : ntfs_sb_info) (s : state C) (attr : ptr) (type : Z)
    (mrec : buffer) : result (state C * option buffer) :=
  '(s, e) ← find_list_entry fuel sbi s attr type;
  match e with
  | None => Ok (s, None)
  | Some e =>
      mft_ref ← ale_mft_ref e;
      no ← mft_record_no (b_bytes mrec);
      if decide (no = mft_ref) then Ok (s, Some mrec) else
      '(s, r) ← record_lookup fuel sbi s (u32 mft_ref);
      Ok (s, match r with Some (b, _) => Some b | None => None end)
  end.

(** The walk over the attributes: the one of the type, or the last list of
    attributes. *)
Definition walk_step (type : Z) (s : ptr * option ptr) :
    result (ctl (ptr * option ptr) (ptr + option ptr)) :=
  let '(attr, attr_list_attr) := s in
  ty ← attr_type attr;
  if decide (ty = NTFS_AT_END) then Ok (Break (inr attr_list_attr)) else
  if decide (ty <> NTFS_AT_ATTR_LIST /\ ty = type) then Ok (Break (inl attr)) else
  len ← attr_len attr;
  Ok (Continue (padd attr len, if decide (ty = NTFS_AT_ATTR_LIST) then Some attr else attr_list_attr)).

(** One pass from the label [again]. *)
Definition attr_step (fuel : nat) (sbi : ntfs_sb_info) (type : Z) (s : state C * buffer) :
    result (ctl (state C * buffer) (state C * option ptr)) :=
  let '(s, mrec) := s in
  o ← attrs_offset (b_bytes mrec);
  r ← loop fuel (walk_step type) (Ptr mrec o, None);
  match r with
  | inl attr => Ok (Break (s, Some attr))
  | inr None => Ok (Break (s, None))
  | inr (Some l) =>
      '(s, r) ← ntfs_attr_list_lookup fuel sbi s l type mrec;
      match r with
      | None => Ok (Break (s, None))
      | Some mrec => Ok (Continue (s, mrec))
      end
  end.

(** [mrec] is not NULL in any call; [*mrec] is not changed. *)
Definition __ntfs_attr_lookup (fuel : nat) (sbi : ntfs_sb_info) (s : state C) (type : Z) (mrec : buffer) :
    result (state C * option ptr) :=
  if decide (type = NTFS_AT_END) then Ok (s, None) else loop fuel (attr_step fuel sbi type) (s, mrec).

(** [*mmrec] is [other]. *)
Definition ntfs_attr_lookup (fuel : nat) (sbi : ntfs_sb_info) (s : state C) (type : Z) (other mrec : buffer) :
    result (state C * option ptr) :=
  if decide (b_addr mrec = b_addr other) then __ntfs_attr_lookup fuel sbi s type other else
  '(s, r) ← __ntfs_attr_lookup fuel sbi s type mrec;
  match r with
  | Some attr => Ok (s, Some attr)
  | None => __ntfs_attr_lookup fuel sbi s type other
  end.

(** ** Inodes *)

Definition get_inode_mode (mrec : buffer) : result dirent_type :=
  flags ← rec_flags (b_bytes mrec);
  Ok (if decide (Z.land flags MFT_RECORD_IS_DIRECTORY <> 0) then DT_DIR else DT_REG).

(** What [alloc_inode] makes: all zeros. *)
Definition new_ntfs_inode : inode := Inode 0 0 0 0 0 0 (Resident 0) 0 0 0.

(** The data of a file, in its record or in runs. *)
Definition setup_data (fuel : nat) (i : inode) (attr : ptr) : result (option inode) :=
  nr ← attr_non_resident attr;
  ty ← attr_type attr;
  if decide (nr = 0) then
    o ← value_offset attr;
    n ← value_len attr;
    Ok (Some (Inode (mode i) n (mft_no i) (seq_no i) ty nr (Resident (addr (padd attr o)))
                    (start_cluster i) (start i) (here i)))
  else
    len ← attr_len attr;
    '(stream, chunk, offset) ← mapping_chunk_init attr;
    r ← collect_runs fuel stream (padd attr len) chunk offset;
    match r with
    | None => Ok None
    | Some rlist =>
        if runlist_is_empty rlist then Ok None else
        n ← initialized_size attr;
        Ok (Some (Inode (mode i) (u32 n) (mft_no i) (seq_no i) ty nr (NonResident rlist)
                        (start_cluster i) (start i) (here i)))
    end.

Definition set_mode (i : inode) (m : Z) : inode :=
  Inode m (size i) (mft_no i) (seq_no i) (type i) (non_resident i) (data i) (start_cluster i) (start i) (here i).

(** The inode; [None] is the -1, after which the caller frees it. *)
Definition index_inode_setup (fuel : nat) (sbi : ntfs_sb_info) (s : state C) (no : Z) (i : inode) :
    result (state C * option inode) :=
  '(s, r) ← record_lookup fuel sbi s no;
  match r with
  | None => Ok (s, None)
  | Some (mrec, start_blk) =>
      seq ← rec_seq_no (b_bytes mrec);
      let i := Inode (mode i) (size i) no seq (type i) (non_resident i) (data i)
                 (u32 (Z.shiftr start_blk (clust_shift sbi))) (start i) start_blk in
      d_type ← get_inode_mode mrec;
      if decide (d_type = DT_DIR) then
        '(s, attr) ← ntfs_attr_lookup fuel sbi s NTFS_AT_INDEX_ROOT mrec mrec;
        match attr with
        | None => Ok (free s mrec, None)
        | Some _ =>
            let s := set_readdir s (Some (RDState no true 0 0 0)) in
            Ok (free s mrec, Some (set_mode i (dt_value d_type)))
        end
      else
        '(s, attr) ← ntfs_attr_lookup fuel sbi s NTFS_AT_DATA mrec mrec;
        match attr with
        | None => Ok (free s mrec, None)
        | Some attr =>
            r ← setup_data fuel i attr;
            Ok (free s mrec, match r with Some i => Some (set_mode i (dt_value d_type)) | None => None end)
        end
  end.

(** ** The index of a directory *)

(** struct ntfs_idx_header *)
Definition entries_offset (index : ptr) : result Z := load 4 index 0.
Definition index_len (index : ptr) : result Z := load 4 index 4.

(** ir->index and iblk->index *)
Definition root_index (ir : ptr) : ptr := padd ir 16.
Definition block_index (iblk : ptr) : ptr := padd iblk 24.

Inductive scan_result :=
  | Corrupt
  | Last (ie : ptr)
  | Match (ie : ptr).

(** The bounds checks of an entry: [base] is the start of the record. *)
Definition entry_bounds (base index ie : ptr) : result bool :=
  if decide (addr ie < addr base) then Ok false else
  n ← index_len index;
  if decide (addr (padd ie idx_entry_header_size) > addr (padd index n)) then Ok false else
  l ← ie_len ie;
  Ok (bool_decide (addr (padd ie l) <= addr (padd index n))).

(** One entry of the loops of [ntfs_index_lookup]. *)
Definition scan_step (dname : list Z) (base index ie : ptr) : result (ctl ptr scan_result) :=
  ok ← entry_bounds base index ie;
  if negb ok then Ok (Break Corrupt) else
  flags ← ie_flags ie;
  if decide (Z.land flags INDEX_ENTRY_END <> 0) then Ok (Break (Last ie)) else
  eq ← ntfs_filename_cmp dname ie;
  if (eq : bool) then Ok (Break (Match ie)) else
  l ← ie_len ie; Ok (Continue (padd ie l)).

Definition scan_entries (fuel : nat) (dname : list Z) (base index : ptr) : result scan_result :=
  o ← entries_offset index;
  loop fuel (scan_step dname base index) (padd index o).

(** What a search in the blocks of the index ends with. *)
Inductive search_result :=
  | Found (ie : ptr)
  | NotFound.

(** The block of an index that starts at cluster [vcn] of the run. *)
Definition index_blk (sbi : ntfs_sb_info) (lcn vcn : Z) : Z :=
  u64 (Z.shiftr (s64 (Z.shiftl (s64 (Z.shiftl (s64 (lcn + vcn)) (clust_shift sbi))) sector_shift)) block_shift).

(** Reading a block of the index; [None] if it is not one. *)
Definition read_index (fuel : nat) (sbi : ntfs_sb_info) (c : C) (blk lcn : Z) : result (C * option buffer) :=
  '(c, r) ← ntfs_read fuel sbi c BLOCK_SIZE BLOCK_SIZE blk 0 lcn;
  match r with
  | None => Ok (c, None)
  | Some r =>
      l ← ntfs_fixups_writeback SECTOR_SIZE (rr_buf r);
      m ← magic l;
      Ok (c, if decide (m <> NTFS_MAGIC_INDX) then None else Some (Buffer stack_addr l))
  end.

(** [while (vcn < chunk.len)] *)
Definition index_block_step (fuel : nat) (sbi : ntfs_sb_info) (dname : list Z) (chunk : mapping_chunk)
    (s : C * Z) : result (ctl (C * Z) (C * option search_result)) :=
  let '(c, vcn) := s in
  if decide (u64 vcn < c_len chunk) then
    let lcn := c_lcn chunk in
    '(c, b) ← read_index fuel sbi c (index_blk sbi lcn vcn) (u64 (lcn + vcn));
    match b with
    | None => Ok (Break (c, Some NotFound))
    | Some b =>
        r ← scan_entries fuel dname (Ptr b 0) (block_index (Ptr b 0));
        match r with
        | Corrupt => Ok (Break (c, Some NotFound))
        | Match ie => Ok (Break (c, Some (Found ie)))
        | Last _ => n ← vcn_step sbi; Ok (Continue (c, s64 (vcn + n)))
        end
    end
  else Ok (Break (c, None)).

(** The [do] loop over the runs. *)
Definition index_run_step (fuel : nat) (sbi : ntfs_sb_info) (dname : list Z) (stream attr_end : ptr)
    (s : C * Z * mapping_chunk) : result (ctl (C * Z * mapping_chunk) (C * search_result)) :=
  let '(c, offset, chunk) := s in
  r ← parse_data_run stream offset attr_end chunk;
  match r with
  | None => Ok (Break (c, NotFound))
  | Some (offset, chunk) =>
      if has_flag chunk MAP_UNALLOCATED then Ok (Continue (c, offset, chunk)) else
      if has_flag chunk MAP_ALLOCATED then
        '(c, r) ← loop fuel (index_block_step fuel sbi dname chunk) (c, 0);
        match r with
        | Some r => Ok (Break (c, r))
        | None => Ok (Continue (c, offset, chunk))
        end
      else Ok (Break (c, NotFound))
  end.

(** The blocks of the index, below the root. *)
Definition search_blocks (fuel : nat) (sbi : ntfs_sb_info) (s : state C) (dname : list Z) (mrec : buffer) :
    result (state C * search_result) :=
  '(s, attr) ← ntfs_attr_lookup fuel sbi s NTFS_AT_INDEX_ALLOCATION mrec mrec;
  match attr with
  | None => Ok (s, NotFound)
  | Some attr =>
      nr ← attr_non_resident attr;
      if decide (nr = 0) then Ok (s, NotFound) else
      len ← attr_len attr;
      '(stream, chunk, offset) ← mapping_chunk_init attr;
      '(c, r) ← loop fuel (index_run_step fuel sbi dname stream (padd attr len)) (cache s, offset, chunk);
      Ok (set_cache s c, r)
  end.

(** The entries of the root, then the blocks. *)
Definition search_index (fuel : nat) (sbi : ntfs_sb_info) (s : state C) (dname : list Z) (mrec : buffer) :
    result (state C * search_result) :=
  '(s, attr) ← ntfs_attr_lookup fuel sbi s NTFS_AT_INDEX_ROOT mrec mrec;
  match attr with
  | None => Ok (s, NotFound)
  | Some attr =>
      o ← value_offset attr;
      r ← scan_entries fuel dname (Ptr mrec 0) (root_index (padd attr o));
      match r with
      | Corrupt => Ok (s, NotFound)
      | Match ie => Ok (s, Found ie)
      | Last ie =>
          flags ← ie_flags ie;
          if decide (Z.land flags INDEX_ENTRY_NODE = 0) then Ok (s, NotFound)
          else search_blocks fuel sbi s dname mrec
      end
  end.

Definition ntfs_index_lookup (fuel : nat) (sbi : ntfs_sb_info) (s : state C) (dname : list Z) (dir : inode) :
    result (state C * option inode) :=
  '(s, r) ← record_lookup fuel sbi s (mft_no dir);
  match r with
  | None => Ok (s, None)
  | Some (mrec, _) =>
      '(s, r) ← search_index fuel sbi s dname mrec;
      match r with
      | NotFound => Ok (free s mrec, None)
      | Found ie =>
          no ← indexed_file ie;
          '(s, i) ← index_inode_setup fuel sbi s (u32 no) new_ntfs_inode;
          Ok (free s mrec, i)
      end
  end.

Definition ntfs_iget (fuel : nat) (sbi : ntfs_sb_info) (s : state C) (dname : list Z) (parent : inode) :
    result (state C * option inode) := ntfs_index_lookup fuel sbi s dname parent.


(** ** Reading a file *)

Definition set_runs (i : inode) (rlist : runlist) (h : Z) : inode :=
  Inode (mode i) (size i) (mft_no i) (seq_no i) (type i) (non_resident i) (NonResident rlist)
        (start_cluster i) (start i) h.

Definition bytes_of_clusters (sbi : ntfs_sb_info) (n : Z) : Z := u64 (Z.shiftl n (clust_byte_shift sbi)).

(** The first run is taken off the list.  The case where the union has the
    other member does not arise. *)
Definition ntfs_next_extent (sbi : ntfs_sb_info) (i : inode) (e : extent) (lstart : Z) :
    result (inode * extent * bool) :=
  if decide (non_resident i = 0) then
    let pstart := Z.shiftr (u64 (Z.shiftl (u64 (mft_blk sbi + here i)) block_shift)) sector_shift in
    let n := Z.shiftr (u32 (size i + SECTOR_SIZE - 1)) sector_shift in
    Ok (i, Extent pstart (GetFsSec.lstart e) n, false)
  else
    match data i with
    | Resident _ => Undef
    | NonResident rlist =>
        if decide (lstart = 0 \/ lstart >= here i) then
          match runlist_remove rlist with
          | None => Ok (i, e, true)
          | Some (ret, rlist) =>
              let h := Z.shiftr (bytes_of_clusters sbi (r_len ret)) sector_shift in
              let pstart := u64 (s64 (Z.shiftl (r_lcn ret) (clust_shift sbi))) in
              let n := u32 (Z.shiftr (u64 (bytes_of_clusters sbi (r_len ret) + SECTOR_SIZE - 1)) sector_shift) in
              Ok (set_runs i rlist h, Extent pstart (GetFsSec.lstart e) n, false)
          end
        else Ok (i, Extent 0 (GetFsSec.lstart e) (len e), false)
    end.

(** What [ntfs_getfssec] does after [generic_getfssec] gave [ret] bytes in
    [buf]: the data of a small file are in its record. *)
Definition resident_data (fuel : nat) (sbi : ntfs_sb_info) (s : state C) (i : inode) (buf : list Z) :
    result (state C * list Z * Z) :=
  '(s, r) ← record_lookup fuel sbi s (mft_no i);
  match r with
  | None => Ok (s, buf, 0)
  | Some (mrec, _) =>
      '(s, attr) ← ntfs_attr_lookup fuel sbi s NTFS_AT_DATA mrec mrec;
      match attr with
      | None => Ok (free s mrec, buf, 0)
      | Some attr =>
          o ← value_offset attr;
          let p := padd attr o in
          l ← copy (b_bytes (p_buf p)) (p_off p) (size i);
          if decide (size i <= Z.of_nat (length buf)) then
            Ok (free s mrec, l ++ drop (Z.to_nat (size i)) buf, size i)
          else Undef
      end
  end.

Definition getfssec_tail (fuel : nat) (sbi : ntfs_sb_info) (s : state C) (i : inode) (buf : list Z) (ret : Z) :
    result (state C * list Z * Z) :=
  if decide (ret = 0) then Ok (s, buf, ret) else
  if decide (non_resident i = 0) then resident_data fuel sbi s i buf else Ok (s, buf, ret).

(** ** Reading a directory *)

(** The object at an address, among those that are allocated. *)
Definition deref (l : list buffer) (a : Z) : result ptr :=
  match filter (fun b => b_addr b <= a < b_addr b + Z.of_nat (length (b_bytes b))) l with
  | b :: _ => Ok (Ptr b (a - b_addr b))
  | [] => Undef
  end.

(** The entries of the root from the address [offset] on: an entry with a name
    that is shown, with its name, or the last entry; and the new offset. *)
Definition root_step (l : list buffer) (offset : Z) : result (ctl Z (Z * (ptr * list Z + ptr))) :=
  ie ← deref l offset;
  flags ← ie_flags ie;
  if decide (Z.land flags INDEX_ENTRY_END <> 0) then Ok (Break (0, inr ie)) else
  n ← ie_len ie;
  name ← ntfs_cvt_filename ie;
  if is_filename_printable name then Ok (Break (addr (padd ie n), inl (ie, name)))
  else Ok (Continue (addr (padd ie n))).

(** The labels of the part that reads the blocks. *)
Inductive label :=
  | next_run
  | next_vcn (chunk : mapping_chunk)
  | idx_block_next_entry (chunk : mapping_chunk) (iblk : buffer).

(** [while (count--)]: [None] is the jump to [out]. *)
Fixpoint nth_run (stream attr_end : ptr) (count : nat) (offset : Z) (chunk : mapping_chunk) :
    result (option mapping_chunk) :=
  match count with
  | O => Ok (Some chunk)
  | S count =>
      r ← parse_data_run stream offset attr_end chunk;
      match r with
      | None => Ok None
      | Some (offset, chunk) =>
          if has_flag chunk MAP_UNALLOCATED then Ok (Some chunk) else
          if has_flag chunk MAP_END then Ok None else nth_run stream attr_end count offset chunk
      end
  end.

(** The entries that were given before: the entry after them, the last entry
    of the block before that, or an entry that is wrong. *)
Fixpoint skip_entries (base index ie : ptr) (count : nat) : result scan_result :=
  match count with
  | O => Ok (Match ie)
  | S count =>
      ok ← entry_bounds base index ie;
      if negb ok then Ok Corrupt else
      flags ← ie_flags ie;
      if decide (Z.land flags INDEX_ENTRY_END <> 0) then Ok (Last ie) else
      n ← ie_len ie; skip_entries base index (padd ie n) count
  end.

Definition set_blks (r : ntfs_readdir_state) (n : Z) : ntfs_readdir_state :=
  RDState (rd_mft_no r) (in_idx_root r) (u32 n) (entries_count r) (last_vcn r).
Definition set_entries (r : ntfs_readdir_state) (n : Z) : ntfs_readdir_state :=
  RDState (rd_mft_no r) (in_idx_root r) (idx_blks_count r) (u32 n) (last_vcn r).
Definition set_vcn (r : ntfs_readdir_state) (n : Z) : ntfs_readdir_state :=
  RDState (rd_mft_no r) (in_idx_root r) (idx_blks_count r) (entries_count r) n.
Definition set_in_root (r : ntfs_readdir_state) (b : bool) : ntfs_readdir_state :=
  RDState (rd_mft_no r) b (idx_blks_count r) (entries_count r) (last_vcn r).

Definition step_next_run (attr attr_end : ptr) (rd : ntfs_readdir_state) :
    result (ntfs_readdir_state * option label) :=
  '(stream, chunk, offset) ← mapping_chunk_init attr;
  r ← nth_run stream attr_end (Z.to_nat (idx_blks_count rd)) offset chunk;
  match r with
  | None => Ok (rd, None)
  | Some chunk =>
      if has_flag chunk MAP_UNALLOCATED then Ok (set_blks rd (idx_blks_count rd + 1), Some next_run)
      else Ok (rd, Some (next_vcn chunk))
  end.

Definition step_next_vcn (fuel : nat) (sbi : ntfs_sb_info) (c : C) (chunk : mapping_chunk) (rd : ntfs_readdir_state) :
    result (C * ntfs_readdir_state * option label) :=
  let vcn := last_vcn rd in
  if decide (u64 vcn >= c_len chunk) then
    Ok (c, set_blks (set_vcn rd 0) (idx_blks_count rd + 1), Some next_run)
  else
    '(c, b) ← read_index fuel sbi c (index_blk sbi (c_lcn chunk) vcn) (u64 (c_lcn chunk));
    match b with
    | None => Ok (c, rd, None)
    | Some b => Ok (c, rd, Some (idx_block_next_entry chunk b))
    end.

(** An entry that is shown, or where the loop goes on. *)
Definition step_next_entry (sbi : ntfs_sb_info) (chunk : mapping_chunk) (b : buffer) (rd : ntfs_readdir_state) :
    result (ntfs_readdir_state * (ptr * list Z + option label)) :=
  let index := block_index (Ptr b 0) in
  o ← entries_offset index;
  r ← skip_entries (Ptr b 0) index (padd index o) (Z.to_nat (entries_count rd));
  match r with
  | Corrupt => Ok (rd, inr None)
  | Last _ =>
      n ← vcn_step sbi;
      Ok (set_entries (set_vcn rd (s64 (last_vcn rd + n))) 0, inr (Some (next_vcn chunk)))
  | Match ie =>
      let rd := set_entries rd (entries_count rd + 1) in
      flags ← ie_flags ie;
      if decide (Z.land flags INDEX_ENTRY_END <> 0) then Ok (rd, inr (Some (next_vcn chunk))) else
      name ← ntfs_cvt_filename ie;
      if is_filename_printable name then Ok (rd, inl (ie, name))
      else Ok (rd, inr (Some (idx_block_next_entry chunk b)))
  end.

Definition blocks_step (fuel : nat) (sbi : ntfs_sb_info) (attr attr_end : ptr) (s : C * ntfs_readdir_state * label) :
    result (ctl (C * ntfs_readdir_state * label) (C * ntfs_readdir_state * option (ptr * list Z))) :=
  let '(c, rd, pc) := s in
  match pc with
  | next_run =>
      '(rd, pc) ← step_next_run attr attr_end rd;
      Ok (match pc with Some pc => Continue (c, rd, pc) | None => Break (c, rd, None) end)
  | next_vcn chunk =>
      '(c, rd, pc) ← step_next_vcn fuel sbi c chunk rd;
      Ok (match pc with Some pc => Continue (c, rd, pc) | None => Break (c, rd, None) end)
  | idx_block_next_entry chunk b =>
      '(rd, r) ← step_next_entry sbi chunk b rd;
      Ok (match r with
          | inl e => Break (c, rd, Some e)
          | inr (Some pc) => Continue (c, rd, pc)
          | inr None => Break (c, rd, None)
          end)
  end.

(** From [descend_into_child_node] on; [ie] is the null pointer in a call that
    does not start in the root, and the code reads its flags. *)
Definition descend (fuel : nat) (sbi : ntfs_sb_info) (s : state C) (mrec : buffer) (ie : option ptr)
    (rd : ntfs_readdir_state) : result (state C * ntfs_readdir_state * option (ptr * list Z)) :=
  ie ← of_option ie;
  flags ← ie_flags ie;
  if decide (Z.land flags INDEX_ENTRY_NODE = 0) then Ok (s, rd, None) else
  '(s, attr) ← ntfs_attr_lookup fuel sbi s NTFS_AT_INDEX_ALLOCATION mrec mrec;
  match attr with
  | None => Ok (s, rd, None)
  | Some attr =>
      nr ← attr_non_resident attr;
      if decide (nr = 0) then Ok (s, rd, None) else
      len ← attr_len attr;
      '(c, rd, r) ← loop fuel (blocks_step fuel sbi attr (padd attr len)) (cache s, rd, next_run);
      Ok (set_cache s c, rd, r)
  end.

(** The next entry: file offset, state of the search, entry and name. *)
Definition next_entry (fuel : nat) (sbi : ntfs_sb_info) (s : state C) (mrec : buffer) (ir : ptr) (offset : Z)
    (rd : ntfs_readdir_state) : result (state C * Z * ntfs_readdir_state * option (ptr * list Z)) :=
  if in_idx_root rd then
    o ← entries_offset (root_index ir);
    let offset := if decide (offset = 0) then addr (padd (root_index ir) o) else offset in
    '(offset, r) ← loop fuel (root_step (live s)) offset;
    match r with
    | inl e => Ok (s, offset, rd, Some e)
    | inr ie =>
        '(s, rd, r) ← descend fuel sbi s mrec (Some ie) (RDState (rd_mft_no rd) false 1 0 0);
        Ok (s, offset, rd, r)
    end
  else
    '(s, rd, r) ← descend fuel sbi s mrec None rd;
    Ok (s, offset, rd, r).

(** [out] *)
Definition readdir_out (s : state C) (rd : ntfs_readdir_state) : state C :=
  set_readdir s (Some (set_in_root rd true)).

(** [done]: the record that has the entry was freed, its bytes are still read. *)
Definition readdir_done (fuel : nat) (sbi : ntfs_sb_info) (s : state C) (offset : Z) (rd : ntfs_readdir_state)
    (ie : ptr) (name : list Z) : result (state C * option dirent) :=
  no ← indexed_file ie;
  '(s, r) ← record_lookup fuel sbi s (u32 no);
  match r with
  | None => Ok (readdir_out s rd, None)
  | Some (mrec, _) =>
      ty ← get_inode_mode mrec;
      Ok (set_readdir (free s mrec) (Some rd),
          Some (Dirent_ (u32 no) offset (u16 (d_name_offset + Z.of_nat (length name) + 1)) (dt_value ty) name))
  end.

(** The new file offset and the entry; [None] is the -1. *)
Definition ntfs_readdir (fuel : nat) (sbi : ntfs_sb_info) (s : state C) (offset : Z) (i : inode) :
    result (state C * Z * option dirent) :=
  rd ← of_option (readdir_state s);
  '(s, r) ← record_lookup fuel sbi s (mft_no i);
  match r with
  | None => Ok (readdir_out s rd, offset, None)
  | Some (mrec, _) =>
      '(s, attr) ← ntfs_attr_lookup fuel sbi s NTFS_AT_INDEX_ROOT mrec mrec;
      match attr with
      | None => Ok (free (readdir_out s rd) mrec, offset, None)
      | Some attr =>
          o ← value_offset attr;
          '(s, offset, rd, r) ← next_entry fuel sbi s mrec (padd attr o) offset rd;
          let s := free s mrec in
          match r with
          | None => Ok (readdir_out s rd, offset, None)
          | Some (ie, name) => '(s, d) ← readdir_done fuel sbi s offset rd ie name; Ok (s, offset, d)
          end
      end
  end.

(** ** The root and the superblock *)

Definition set_version (sbi : ntfs_sb_info) (major minor : Z) (f : f_mft_record_lookup) : ntfs_sb_info :=
  SB (mft_blk sbi) (mft_lcn sbi) (mft_size sbi) (mft_record_size sbi) (clust_per_idx_record sbi) (clusters sbi)
     (clust_shift sbi) (clust_byte_shift sbi) (clust_mask sbi) (clust_size sbi) major minor f.

(** The version that the volume has; [vol_info] is its attribute's value. *)
Definition note_version (sbi : ntfs_sb_info) (mrec : buffer) (vol_info : ptr) : result ntfs_sb_info :=
  major ← load 1 vol_info 8;
  minor ← load 1 vol_info 9;
  if decide (major = 3 /\ minor = 0) then Ok (set_version sbi major minor ntfs_mft_record_lookup_3_0) else
  if decide (major = 3 /\ minor = 1) then
    no ← mft_record_no (b_bytes mrec);
    Ok (set_version sbi major minor
          (if decide (no = FILE_Volume) then ntfs_mft_record_lookup_3_1 else mft_record_lookup sbi))
  else Ok (set_version sbi major minor (mft_record_lookup sbi)).

Definition ntfs_iget_root (fuel : nat) (sbi : ntfs_sb_info) (s : state C) :
    result (state C * ntfs_sb_info * option inode) :=
  '(s, r) ← record_lookup fuel sbi s FILE_Volume;
  match r with
  | None => Ok (s, sbi, None)
  | Some (mrec, _) =>
      '(s, attr) ← ntfs_attr_lookup fuel sbi s NTFS_AT_VOL_INFO mrec mrec;
      match attr with
      | None => Ok (free s mrec, sbi, None)
      | Some attr =>
          o ← value_offset attr;
          sbi ← note_version sbi mrec (padd attr o);
          '(s, i) ← index_inode_setup fuel sbi (free s mrec) FILE_root new_ntfs_inode;
          match i with
          | None => Ok (s, sbi, None)
          | Some i =>
              Ok (s, sbi, Some (Inode (mode i) (size i) (mft_no i) (seq_no i) (type i) (non_resident i) (data i)
                                      (start_cluster i) (here i) (here i)))
          end
      end
  end.

End Code.

(** [ntfs_getfssec], with the extents of [ntfs_next_extent]; the results are
    those of [generic_getfssec]. *)
Section GetFsSec.
Context {C : Type} `{BC : !BlockCache C} `{SD : SectorDevice} `{EO : !ExtentOps inode}.
Context (block_shift : Z) (malloc_addr : list buffer -> Z -> Z) (stack_addr : Z).

Definition ntfs_getfssec (fuel : nat) (sbi : ntfs_sb_info) (s : state C) (f : ReadFile.inode) (offset : Z)
    (buf : list Z) (sectors : Z) : result (state C * ReadFile.inode * list Z * Z * option bool * Z) :=
  '(f, buf, offset, more, ret) ← ReadFile.generic_getfssec fuel f offset buf sectors;
  '(s, buf, ret) ← getfssec_tail block_shift sector_shift malloc_addr stack_addr fuel sbi s (ReadFile.pvt f) buf ret;
  Ok (s, f, buf, offset, more, ret).
End GetFsSec.

(** [sb] are the bytes of the boot sector, which the disk gave, and [d] the
    device; the result is the block shift, the fields of [sbi] and the device
    with its cache, [None] for another file system. *)
Definition ntfs_fs_init `{BD : BlockDevice} (sector_shift : Z) (d : Cache.device) (sb : list Z) :
    result (option (Z * ntfs_sb_info * Cache.device)) :=
  ok ← ntfs_check_sb_fields sb;
  if negb ok then Ok None else
  per_mft ← getle 1 sb 64;
  sec_per_clust ← getle 1 sb 13;
  clust_shift ← ilog2 sec_per_clust;
  mft_record_shift ← (if decide (s8 per_mft < 0) then Ok (- s8 per_mft)
                      else k ← ilog2 (s8 per_mft); Ok (u8 (clust_shift + sector_shift + k)));
  let clust_byte_shift := clust_shift + sector_shift in
  per_idx ← getle 1 sb 68;
  idx_shift ← ilog2 per_idx;
  let block_shift := idx_shift + clust_byte_shift in
  mft_lclust ← get64 sb 48;
  total_sectors ← get64 sb 40;
  if decide (mft_record_shift < 31 /\ block_shift < 31) then
    let mft_blk :=
      Z.shiftr (u64 (Z.shiftl (u64 (Z.shiftl mft_lclust clust_shift)) sector_shift)) block_shift in
    let mft_size := u32 (Z.shiftl (Z.shiftl mft_record_shift clust_shift) 4) in
    let clusters := Z.shiftr (u64 (Z.shiftl total_sectors sector_shift)) clust_shift in
    let clusters := if decide (clusters > 0xFFFFFFFFFFF4) then 0xFFFFFFFFFFF4 else clusters in
    Ok (Some (block_shift,
      SB mft_blk mft_lclust mft_size (2 ^ mft_record_shift) per_idx clusters clust_shift clust_byte_shift
         (u32 (sec_per_clust - 1)) (u32 (Z.shiftl sec_per_clust sector_shift)) 3 0 ntfs_mft_record_lookup_3_0,
      Cache.cache_init d block_shift))
  else Undef.

End Ntfs.
