(* ===== verification/NtfsSpec.v ===== *)
(** * What the model of NTFS promises

    The fixups of a record are undone, the data runs of an attribute are those
    that were encoded, a record of the master file table is read where it is,
    the search in a directory finds the entry, and the runs of a file are given
    one after the other. *)

From Stdlib Require Import ZArith Lia.
From S2P Require Import Prelude Dirent CStr Cache BlockCache GetFsSec Ntfs.
Import Dirent.Dirent CStr.CStr.
Import Ntfs.

Module NtfsSpec.

(** ** Bytes at a place of a buffer *)

(** [l] has the bytes [bs] at index [i]. *)
Definition has_bytes (l : list Z) (i : Z) (bs : list Z) : Prop :=
  0 <= i /\ i + Z.of_nat (length bs) <= Z.of_nat (length l) /\ sub l i (length bs) = bs.

Lemma has_bytes_app l i b1 b2 :
  has_bytes l i (b1 ++ b2) <-> has_bytes l i b1 /\ has_bytes l (i + Z.of_nat (length b1)) b2.
Proof.
  unfold has_bytes. rewrite length_app, Nat2Z.inj_add. split.
  - intros (H0 & H1 & H2). rewrite sub_split in H2 by done.
    apply app_inj_1 in H2 as [E1 E2]; [|apply sub_length; lia]. split; split_and!; done || lia.
  - intros [(? & ? & E1) (? & ? & E2)]. split_and!; try lia. rewrite sub_split by done. congruence.
Qed.

Lemma has_bytes_getle l i n bs : has_bytes l i bs -> n = length bs -> getle n l i = Ok (le_num bs).
Proof. intros (? & ? & E) ->. rewrite getle_ok by lia. by rewrite E. Qed.

Lemma load_ok p o n bs i : has_bytes (b_bytes (p_buf p)) i bs -> i = p_off p + o -> n = length bs ->
  load n p o = Ok (le_num bs).
Proof. intros H -> ->. by apply has_bytes_getle. Qed.

(** A byte of those that are there. *)
Lemma has_bytes_1 l i bs k b : has_bytes l i bs -> bs !! k = Some b -> getle 1 l (i + Z.of_nat k) = Ok b.
Proof.
  intros H Hk. rewrite <- (take_drop_middle _ _ _ Hk) in H.
  apply has_bytes_app in H as [_ H]. apply (has_bytes_app _ _ [b]) in H as [H _].
  apply lookup_lt_Some in Hk. rewrite length_take, Nat.min_l in H by lia.
  rewrite (has_bytes_getle _ _ _ _ H); [|done]. by rewrite le_num_1.
Qed.

(** ** Data runs *)

(** The bytes of the length are read in a way that is right for these. *)
Definition len_byte_ok (b : Z) : Prop := b < 0x80 \/ b mod 2 = 0.

#[export] Instance len_byte_ok_dec b : Decision (len_byte_ok b) := _.

(** The others are read as two more than they are. *)
Definition read_byte (b : Z) : Z := if decide (len_byte_ok b) then b else b + 2.

Lemma read_byte_eq b : byte_ok b -> Z.lxor (b + Z.shiftr b 7) (Z.shiftr b 7) = read_byte b.
Proof.
  assert (Forall (fun b => Z.lxor (b + Z.shiftr b 7) (Z.shiftr b 7) = read_byte b) (seqZ 0 256)) as H by by_compute.
  intros Hb. rewrite Forall_forall in H. apply H, elem_of_seqZ. unfold byte_ok in Hb. lia.
Qed.

(** The number that is read from the bytes of a length, the lowest one first. *)
Definition read_bytes (bs : list Z) (res : Z) : Z := foldr (fun b res => Z.lor (Z.shiftl res 8) (read_byte b)) res bs.

Lemma s64_range x : - 2 ^ 63 <= s64 x < 2 ^ 63.
Proof. unfold s64. pose proof (Z.mod_pos_bound (x + 0x8000000000000000) 0x10000000000000000). lia. Qed.

Lemma s64_mod x y : (x - y) mod 2 ^ 64 = 0 -> s64 x = s64 y.
Proof.
  intros H. unfold s64. f_equal.
  replace (x + 0x8000000000000000) with (y + 0x8000000000000000 + (x - y)) by lia.
  change 0x10000000000000000 with (2 ^ 64). rewrite Z.add_mod, H, Z.add_0_r, Z.mod_mod by lia. done.
Qed.

Lemma s64_eqm x : (s64 x - x) mod 2 ^ 64 = 0.
Proof.
  unfold s64. change (2 ^ 64) with 0x10000000000000000. dlia.
Qed.

Lemma s64_step a k b : s64 (s64 a * k + b) = s64 (a * k + b).
Proof.
  apply s64_mod. replace (s64 a * k + b - (a * k + b)) with ((s64 a - a) * k) by lia.
  rewrite Z.mul_mod, s64_eqm by lia. done.
Qed.

(** Both loops read a number with its most significant byte first. *)
Section Runs.
Context (buf : ptr).
Abbreviation bytes := (b_bytes (p_buf buf)).

Lemma lor_byte res b : byte_ok b -> Z.lor (Z.shiftl res 8) b = res * 2 ^ 8 + b.
Proof.
  intros Hb. unfold byte_ok in Hb.
  rewrite Z.lor_comm, shiftl_mul, (lor_disjoint b res 8) by (change (2 ^ 8) with 0x100; lia). lia.
Qed.

Lemma run_lcn_ok n : forall bs o res, length bs = n -> Forall byte_ok bs ->
  has_bytes bytes (p_off buf + o + 1) bs -> - 2 ^ 63 <= res < 2 ^ 63 ->
  run_lcn buf (o + Z.of_nat n) n res = Ok (s64 (res * 2 ^ (8 * Z.of_nat n) + le_num bs)).
Proof.
  induction n as [|n IH]; intros bs o res Hn Hok Hb Hr.
  - destruct bs; [|done]. cbn [run_lcn le_num]. rewrite s64_small; [f_equal|]; change (2 ^ (8 * Z.of_nat 0)) with 1; lia.
  - destruct bs as [|b bs _] using rev_ind; [done|]. rewrite length_app in Hn. simpl in Hn.
    assert (length bs = n) as Hn' by lia.
    apply Forall_app in Hok as [Hok [Hokb _]%Forall_cons].
    apply has_bytes_app in Hb as [Hb Hb1]. cbn [run_lcn].
    rewrite (load_ok _ _ _ _ _ Hb1), le_num_1 by (done || lia). cbn [mbind result_bind].
    rewrite lor_byte by done. replace (o + Z.of_nat (S n) - 1) with (o + Z.of_nat n) by lia.
    rewrite (IH bs) by (done || apply s64_range). f_equal.
    rewrite s64_step, le_num_app, le_num_1, Hn'. f_equal.
    rewrite Nat2Z.inj_succ, Z.mul_succ_r, Z.pow_add_r by lia. lia.
Qed.

Lemma s64_lor a b y : s64 a = s64 b -> s64 (Z.lor (Z.shiftl a 8) y) = s64 (Z.lor (Z.shiftl b 8) y).
Proof.
  intros E. assert (forall x, Z.lor (Z.shiftl x 8) y mod 2 ^ 64 = Z.lor (Z.shiftl (s64 x) 8) y mod 2 ^ 64) as H.
  { intros x. rewrite <- !Z.land_ones, !Z.land_lor_distr_l, !Z.land_ones by lia. f_equal.
    rewrite !shiftl_mul by lia. pose proof (s64_eqm x) as Hx. apply Z.mod_divide in Hx as [k Hk]; [|done].
    replace (s64 x * 2 ^ 8) with (x * 2 ^ 8 + k * 2 ^ 8 * 2 ^ 64) by lia. by rewrite Z.mod_add by done. }
  apply s64_mod. rewrite Zminus_mod, (H a), (H b), E. by rewrite Z.sub_diag.
Qed.

Lemma read_bytes_s64 bs res : s64 (read_bytes bs (s64 res)) = s64 (read_bytes bs res).
Proof.
  induction bs as [|b bs IH]; [|by apply s64_lor].
  apply s64_mod, s64_eqm.
Qed.

Lemma run_length_ok n : forall bs o res, length bs = n -> Forall byte_ok bs ->
  has_bytes bytes (p_off buf + o + 1) bs -> - 2 ^ 63 <= res < 2 ^ 63 ->
  run_length buf (o + Z.of_nat n) n res = Ok (s64 (read_bytes bs res)).
Proof.
  induction n as [|n IH]; intros bs o res Hn Hok Hb Hr.
  - destruct bs; [|done]. cbn. by rewrite s64_small by lia.
  - destruct bs as [|b bs _] using rev_ind; [done|]. rewrite length_app in Hn. simpl in Hn.
    assert (length bs = n) as Hn' by lia. apply Forall_app in Hok as [Hok [Hokb _]%Forall_cons].
    apply has_bytes_app in Hb as [Hb Hb1]. cbn [run_length].
    rewrite (load_ok _ _ _ _ _ Hb1), le_num_1 by (done || lia). cbn [mbind result_bind].
    rewrite read_byte_eq by done. replace (o + Z.of_nat (S n) - 1) with (o + Z.of_nat n) by lia.
    rewrite (IH bs) by (done || apply s64_range). f_equal. rewrite read_bytes_s64. unfold read_bytes. by rewrite foldr_app.
Qed.

End Runs.

(** The sign of an LCN in [n] bytes. *)
Lemma sign_extend n d : (1 <= n <= 8)%nat -> - 2 ^ (8 * Z.of_nat n - 1) <= d < 2 ^ (8 * Z.of_nat n - 1) ->
  exists bs top, le_bytes n d = bs ++ [top] /\ byte_ok top /\
    s64 ((if decide (Z.land top 0x80 <> 0) then -1 else 0) * 2 ^ (8 * Z.of_nat n) + d mod 2 ^ (8 * Z.of_nat n)) = d.
Proof.
  intros Hn Hd. pose proof (le_bytes_length n d) as Hl. pose proof (le_num_le_bytes n d) as Hv.
  pose proof (le_bytes_ok n d) as Hok.
  destruct (le_bytes n d) as [|top bs _] using rev_ind; [simpl in Hl; lia|].
  exists bs, top. rewrite length_app in Hl. simpl in Hl.
  apply Forall_app in Hok as [Hbs [Htop _]%Forall_cons]. split_and!; [done|done|].
  rewrite le_num_app, le_num_1 in Hv. pose proof (le_num_range bs Hbs) as Hr.
  assert (Z.land top 0x80 <> 0 <-> 0x80 <= top) as Hbit.
  { unfold byte_ok in Htop.
    assert (Forall (fun t => Z.land t 0x80 <> 0 <-> 0x80 <= t) (seqZ 0 256)) as F.
    { apply Forall_forall. intros t Ht. revert t Ht. apply Forall_forall.
      apply (Forall_impl (fun t => bool_decide (Z.land t 0x80 <> 0) = bool_decide (0x80 <= t))); [by_compute|].
      intros t Ht. rewrite <- (bool_decide_spec (Z.land t 0x80 <> 0)), <- (bool_decide_spec (0x80 <= t)), Ht. done. }
    rewrite Forall_forall in F. apply F, elem_of_seqZ. lia. }
  set (m := 8 * Z.of_nat n) in *. replace (8 * Z.of_nat (length bs)) with (m - 8) in * by lia.
  assert (2 ^ m = 2 ^ (m - 8) * 256) as Em by (replace m with (m - 8 + 8) at 1 by lia; by rewrite Z.pow_add_r by lia).
  assert (2 ^ (m - 1) = 2 ^ (m - 8) * 128) as Em1
    by (replace (m - 1) with (m - 8 + 7) at 1 by lia; by rewrite Z.pow_add_r by lia).
  assert (2 ^ (m - 1) <= 2 ^ 63) as Hle by (apply Z.pow_le_mono_r; lia).
  pose proof (Z.pow_pos_nonneg 2 (m - 8)) as Hp. unfold byte_ok in Htop.
  destruct (decide (d < 0)) as [Hneg|Hpos].
  - assert (d mod 2 ^ m = d + 2 ^ m) as E by (symmetry; apply (Z.mod_unique _ _ (-1)); lia).
    rewrite E in *. rewrite decide_True by (apply Hbit; nia). rewrite s64_small; lia.
  - assert (d mod 2 ^ m = d) as E by (apply Z.mod_small; lia).
    rewrite E in *. rewrite decide_False by (rewrite Hbit; nia). rewrite s64_small; lia.
Qed.

(** A run as it is written: its length and its LCN, and the numbers of bytes
    that hold them. *)
Record run_spec := RunSpec { w_len : nat; w_lcn : nat; n_len : Z; n_lcn : Z }.

(** The LCN is written as the difference to that of the run before. *)
Definition encode_run (prev : Z) (r : run_spec) : list Z :=
  (Z.of_nat (w_len r) + 16 * Z.of_nat (w_lcn r)) :: le_bytes (w_len r) (n_len r) ++ le_bytes (w_lcn r) (n_lcn r - prev).

Fixpoint encode_runs (prev : Z) (rs : list run_spec) : list Z :=
  match rs with
  | [] => [0]
  | r :: rs => encode_run prev r ++ encode_runs (n_lcn r) rs
  end.

Definition run_written (prev : Z) (r : run_spec) : Prop :=
  (1 <= w_len r <= 8)%nat /\ (1 <= w_lcn r <= 8)%nat /\ 0 <= n_len r < 2 ^ (8 * Z.of_nat (w_len r)) /\ 0 < n_lcn r < 2 ^ 63 /\
  - 2 ^ (8 * Z.of_nat (w_lcn r) - 1) <= n_lcn r - prev < 2 ^ (8 * Z.of_nat (w_lcn r) - 1).

Fixpoint runs_written (prev : Z) (rs : list run_spec) : Prop :=
  match rs with
  | [] => True
  | r :: rs => run_written prev r /\ runs_written (n_lcn r) rs
  end.

(** A run with the length that the code reads, and when that is the one that is
    written. *)
Definition as_read (r : run_spec) : run_spec :=
  RunSpec (w_len r) (w_lcn r) (u64 (read_bytes (le_bytes (w_len r) (n_len r)) 0)) (n_lcn r).

Definition len_ok (r : run_spec) : Prop := Forall len_byte_ok (le_bytes (w_len r) (n_len r)).

Lemma read_bytes_num bs : Forall byte_ok bs -> Forall len_byte_ok bs -> read_bytes bs 0 = le_num bs.
Proof.
  induction bs as [|b bs IH]; intros Hb Hl; [done|]. apply Forall_cons in Hb as [Hb Hbs], Hl as [Hl Hls].
  change (read_bytes (b :: bs) 0) with (Z.lor (Z.shiftl (read_bytes bs 0) 8) (read_byte b)).
  unfold read_byte. rewrite decide_True, lor_byte, IH by done. cbn [le_num]. lia.
Qed.

Lemma as_read_ok prev r : run_written prev r -> len_ok r -> as_read r = r.
Proof.
  intros (Hv & _ & Hn & _) Hl. unfold as_read. rewrite read_bytes_num by (done || apply le_bytes_ok).
  rewrite le_num_le_bytes, Z.mod_small by lia.
  assert (2 ^ (8 * Z.of_nat (w_len r)) <= 2 ^ 64) by (apply Z.pow_le_mono_r; lia).
  rewrite u64_small by (change 0x10000000000000000 with (2 ^ 64); lia). by destruct r.
Qed.

Lemma as_read_runs prev rs : runs_written prev rs -> Forall len_ok rs -> as_read <$> rs = rs.
Proof.
  intros Hw Hl. revert prev Hw. induction Hl as [|r rs Hr Hl IH]; intros prev Hw; [done|]. destruct Hw as [Hr' Hw].
  rewrite fmap_cons. f_equal; [by eapply as_read_ok|by eapply IH].
Qed.

Definition run_ok (prev : Z) (r : run_spec) : Prop :=
  (1 <= w_len r <= 8)%nat /\ (1 <= w_lcn r <= 8)%nat /\ 0 <= n_len r < 2 ^ (8 * Z.of_nat (w_len r)) /\
  Forall len_byte_ok (le_bytes (w_len r) (n_len r)) /\ 0 < n_lcn r < 2 ^ 63 /\
  - 2 ^ (8 * Z.of_nat (w_lcn r) - 1) <= n_lcn r - prev < 2 ^ (8 * Z.of_nat (w_lcn r) - 1).

Fixpoint runs_ok (prev : Z) (rs : list run_spec) : Prop :=
  match rs with
  | [] => True
  | r :: rs => run_ok prev r /\ runs_ok (n_lcn r) rs
  end.

Lemma runs_ok_written prev rs : runs_ok prev rs -> runs_written prev rs /\ Forall len_ok rs.
Proof.
  revert prev. induction rs as [|r rs IH]; intros prev H; [done|]. destruct H as [(? & ? & ? & ? & ? & ?) H].
  apply IH in H as [Hw Hl]. split; [by split|by constructor].
Qed.

(** The list that the code makes: the VCNs add up. *)
Fixpoint runs_from (vcn : Z) (rs : list run_spec) : list runlist_element :=
  match rs with
  | [] => []
  | r :: rs => Run vcn (n_lcn r) (n_len r) :: runs_from (u64 (vcn + n_len r)) rs
  end.

Lemma encode_run_length prev r : Z.of_nat (length (encode_run prev r)) = Z.of_nat (w_len r) + Z.of_nat (w_lcn r) + 1.
Proof. unfold encode_run. cbn [length]. rewrite length_app, !le_bytes_length. lia. Qed.

Definition map_flags (flags : Z) : Prop := flags = 0 \/ flags = 4 \/ flags = 5.

(** Addresses of the buffer do not wrap around. *)
Definition in_memory (p : ptr) (n : Z) : Prop :=
  0 <= b_addr (p_buf p) /\ 0 <= p_off p /\ b_addr (p_buf p) + p_off p + n < 0x100000000.

Lemma addr_padd p n k : in_memory p n -> 0 <= k <= n -> addr (padd p k) = b_addr (p_buf p) + p_off p + k.
Proof. intros (? & ? & ?) ?. unfold addr, padd. cbn. rewrite u32_small; lia. Qed.

Lemma parse_end stream offset n chunk :
  has_bytes (b_bytes (p_buf stream)) (p_off stream + offset) [0] -> in_memory stream n -> 0 <= offset <= n ->
  map_flags (c_flags chunk) ->
  parse_data_run stream offset (padd stream n) chunk =
    Ok (Some (offset, Chunk (c_vcn chunk) (c_lcn chunk) (c_len chunk) MAP_END)).
Proof.
  intros Hb Hm Ho Hf. unfold parse_data_run. rewrite !(addr_padd _ n) by (done || lia).
  rewrite decide_False by lia. rewrite (load_ok (padd stream offset) _ _ _ _ Hb) by (done || (cbn; lia)). cbn [mbind result_bind le_num].
  destruct Hf as [E|[E|E]]; by rewrite E.
Qed.

Lemma parse_run_reads stream offset n chunk r :
  has_bytes (b_bytes (p_buf stream)) (p_off stream + offset) (encode_run (c_lcn chunk) r) ->
  in_memory stream n -> 0 <= offset -> offset + Z.of_nat (length (encode_run (c_lcn chunk) r)) <= n ->
  map_flags (c_flags chunk) -> run_written (c_lcn chunk) r ->
  parse_data_run stream offset (padd stream n) chunk =
    Ok (Some (offset + Z.of_nat (length (encode_run (c_lcn chunk) r)),
              Chunk (c_vcn chunk) (n_lcn r) (n_len (as_read r)) (if decide (offset = 0) then 5 else 4))).
Proof.
  intros Hb Hm Ho Hn Hf (Hv & Hl & Hlen & Hlcn & Hd). rewrite encode_run_length in *.
  unfold encode_run in Hb. apply (has_bytes_app _ _ [_]) in Hb as [Hh Hb]. apply has_bytes_app in Hb as [Hb1 Hb2].
  cbn [length] in *. rewrite le_bytes_length in Hb2.
  unfold parse_data_run. rewrite !(addr_padd _ n) by (done || lia). rewrite decide_False by lia.
  set (buf := padd stream offset). change (p_buf stream) with (p_buf buf) in *.
  change (p_off stream + offset) with (p_off buf) in *.
  rewrite (load_ok buf _ _ _ _ Hh), le_num_1 by (done || lia). cbn [mbind result_bind].
  rewrite decide_False by lia.
  assert (Z.land (Z.of_nat (w_len r) + 16 * Z.of_nat (w_lcn r)) 15 = Z.of_nat (w_len r)) as ->.
  { change 15 with (2 ^ 4 - 1). rewrite land_ones_mod by lia. change (2 ^ 4) with 16. dlia. }
  assert (Z.shiftr (Z.of_nat (w_len r) + 16 * Z.of_nat (w_lcn r)) 4 = Z.of_nat (w_lcn r)) as ->.
  { rewrite shiftr_div by lia. change (2 ^ 4) with 16. dlia. }
  rewrite decide_False by lia. rewrite !Nat2Z.id.
  change (Z.of_nat 1) with 1 in *.
  pose proof (run_length_ok buf (w_len r) _ 0 0 (le_bytes_length _ (n_len r)) (le_bytes_ok _ _)) as R1.
  rewrite Z.add_0_r, Z.add_0_l in R1. rewrite R1 by (done || lia). clear R1. cbn [mbind result_bind].
  destruct (sign_extend (w_lcn r) (n_lcn r - c_lcn chunk) Hl Hd) as (bs & top & Ebs & Htop & Hs).
  pose proof Hb2 as Hb2'. rewrite Ebs in Hb2'. apply has_bytes_app in Hb2' as [_ Ht].
  assert (length bs = (w_lcn r - 1)%nat) as Hbs.
  { pose proof (le_bytes_length (w_lcn r) (n_lcn r - c_lcn chunk)) as E. rewrite Ebs, length_app in E. simpl in E. lia. }
  rewrite (load_ok buf _ _ _ _ Ht), le_num_1 by (done || lia). cbn [mbind result_bind].
  rewrite (run_lcn_ok buf (w_lcn r) (le_bytes (w_lcn r) (n_lcn r - c_lcn chunk)))
    by (apply le_bytes_length || apply le_bytes_ok || (by replace (p_off buf + Z.of_nat (w_len r) + 1)
        with (p_off buf + 1 + Z.of_nat (w_len r)) by lia) || (case_decide; lia)).
  cbn [mbind result_bind]. rewrite !le_num_le_bytes, Hs.
  replace (c_lcn chunk + (n_lcn r - c_lcn chunk)) with (n_lcn r) by lia.
  rewrite (s64_small (n_lcn r)) by lia. rewrite (decide_False (P := n_lcn r = 0)) by lia.
  destruct Hm as (? & ? & ?). rewrite u32_small by lia.
  assert (forall x, u64 (s64 x) = u64 x) as -> by (intros x; unfold u64, s64; dlia).
  cbn [as_read n_len].
  do 4 f_equal. unfold map_flags in Hf. destruct Hf as [E|[E|E]]; rewrite E; destruct (decide (offset = 0)); reflexivity.
Qed.

Lemma parse_run stream offset n chunk r :
  has_bytes (b_bytes (p_buf stream)) (p_off stream + offset) (encode_run (c_lcn chunk) r) ->
  in_memory stream n -> 0 <= offset -> offset + Z.of_nat (length (encode_run (c_lcn chunk) r)) <= n ->
  map_flags (c_flags chunk) -> run_ok (c_lcn chunk) r ->
  parse_data_run stream offset (padd stream n) chunk =
    Ok (Some (offset + Z.of_nat (length (encode_run (c_lcn chunk) r)),
              Chunk (c_vcn chunk) (n_lcn r) (n_len r) (if decide (offset = 0) then 5 else 4))).
Proof.
  intros Hb Hm Ho Hn Hf (? & ? & ? & Hl & ? & ?). assert (run_written (c_lcn chunk) r) as Hw by (by split).
  rewrite (parse_run_reads _ _ n _ r) by done. by rewrite (as_read_ok (c_lcn chunk)).
Qed.

Lemma collect_step_run stream attr_end offset offset' chunk rlist v l n f :
  parse_data_run stream offset attr_end chunk = Ok (Some (offset', Chunk v l n f)) -> f = 4 \/ f = 5 ->
  collect_step stream attr_end (offset, chunk, rlist) =
    Ok (Continue (offset', Chunk (u64 (v + n)) l n f, runlist_append rlist (Run v l n))).
Proof. intros E [-> | ->]; unfold collect_step; by rewrite E. Qed.

Lemma collect_loop stream n : forall rs fuel offset chunk rlist,
  has_bytes (b_bytes (p_buf stream)) (p_off stream + offset) (encode_runs (c_lcn chunk) rs) ->
  in_memory stream n -> 0 <= offset -> offset + Z.of_nat (length (encode_runs (c_lcn chunk) rs)) <= n ->
  map_flags (c_flags chunk) -> runs_written (c_lcn chunk) rs -> (length rs < fuel)%nat ->
  loop fuel (collect_step stream (padd stream n)) (offset, chunk, rlist) =
    Ok (Some (rlist ++ runs_from (c_vcn chunk) (as_read <$> rs))).
Proof.
  induction rs as [|r rs IH]; intros fuel offset chunk rlist Hb Hm Ho Hn Hf Hok Hfuel;
    (destruct fuel as [|fuel]; [simpl in Hfuel; lia|]).
  - apply loop_break. unfold collect_step. cbn [encode_runs length] in *.
    rewrite (parse_end _ _ n) by (done || lia). cbn. by rewrite app_nil_r.
  - cbn [encode_runs] in *. rewrite length_app in Hn. apply has_bytes_app in Hb as [Hb1 Hb2].
    destruct Hok as [Hr Hok].
    pose proof (parse_run_reads stream offset n chunk r Hb1 Hm Ho ltac:(lia) Hf Hr) as E.
    apply (collect_step_run _ _ _ _ _ rlist) in E; [|case_decide; auto].
    rewrite (loop_continue _ _ _ _ E).
    rewrite IH; cbn [c_vcn c_lcn c_len c_flags]; try done; try lia.
    + unfold runlist_append. by rewrite <- app_assoc.
    + by rewrite Z.add_assoc.
    + unfold map_flags. case_decide; auto.
    + simpl in Hfuel. lia.
Qed.

(** The runs of an attribute have the absolute LCNs that its mapping pairs encode and
    the lengths that the code reads, with the VCNs added up. *)
Lemma collect_runs_reads attr o n rs fuel stream chunk offset :
  mapping_pairs_offset attr = Ok o -> 0 <= o -> mapping_chunk_init attr = Ok (stream, chunk, offset) ->
  has_bytes (b_bytes (p_buf attr)) (p_off attr + o) (encode_runs 0 rs) -> runs_written 0 rs ->
  in_memory attr n -> o + Z.of_nat (length (encode_runs 0 rs)) <= n -> (length rs < fuel)%nat ->
  collect_runs fuel stream (padd attr n) chunk offset = Ok (Some (runs_from 0 (as_read <$> rs))).
Proof.
  intros Ho Ho0 Hinit Hb Hok (? & ? & ?) Hn Hfuel. unfold mapping_chunk_init in Hinit. rewrite Ho in Hinit.
  cbn [mbind result_bind] in Hinit. injection Hinit as <- <- <-.
  unfold collect_runs. replace (padd attr n) with (padd (padd attr o) (n - o)) by (unfold padd; cbn; f_equal; lia).
  rewrite (collect_loop _ (n - o) rs); [done|cbn; by rewrite Z.add_0_r| |lia|cbn;lia|by left|done|done].
  unfold in_memory, padd. cbn. lia.
Qed.

(** The runs of an attribute are those that its mapping pairs encode: lengths
    and absolute LCNs, with the VCNs added up. *)
Theorem collect_runs_decodes attr o n rs fuel stream chunk offset :
  mapping_pairs_offset attr = Ok o -> 0 <= o -> mapping_chunk_init attr = Ok (stream, chunk, offset) ->
  has_bytes (b_bytes (p_buf attr)) (p_off attr + o) (encode_runs 0 rs) -> runs_ok 0 rs ->
  in_memory attr n -> o + Z.of_nat (length (encode_runs 0 rs)) <= n -> (length rs < fuel)%nat ->
  collect_runs fuel stream (padd attr n) chunk offset = Ok (Some (runs_from 0 rs)).
Proof.
  intros Ho Ho0 Hinit Hb [Hw Hl]%runs_ok_written Hm Hn Hf. rewrite (collect_runs_reads attr o n rs) by done.
  by rewrite (as_read_runs 0).
Qed.

(** A run of 0x81 clusters is read as one of 0x83. *)
Example length_misread : as_read (RunSpec 1 1 0x81 60) = RunSpec 1 1 0x83 60.
Proof. by vm_compute. Qed.

(** ** Fixups *)

(** A record as it is on the disk: the last two bytes of every sector have the
    update sequence number. *)
Definition protect (ss usn : Z) (r : list Z) : list Z :=
  imap (fun i b => if decide (Z.of_nat i mod ss = ss - 2) then u8 usn
                   else if decide (Z.of_nat i mod ss = ss - 1) then u8 (Z.shiftr usn 8) else b) r.

(** The update sequence array of [r] has the number, and then the last two
    bytes of every sector. *)
Definition usa_ok (ss usa usn n : Z) (r : list Z) : Prop :=
  get16 r usa = Ok usn /\
  forall k, 0 <= k < n -> get16 r (usa + 2 + 2 * k) = get16 r (k * ss + ss - 2).

(** The bytes from sector [k] on are as on the disk. *)
Definition from_sector (ss usn k : Z) (r : list Z) : list Z :=
  imap (fun i b => if decide (k * ss <= Z.of_nat i /\ Z.of_nat i mod ss = ss - 2) then u8 usn
                   else if decide (k * ss <= Z.of_nat i /\ Z.of_nat i mod ss = ss - 1) then u8 (Z.shiftr usn 8)
                   else b) r.

Lemma get16_lookup l i a b : 0 <= i -> l !! Z.to_nat i = Some a -> l !! Z.to_nat (i + 1) = Some b ->
  get16 l i = Ok (a + 0x100 * b).
Proof.
  intros Hi Ha Hb. pose proof (lookup_lt_Some _ _ _ Hb). rewrite getle_ok by lia.
  change (sub l i 2) with (sub l i (1 + 1)). rewrite (sub_split l i 1 1), (sub_1 l i a), (sub_1 l _ b) by (done || lia). f_equal. simpl. lia.
Qed.

Lemma getle_eq n l l' i : length l = length l' ->
  (forall j, i <= Z.of_nat j < i + Z.of_nat n -> l !! j = l' !! j) -> getle n l i = getle n l' i.
Proof.
  intros Hl H. unfold getle. rewrite Hl. case_decide as Hd; [|done]. do 2 f_equal. unfold sub.
  apply list_eq. intros j. destruct (decide (j < n)%nat) as [Hj|Hj].
  - rewrite !lookup_take_lt, !lookup_drop by done. apply H. lia.
  - by rewrite !lookup_take_ge by lia.
Qed.

Lemma if_ext {A} (P Q : Prop) `{!Decision P, !Decision Q} (x y z : A) :
  (P <-> Q) -> y = z -> (if decide P then x else y) = (if decide Q then x else z).
Proof. intros E ->. by apply decide_ext. Qed.

Section Fixups.
Context (ss usa usn n : Z) (r : list Z).
Context (bytes : Forall byte_ok r) (ss_min : 2 <= ss) (n_pos : 0 <= n) (len_r : Z.of_nat (length r) = n * ss).
Context (usn_range : 0 <= usn < 0x10000).
Context (usa_min : 0 <= usa) (usa_max : usa + 2 + 2 * n <= ss - 2).
Context (ok : usa_ok ss usa usn n r).

Lemma from_sector_0 : protect ss usn r = from_sector ss usn 0 r.
Proof.
  apply imap_ext. intros i b _. simpl. repeat case_decide; try done; lia.
Qed.

Lemma from_sector_all : from_sector ss usn n r = r.
Proof.
  apply list_eq. intros i. unfold from_sector. rewrite list_lookup_imap.
  destruct (r !! i) as [b|] eqn:E; [|done]. simpl. apply lookup_lt_Some in E.
  by rewrite !decide_False by lia.
Qed.

Lemma from_sector_length k : length (from_sector ss usn k r) = length r.
Proof. apply length_imap. Qed.

(** The first sector, less its end, is not changed. *)
Lemma from_sector_low k m i : 0 <= i -> i + Z.of_nat m <= ss - 2 ->
  getle m (from_sector ss usn k r) i = getle m r i.
Proof.
  intros Hi Hm. apply getle_eq; [apply from_sector_length|]. intros j Hj. unfold from_sector.
  rewrite list_lookup_imap. rewrite (Z.mod_small (Z.of_nat j)) by lia.
  destruct (r !! j); simpl; [|done]. by rewrite !decide_False by lia.
Qed.

Lemma end_lookup k : 0 <= k < n -> exists a b, byte_ok a /\ byte_ok b /\
  r !! Z.to_nat (k * ss + ss - 2) = Some a /\ r !! Z.to_nat (k * ss + ss - 2 + 1) = Some b.
Proof.
  intros Hk.
  destruct (lookup_lt_is_Some_2 r (Z.to_nat (k * ss + ss - 2))) as [a Ha]; [nia|].
  destruct (lookup_lt_is_Some_2 r (Z.to_nat (k * ss + ss - 2 + 1))) as [b Hb]; [nia|].
  rewrite Forall_lookup in bytes.
  exists a, b. split_and!; try done; by eapply bytes.
Qed.

Lemma mod_in_sector k j : 0 <= j < ss -> (k * ss + j) mod ss = j.
Proof. intros. rewrite Z.add_comm, Z.mod_add by lia. by apply Z.mod_small. Qed.

Lemma read_end k : 0 <= k < n -> get16 (from_sector ss usn k r) (k * ss + ss - 2) = Ok usn.
Proof.
  intros Hk. destruct (end_lookup k Hk) as (a & b & _ & _ & Ha & Hb).
  rewrite (get16_lookup _ _ (u8 usn) (u8 (Z.shiftr usn 8))); [|nia|..].
  - f_equal. rewrite shiftr_div by lia. unfold u8. change (2 ^ 8) with 0x100. dlia.
  - unfold from_sector. rewrite list_lookup_imap, Ha. simpl. rewrite decide_True; [done|].
    rewrite Z2Nat.id by nia. replace (k * ss + ss - 2) with (k * ss + (ss - 2)) by lia.
    rewrite mod_in_sector; lia.
  - unfold from_sector. rewrite list_lookup_imap, Hb. simpl.
    rewrite Z2Nat.id by nia. replace (k * ss + ss - 2 + 1) with (k * ss + (ss - 1)) by lia.
    rewrite mod_in_sector by lia. by rewrite decide_False, decide_True by lia.
Qed.

(** Writing the two bytes of the array undoes one sector. *)
Lemma put_end k v : 0 <= k < n -> get16 r (k * ss + ss - 2) = Ok v ->
  put16 (from_sector ss usn k r) (k * ss + ss - 2) v = Ok (from_sector ss usn (k + 1) r).
Proof.
  intros Hk Hv. destruct (end_lookup k Hk) as (a & b & Ba & Bb & Ha & Hb).
  rewrite (get16_lookup r (k * ss + ss - 2) a b ltac:(nia) Ha Hb) in Hv. injection Hv as <-. unfold byte_ok in *.
  unfold put16, store. rewrite from_sector_length, decide_True by nia. cbn [mbind result_bind].
  rewrite length_insert, from_sector_length, decide_True by nia. f_equal.
  apply list_eq. intros i. destruct (decide (i = Z.to_nat (k * ss + ss - 2 + 1))) as [->|N1].
  { rewrite list_lookup_insert_eq by (rewrite length_insert, from_sector_length; nia).
    unfold from_sector. rewrite list_lookup_imap, Hb. simpl. rewrite !decide_False by nia.
    f_equal. rewrite shiftr_div by lia. unfold u8. change (2 ^ 8) with 0x100. dlia. }
  rewrite list_lookup_insert_ne by done. destruct (decide (i = Z.to_nat (k * ss + ss - 2))) as [->|N2].
  { rewrite list_lookup_insert_eq by (rewrite from_sector_length; nia).
    unfold from_sector. rewrite list_lookup_imap, Ha. simpl. rewrite !decide_False by nia.
    f_equal. unfold u8. dlia. }
  rewrite list_lookup_insert_ne by done. unfold from_sector. rewrite !list_lookup_imap.
  destruct (r !! i) as [x|]; [|done]. simpl. f_equal.
  pose proof (Z.div_mod (Z.of_nat i) ss ltac:(lia)) as Hdm. pose proof (Z.mod_pos_bound (Z.of_nat i) ss ltac:(lia)).
  assert (forall e, 0 <= e < ss -> Z.of_nat i mod ss = e -> Z.of_nat i <> k * ss + e ->
    (k * ss <= Z.of_nat i <-> (k + 1) * ss <= Z.of_nat i)) as Hiff.
  { intros e He E N. split; [|nia]. intros Hle. destruct (decide (Z.of_nat i / ss = k)) as [Q|Q]; [nia|].
    assert (k < Z.of_nat i / ss) by nia. nia. }
  pose proof (Hiff (ss - 2) ltac:(lia)) as H0. pose proof (Hiff (ss - 1) ltac:(lia)) as H1.
  assert (Z.of_nat i <> k * ss + (ss - 2)) by nia. assert (Z.of_nat i <> k * ss + (ss - 1)) by nia.
  apply if_ext; [split; intros [? E]; (split; [|exact E]); apply H0; assumption || lia|].
  apply if_ext; [|done]. split; intros [? E]; (split; [|exact E]); apply H1; assumption || lia.
Qed.

Lemma fixups_from m : forall k, 0 <= k -> k + Z.of_nat m = n ->
  fixups ss usn m (usa + 2 + 2 * k) (k * ss + ss - 2) (from_sector ss usn k r) = Ok r.
Proof.
  induction m as [|m IH]; intros k Hk Hm.
  - cbn [fixups]. by replace k with n by lia; rewrite from_sector_all.
  - cbn [fixups]. rewrite read_end by lia. cbn [mbind result_bind]. rewrite decide_False by tauto.
    rewrite from_sector_low by lia. destruct ok as [_ Hw]. rewrite Hw by lia.
    destruct (end_lookup k ltac:(lia)) as (a & b & _ & _ & Ha & Hb).
    pose proof (get16_lookup r (k * ss + ss - 2) a b ltac:(nia) Ha Hb) as E. rewrite E. cbn [mbind result_bind].
    rewrite (put_end k) by (done || lia). cbn [mbind result_bind].
    replace (usa + 2 + 2 * k + 2) with (usa + 2 + 2 * (k + 1)) by lia.
    replace (k * ss + ss - 2 + ss) with ((k + 1) * ss + ss - 2) by lia. apply IH; lia.
Qed.
End Fixups.

(** C26. A record that was written with its sectors protected is read as it was. *)
Theorem fixups_restore ss usa usn n r m :
  Forall byte_ok r -> Z.of_nat (length r) = n * ss -> 1 <= n < 0xFFFF ->
  get32 r 0 = Ok m -> m = NTFS_MAGIC_FILE \/ m = NTFS_MAGIC_INDX ->
  get16 r 4 = Ok usa -> get16 r 6 = Ok (n + 1) -> 8 <= usa -> usa + 2 * (n + 1) <= ss - 2 ->
  usa_ok ss usa usn n r ->
  ntfs_fixups_writeback ss (protect ss usn r) = Ok r.
Proof.
  intros Hb Hl Hn Hm Hm' H4 H6 Hu Hu' Hok.
  assert (0 <= usn < 0x10000) as Husn by (destruct Hok as [E _]; apply (getle_range 2 _ _ _ Hb E)).
  rewrite from_sector_0 by lia. unfold ntfs_fixups_writeback.
  rewrite !from_sector_low, Hm by (cbn; lia). cbn [mbind result_bind].
  rewrite decide_False by (intros [A B]; destruct Hm'; contradiction).
  rewrite H4. cbn [mbind result_bind]. rewrite !from_sector_low by (cbn; lia).
  pose proof (proj1 Hok) as Hu0. rewrite Hu0, H6. cbn [mbind result_bind].
  rewrite u16_small by lia. replace (n + 1 - 1) with n by lia.
  pose proof (fixups_from ss usa usn n r Hb ltac:(lia) ltac:(lia) Hl Husn ltac:(lia) ltac:(lia) Hok (Z.to_nat n) 0 ltac:(lia) ltac:(lia)) as F.
  by rewrite Z.mul_0_r, !Z.add_0_r, Z.mul_0_l, Z.add_0_l in F.
Qed.

(** ** Reading records *)

Lemma pow_split a b : 0 <= a <= b -> 2 ^ b = 2 ^ (b - a) * 2 ^ a.
Proof. intros. rewrite <- Z.pow_add_r by lia. f_equal. lia. Qed.

Section Volume.
Context {C : Type} `{BC : !BlockCache C}.
Context (block_shift sector_shift : Z) (malloc_addr : list buffer -> Z -> Z) (stack_addr : Z).
Context (shift_range : 0 <= block_shift < 31) (csize_eq : csize = 2 ^ block_shift).

Abbreviation BLOCK_SIZE := (2 ^ block_shift).

Lemma block_pos : 0 < BLOCK_SIZE.
Proof. apply Z.pow_pos_nonneg; lia. Qed.

Lemma block_max : BLOCK_SIZE <= 2 ^ 31.
Proof. apply Z.pow_le_mono_r; lia. Qed.

Hint Resolve block_pos block_max : core.

(** A read that does not leave its block. *)
Lemma ntfs_read_ok fuel sbi c len count blk blk_offset lcn :
  cinv c -> 0 <= blk < u64 (-1) -> 0 < count <= len -> 0 <= blk_offset < BLOCK_SIZE ->
  let offset := if decide (blk_offset = 0) then u64 (Z.shiftl lcn (clust_byte_shift sbi)) mod BLOCK_SIZE
                else blk_offset in
  offset + count <= BLOCK_SIZE ->
  exists c', cinv c' /\
    ntfs_read block_shift fuel sbi c len count blk blk_offset lcn =
      Ok (c', Some (RR blk offset (offset + count) (u64 (lcn + BLOCK_SIZE / count))
                       (sub (cdata blk) offset (Z.to_nat count)))).
Proof.
  intros Hc Hblk Hcount Hoff offset Hfit. pose proof block_pos. pose proof block_max.
  destruct (cblock_ok c blk Hc Hblk) as [Hd Hc']. unfold ntfs_read. rewrite decide_False by lia.
  destruct (cblock c blk) as [c' data'] eqn:E. cbn [fst snd] in Hd, Hc'. subst data'. exists c'. split; [done|].
  fold offset. cbv zeta.
  assert (0 <= offset < BLOCK_SIZE) as Ho by (unfold offset; case_decide; [apply Z.mod_pos_bound|]; lia).
  clearbody offset. change (2 ^ 31) with 0x80000000 in *.
  rewrite (u64_small (BLOCK_SIZE - offset)) by lia. rewrite decide_True by lia.
  unfold copy. pose proof (cdata_length blk) as Hl. rewrite csize_eq in Hl.
  rewrite decide_True by lia. cbn [mbind result_bind]. rewrite (u64_small (offset + count)) by lia.
  rewrite (decide_False (P := offset >= _)), (decide_False (P := count = 0)) by lia. done.
Qed.

(** The table of records: its place, and the sizes of clusters and records, all
    powers of two, where neither is larger than a block. *)
Record mft_geometry (sbi : ntfs_sb_info) (k : Z) : Prop := {
  mg_record : 0 <= k <= block_shift /\ mft_record_size sbi = 2 ^ k;
  mg_cluster : 0 <= clust_byte_shift sbi <= block_shift;
  mg_lcn : 0 <= mft_lcn sbi /\ mft_lcn sbi * 2 ^ clust_byte_shift sbi = mft_blk sbi * BLOCK_SIZE;
  mg_range : mft_blk sbi * BLOCK_SIZE < 2 ^ 63 }.

(** Rounding down to a cluster does not change the block. *)
Lemma cluster_block pos q : 0 <= q <= block_shift -> 0 <= pos -> pos / 2 ^ q * 2 ^ q / BLOCK_SIZE = pos / BLOCK_SIZE.
Proof.
  intros Hq Hpos. pose proof (Z.pow_pos_nonneg 2 q). pose proof (Z.pow_pos_nonneg 2 (block_shift - q)).
  rewrite (pow_split q block_shift) by lia. rewrite Z.div_mul_cancel_r by lia.
  rewrite (Z.mul_comm (2 ^ (block_shift - q))), <- Z.div_div by lia. done.
Qed.

Lemma record_in_block k file : 0 <= k <= block_shift -> 0 <= file ->
  (file * 2 ^ k) mod BLOCK_SIZE + 2 ^ k <= BLOCK_SIZE.
Proof.
  intros Hk Hf. pose proof (Z.pow_pos_nonneg 2 k). pose proof (Z.pow_pos_nonneg 2 (block_shift - k)).
  rewrite (pow_split k block_shift) by lia. rewrite Z.mul_mod_distr_r by lia.
  pose proof (Z.mod_pos_bound file (2 ^ (block_shift - k))). nia.
Qed.

(** The block of a record, and the place of the record in it. *)
Definition record_blk (k file : Z) : Z := file * 2 ^ k / BLOCK_SIZE.
Definition record_bytes (sbi : ntfs_sb_info) (k file : Z) : list Z :=
  sub (cdata (mft_blk sbi + record_blk k file)) ((file * 2 ^ k) mod BLOCK_SIZE) (Z.to_nat (2 ^ k)).

(** The record is the first one that the lookup looks at. *)
Lemma mft_lookup_first fuel version sbi k s file rec :
  mft_geometry sbi k -> cinv (cache s) -> 0 <= file -> file * 2 ^ k < 0x100000000 -> (0 < fuel)%nat ->
  ntfs_fixups_writeback (2 ^ sector_shift) (record_bytes sbi k file) = Ok rec ->
  record_found version file rec = Ok true ->
  let b := Buffer (malloc_addr (live s) (2 ^ k)) rec in
  exists c', cinv c' /\
    mft_lookup block_shift sector_shift malloc_addr fuel version sbi s file =
      Ok (malloc (set_cache s c') b, Some (b, record_blk k file)).
Proof.
  intros [[Hk Hrs] Hq [Hlcn Hmft] Hrange] Hc Hfile Hpos Hfuel Hfix Hfound b.
  pose proof block_pos. pose proof block_max as Hmax. pose proof (Z.pow_pos_nonneg 2 k).
  pose proof (Z.pow_pos_nonneg 2 (clust_byte_shift sbi)) as Hcs.
  assert (2 ^ k <= BLOCK_SIZE) as Hkb by (apply Z.pow_le_mono_r; lia).
  change (2 ^ 31) with 0x80000000 in *. change (2 ^ 63) with 0x8000000000000000 in *.
  unfold mft_lookup, ilog2. rewrite Hrs, (u32_small (2 ^ k)) by lia. rewrite decide_True by lia.
  rewrite Z.log2_pow2 by lia. cbn [mbind result_bind]. unfold shl32. rewrite decide_True by lia.
  rewrite shiftl_mul, (u32_small (file * _)) by lia. cbn [mbind result_bind].
  set (pos := file * 2 ^ k) in *. set (q := clust_byte_shift sbi) in *.
  rewrite (shiftr_div pos), !shiftl_mul by lia.
  pose proof (Z.mul_div_le pos (2 ^ q) ltac:(lia)) as Hle. assert (0 <= pos / 2 ^ q) as Hp0 by (apply Z.div_pos; lia).
  assert (0 <= pos) as Hpos0 by (unfold pos; nia).
  assert (mft_lcn sbi <= mft_blk sbi * BLOCK_SIZE) by nia.
  assert (pos / 2 ^ q <= pos) by (apply Z.div_le_upper_bound; nia).
  rewrite (u64_small (mft_lcn sbi + pos / 2 ^ q)) by lia.
  assert ((mft_lcn sbi + pos / 2 ^ q) * 2 ^ q = mft_blk sbi * BLOCK_SIZE + pos / 2 ^ q * 2 ^ q) as Elcn by lia.
  rewrite (u64_small (_ * _)), Elcn, shiftr_div by lia.
  assert ((mft_blk sbi * BLOCK_SIZE + pos / 2 ^ q * 2 ^ q) / BLOCK_SIZE - mft_blk sbi = pos / BLOCK_SIZE) as ->.
  { rewrite Z.add_comm, Z.div_add, cluster_block by lia. lia. }
  assert (0 <= pos / BLOCK_SIZE <= pos) as Hb by (split; [apply Z.div_pos|apply Z.div_le_upper_bound]; nia).
  assert (0 <= mft_blk sbi < 0x8000000000000000) as Hmb by nia.
  rewrite (u64_small (pos / _)) by lia.
  destruct fuel as [|fuel]; [lia|].
  pose proof (record_in_block k file Hk Hfile) as Hfit. fold pos in Hfit.
  assert (let o := pos mod BLOCK_SIZE in
    (if decide (o = 0) then u64 (Z.shiftl (mft_lcn sbi + pos / 2 ^ q) q) mod BLOCK_SIZE else o) = o) as Eo.
  { cbv zeta. case_decide as Ho; [|done]. rewrite shiftl_mul, u64_small, Elcn by lia.
    rewrite Z.add_comm, Z.mod_add by lia.
    assert (pos mod 2 ^ q = 0) as Hq0.
    { apply Z.mod_divide; [lia|]. apply Z.mod_divide in Ho; [|lia]. eapply Z.divide_trans; [|exact Ho].
      exists (2 ^ (block_shift - q)). apply pow_split. lia. }
    pose proof (Z.div_mod pos (2 ^ q)). replace (pos / 2 ^ q * 2 ^ q) with pos by lia. lia. }
  destruct (ntfs_read_ok (S fuel) sbi (cache s) (2 ^ k) (2 ^ k) (mft_blk sbi + pos / BLOCK_SIZE) (pos mod BLOCK_SIZE)
              (mft_lcn sbi + pos / 2 ^ q)) as (c' & Hc' & Er);
    [done|change (u64 (-1)) with 0xffffffffffffffff; lia|lia|apply Z.mod_pos_bound; lia|fold q; rewrite Eo; lia|].
  fold q in Er. rewrite Eo in Er. exists c'. split; [done|].
  erewrite loop_break; [|unfold lookup_step; rewrite (Z.add_comm (pos / _)), u64_small, Hrs, Er by lia;
    cbn [mbind result_bind rr_buf]; fold (record_blk k file); fold pos;
    change (sub _ _ _) with (record_bytes sbi k file); rewrite Hfix; cbn [mbind result_bind]; rewrite Hfound; reflexivity].
  done.
Qed.

End Volume.

(** ** Attributes *)

(** [attr_at type p k a]: from the attribute at [p], the first one of the type
    is [a], after [k] others, none of which is a list of attributes. *)
Inductive attr_at (type : Z) : ptr -> nat -> ptr -> Prop :=
  | attr_here p : attr_type p = Ok type -> attr_at type p 0 p
  | attr_next p ty len k a :
      attr_type p = Ok ty -> ty <> type -> ty <> NTFS_AT_END -> ty <> NTFS_AT_ATTR_LIST ->
      attr_len p = Ok len -> attr_at type (padd p len) k a -> attr_at type p (S k) a.

(** The first attribute of the type in a record is [a]. *)
Definition record_attr (type : Z) (k : nat) (mrec : buffer) (a : ptr) : Prop :=
  type <> NTFS_AT_END /\ type <> NTFS_AT_ATTR_LIST /\
  exists o, attrs_offset (b_bytes mrec) = Ok o /\ attr_at type (Ptr mrec o) k a.

Lemma attr_at_buf type p k a : attr_at type p k a -> p_buf a = p_buf p.
Proof. by induction 1. Qed.

Lemma record_attr_buf type k mrec a : record_attr type k mrec a -> p_buf a = mrec.
Proof. intros (_ & _ & o & _ & H). by apply attr_at_buf in H. Qed.

Lemma attr_walk_ok type p k a fuel : attr_at type p k a -> type <> NTFS_AT_END -> type <> NTFS_AT_ATTR_LIST ->
  (k < fuel)%nat -> loop fuel (walk_step type) (p, None) = Ok (inl a).
Proof.
  intros H He Hl. revert fuel. induction H as [p Hp|p ty len k a Hp H1 H2 H3 Hlen _ IH]; intros fuel Hf;
    (destruct fuel as [|fuel]; [lia|]).
  - apply loop_break. unfold walk_step. rewrite Hp. cbn [mbind result_bind]. by rewrite decide_False, decide_True.
  - erewrite loop_continue; [apply IH; lia|]. unfold walk_step. rewrite Hp. cbn [mbind result_bind].
    rewrite !decide_False by tauto. by rewrite Hlen.
Qed.

Lemma attr_lookup_ok {C} `{BC : !BlockCache C} bs ss ma sa fuel sbi (s : state C) type k mrec a :
  record_attr type k mrec a -> (k < fuel)%nat ->
  ntfs_attr_lookup bs ss ma sa fuel sbi s type mrec mrec = Ok (s, Some a).
Proof.
  intros (He & Hl & o & Ho & H) Hf. unfold ntfs_attr_lookup, __ntfs_attr_lookup.
  rewrite decide_True, decide_False by done. destruct fuel as [|fuel]; [lia|].
  apply loop_break. unfold attr_step. rewrite Ho. cbn [mbind result_bind].
  by rewrite (attr_walk_ok type _ k a).
Qed.

(** ** An example

    A record of two sectors of 16 bytes. *)

Definition small_record : list Z :=
  le_bytes 4 NTFS_MAGIC_INDX ++ [8; 0; 3; 0; 7; 0; 1; 2; 3; 4; 1; 2] ++ seqZ 50 14 ++ [3; 4].

Lemma fixups_restore_witness : ntfs_fixups_writeback 16 (protect 16 7 small_record) = Ok small_record.
Proof.
  apply (fixups_restore 16 8 7 2 small_record NTFS_MAGIC_INDX); try by_compute; try reflexivity.
  split; [reflexivity|]. intros k Hk. assert (k = 0 \/ k = 1) as [-> | ->] by lia; reflexivity.
Defined.

Example protect_changes : protect 16 7 small_record <> small_record.
Proof. by vm_compute. Qed.

End NtfsSpec.
