(* ===== verification/NtfsDemo.v ===== *)
(** * A small NTFS volume, for the examples

    Sectors and clusters of 512 bytes, blocks and records of 1024, the master
    file table in block 4.  Its root directory, record 5, has the entry "a" in
    the root of the index and the entry "b" in the block 50; "b" is the file 20,
    with three clusters from 60 on and then the cluster 40. *)

From Stdlib Require Import ZArith Lia.
From S2P Require Import Prelude BlockCache Ntfs NtfsSpec.
Import Ntfs NtfsSpec.

Module NtfsDemo.

Definition pad (n : nat) (l : list Z) : list Z := l ++ replicate (n - length l) 0.

Definition attr_bytes (type nr : Z) (body : list Z) : list Z :=
  le_bytes 4 type ++ le_bytes 4 (16 + Z.of_nat (length body)) ++ [nr; 0] ++ replicate 6 0 ++ body.

Definition resident_attr (type : Z) (value : list Z) : list Z :=
  attr_bytes type 0 (le_bytes 4 (Z.of_nat (length value)) ++ le_bytes 2 24 ++ [0; 0] ++ value).

Definition runs_attr (type size : Z) (rs : list run_spec) : list Z :=
  attr_bytes type 1 (replicate 16 0 ++ le_bytes 2 64 ++ replicate 6 0 ++ le_bytes 8 2048 ++ le_bytes 8 size
                       ++ le_bytes 8 size ++ encode_runs 0 rs).

Definition record_of (seq flags no : Z) (attrs : list Z) : list Z :=
  pad 1024 (le_bytes 4 NTFS_MAGIC_FILE ++ le_bytes 2 48 ++ le_bytes 2 3 ++ replicate 8 0 ++ le_bytes 2 seq
    ++ le_bytes 2 1 ++ le_bytes 2 56 ++ le_bytes 2 flags ++ replicate 20 0 ++ le_bytes 4 no
    ++ le_bytes 2 7 ++ replicate 6 0 ++ attrs ++ le_bytes 4 NTFS_AT_END).

Definition entry (file : Z) (name : list Z) : list Z :=
  pad 88 (le_bytes 8 file ++ le_bytes 2 88 ++ replicate 6 0 ++ replicate 64 0
            ++ [Z.of_nat (length name); 1] ++ concat (le_bytes 2 <$> name)).

Definition last_entry (flags : Z) : list Z := replicate 8 0 ++ le_bytes 2 16 ++ [0; 0] ++ le_bytes 2 flags ++ [0; 0].

Definition index_header (eo il : Z) : list Z := le_bytes 4 eo ++ le_bytes 4 il ++ replicate 8 0.

Definition demo_dir_runs : list run_spec := [RunSpec 1 1 2 100].
Definition demo_file_runs : list run_spec := [RunSpec 1 1 3 60; RunSpec 1 1 1 40].

(** "A" in the root of the index, with the reference of record 21. *)
Definition demo_root : list Z :=
  record_of 5 3 5
    (resident_attr NTFS_AT_INDEX_ROOT (replicate 16 0 ++ index_header 16 120 ++ entry 21 [65] ++ last_entry 3)
       ++ runs_attr NTFS_AT_INDEX_ALLOCATION 1024 demo_dir_runs).

(** "B" in the block, with a sequence number in the reference. *)
Definition demo_index : list Z :=
  pad 1024 (le_bytes 4 NTFS_MAGIC_INDX ++ le_bytes 2 40 ++ le_bytes 2 3 ++ replicate 16 0 ++ index_header 24 128
    ++ le_bytes 2 7 ++ replicate 6 0 ++ entry (20 + 2 ^ 48) [66] ++ last_entry 2).

Definition demo_file : list Z := record_of 1 1 20 (runs_attr NTFS_AT_DATA 1900 demo_file_runs).

Definition demo_block (b : Z) : list Z :=
  if decide (b = 9) then protect 512 7 demo_root
  else if decide (b = 24) then protect 512 7 demo_file
  else if decide (b = 50) then protect 512 7 demo_index
  else replicate 1024 (b mod 256).

Lemma ntfs_demo_length b : length (demo_block b) = 1024%nat.
Proof. unfold demo_block. repeat (case_decide; [by vm_compute|]). apply length_replicate. Qed.

Lemma demo_block_bytes b : Forall byte_ok (demo_block b).
Proof. unfold demo_block. repeat (case_decide; [by_compute|]). apply Forall_replicate, Z.mod_pos_bound. done. Qed.

#[local] Instance demo_cache : BlockCache unit.
Proof.
  refine {| cblock c b := (c, demo_block b); cinv _ := True; cdata := demo_block; csize := 1024 |}.
  - done.
  - intros b. by rewrite ntfs_demo_length.
  - apply demo_block_bytes.
  - done.
Defined.

Definition demo_sbi : ntfs_sb_info := SB 4 8 0 1024 2 1000 0 9 0 512 3 1 ntfs_mft_record_lookup_3_1.

(** Objects are put one after the other. *)
Definition demo_malloc (l : list buffer) (size : Z) : Z := 0x100000 + 4096 * Z.of_nat (length l).
Definition demo_stack : Z := 0x8000.
Definition demo_state : state unit := State tt [] None.

Lemma ntfs_demo_shift : 0 <= 10 < 31.
Proof. lia. Qed.

Lemma ntfs_demo_csize : csize (C := unit) = 2 ^ 10.
Proof. done. Qed.

Lemma ntfs_demo_geometry : mft_geometry 10 demo_sbi 10.
Proof. constructor; by_compute. Qed.

(** The example of a run: the whole way from the root to the inode of "b". *)
Definition demo_root_inode : inode := Inode 4 0 5 5 0 0 (Resident 0) 5 5 5.

Example demo_lookup :
  (r ← ntfs_iget (BC := demo_cache) 10 9 demo_malloc demo_stack 20 demo_sbi demo_state [98; 0] demo_root_inode; Ok (snd r)) =
    Ok (Some (Inode 8 1900 20 1 NTFS_AT_DATA 1 (NonResident [Run 0 60 3; Run 3 40 1]) 20 0 20)).
Proof. by vm_compute. Qed.

End NtfsDemo.
