(* ===== verification/NtfsDirSpec.v ===== *)
(** * Directories of NTFS: the search in an index

    The entries of the root and of the blocks of an index, described by what
    their bytes hold; [ntfs_index_lookup] gives the inode of the first entry
    that has the name. *)

From Stdlib Require Import ZArith Lia.
From S2P Require Import Prelude Dirent CStr Cache BlockCache GetFsSec Ntfs NtfsSpec NtfsDemo.
Import Dirent.Dirent CStr.CStr.
Import Ntfs NtfsSpec NtfsDemo.

Module NtfsDirSpec.

(** ** Names *)

(** An entry: the file reference, the name space and the name in UTF-16. *)
Record dir_entry := DirEntry { de_file : Z; de_type : Z; de_name : list Z }.

(** Names of the POSIX name space are compared as they are, others without
    regard to the case of letters. *)
Definition fold_case (e : dir_entry) : Z -> Z := if decide (de_type e = FILE_NAME_POSIX) then id else tolower.

Definition same_name (s : list Z) (e : dir_entry) : bool :=
  bool_decide (Forall2 (fun x c => fold_case e x = fold_case e (s8 c)) (de_name e) s).

(** The bytes at [ie] are those of the entry. *)
Definition entry_is (ie : ptr) (e : dir_entry) : Prop :=
  indexed_file ie = Ok (de_file e) /\
  file_name_len ie = Ok (Z.of_nat (length (de_name e))) /\
  file_name_type ie = Ok (de_type e) /\
  forall k x, de_name e !! k = Some x -> file_name ie (Z.of_nat k) = Ok x.

Lemma name_eq_ok f ie (s rest : list Z) : forall name s1 s2 i,
  s = s1 ++ s2 -> i = Z.of_nat (length s1) -> length name = length s2 ->
  (forall k x, name !! k = Some x -> file_name ie (i + Z.of_nat k) = Ok x) ->
  name_eq f (s ++ rest) ie (length name) i = Ok (bool_decide (Forall2 (fun x c => f x = f (s8 c)) name s2)).
Proof.
  induction name as [|x name IH]; intros s1 s2 i Hs Hi Hl Hf.
  { by destruct s2. }
  destruct s2 as [|c s2]; [done|]. cbn [name_eq length].
  pose proof (Hf O x eq_refl) as Hx. rewrite Z.add_0_r in Hx. rewrite Hx. cbn [mbind result_bind].
  assert (get8 (s ++ rest) i = Ok c) as ->.
  { unfold get8. rewrite decide_True, Hi, Nat2Z.id, Hs, <- app_assoc by lia.
    by rewrite lookup_app_r, Nat.sub_diag by lia. }
  cbn [mbind result_bind].
  case_decide as Hd.
  - f_equal. symmetry. apply bool_decide_eq_false. intros HF. by inversion HF.
  - rewrite (IH (s1 ++ [c]) s2); [|by rewrite <- app_assoc|rewrite length_app; simpl; lia|simpl in Hl; lia|].
    + f_equal. apply bool_decide_ext. rewrite Forall2_cons. tauto.
    + intros k y Hk. rewrite <- (Hf (S k) y Hk). f_equal. lia.
Qed.

Lemma filename_cmp_ok s rest ie e : chars s -> entry_is ie e ->
  ntfs_filename_cmp (s ++ 0 :: rest) ie = Ok (same_name s e).
Proof.
  intros Hs (_ & Hl & Ht & Hn). unfold ntfs_filename_cmp. rewrite Hl, strlen_ok by done. cbn [mbind result_bind].
  unfold same_name. case_decide as Hd.
  - f_equal. symmetry. apply bool_decide_eq_false. intros HF%Forall2_length. lia.
  - rewrite Ht. cbn [mbind result_bind]. rewrite Nat2Z.id.
    rewrite (name_eq_ok _ ie s (0 :: rest) (de_name e) [] s); [|done|done|lia|intros; by apply Hn]. done.
Qed.

(** ** The entries of a node *)

(** The entries from offset [o] on, before [limit]; the last one has no name,
    and the flags [flags]. *)
Fixpoint entries_from (b : buffer) (o limit : Z) (es : list dir_entry) (flags : Z) : Prop :=
  0 <= o /\ o + idx_entry_header_size <= limit /\
  exists n, ie_len (Ptr b o) = Ok n /\ 0 <= n /\ o + n <= limit /\
    match es with
    | [] => ie_flags (Ptr b o) = Ok flags /\ Z.land flags INDEX_ENTRY_END <> 0
    | e :: es =>
        (exists f, ie_flags (Ptr b o) = Ok f /\ Z.land f INDEX_ENTRY_END = 0) /\
        entry_is (Ptr b o) e /\ entries_from b (o + n) limit es flags
    end.

(** A node whose header is at [i]. *)
Definition index_node (b : buffer) (i : Z) (es : list dir_entry) (flags : Z) : Prop :=
  0 <= b_addr b /\ b_addr b + Z.of_nat (length (b_bytes b)) < 0x100000000 /\ 0 <= i /\
  exists eo il, entries_offset (Ptr b i) = Ok eo /\ index_len (Ptr b i) = Ok il /\
    i + il <= Z.of_nat (length (b_bytes b)) /\ entries_from b (i + eo) (i + il) es flags.

(** What the scan ends with. *)
Definition scan_outcome (b : buffer) (s : list Z) (es : list dir_entry) (flags : Z) (r : scan_result) : Prop :=
  match List.find (same_name s) es with
  | Some e => exists o, r = Match (Ptr b o) /\ entry_is (Ptr b o) e
  | None => exists o, r = Last (Ptr b o) /\ ie_flags (Ptr b o) = Ok flags
  end.

Lemma addr_small b o : 0 <= b_addr b -> 0 <= o -> b_addr b + o < 0x100000000 -> addr (Ptr b o) = b_addr b + o.
Proof. intros. unfold addr. cbn. apply u32_small. lia. Qed.

Lemma entry_bounds_ok b i il o n :
  0 <= b_addr b -> b_addr b + Z.of_nat (length (b_bytes b)) < 0x100000000 -> 0 <= i ->
  index_len (Ptr b i) = Ok il -> i + il <= Z.of_nat (length (b_bytes b)) ->
  0 <= o -> o + idx_entry_header_size <= i + il -> ie_len (Ptr b o) = Ok n -> 0 <= n -> o + n <= i + il ->
  entry_bounds (Ptr b 0) (Ptr b i) (Ptr b o) = Ok true.
Proof.
  intros Hb Hm Hi Hil Hle Ho Hh Hn Hn0 Hon. unfold entry_bounds, idx_entry_header_size, padd in *. cbn [p_buf p_off] in *.
  rewrite !addr_small by lia. rewrite decide_False by lia. rewrite Hil. cbn [mbind result_bind].
  rewrite !addr_small by lia. rewrite decide_False by lia. rewrite Hn. cbn [mbind result_bind].
  rewrite !addr_small by lia. by rewrite bool_decide_eq_true_2 by lia.
Qed.

Lemma index_scan_loop s rest b i il flags :
  chars s -> 0 <= b_addr b -> b_addr b + Z.of_nat (length (b_bytes b)) < 0x100000000 -> 0 <= i ->
  index_len (Ptr b i) = Ok il -> i + il <= Z.of_nat (length (b_bytes b)) ->
  forall es o fuel, entries_from b o (i + il) es flags -> (length es < fuel)%nat ->
  exists r, loop fuel (scan_step (s ++ 0 :: rest) (Ptr b 0) (Ptr b i)) (Ptr b o) = Ok r /\
    scan_outcome b s es flags r.
Proof.
  intros Hs Hb Hm Hi Hil Hle. induction es as [|e es IH]; intros o fuel He Hfuel;
    (destruct fuel as [|fuel]; [simpl in Hfuel; lia|]); destruct He as (Ho & Hh & n & Hn & Hn0 & Hon & He);
    pose proof (entry_bounds_ok b i il o n Hb Hm Hi Hil Hle Ho Hh Hn Hn0 Hon) as Hbounds.
  - destruct He as [Hf Hend]. exists (Last (Ptr b o)). split; [|unfold scan_outcome; simpl; eauto].
    apply loop_break. unfold scan_step. rewrite Hbounds. cbn [mbind result_bind negb]. rewrite Hf.
    cbn [mbind result_bind]. by rewrite decide_True.
  - destruct He as ((f & Hf & Hend) & Heq & He). pose proof (filename_cmp_ok s rest (Ptr b o) e Hs Heq) as Hcmp.
    assert (scan_step (s ++ 0 :: rest) (Ptr b 0) (Ptr b i) (Ptr b o) =
      Ok (if same_name s e then Break (Match (Ptr b o)) else Continue (Ptr b (o + n)))) as Estep.
    { unfold scan_step. rewrite Hbounds. cbn [mbind result_bind negb]. rewrite Hf. cbn [mbind result_bind].
      rewrite decide_False by (intros N; by apply N). rewrite Hcmp. cbn [mbind result_bind].
      destruct (same_name s e); [done|]. by rewrite Hn. }
    unfold scan_outcome. cbn [List.find]. destruct (same_name s e) eqn:Es.
    + exists (Match (Ptr b o)). split; [by apply loop_break|eauto].
    + rewrite (loop_continue _ _ _ _ Estep). apply IH; [done|simpl in Hfuel; lia].
Qed.

Lemma scan_entries_ok s rest b i es flags fuel :
  chars s -> index_node b i es flags -> (length es < fuel)%nat ->
  exists r, scan_entries fuel (s ++ 0 :: rest) (Ptr b 0) (Ptr b i) = Ok r /\ scan_outcome b s es flags r.
Proof.
  intros Hs (Hb & Hm & Hi & eo & il & Heo & Hil & Hle & He) Hfuel. unfold scan_entries. rewrite Heo.
  cbn [mbind result_bind]. by apply (index_scan_loop s rest b i il).
Qed.

Lemma find_app_l {A} (f : A -> bool) l1 l2 :
  List.find f (l1 ++ l2) = match List.find f l1 with Some x => Some x | None => List.find f l2 end.
Proof. induction l1 as [|x l1 IH]; simpl; [done|]. by destruct (f x). Qed.

(** ** The blocks of an index *)

Section Volume.
Context {C : Type} `{BC : !BlockCache C}.
Context (block_shift sector_shift : Z) (malloc_addr : list buffer -> Z -> Z) (stack_addr : Z).
Context (shift_range : 0 <= block_shift < 31) (csize_eq : csize = 2 ^ block_shift).
Context (sbi : ntfs_sb_info) (cluster_range : 0 <= clust_byte_shift sbi <= block_shift).
Context (cluster_eq : clust_byte_shift sbi = clust_shift sbi + sector_shift).
Context (sector_min : 0 <= sector_shift) (clust_min : 0 <= clust_shift sbi).
Context (s rest : list Z) (name_chars : chars s).
(** The entries of the blocks of the volume that belong to the index. *)
Context (node : Z -> list dir_entry).

Abbreviation BLOCK_SIZE := (2 ^ block_shift).
Abbreviation cluster_size := (2 ^ clust_byte_shift sbi).
Abbreviation dname := (s ++ 0 :: rest).

Definition index_block (b : Z) : Prop :=
  exists l flags, ntfs_fixups_writeback (2 ^ sector_shift) (cdata b) = Ok l /\ magic l = Ok NTFS_MAGIC_INDX /\
    index_node (Buffer stack_addr l) 24 (node b) flags.

(** The clusters in a block. *)
Definition step : Z := 2 ^ (block_shift - clust_byte_shift sbi).

(** The blocks of a run. *)
Definition run_first (r : run_spec) : Z := n_lcn r * cluster_size / BLOCK_SIZE.
Definition run_count (r : run_spec) : Z := (n_len r + step - 1) / step.
Definition run_blocks (r : run_spec) : list Z := seqZ (run_first r) (run_count r).

(** A run starts with a block and is on the volume, and its blocks are nodes
    with less than [fuel] entries. *)
Definition run_on_disk (fuel : nat) (r : run_spec) : Prop :=
  (BLOCK_SIZE | n_lcn r * cluster_size) /\ 0 < n_lcn r /\ 0 <= n_len r /\
  (n_lcn r + n_len r) * cluster_size + BLOCK_SIZE < 2 ^ 63 /\ (Z.to_nat (run_count r) < fuel)%nat /\
  Forall (fun b => index_block b /\ (length (node b) < fuel)%nat) (run_blocks r).

Definition run_outcome (es : list dir_entry) (r : option search_result) : Prop :=
  match List.find (same_name s) es with
  | Some e => exists ie, r = Some (Found ie) /\ entry_is ie e
  | None => r = None
  end.

Definition search_outcome (es : list dir_entry) (r : search_result) : Prop :=
  match List.find (same_name s) es with
  | Some e => exists ie, r = Found ie /\ entry_is ie e
  | None => r = NotFound
  end.

Lemma step_pos : 0 < step.
Proof. apply Z.pow_pos_nonneg; lia. Qed.

Lemma step_size : step * cluster_size = BLOCK_SIZE.
Proof. unfold step. symmetry. apply pow_split. lia. Qed.

Lemma vcn_step_ok : vcn_step block_shift sbi = Ok step.
Proof.
  unfold vcn_step. rewrite decide_True by lia. f_equal. rewrite <- step_size.
  apply Z.div_mul. pose proof (Z.pow_pos_nonneg 2 (clust_byte_shift sbi)). lia.
Qed.

Lemma index_blk_ok r j : (BLOCK_SIZE | n_lcn r * cluster_size) -> 0 < n_lcn r -> 0 <= j ->
  (n_lcn r + j * step) * cluster_size < 2 ^ 63 ->
  index_blk block_shift sector_shift sbi (n_lcn r) (j * step) = run_first r + j /\ 0 <= run_first r /\
  (run_first r + j) * BLOCK_SIZE < 2 ^ 63.
Proof.
  intros [b Hb] Hl Hj Hr. pose proof step_pos. pose proof step_size as Hs.
  pose proof (Z.pow_pos_nonneg 2 (clust_byte_shift sbi)) as Hc. pose proof (Z.pow_pos_nonneg 2 block_shift) as HB.
  pose proof (Z.pow_pos_nonneg 2 (clust_shift sbi)). pose proof (Z.pow_pos_nonneg 2 sector_shift).
  assert (cluster_size = 2 ^ clust_shift sbi * 2 ^ sector_shift) as Ec by (rewrite cluster_eq; apply Z.pow_add_r; lia).
  unfold run_first. rewrite Hb, Z.div_mul by lia.
  assert ((n_lcn r + j * step) * cluster_size = (b + j) * BLOCK_SIZE) as E by (rewrite <- Hs in *; lia).
  assert (0 <= n_lcn r + j * step) by nia.
  change (2 ^ 63) with 0x8000000000000000 in *.
  assert (n_lcn r + j * step <= (n_lcn r + j * step) * 2 ^ clust_shift sbi) by nia.
  assert ((n_lcn r + j * step) * 2 ^ clust_shift sbi <= (n_lcn r + j * step) * cluster_size) by (rewrite Ec; nia).
  split; [|split; [nia|lia]]. unfold index_blk. rewrite !shiftl_mul by lia.
  rewrite (s64_small (n_lcn r + j * step)) by lia.
  rewrite (s64_small (_ * 2 ^ clust_shift sbi)) by lia.
  rewrite <- Z.mul_assoc, <- Ec, (s64_small (_ * cluster_size)), E, shiftr_div, Z.div_mul by lia.
  rewrite u64_small by nia. done.
Qed.

Lemma read_index_ok fuel c b lcn :
  cinv c -> index_block b -> 0 <= b < u64 (-1) -> 0 <= lcn * cluster_size < 2 ^ 63 ->
  (BLOCK_SIZE | lcn * cluster_size) ->
  exists c' l flags, cinv c' /\ read_index block_shift sector_shift stack_addr fuel sbi c b lcn =
      Ok (c', Some (Buffer stack_addr l)) /\ index_node (Buffer stack_addr l) 24 (node b) flags.
Proof.
  intros Hc (l & flags & Hf & Hm & Hn) Hb Hr Hd. pose proof (Z.pow_pos_nonneg 2 block_shift) as HB.
  assert (u64 (Z.shiftl lcn (clust_byte_shift sbi)) mod BLOCK_SIZE = 0) as Eo.
  { rewrite shiftl_mul by lia. change (2 ^ 63) with 0x8000000000000000 in *. rewrite u64_small by lia.
    by apply Z.mod_divide; [lia|]. }
  destruct (ntfs_read_ok block_shift shift_range csize_eq fuel sbi c BLOCK_SIZE BLOCK_SIZE b 0 lcn)
    as (c' & Hc' & E); [done|done|lia|lia|cbv zeta; rewrite decide_True, Eo by done; lia|].
  rewrite decide_True, Eo in E by done.
  exists c', l, flags. split; [done|]. split; [|done].
  unfold read_index. rewrite E. cbn [mbind result_bind rr_buf].
  assert (sub (cdata b) 0 (Z.to_nat BLOCK_SIZE) = cdata b) as ->.
  { unfold sub. rewrite drop_0. apply take_ge. pose proof (cdata_length b). lia. }
  rewrite Hf. cbn [mbind result_bind]. rewrite Hm. cbn [mbind result_bind]. by rewrite decide_False by tauto.
Qed.

Lemma block_loop fuel0 chunk r : run_on_disk fuel0 r -> c_lcn chunk = n_lcn r -> c_len chunk = n_len r ->
  forall m j fuel c, cinv c -> 0 <= j -> j + Z.of_nat m = run_count r -> (m < fuel)%nat ->
  exists c' o, cinv c' /\
    loop fuel (index_block_step block_shift sector_shift stack_addr fuel0 sbi dname chunk) (c, j * step) = Ok (c', o) /\
    run_outcome (concat (node <$> seqZ (run_first r + j) (Z.of_nat m))) o.
Proof.
  intros (Hd & Hl & Hn & Hr & _ & Hall) El En. induction m as [|m IH]; intros j fuel c Hc Hj Hm Hfuel;
    (destruct fuel as [|fuel]; [lia|]); pose proof step_pos as Hsp; pose proof step_size as Hss;
    pose proof (Z.pow_pos_nonneg 2 (clust_byte_shift sbi) ltac:(lia) ltac:(lia)) as Hcs;
    pose proof (Z.div_mod (n_len r + step - 1) step ltac:(lia)) as Hdm;
    pose proof (Z.mod_pos_bound (n_len r + step - 1) step Hsp) as Hmb; fold (run_count r) in Hdm;
    change (2 ^ 63) with 0x8000000000000000 in *.
  - exists c, None. split; [done|]. split; [|done]. apply loop_break. unfold index_block_step.
    assert (j * step < 0x8000000000000000) by nia. rewrite u64_small by nia. rewrite decide_False by nia. done.
  - assert (j * step < n_len r) as Hlt by nia.
    assert ((n_lcn r + j * step) * cluster_size < 0x8000000000000000) as Hrj by nia.
    destruct (index_blk_ok r j Hd Hl Hj Hrj) as (Eb & Hf0 & Hbr).
    change (2 ^ 63) with 0x8000000000000000 in *. pose proof (Z.pow_pos_nonneg 2 block_shift ltac:(lia) ltac:(lia)) as HB.
    rewrite Forall_forall in Hall.
    destruct (Hall (run_first r + j)) as [Hib Hlen]; [apply elem_of_seqZ; lia|].
    destruct (read_index_ok fuel0 c (run_first r + j) (n_lcn r + j * step)) as (c' & l & flags & Hc' & Eri & Hnode);
      [done|done|change (u64 (-1)) with 0xffffffffffffffff; nia|change (2 ^ 63) with 0x8000000000000000; nia| |].
    { rewrite Z.mul_add_distr_r, <- Z.mul_assoc, Hss. apply Z.divide_add_r; [done|]. by exists j. }
    destruct (scan_entries_ok s rest _ _ _ _ fuel0 name_chars Hnode Hlen) as (o & Eo & Ho).
    assert (n_lcn r + j * step <= (n_lcn r + j * step) * cluster_size) by nia.
    assert (index_block_step block_shift sector_shift stack_addr fuel0 sbi dname chunk (c, j * step) =
      Ok (match o with Match ie => Break (c', Some (Found ie)) | Corrupt => Break (c', Some NotFound)
          | Last _ => Continue (c', (j + 1) * step) end)) as Estep.
    { unfold index_block_step. rewrite u64_small, decide_True, El, Eb by nia.
      rewrite u64_small by nia. rewrite Eri. cbn [mbind result_bind].
      change (block_index (Ptr (Buffer stack_addr l) 0)) with (Ptr (Buffer stack_addr l) 24).
      rewrite Eo. cbn [mbind result_bind]. destruct o; [done| |done].
      rewrite vcn_step_ok. cbn [mbind result_bind]. rewrite s64_small by nia. do 3 f_equal. lia. }
    rewrite Nat2Z.inj_succ, <- Z.add_1_l, seqZ_app by lia. change (seqZ (run_first r + j) 1) with [run_first r + j].
    cbn [fmap list_fmap app concat]. unfold run_outcome. rewrite find_app_l.
    unfold scan_outcome in Ho. destruct (List.find (same_name s) (node (run_first r + j))) as [e|].
    + destruct Ho as (p & -> & He). exists c', (Some (Found (Ptr (Buffer stack_addr l) p))).
      split; [done|]. split; [by apply loop_break|eauto].
    + destruct Ho as (p & -> & _). rewrite (loop_continue _ _ _ _ Estep).
      destruct (IH (j + 1) fuel c' Hc' ltac:(lia) ltac:(lia) ltac:(lia)) as (c2 & o2 & H2 & E2 & Ho2).
      exists c2, o2. split; [done|]. split; [done|]. by rewrite Z.add_assoc in Ho2.
Qed.

(** All the blocks of the index, in the order of the runs. *)
Definition index_blocks (rs : list run_spec) : list Z := concat (run_blocks <$> rs).
Definition index_entries (rs : list run_spec) : list dir_entry := concat (node <$> index_blocks rs).

Lemma run_loop fuel0 stream n : in_memory stream n -> forall rs fuel offset chunk c,
  has_bytes (b_bytes (p_buf stream)) (p_off stream + offset) (encode_runs (c_lcn chunk) rs) ->
  0 <= offset -> offset + Z.of_nat (length (encode_runs (c_lcn chunk) rs)) <= n ->
  map_flags (c_flags chunk) -> runs_ok (c_lcn chunk) rs -> Forall (run_on_disk fuel0) rs ->
  cinv c -> (length rs < fuel)%nat ->
  exists c' o, cinv c' /\
    loop fuel (index_run_step block_shift sector_shift stack_addr fuel0 sbi dname stream (padd stream n))
      (c, offset, chunk) = Ok (c', o) /\ search_outcome (index_entries rs) o.
Proof.
  intros Hm. induction rs as [|r rs IH]; intros fuel offset chunk c Hb Ho Hn Hf Hok Hd Hc Hfuel;
    (destruct fuel as [|fuel]; [simpl in Hfuel; lia|]).
  - exists c, NotFound. split; [done|]. split; [|done]. apply loop_break. unfold index_run_step. cbn [encode_runs length] in *.
    by rewrite (parse_end _ _ n) by (done || lia).
  - cbn [encode_runs] in *. rewrite length_app in Hn. apply has_bytes_app in Hb as [Hb1 Hb2]. destruct Hok as [Hr Hok].
    apply Forall_cons in Hd as [Hd Hds].
    pose proof (parse_run stream offset n chunk r Hb1 Hm Ho ltac:(lia) Hf Hr) as E.
    set (f := if decide (offset = 0) then 5 else 4) in E.
    assert (f = 4 \/ f = 5) as Hf' by (unfold f; case_decide; auto).
    destruct (block_loop fuel0 (Chunk (c_vcn chunk) (n_lcn r) (n_len r) f) r Hd eq_refl eq_refl
                (Z.to_nat (run_count r)) 0 fuel0 c Hc ltac:(lia)) as (c' & o & Hc' & El & Hout).
    { rewrite Z2Nat.id; [lia|]. destruct Hd as (_ & _ & ? & _). pose proof step_pos. apply Z.div_pos; lia. }
    { destruct Hd as (_ & _ & _ & _ & ? & _). lia. }
    rewrite Z.mul_0_l in El. rewrite Z.add_0_r, Z2Nat.id in Hout
      by (destruct Hd as (_ & _ & ? & _); pose proof step_pos; apply Z.div_pos; lia).
    assert (index_run_step block_shift sector_shift stack_addr fuel0 sbi dname stream (padd stream n) (c, offset, chunk) =
      Ok (match o with Some o => Break (c', o) | None =>
        Continue (c', offset + Z.of_nat (length (encode_run (c_lcn chunk) r)), Chunk (c_vcn chunk) (n_lcn r) (n_len r) f) end)) as Estep.
    { unfold index_run_step. rewrite E. cbn [mbind result_bind].
      assert (has_flag (Chunk (c_vcn chunk) (n_lcn r) (n_len r) f) MAP_UNALLOCATED = false) as -> by by destruct Hf' as [-> | ->].
      assert (has_flag (Chunk (c_vcn chunk) (n_lcn r) (n_len r) f) MAP_ALLOCATED = true) as -> by by destruct Hf' as [-> | ->].
      rewrite El. cbn [mbind result_bind]. by destruct o. }
    unfold search_outcome, index_entries, index_blocks. cbn [fmap list_fmap concat]. rewrite fmap_app, concat_app, find_app_l.
    unfold run_outcome in Hout. unfold run_blocks at 1. destruct (List.find (same_name s) (concat (node <$> _))) as [e|] eqn:Ef.
    + destruct Hout as (ie & -> & He). exists c', (Found ie). split; [done|]. split; [by apply loop_break|eauto].
    + subst o. rewrite (loop_continue _ _ _ _ Estep). apply IH; cbn [c_lcn c_flags]; try done; try lia.
      * by rewrite Z.add_assoc.
      * unfold map_flags. tauto.
      * simpl in Hfuel. lia.
Qed.

(** ** The directory *)

(** The root has the entries [es]; if its last entry says that there are
    blocks, their runs are [rs]. *)
Record directory (fuel : nat) (mrec : buffer) (es : list dir_entry) (rs : list run_spec) : Prop := {
  d_root : exists k ir o flags, record_attr NTFS_AT_INDEX_ROOT k mrec ir /\ (k < fuel)%nat /\
    value_offset ir = Ok o /\ index_node mrec (p_off ir + o + 16) es flags /\ (length es < fuel)%nat /\
    (Z.land flags INDEX_ENTRY_NODE = 0 <-> rs = []);
  d_blocks : rs <> [] -> exists k ia nr n o, record_attr NTFS_AT_INDEX_ALLOCATION k mrec ia /\ (k < fuel)%nat /\
    attr_non_resident ia = Ok nr /\ nr <> 0 /\ attr_len ia = Ok n /\ mapping_pairs_offset ia = Ok o /\ 0 <= o /\
    has_bytes (b_bytes mrec) (p_off ia + o) (encode_runs 0 rs) /\ runs_ok 0 rs /\ in_memory ia n /\
    o + Z.of_nat (length (encode_runs 0 rs)) <= n /\ (length rs < fuel)%nat /\ Forall (run_on_disk fuel) rs }.

Lemma search_blocks_ok fuel st mrec es rs :
  directory fuel mrec es rs -> rs <> [] -> cinv (cache st) ->
  exists c' r, cinv c' /\
    search_blocks block_shift sector_shift malloc_addr stack_addr fuel sbi st dname mrec = Ok (set_cache st c', r) /\
    search_outcome (index_entries rs) r.
Proof.
  intros [_ Hb] Hrs Hc. destruct (Hb Hrs) as (k & ia & nr & n & o & Ha & Hk & Hnr & Hnr0 & Hn & Hmp & Ho & Hby & Hok & Hm & Hle & Hl & Hd).
  unfold search_blocks. rewrite (attr_lookup_ok _ _ _ _ _ _ _ _ k _ ia) by done. cbn [mbind result_bind].
  rewrite Hnr. cbn [mbind result_bind]. rewrite decide_False, Hn by done. cbn [mbind result_bind].
  unfold mapping_chunk_init. rewrite Hmp. cbn [mbind result_bind].
  destruct Hm as (Hm1 & Hm2 & Hm3).
  destruct (run_loop fuel (padd ia o) (n - o)) with (rs := rs) (fuel := fuel) (offset := 0) (chunk := Chunk 0 0 0 0)
    (c := cache st) as (c' & r & Hc' & E & Hout); try done; try lia.
  - unfold in_memory, padd. cbn. lia.
  - cbn. rewrite Z.add_0_r. by rewrite (record_attr_buf _ _ _ _ Ha).
  - cbn. lia.
  - by left.
  - exists c', r. split; [done|]. split; [|done].
    replace (padd (padd ia o) (n - o)) with (padd ia n) in E by (unfold padd; cbn; f_equal; lia).
    by rewrite E.
Qed.

Lemma search_index_ok fuel st mrec es rs :
  directory fuel mrec es rs -> cinv (cache st) ->
  exists c' r, cinv c' /\
    search_index block_shift sector_shift malloc_addr stack_addr fuel sbi st dname mrec = Ok (set_cache st c', r) /\
    search_outcome (es ++ index_entries rs) r.
Proof.
  intros Hd Hc. assert (set_cache st (cache st) = st) as Est by by destruct st.
  destruct (d_root _ _ _ _ Hd) as (k & ir & o & flags & Ha & Hk & Ho & Hn & Hl & Hrs).
  unfold search_index. rewrite (attr_lookup_ok _ _ _ _ _ _ _ _ k _ ir) by done. cbn [mbind result_bind].
  rewrite Ho. cbn [mbind result_bind].
  assert (root_index (padd ir o) = Ptr mrec (p_off ir + o + 16)) as ->.
  { unfold root_index, padd. cbn. by rewrite (record_attr_buf _ _ _ _ Ha). }
  destruct (scan_entries_ok s rest mrec _ es flags fuel name_chars Hn Hl) as (r & Er & Hout).
  rewrite Er. cbn [mbind result_bind]. unfold search_outcome, scan_outcome in *. rewrite find_app_l.
  destruct (List.find (same_name s) es) as [e|].
  - destruct Hout as (p & -> & He). exists (cache st), (Found (Ptr mrec p)). rewrite Est. eauto.
  - destruct Hout as (p & -> & Hf). rewrite Hf. cbn [mbind result_bind].
    destruct (decide (rs = [])) as [Hrs0|Hrs0].
    + exists (cache st), NotFound. rewrite Est, decide_True by by apply Hrs. by rewrite Hrs0.
    + rewrite decide_False by (rewrite Hrs; done). by apply (search_blocks_ok _ _ _ es).
Qed.

(** C24. The lookup of a name in a directory: the inode of the first entry, among
    those of the root and then those of the blocks in the order of the runs,
    that has the name; nothing if there is none. *)
Theorem ntfs_index_lookup_finds fuel st dir k rec es rs :
  mft_geometry block_shift sbi k -> cinv (cache st) -> 0 <= mft_no dir -> mft_no dir * 2 ^ k < 0x100000000 ->
  ntfs_fixups_writeback (2 ^ sector_shift) (record_bytes block_shift sbi k (mft_no dir)) = Ok rec ->
  record_found (mft_record_lookup sbi) (mft_no dir) rec = Ok true ->
  let b := Buffer (malloc_addr (live st) (2 ^ k)) rec in
  directory fuel b es rs ->
  exists c', cinv c' /\
    let st' := malloc (set_cache st c') b in
    ntfs_index_lookup block_shift sector_shift malloc_addr stack_addr fuel sbi st dname dir =
      match List.find (same_name s) (es ++ index_entries rs) with
      | Some e =>
          '(st2, i) ← index_inode_setup block_shift sector_shift malloc_addr stack_addr fuel sbi st'
                        (u32 (de_file e)) new_ntfs_inode;
          Ok (free st2 b, i)
      | None => Ok (free st' b, None)
      end.
Proof.
  intros Hg Hc Hno Hpos Hfix Hfound b Hd.
  assert (0 < fuel)%nat as Hfuel by (destruct (d_root _ _ _ _ Hd) as (? & ? & ? & ? & _ & ? & _); lia).
  destruct (mft_lookup_first block_shift sector_shift malloc_addr shift_range csize_eq fuel (mft_record_lookup sbi) sbi k st
              (mft_no dir) rec Hg Hc Hno Hpos Hfuel Hfix Hfound) as (c1 & Hc1 & E1).
  fold b in E1. destruct (search_index_ok fuel (malloc (set_cache st c1) b) b es rs Hd Hc1) as (c2 & r & Hc2 & E2 & Hout).
  exists c2. split; [done|]. cbv zeta. unfold ntfs_index_lookup, record_lookup. rewrite E1. cbn [mbind result_bind].
  rewrite E2. cbn [mbind result_bind]. unfold search_outcome in Hout.
  destruct (List.find (same_name s) (es ++ index_entries rs)) as [e|].
  - destruct Hout as (ie & -> & Hie & _). by rewrite Hie.
  - by rewrite Hout.
Qed.
End Volume.

#[local] Existing Instance demo_cache.

(** ** An example: "b" in the root directory of the small volume *)

Definition demo_entries : list dir_entry := [DirEntry 21 1 [65]].
Definition demo_node (b : Z) : list dir_entry := if decide (b = 50) then [DirEntry (20 + 2 ^ 48) 1 [66]] else [].

Definition demo_buffer : buffer := Buffer (demo_malloc (live demo_state) (2 ^ 10)) demo_root.

Lemma single_name (f : Z -> result Z) (x : Z) : f 0 = Ok x ->
  forall k y, [x] !! k = Some y -> f (Z.of_nat k) = Ok y.
Proof. intros H k y. destruct k as [|k]; [by intros [= <-]|done]. Qed.

Lemma demo_index_node : index_node (Buffer demo_stack demo_index) 24 (demo_node 50) 2.
Proof.
  split_and!; [by_compute..|]. exists 24, 128. split_and!; [reflexivity|reflexivity|by_compute|].
  split_and!; [by_compute..|]. exists 88. split_and!; [reflexivity|by_compute|by_compute|by exists 0|..].
  { split_and!; [reflexivity..|]. by apply single_name. }
  split_and!; [by_compute..|]. exists 16. by split_and!.
Qed.

Lemma demo_root_node : index_node demo_buffer 96 demo_entries 3.
Proof.
  split_and!; [by_compute..|]. exists 16, 120. split_and!; [reflexivity|reflexivity|by_compute|].
  split_and!; [by_compute..|]. exists 88. split_and!; [reflexivity|by_compute|by_compute|by exists 0|..].
  { split_and!; [reflexivity..|]. by apply single_name. }
  split_and!; [by_compute..|]. exists 16. by split_and!.
Qed.

Lemma demo_run_on_disk : run_on_disk 10 9 demo_stack demo_sbi demo_node 20 (RunSpec 1 1 2 100).
Proof.
  split_and!; [by exists 50|by_compute..|]. change (run_blocks 10 demo_sbi (RunSpec 1 1 2 100)) with [50].
  apply Forall_singleton. split; [|by_compute]. exists demo_index, 2.
  split_and!; [by vm_compute|by vm_compute|apply demo_index_node].
Qed.

Lemma demo_directory : directory 10 9 demo_stack demo_sbi demo_node 20 demo_buffer demo_entries demo_dir_runs.
Proof.
  constructor.
  - exists O, (Ptr demo_buffer 56), 24, 3. split_and!; [|lia|reflexivity|apply demo_root_node|by_compute|done].
    split_and!; [done|done|]. exists 56. split; [reflexivity|]. by constructor.
  - intros _. exists 1%nat, (Ptr demo_buffer 216), 1, 68, 64.
    split_and!; [|lia|reflexivity|done|reflexivity|reflexivity|lia|by_compute| |by_compute|by_compute|by_compute|].
    + split_and!; [done|done|]. exists 56. split; [reflexivity|].
      apply attr_next with (ty := NTFS_AT_INDEX_ROOT) (len := 160); [reflexivity|done|done|done|reflexivity|].
      by constructor.
    + constructor; [|done]. split_and!; by_compute.
    + constructor; [apply demo_run_on_disk|done].
Qed.

Abbreviation demo_find :=
  (List.find (same_name [98]) (demo_entries ++ index_entries 10 demo_sbi demo_node demo_dir_runs)).

Lemma demo_finds : demo_find = Some (DirEntry (20 + 2 ^ 48) 1 [66]).
Proof. by vm_compute. Qed.

Lemma demo_rec : ntfs_fixups_writeback (2 ^ 9) (record_bytes 10 demo_sbi 10 (mft_no demo_root_inode)) = Ok demo_root.
Proof. by vm_compute. Qed.

Lemma ntfs_index_lookup_finds_witness :
  demo_find = Some (DirEntry (20 + 2 ^ 48) 1 [66]) /\
  exists c', cinv c' /\
    let st' := malloc (set_cache demo_state c') demo_buffer in
    ntfs_index_lookup 10 9 demo_malloc demo_stack 20 demo_sbi demo_state [98; 0] demo_root_inode =
      match demo_find with
      | Some e =>
          '(st2, i) ← index_inode_setup 10 9 demo_malloc demo_stack 20 demo_sbi st' (u32 (de_file e)) new_ntfs_inode;
          Ok (free st2 demo_buffer, i)
      | None => Ok (free st' demo_buffer, None)
      end.
Proof.
  split; [exact demo_finds|].
  exact (ntfs_index_lookup_finds 10 9 demo_malloc demo_stack ntfs_demo_shift ntfs_demo_csize demo_sbi
    ltac:(simpl; lia) eq_refl ltac:(lia) ltac:(simpl; lia) [98] [] ltac:(by repeat constructor) demo_node 20 demo_state
    demo_root_inode 10 demo_root demo_entries demo_dir_runs ntfs_demo_geometry I ltac:(simpl; lia) ltac:(simpl; lia)
    demo_rec eq_refl demo_directory).
Defined.

End NtfsDirSpec.
