(* ===== verification/NtfsFileSpec.v ===== *)
(** * Files of NTFS: the inode of a file, and reading it

    [index_inode_setup] gives the runs of the record of a file, with the lengths that
    the code reads ([as_read]);
    [ntfs_next_extent], which takes them off the list one by one, is an
    instance of [ExtentFS]; so a read returns the bytes of the clusters. *)

From Stdlib Require Import ZArith Lia.
From S2P Require Import Prelude Dirent CStr Cache BlockCache GetFsSec Runs Ntfs NtfsSpec NtfsDemo.
Import Dirent.Dirent.
Import GetFsSec Runs Ntfs NtfsSpec NtfsDemo.

Module NtfsFileSpec.

(** ** The inode *)

Section Volume.
Context {C : Type} `{BC : !BlockCache C}.
Context (block_shift sector_shift : Z) (malloc_addr : list buffer -> Z -> Z) (stack_addr : Z).
Context (shift_range : 0 <= block_shift < 31) (csize_eq : csize = 2 ^ block_shift).

(** The record of a file whose data are in the runs [rs]. *)
Record file_record (fuel : nat) (mrec : buffer) (seq n : Z) (nr : Z) (rs : list run_spec) : Prop := {
  fr_seq : rec_seq_no (b_bytes mrec) = Ok seq;
  fr_flags : exists f, rec_flags (b_bytes mrec) = Ok f /\ Z.land f MFT_RECORD_IS_DIRECTORY = 0;
  fr_data : exists k a an o, record_attr NTFS_AT_DATA k mrec a /\ (k < fuel)%nat /\
    attr_non_resident a = Ok nr /\ nr <> 0 /\ attr_len a = Ok an /\ attr_type a = Ok NTFS_AT_DATA /\
    initialized_size a = Ok n /\ mapping_pairs_offset a = Ok o /\ 0 <= o /\
    has_bytes (b_bytes mrec) (p_off a + o) (encode_runs 0 rs) /\ in_memory a an /\
    o + Z.of_nat (length (encode_runs 0 rs)) <= an;
  fr_runs : runs_written 0 rs /\ rs <> [] /\ (length rs < fuel)%nat }.

(** C25. The inode of a file that is not in its record: its runs have the LCNs that
    the mapping pairs encode and the lengths that the code reads, with the VCNs added
    up, and the size is the initialized size.  The length that is read is the one that
    is written when each of its bytes is below 0x80 or even; any other byte is read as
    two more than it is.  The runs are those of a file without holes. *)
Theorem index_inode_setup_file fuel sbi k st no i rec seq n nr rs :
  mft_geometry block_shift sbi k -> cinv (cache st) -> 0 <= no -> no * 2 ^ k < 0x100000000 ->
  ntfs_fixups_writeback (2 ^ sector_shift) (record_bytes block_shift sbi k no) = Ok rec ->
  record_found (mft_record_lookup sbi) no rec = Ok true ->
  let b := Buffer (malloc_addr (live st) (2 ^ k)) rec in
  file_record fuel b seq n nr rs ->
  (Forall len_ok rs -> as_read <$> rs = rs) /\
  exists c', cinv c' /\
    index_inode_setup block_shift sector_shift malloc_addr stack_addr fuel sbi st no i =
      Ok (free (malloc (set_cache st c') b) b,
          Some (Inode (dt_value DT_REG) (u32 n) no seq NTFS_AT_DATA nr (NonResident (runs_from 0 (as_read <$> rs)))
                  (u32 (Z.shiftr (record_blk block_shift k no) (clust_shift sbi))) (start i) (record_blk block_shift k no))).
Proof.
  intros Hg Hc Hno Hpos Hfix Hfound b [Hseq (f & Hf & Hdir) Hdata (Hrs & Hne & Hlen)].
  destruct Hdata as (ka & a & an & o & Ha & Hka & Hnr & Hnr0 & Han & Hty & Hn & Hmp & Ho & Hby & Hm & Hle).
  destruct (mft_lookup_first block_shift sector_shift malloc_addr shift_range csize_eq fuel (mft_record_lookup sbi) sbi k st
              no rec Hg Hc Hno Hpos ltac:(lia) Hfix Hfound) as (c' & Hc' & E).
  fold b in E. split; [by apply (as_read_runs 0)|]. exists c'. split; [done|]. unfold index_inode_setup, record_lookup. rewrite E. cbn [mbind result_bind].
  rewrite Hseq. cbn [mbind result_bind]. unfold get_inode_mode. rewrite Hf. cbn [mbind result_bind].
  rewrite (decide_False (P := Z.land f MFT_RECORD_IS_DIRECTORY <> 0)) by tauto. rewrite decide_False by done.
  rewrite (attr_lookup_ok _ _ _ _ _ _ _ _ ka _ a) by done. cbn [mbind result_bind].
  unfold setup_data. rewrite Hnr. cbn [mbind result_bind]. rewrite Hty. cbn [mbind result_bind].
  rewrite decide_False, Han by done. cbn [mbind result_bind].
  destruct (mapping_chunk_init a) as [[[stream chunk] offset]| |] eqn:Einit;
    [|unfold mapping_chunk_init in Einit; by rewrite Hmp in Einit..].
  cbn [mbind result_bind].
  rewrite (collect_runs_reads a o an rs fuel stream chunk offset) by
    (done || (by rewrite (record_attr_buf _ _ _ _ Ha))).
  cbn [mbind result_bind]. assert (runlist_is_empty (runs_from 0 (as_read <$> rs)) = false) as -> by by destruct rs.
  rewrite Hn. done.
Qed.
End Volume.

(** ** The runs as extents *)

Section Read.
Context `{SD : SectorDevice} (block_shift : Z) (sbi : ntfs_sb_info).
Context (cluster_eq : clust_byte_shift sbi = clust_shift sbi + sector_shift) (clust_min : 0 <= clust_shift sbi).
(** The runs of the file and its size. *)
Context (rs : runlist) (sz : Z) (size_ok : 0 <= sz <= 0x100000000 - 2 ^ sector_shift).

(** The sectors in a cluster. *)
Abbreviation spc := (2 ^ clust_shift sbi).

(** A run of clusters as one of sectors. *)
Definition sectors_of (r : runlist_element) : sector_run := SRun (r_lcn r * spc) (r_len r * spc).

Abbreviation sruns := (sectors_of <$> rs).

(** A run on the volume. *)
Definition clusters_wf (r : runlist_element) : Prop :=
  0 < r_len r /\ 0 < r_lcn r /\ (r_lcn r + r_len r) * 2 ^ clust_byte_shift sbi < 2 ^ 63 /\
  forall p, r_lcn r * spc <= p < (r_lcn r + r_len r) * spc -> valid_sector p.

Context (clusters_ok : Forall clusters_wf rs) (total_max : total sruns < 0x100000000).

(** The inode between calls: the runs up to sector [l] are taken off. *)
Definition ntfs_at (i : inode) (l : Z) : Prop :=
  exists before rest, rs = before ++ rest /\ l = total (sectors_of <$> before) /\ non_resident i <> 0 /\
    data i = NonResident rest /\ (before <> [] -> here i <= l).

Lemma spc_pos : 0 < spc.
Proof. by apply Z.pow_pos_nonneg. Qed.

Lemma sectors_of_wf r : clusters_wf r -> run_wf (sectors_of r).
Proof.
  intros (Hl & Hc & Hb & Hv). pose proof spc_pos. pose proof sector_shift_range.
  rewrite cluster_eq, Z.pow_add_r in Hb by lia. pose proof (Z.pow_pos_nonneg 2 sector_shift).
  change (2 ^ 63) with 0x8000000000000000 in *.
  assert ((r_lcn r + r_len r) * spc <= (r_lcn r + r_len r) * (spc * 2 ^ sector_shift)) by nia.
  unfold run_wf. cbn [sectors_of sr_first sr_count]. change (2 ^ 63) with 0x8000000000000000. splits; try nia.
  intros p Hp. apply Hv. lia.
Qed.

Lemma sruns_wf : Forall run_wf sruns.
Proof. apply Forall_fmap. eapply Forall_impl; [exact clusters_ok|]. apply sectors_of_wf. Qed.

Lemma ntfs_map_valid l p : runs_map sruns l = Some p -> p = EXTENT_ZERO \/ valid_sector p.
Proof. intros H. right. by apply (runs_map_valid sruns l), H; apply sruns_wf. Qed.

(** The arithmetic of the shifts. *)
Lemma run_shifts r : clusters_wf r -> sr_count (sectors_of r) < 0x100000000 ->
  Z.shiftr (bytes_of_clusters sbi (r_len r)) sector_shift = sr_count (sectors_of r) /\
  u32 (Z.shiftr (u64 (bytes_of_clusters sbi (r_len r) + 2 ^ sector_shift - 1)) sector_shift) = sr_count (sectors_of r) /\
  u64 (s64 (Z.shiftl (r_lcn r) (clust_shift sbi))) = sr_first (sectors_of r).
Proof.
  intros (Hl & Hc & Hb & _) Hs. pose proof sector_shift_range as Hss. pose proof spc_pos as Hspc.
  assert (0 < 2 ^ sector_shift) as Hp by (apply Z.pow_pos_nonneg; lia).
  rewrite cluster_eq, Z.pow_add_r in Hb by lia. unfold bytes_of_clusters. rewrite cluster_eq.
  rewrite !shiftl_mul, Z.pow_add_r by lia. change (2 ^ 63) with 0x8000000000000000 in *.
  set (w := 2 ^ sector_shift) in *. cbn [sectors_of sr_count sr_first] in *.
  assert (w <= 0x10000) by (unfold w; change 0x10000 with (2 ^ 16); apply Z.pow_le_mono_r; lia).
  assert (r_len r * (spc * w) = r_len r * spc * w) as E by lia. rewrite E.
  assert (0 < spc * w) as Hsw by nia.
  assert (r_lcn r * (spc * w) + r_len r * (spc * w) < 0x8000000000000000) as Hb' by lia.
  assert (0 < r_lcn r * (spc * w) /\ 0 < r_len r * (spc * w)) as [Hc1 Hl1] by nia.
  assert (w <= r_len r * spc * w) by nia.
  assert (0 <= r_len r * spc * w < 0x8000000000000000) as Hr by lia.
  rewrite !(u64_small (r_len r * spc * w)) by lia. rewrite (u64_small (_ - 1)) by lia.
  rewrite !shiftr_div by lia. fold w.
  assert ((r_len r * spc * w + w - 1) / w = r_len r * spc) as ->.
  { symmetry. apply (Z.div_unique_pos _ _ _ (w - 1)); lia. }
  rewrite Z.div_mul, u32_small by nia.
  assert (r_lcn r * spc <= r_lcn r * spc * w) by nia. assert (0 < r_lcn r * spc) by nia.
  rewrite s64_small, u64_small by nia. done.
Qed.

Lemma ntfs_law i e l : ntfs_at i l -> 0 <= l ->
  exists i' e' err, ntfs_next_extent block_shift sector_shift sbi i e l = Ok (i', e', err) /\
    if err || bool_decide (len e' = 0) then runs_map sruns l = None /\ ntfs_at i' l
    else extent_maps (runs_map sruns) (Extent (pstart e') l (len e')) /\ ntfs_at i' (l + len e').
Proof.
  intros (before & rest & Hrs & Hl & Hnr & Hd & Hh) Hl0.
  pose proof sruns_wf as Hwf. pose proof total_max as Ht. rewrite Hrs, fmap_app in *.
  unfold ntfs_next_extent. rewrite decide_False, Hd by done.
  assert (l = 0 \/ l >= here i) as Hpos.
  { destruct before; [by left|right]. apply Z.le_ge, Hh. done. }
  rewrite decide_True by done. destruct rest as [|r rest]; cbn [runlist_remove].
  - do 3 eexists. split; [reflexivity|]. cbn [orb]. split.
    + apply Forall_app in Hwf as [Hb _]. pose proof (runs_map_app _ [] 0 Hb ltac:(lia)) as E. rewrite Z.add_0_r in E. rewrite Hl. exact E.
    + exists before, []. by rewrite Hrs.
  - pose proof (runs_extent _ _ _ Hwf Ht) as Hext. cbn [fmap list_fmap] in Hwf, Ht. rewrite total_app in Ht. cbn [total] in Ht.
    apply Forall_app in Hwf as [Hb [Hr Hrest]%Forall_cons].
    pose proof (total_nonneg _ Hrest). pose proof (total_nonneg _ Hb).
    assert (clusters_wf r) as Hcr by (pose proof clusters_ok as H'; apply Forall_app in H' as [_ [H' _]%Forall_cons]; done).
    destruct (run_shifts r Hcr ltac:(lia)) as (E1 & E2 & E3). rewrite E1, E2, E3.
    do 3 eexists. split; [reflexivity|]. cbn [orb len pstart]. pose proof (proj1 Hr). rewrite bool_decide_false by lia. split.
    + rewrite Hl. exact Hext.
    + exists (before ++ [r]), rest. cbn [data non_resident here]. rewrite <- app_assoc, fmap_app, total_app. cbn [total fmap list_fmap].
      splits; try done; try lia.
  intros _. cbn. lia.
Qed.

#[export] Instance ntfs_fs : ExtentFS inode := {|
  extent_ops := {| next_extent := ntfs_next_extent block_shift sector_shift sbi; inode_size := sz |};
  fs_at := ntfs_at;
  inode_size_range := size_ok; sector_map := runs_map sruns; sector_map_valid := ntfs_map_valid;
  GetFsSec.next_extent_ok := fun i e l H _ H0 _ => ntfs_law i e l H H0 |}.

(** The contents of the clusters of the runs, and of the file. *)
Definition ntfs_contents : list Z := take (Z.to_nat sz) (contents sruns).

Context (covered : sz <= total sruns * 2 ^ sector_shift).

(** The state can always go on from somewhere. *)
Lemma inode_non_resident f : ReadFile.inode_ok f -> non_resident (ReadFile.pvt f) <> 0.
Proof.
  intros (_ & (_ & H & Hn) & Hs). destruct (decide (len (ReadFile.next_ext f) = 0)) as [E|E].
  - destruct (Hs (or_introl E)) as (? & ? & _ & _ & ? & _). done.
  - destruct Hn as [_ (? & ? & _ & _ & ? & _)]; [lia|done].
Qed.

Lemma tail_runs {C} `{BC : !BlockCache C} bs ss ma sa fuel (st : state C) i buf ret : non_resident i <> 0 ->
  getfssec_tail bs ss ma sa fuel sbi st i buf ret = Ok (st, buf, ret).
Proof. intros H. unfold getfssec_tail. rewrite (decide_False (P := non_resident i = 0)) by done. by case_decide. Qed.

(** C23. Reading a file of an NTFS volume returns the bytes of the clusters of its
    runs, in order and cut at the size of the file. *)
Theorem ntfs_reads_file {C} `{BC : !BlockCache C} malloc_addr stack_addr (st : state C) (f : ReadFile.inode)
    (offset sectors : Z) (buf : list Z) (fuel : nat) :
  ReadFile.call_ok f offset sectors buf -> (Z.to_nat (sectors + 1) < fuel)%nat ->
  let n := Z.min (sectors * 2 ^ sector_shift) (sz - offset) in
  exists f' buf' more,
    ntfs_getfssec block_shift malloc_addr stack_addr fuel sbi st f offset buf sectors =
      Ok (st, f', buf', offset + n, more, n) /\
    ReadFile.inode_ok f' /\ length buf' = length buf /\
    take (Z.to_nat n) buf' = take (Z.to_nat n) (drop (Z.to_nat offset) ntfs_contents).
Proof.
  intros Hc Hf n. destruct (runs_read (FS := ntfs_fs) sruns eq_refl sruns_wf covered fuel f offset sectors buf Hc Hf) as (f' & buf' & more & E & Hi & Hd).
  exists f', buf', more. unfold ntfs_getfssec. rewrite E. cbn [mbind result_bind].
  rewrite tail_runs by by apply inode_non_resident. by split.
Qed.
End Read.

(** ** An example: the file "b" of the small volume *)

#[local] Existing Instance demo_cache.

Definition demo_buf : buffer := Buffer (demo_malloc (live demo_state) (2 ^ 10)) demo_file.

Lemma demo_file_record : file_record 20 demo_buf 1 1900 1 demo_file_runs.
Proof.
  constructor; [reflexivity| | |].
  - exists 1. by vm_compute.
  - exists O, (Ptr demo_buf 56), 71, 64. split_and!; try by_compute; try reflexivity.
    split_and!; [done|done|]. exists 56. split; [reflexivity|by constructor].
  - split; [|split; [done|by_compute]]. split_and!; by_compute.
Qed.

Lemma demo_file_rec : ntfs_fixups_writeback (2 ^ 9) (record_bytes 10 demo_sbi 10 20) = Ok demo_file.
Proof. by vm_compute. Qed.

Lemma index_inode_setup_file_witness :
  (Forall len_ok demo_file_runs -> as_read <$> demo_file_runs = demo_file_runs) /\
  exists c', cinv c' /\
    index_inode_setup 10 9 demo_malloc demo_stack 20 demo_sbi demo_state 20 new_ntfs_inode =
      Ok (free (malloc (set_cache demo_state c') demo_buf) demo_buf,
          Some (Inode (dt_value DT_REG) (u32 1900) 20 1 NTFS_AT_DATA 1 (NonResident (runs_from 0 (as_read <$> demo_file_runs)))
                  (u32 (Z.shiftr (record_blk 10 10 20) (clust_shift demo_sbi))) 0 (record_blk 10 10 20))).
Proof.
  exact (index_inode_setup_file 10 9 demo_malloc demo_stack ntfs_demo_shift ntfs_demo_csize 20 demo_sbi 10 demo_state 20
    new_ntfs_inode demo_file 1 1900 1 demo_file_runs ntfs_demo_geometry I ltac:(simpl; lia) ltac:(simpl; lia)
    demo_file_rec eq_refl demo_file_record).
Defined.

#[local] Instance demo_ntfs_device : SectorDevice.
Proof.
  refine {| sector_shift := 9; disk_sector p := replicate 512 (p mod 256); valid_sector _ := True;
            rdwr_sectors start count old := concat ((fun p => replicate 512 (p mod 256)) <$> seqZ start count) |}; [lia| |done].
  intros p. by rewrite length_replicate.
Defined.

Lemma demo_cluster : clust_byte_shift demo_sbi = clust_shift demo_sbi + sector_shift.
Proof. done. Qed.

Lemma demo_runs_wf : Forall (clusters_wf demo_sbi) (runs_from 0 demo_file_runs).
Proof. repeat constructor; by_compute. Qed.

Lemma ntfs_demo_size : 0 <= 1900 <= 0x100000000 - 2 ^ sector_shift.
Proof. simpl. lia. Qed.

Lemma demo_total : total (sectors_of demo_sbi <$> runs_from 0 demo_file_runs) < 0x100000000.
Proof. by_compute. Qed.

Definition demo_inode : inode :=
  Inode 8 1900 20 1 NTFS_AT_DATA 1 (NonResident (runs_from 0 demo_file_runs)) 20 0 20.

Definition demo_open : ReadFile.inode := ReadFile.Inode (Extent 0 0 0) (Extent 0 0 0) demo_inode.

Abbreviation demo_fs := (ntfs_fs 10 demo_sbi demo_cluster (Z.le_refl 0) (runs_from 0 demo_file_runs) 1900 ntfs_demo_size
  demo_runs_wf demo_total).

Lemma ntfs_demo_at : fs_at (ExtentFS := demo_fs) demo_inode 0.
Proof. exists [], (runs_from 0 demo_file_runs). by split_and!. Qed.

Lemma ntfs_reads_file_witness :
  exists f' buf' more,
    ntfs_getfssec (EO := extent_ops (ExtentFS := demo_fs)) 10 demo_malloc demo_stack 10 demo_sbi demo_state demo_open 0 (replicate 2048 255) 4 =
      Ok (demo_state, f', buf', 1900, more, 1900) /\
    ReadFile.inode_ok (FS := demo_fs) f' /\ length buf' = 2048%nat /\
    take (Z.to_nat 1900) buf' =
      take (Z.to_nat 1900) (drop (Z.to_nat 0) (ntfs_contents demo_sbi (runs_from 0 demo_file_runs) 1900)).
Proof.
  apply (ntfs_reads_file 10 demo_sbi demo_cluster (Z.le_refl 0) (runs_from 0 demo_file_runs) 1900 ntfs_demo_size
    demo_runs_wf demo_total ltac:(by_compute) demo_malloc demo_stack demo_state demo_open 0 4 (replicate 2048 255) 10); [|lia].
  constructor; [| |lia|simpl; lia|by exists 0|by vm_compute|by vm_compute].
  - unfold ReadFile.inode_ok. simpl. splits; try done; try lia. intros _. exact ntfs_demo_at.
  - left. exact ntfs_demo_at.
Defined.

End NtfsFileSpec.
