(* ===== verification/LoadHigh.v ===== *)
(** * Loading a file to high memory (libcore/fs/loadhigh.c)

    [pm_load_high] reads a file piece by piece to an address, until the count is
    reached, the file ends, or the memory up to a limit is full.  What it needs
    of the file is the class [FileReader]; any file system with [ExtentFS] whose
    file is mapped is an instance. *)

From Stdlib Require Import ZArith Lia.
From S2P Require Import Prelude GetFsSec.

(** ** What the loader needs of a file

    [fr_at f pos] says that the next read of the file [f] starts at byte [pos];
    a read is into the memory from a pointer on, and gives the new file, the
    memory, [*have_more] if it is set, and the number of bytes. *)
Class FileReader (F : Type) := {
  fr_shift : Z;
  fr_shift_range : 0 <= fr_shift <= 16;
  fr_getfssec : F -> list Z -> Z -> result (F * list Z * option bool * Z);
  fr_close : F -> F;
  fr_at : F -> Z -> Prop;
  fr_bytes : list Z;
  fr_ok f pos buf sectors :
    fr_at f pos -> 0 <= pos < Z.of_nat (length fr_bytes) -> (2 ^ fr_shift | pos) ->
    0 < sectors -> sectors * 2 ^ fr_shift < 0x80000000 -> sectors * 2 ^ fr_shift <= Z.of_nat (length buf) ->
    let n := Z.min (sectors * 2 ^ fr_shift) (Z.of_nat (length fr_bytes) - pos) in
    exists f' buf',
      fr_getfssec f buf sectors = Ok (f', buf', Some (bool_decide (pos + n < Z.of_nat (length fr_bytes))), n) /\
      fr_at f' (pos + n) /\ length buf' = length buf /\
      take (Z.to_nat n) buf' = take (Z.to_nat n) (drop (Z.to_nat pos) fr_bytes) }.

Module LoadHigh.

(** 1 MB *)
Definition MAX_CHUNK : Z := 0x100000.

Definition EFLAGS_CF : Z := 0x1.
Definition EFLAGS_OF : Z := 0x800.

Section Code.
Context {F : Type} `{FR : !FileReader F}.

Abbreviation SECTOR_SIZE := (2 ^ fr_shift).
Abbreviation sector_mask := (2 ^ fr_shift - 1).

(** The registers that come in and go out; [esi] is false when the handle is
    set to 0. *)
Record load_regs := Regs { r_eax : Z; r_dx : Z; r_bx : Z; r_edi : Z; r_ebp : Z }.
Record answer := Answer { a_mem : list Z; a_file : F; a_ebx : Z; a_edi : Z; a_esi : bool; a_flags : Z }.

(** [limit - buf], a signed difference, rounded down to sectors. *)
Definition room (limit buf : Z) : Z := Z.land (u32 (limit - buf)) (Z.lnot sector_mask).

(** One round of [while (bytes)]: the variables are [bytes], [buf], the file
    and the memory, which starts at address [base].  The subroutine in BX
    prints the status. *)
Definition load_step (base limit bx : Z) (s : Z * Z * F * list Z) :
    result (ctl (Z * Z * F * list Z) (Z * F * list Z * bool * Z)) :=
  let '(bytes, buf, file, mem) := s in
  if decide (bytes = 0) then Ok (Break (buf, file, mem, true, 0)) else
  if decide (u32 (buf + SECTOR_SIZE) > limit) then Ok (Break (buf, file, mem, true, EFLAGS_OF)) else
  let chunk := if decide (bx <> 0) then Z.min bytes MAX_CHUNK else bytes in
  let chunk := if decide (chunk > room limit buf) then room limit buf else chunk in
  let sectors := Z.shiftr (u32 (chunk + sector_mask)) fr_shift in
  if decide (base <= buf <= base + Z.of_nat (length mem)) then
    let at_buf := Z.to_nat (buf - base) in
    '(file, l, have_more, bytes_read) ← fr_getfssec file (drop at_buf mem) sectors;
    let mem := take at_buf mem ++ l in
    let bytes_read := if decide (bytes_read > chunk) then chunk else bytes_read in
    let buf := u32 (buf + bytes_read) in
    let bytes := u32 (bytes - bytes_read) in
    more ← of_option have_more;
    if (more : bool) then Ok (Continue (bytes, buf, file, mem))
    else Ok (Break (buf, fr_close file, mem, false, EFLAGS_CF))
  else Undef.

(** memset(buf, 0, pad) *)
Definition clear (mem : list Z) (i n : Z) : result (list Z) :=
  if decide (0 <= i /\ 0 <= n /\ i + n <= Z.of_nat (length mem)) then
    Ok (take (Z.to_nat i) mem ++ replicate (Z.to_nat n) 0 ++ drop (Z.to_nat (i + n)) mem)
  else Undef.

Definition pm_load_high (fuel : nat) (base : Z) (mem : list Z) (file : F) (r : load_regs) : result answer :=
  let zero_mask := r_dx r in
  let limit := Z.land (r_ebp r) (Z.lnot zero_mask) in
  '(buf, file, mem, esi, retflags) ← loop fuel (load_step base limit (r_bx r)) (r_eax r, r_edi r, file, mem);
  let pad := Z.land buf zero_mask in
  mem ← (if decide (pad <> 0) then clear mem (buf - base) pad else Ok mem);
  Ok (Answer mem file buf (u32 (buf + pad)) esi retflags).

End Code.

(** ** What it does *)

Lemma land_le_right a b : 0 <= a -> 0 <= b -> Z.land a b <= b.
Proof.
  intros. rewrite <- (Z2N.id a), <- (Z2N.id b), <- N2Z.inj_land by done. apply N2Z.inj_le, N.land_le_r.
Qed.

Lemma clear_ok mem i n : 0 <= i -> 0 <= n -> i + n <= Z.of_nat (length mem) ->
  exists mem', clear mem i n = Ok mem' /\ take (Z.to_nat i) mem' = take (Z.to_nat i) mem /\
    take (Z.to_nat n) (drop (Z.to_nat i) mem') = replicate (Z.to_nat n) 0.
Proof.
  intros Hi Hn Hl. unfold clear. rewrite decide_True by done. eexists. split; [reflexivity|].
  assert (length (take (Z.to_nat i) mem) = Z.to_nat i) as Ht by (rewrite length_take; lia). split.
  - by rewrite take_app_length'.
  - rewrite drop_app_length' by done. rewrite take_app_length'; [done|]. by rewrite length_replicate.
Qed.

(** Lists with a common start. *)
Lemma take_eq {A} n m (l l' : list A) : (m <= n)%nat -> take n l = take n l' -> take m l = take m l'.
Proof. intros Hm H. replace m with (m `min` n)%nat by lia. by rewrite <- !take_take, H. Qed.

Lemma take_drop_eq {A} n m k (l l' : list A) : (k + m <= n)%nat -> take n l = take n l' ->
  take m (drop k l) = take m (drop k l').
Proof. intros Hm H. rewrite !take_drop_commute. f_equal. by apply (take_eq n). Qed.

Section Spec.
Context {F : Type} `{FR : !FileReader F}.
Context (base : Z) (mem0 : list Z) (file0 : F) (r : load_regs) (pos : Z).

Abbreviation SECTOR_SIZE := (2 ^ fr_shift).
Abbreviation size := (Z.of_nat (length fr_bytes)).

Definition limit : Z := Z.land (r_ebp r) (Z.lnot (r_dx r)).

(** The whole sectors that fit, the bytes that are asked for of these, and
    those that are loaded. *)
Definition capacity : Z := Z.max 0 (limit - r_edi r) / SECTOR_SIZE * SECTOR_SIZE.
Definition wanted : Z := Z.min (r_eax r) capacity.
Definition loaded : Z := Z.min wanted (size - pos).

Definition round_up (x : Z) : Z := (x + SECTOR_SIZE - 1) / SECTOR_SIZE * SECTOR_SIZE.

(** CF where the last sector that is read has the end of the file, OF where
    the memory is full before the count is reached. *)
Definition flags : Z :=
  if decide (r_eax r = 0) then 0
  else if decide (capacity = 0) then EFLAGS_OF
  else if decide (size - pos <= round_up wanted) then EFLAGS_CF
  else if decide (r_eax r <= capacity) then 0 else EFLAGS_OF.

Record load_ok : Prop := {
  lo_eax : 0 <= r_eax r < 0x100000000;
  lo_dx : 0 <= r_dx r < 0x10000;
  lo_edi : base <= r_edi r /\ 0 <= r_edi r;
  lo_mem : Z.max (r_edi r) limit + r_dx r <= base + Z.of_nat (length mem0);
  lo_limit : 0 <= limit /\ Z.max (r_edi r) limit + 0x10000 < 0x100000000 /\ limit - r_edi r < 0x80000000;
  lo_file : fr_at file0 pos;
  lo_pos : 0 <= pos < size /\ (SECTOR_SIZE | pos) }.

Context (ok : load_ok).

Lemma fr_sector_pos : 0 < SECTOR_SIZE <= 0x10000.
Proof.
  pose proof fr_shift_range. split; [apply Z.pow_pos_nonneg; lia|].
  change 0x10000 with (2 ^ 16). apply Z.pow_le_mono_r; lia.
Qed.

Lemma round_up_ok x : x <= round_up x < x + SECTOR_SIZE /\ (SECTOR_SIZE | round_up x).
Proof.
  pose proof fr_sector_pos. unfold round_up. split; [|by eexists].
  pose proof (Z.div_mod (x + SECTOR_SIZE - 1) SECTOR_SIZE). pose proof (Z.mod_pos_bound (x + SECTOR_SIZE - 1) SECTOR_SIZE). lia.
Qed.

(** A number between two multiples. *)
Lemma multiple_unique a b : (SECTOR_SIZE | a) -> (SECTOR_SIZE | b) -> a < b -> a + SECTOR_SIZE <= b.
Proof.
  pose proof fr_sector_pos as Hs. intros [x ->] [y ->] H. apply Z.mul_lt_mono_pos_r in H; [|lia].
  pose proof (Z.mul_le_mono_nonneg_r (x + 1) y SECTOR_SIZE). lia.
Qed.

Lemma round_up_shift d x : (SECTOR_SIZE | d) -> round_up (d + x) = d + round_up x.
Proof.
  intros [q ->]. pose proof fr_sector_pos. unfold round_up.
  replace (q * SECTOR_SIZE + x + SECTOR_SIZE - 1) with (x + SECTOR_SIZE - 1 + q * SECTOR_SIZE) by lia.
  rewrite Z.div_add by lia. lia.
Qed.

Lemma round_up_multiple x : (SECTOR_SIZE | x) -> round_up x = x.
Proof.
  intros Hx. destruct (round_up_ok x) as [H1 H2].
  destruct (decide (x < round_up x)) as [H|H]; [|lia]. pose proof (multiple_unique _ _ Hx H2 H). lia.
Qed.

Lemma capacity_ok : 0 <= capacity /\ (SECTOR_SIZE | capacity) /\ capacity <= Z.max 0 (limit - r_edi r) < capacity + SECTOR_SIZE.
Proof.
  pose proof fr_sector_pos. unfold capacity. set (m := Z.max 0 _). assert (0 <= m) by lia.
  pose proof (Z.div_mod m SECTOR_SIZE). pose proof (Z.mod_pos_bound m SECTOR_SIZE). pose proof (Z.div_pos m SECTOR_SIZE).
  split; [nia|]. split; [by eexists|lia].
Qed.

(** The memory with [d] bytes of the file at the address. *)
Definition mem_at (d : Z) (mem : list Z) : Prop :=
  length mem = length mem0 /\
  take (Z.to_nat (r_edi r - base)) mem = take (Z.to_nat (r_edi r - base)) mem0 /\
  take (Z.to_nat d) (drop (Z.to_nat (r_edi r - base)) mem) = take (Z.to_nat d) (drop (Z.to_nat pos) fr_bytes).

(** The state at the head of the loop, with [d] bytes loaded. *)
Definition head (d : Z) (s : Z * Z * F * list Z) : Prop :=
  let '(bytes, buf, file, mem) := s in
  bytes = r_eax r - d /\ buf = r_edi r + d /\ mem_at d mem /\ 0 <= d <= wanted /\ d <= size - pos /\
  ((SECTOR_SIZE | d) /\ fr_at file (pos + d) /\ pos + d < size \/ d = r_eax r /\ 0 < d /\ pos + round_up d < size).

Definition final (s : Z * F * list Z * bool * Z) : Prop :=
  let '(buf, file, mem, esi, fl) := s in
  buf = r_edi r + loaded /\ mem_at loaded mem /\ fl = flags /\ esi = bool_decide (flags <> EFLAGS_CF).

Lemma flags_more : 0 < r_eax r -> 0 < capacity -> round_up wanted < size - pos ->
  flags = if decide (r_eax r <= capacity) then 0 else EFLAGS_OF.
Proof. intros. unfold flags. by rewrite !decide_False by lia. Qed.

(** What follows from the head of the loop: there is more in the file than the
    sectors read. *)
Lemma head_more d bytes buf file mem : head d (bytes, buf, file, mem) -> round_up d < size - pos.
Proof.
  intros (_ & _ & _ & _ & _ & [(Hd & _ & ?)|(_ & _ & ?)]); [|lia]. rewrite round_up_multiple by done. lia.
Qed.

(** The count is reached. *)
Lemma final_count d file mem : head d (0, r_edi r + d, file, mem) ->
  final (r_edi r + d, file, mem, true, 0).
Proof.
  intros H. pose proof (head_more _ _ _ _ _ H) as Hmore. destruct H as (Hb & _ & Hm & Hd & Hs & _).
  pose proof fr_sector_pos. pose proof (lo_eax ok). pose proof capacity_ok as (Hc & _).
  assert (d = r_eax r) as -> by lia. assert (r_eax r <= capacity /\ wanted = r_eax r) as [Hle Ew] by (unfold wanted in *; lia).
  assert (loaded = r_eax r) as El by (unfold loaded; lia). unfold final. rewrite El.
  assert (flags = 0) as ->; [|done]. destruct (decide (r_eax r = 0)) as [E|E]; [unfold flags; by rewrite decide_True|].
  rewrite flags_more by (rewrite ?Ew; lia). by rewrite decide_True.
Qed.

(** The memory is full. *)
Lemma final_full d bytes file mem : head d (bytes, r_edi r + d, file, mem) -> bytes <> 0 ->
  limit < r_edi r + d + SECTOR_SIZE -> final (r_edi r + d, file, mem, true, EFLAGS_OF).
Proof.
  intros H Hb Hl. pose proof (head_more _ _ _ _ _ H) as Hmore. destruct H as (Hbytes & _ & Hm & Hd & Hs & Hor).
  pose proof fr_sector_pos. pose proof (lo_eax ok). pose proof capacity_ok as (Hc & Hcd & Hcm).
  destruct Hor as [(Hdv & _ & Hlt)|(-> & _)]; [|lia]. assert (d < r_eax r) by (unfold wanted in *; lia).
  assert (capacity = d) as Ec.
  { destruct (decide (d < capacity)) as [Hlt'|]; [|unfold wanted in Hd; lia].
    pose proof (multiple_unique _ _ Hdv Hcd Hlt'). lia. }
  assert (wanted = d) as Ew by (unfold wanted in *; lia). assert (loaded = d) as El by (unfold loaded; lia).
  unfold final. rewrite El. assert (flags = EFLAGS_OF) as ->; [|done].
  destruct (decide (capacity = 0)) as [E|E]; [unfold flags; rewrite decide_False, decide_True by lia; done|].
  rewrite flags_more by (rewrite ?Ew; lia). rewrite decide_False by lia. done.
Qed.

(** What is asked for in one round. *)
Definition chunk_of (bytes buf : Z) : Z :=
  let chunk := if decide (r_bx r <> 0) then Z.min bytes MAX_CHUNK else bytes in
  if decide (chunk > room limit buf) then room limit buf else chunk.

Lemma room_ok d : (SECTOR_SIZE | d) -> 0 <= d -> r_edi r + d <= limit -> room limit (r_edi r + d) = capacity - d.
Proof.
  intros [q Hq] Hd Hl. pose proof fr_sector_pos. destruct (lo_limit ok) as (? & ? & ?). unfold room.
  pose proof fr_shift_range. rewrite u32_small, land_lnot_ones by lia. unfold capacity.
  rewrite Z.max_r by lia. pose proof (Z.div_mod (limit - r_edi r) SECTOR_SIZE) as E.
  assert ((limit - (r_edi r + d)) mod SECTOR_SIZE = (limit - r_edi r) mod SECTOR_SIZE) as ->; [|lia].
  replace (limit - r_edi r) with (limit - (r_edi r + d) + q * SECTOR_SIZE) by lia. by rewrite Z.mod_add by lia.
Qed.

Lemma chunk_ok d : (SECTOR_SIZE | d) -> 0 <= d <= wanted -> d < r_eax r -> r_edi r + d + SECTOR_SIZE <= limit ->
  let chunk := chunk_of (r_eax r - d) (r_edi r + d) in
  0 < chunk <= wanted - d /\ round_up chunk <= capacity - d /\ (chunk = r_eax r - d \/ (SECTOR_SIZE | chunk)) /\
  (chunk = wanted - d \/ (SECTOR_SIZE | chunk)).
Proof.
  intros Hdv Hd Hlt Hl. pose proof fr_sector_pos. pose proof capacity_ok as (Hc & Hcd & Hcm).
  unfold chunk_of. rewrite room_ok by (done || lia). cbv zeta.
  assert (SECTOR_SIZE | MAX_CHUNK) as Hmax.
  { exists (2 ^ (20 - fr_shift)). pose proof fr_shift_range. unfold MAX_CHUNK. rewrite <- Z.pow_add_r by lia.
    replace (20 - fr_shift + fr_shift) with 20 by lia. done. }
  assert (SECTOR_SIZE | capacity - d) as Hcap by by apply Z.divide_sub_r.
  assert (d < capacity) as Hdc by (unfold wanted in *; lia).
  assert (forall x, x <= capacity - d -> round_up x <= capacity - d) as Hup.
  { intros x Hx. destruct (round_up_ok x) as [H1 H2].
    destruct (decide (capacity - d < round_up x)) as [H'|]; [|lia]. pose proof (multiple_unique _ _ Hcap H2 H'). lia. }
  set (c := if decide (r_bx r <> 0) then Z.min (r_eax r - d) MAX_CHUNK else r_eax r - d).
  assert (0 < c <= r_eax r - d /\ (c = r_eax r - d \/ (SECTOR_SIZE | c))) as [Hc1 Hc2].
  { unfold c, MAX_CHUNK in *. case_decide; [|split; [lia|by left]].
    destruct (Z.min_spec (r_eax r - d) 0x100000) as [[? ->]|[? ->]]; split; try lia; auto. }
  case_decide as Hgt; unfold wanted in *; (split; [lia|]); (split; [apply Hup; lia|]); auto.
  destruct Hc2 as [E|E]; [|auto]. split; left; lia.
Qed.

Lemma mem_at_more d k n mem l : mem_at d mem -> 0 <= d -> 0 <= k <= n -> r_edi r + d - base <= Z.of_nat (length mem0) ->
  Z.of_nat (length l) = Z.of_nat (length mem0) - (r_edi r + d - base) -> k <= Z.of_nat (length l) ->
  take (Z.to_nat n) l = take (Z.to_nat n) (drop (Z.to_nat (pos + d)) fr_bytes) ->
  mem_at (d + k) (take (Z.to_nat (r_edi r + d - base)) mem ++ l).
Proof.
  intros (Hlen & Hlow & Hdata) Hd Hk Ha Hl Hkl Hread. destruct (lo_edi ok) as [He _]. destruct (lo_pos ok) as [Hp _].
  assert (length (take (Z.to_nat (r_edi r + d - base)) mem) = Z.to_nat (r_edi r + d - base)) as Ht
    by (rewrite length_take; lia).
  unfold mem_at. split; [rewrite length_app, Ht; lia|]. split.
  - rewrite take_app_le by lia. rewrite take_take. rewrite Nat.min_l by lia. done.
  - rewrite drop_app_le by lia.
    replace (Z.to_nat (r_edi r + d - base)) with (Z.to_nat (r_edi r - base) + Z.to_nat d)%nat by lia.
    rewrite <- take_drop_commute, Hdata, Z2Nat.inj_add by lia.
    assert (take (Z.to_nat k) l = take (Z.to_nat k) (drop (Z.to_nat (pos + d)) fr_bytes)) as Hk'.
    { replace (Z.to_nat k) with (Z.to_nat k `min` Z.to_nat n)%nat by lia. by rewrite <- !take_take, Hread. }
    assert (length (take (Z.to_nat d) (drop (Z.to_nat pos) fr_bytes)) = Z.to_nat d) as Hld.
    { rewrite <- Hdata, length_take, length_drop. lia. }
    rewrite take_app_ge by lia. rewrite Hld.
    replace (Z.to_nat d + Z.to_nat k - Z.to_nat d)%nat with (Z.to_nat k) by lia. rewrite Hk'.
    rewrite Z2Nat.inj_add, <- drop_drop by lia. by rewrite take_take_drop.
Qed.

(** The end of the file is read. *)
Lemma final_eof d chunk l file mem : (SECTOR_SIZE | d) -> 0 <= d < r_eax r -> 0 < chunk <= wanted - d ->
  (chunk = wanted - d \/ (SECTOR_SIZE | chunk)) -> 0 < l -> l = size - pos - d -> l <= round_up chunk ->
  mem_at (d + Z.min chunk l) mem -> final (r_edi r + (d + Z.min chunk l), file, mem, false, EFLAGS_CF).
Proof.
  intros Hdv Hd Hc Hor Hl El Hle Hm. pose proof fr_sector_pos. pose proof capacity_ok as (Hcap & _).
  destruct (round_up_ok wanted) as [Hw _].
  assert (loaded = d + Z.min chunk l /\ size - pos <= round_up wanted) as [Eld Hup].
  { unfold loaded. destruct Hor as [->|Hdiv].
    - pose proof (round_up_shift d (wanted - d) Hdv) as E. replace (d + (wanted - d)) with wanted in E by lia. lia.
    - rewrite round_up_multiple in Hle by done. lia. }
  unfold final. rewrite Eld. assert (flags = EFLAGS_CF) as ->; [|done].
  unfold flags. unfold wanted in Hc. rewrite !decide_False, decide_True by lia. done.
Qed.

(** One round. *)
Lemma load_step_ok d s : head d s ->
  step_ok (fun s => exists d, head d s) final (fun s => Z.to_nat (fst (fst (fst s)))) s (load_step base limit (r_bx r) s).
Proof.
  destruct s as [[[bytes buf] file] mem]. intros H. pose proof H as (Hb & Hbuf & Hm & Hd & Hs & Hor). subst buf.
  pose proof fr_sector_pos as Hsec. pose proof (lo_eax ok) as Heax. destruct (lo_edi ok) as [He He0].
  destruct (lo_limit ok) as (Hl0 & Hl1 & Hl2). pose proof (lo_mem ok) as Hmem. pose proof (lo_dx ok) as Hdx.
  pose proof capacity_ok as (Hc & Hcd & Hcm). destruct (lo_pos ok) as [Hp Hpd].
  assert (d <= r_eax r /\ d <= capacity) as [Hde Hdc] by (unfold wanted in Hd; lia).
  unfold load_step. case_decide as H0; [rewrite H0 in *; cbn [step_ok]; by eapply final_count|].
  assert (SECTOR_SIZE | d) as Hdv by (destruct Hor as [(? & _)|(? & _)]; [done|lia]).
  rewrite u32_small by lia. case_decide as Hfull; [cbn [step_ok]; apply (final_full d bytes); [done|done|lia]|].
  destruct Hor as [(_ & Hat & Hlt)|(? & _)]; [|lia].
  fold (chunk_of bytes (r_edi r + d)). rewrite Hb in *.
  destruct (chunk_ok d Hdv Hd ltac:(lia) ltac:(lia)) as (Hch & Hup & Hor1 & Hor2).
  set (chunk := chunk_of _ _) in *. cbv zeta. destruct (round_up_ok chunk) as [Hru _].
  pose proof fr_shift_range as Hsh. rewrite (u32_small (chunk + _)), shiftr_div by lia.
  pose proof (proj1 Hm) as Hlen. rewrite decide_True by lia.
  set (a := Z.to_nat (r_edi r + d - base)).
  assert (length (drop a mem) = (length mem0 - a)%nat) as Hld by (rewrite length_drop; lia).
  destruct (fr_ok file (pos + d) (drop a mem) ((chunk + (2 ^ fr_shift - 1)) / 2 ^ fr_shift)) as (file' & l & E & Hat' & Hl & Hread);
    [done|lia|by apply Z.divide_add_r|apply Z.div_str_pos; lia| | |].
  { fold (round_up chunk). replace (chunk + (SECTOR_SIZE - 1)) with (chunk + SECTOR_SIZE - 1) by lia. fold (round_up chunk). lia. }
  { replace (chunk + (SECTOR_SIZE - 1)) with (chunk + SECTOR_SIZE - 1) by lia. fold (round_up chunk). lia. }
  replace (chunk + (SECTOR_SIZE - 1)) with (chunk + SECTOR_SIZE - 1) in * by lia. fold (round_up chunk) in *.
  set (left := size - (pos + d)) in *. rewrite E. cbn [mbind result_bind of_option].
  set (n := Z.min (round_up chunk) left) in *.
  assert ((if decide (n > chunk) then chunk else n) = Z.min chunk left) as ->
    by (destruct (decide (n > chunk)); unfold n in *; lia).
  assert (mem_at (d + Z.min chunk left) (take a mem ++ l)) as Hm'.
  { apply (mem_at_more d (Z.min chunk left) n); try done; unfold n, left in *; lia. }
  assert (0 < left /\ wanted <= r_eax r /\ wanted <= capacity) as (Hlp & Hwe & Hwc) by (unfold left, wanted; lia).
  rewrite !u32_small by lia. replace (r_edi r + d + Z.min chunk left) with (r_edi r + (d + Z.min chunk left)) by lia.
  case_bool_decide as Hmore; cbn [step_ok fst].
  - assert (round_up chunk < left) as Hlt' by (unfold n, left in *; lia).
    assert (Z.min chunk left = chunk) as Ec by lia. rewrite Ec in *. split; [|lia].
    exists (d + chunk). unfold head. split_and!; try done; try lia.
    destruct Hor1 as [E1|E1].
    + right. split; [lia|]. split; [lia|]. rewrite round_up_shift by done. lia.
    + left. split; [by apply Z.divide_add_r|]. unfold n in Hat'. rewrite round_up_multiple in * by done.
      rewrite Z.min_l in Hat' by lia. rewrite Z.add_assoc. split; [done|lia].
  - apply (final_eof d chunk left); try done; unfold n, left in *; lia.
Qed.

Lemma pm_load_high_runs fuel : (Z.to_nat (r_eax r) < fuel)%nat ->
  exists a, pm_load_high fuel base mem0 file0 r = Ok a /\
    a_ebx a = r_edi r + loaded /\
    a_edi a = r_edi r + loaded + Z.land (r_edi r + loaded) (r_dx r) /\
    take (Z.to_nat loaded) (drop (Z.to_nat (r_edi r - base)) (a_mem a)) = take (Z.to_nat loaded) (drop (Z.to_nat pos) fr_bytes) /\
    take (Z.to_nat (r_edi r - base)) (a_mem a) = take (Z.to_nat (r_edi r - base)) mem0 /\
    (let pad := Z.land (r_edi r + loaded) (r_dx r) in
     take (Z.to_nat pad) (drop (Z.to_nat (r_edi r + loaded - base)) (a_mem a)) = replicate (Z.to_nat pad) 0) /\
    a_flags a = flags /\ a_esi a = bool_decide (flags <> EFLAGS_CF).
Proof.
  intros Hf. pose proof fr_sector_pos as Hsec. pose proof (lo_eax ok) as Heax. destruct (lo_edi ok) as [He He0].
  destruct (lo_limit ok) as (Hl0 & Hl1 & Hl2). pose proof (lo_mem ok) as Hmem. pose proof (lo_dx ok) as Hdx.
  pose proof capacity_ok as (Hc & Hcd & Hcm). destruct (lo_pos ok) as [Hp Hpd].
  assert (0 <= loaded <= capacity) as Hld by (unfold loaded, wanted; lia).
  edestruct (fun Hstep => loop_total (fun s => exists d, head d s) final (fun s => Z.to_nat (fst (fst (fst s))))
    (load_step base limit (r_bx r)) Hstep fuel (r_eax r, r_edi r, file0, mem0)) as ([[[[buf file] mem] esi] fl] & El & HQ).
  - intros s [d Hd]. by apply (load_step_ok d).
  - exists 0. unfold head. rewrite !Z.sub_0_r, !Z.add_0_r. split_and!; try done; try (unfold wanted; lia).
    left. split; [apply Z.divide_0_r|]. split; [apply (lo_file ok)|lia].
  - cbn. lia.
  - unfold pm_load_high. fold limit. rewrite El. cbn [mbind result_bind].
    destruct HQ as (-> & (Hlen & Hlow & Hdata) & -> & ->).
    set (pad := Z.land (r_edi r + loaded) (r_dx r)).
    assert (0 <= pad <= r_dx r) as Hpad.
    { unfold pad. split; [apply Z.land_nonneg; lia|]. apply land_le_right; lia. }
    assert (exists mem', (if decide (pad <> 0) then clear mem (r_edi r + loaded - base) pad else Ok mem) = Ok mem' /\
      take (Z.to_nat (r_edi r + loaded - base)) mem' = take (Z.to_nat (r_edi r + loaded - base)) mem /\
      take (Z.to_nat pad) (drop (Z.to_nat (r_edi r + loaded - base)) mem') = replicate (Z.to_nat pad) 0)
      as (mem' & Ec & Hpre & Hzero).
    { destruct (decide (pad <> 0)) as [Hp0|Hp0]; [apply clear_ok; lia|]. exists mem.
      replace pad with 0 by lia. done. }
    rewrite Ec. cbn [mbind result_bind]. eexists. split; [reflexivity|]. cbn [a_ebx a_edi a_mem a_flags a_esi].
    rewrite u32_small by lia. fold pad. split_and!; try done.
    + rewrite <- Hdata. apply (take_drop_eq (Z.to_nat (r_edi r + loaded - base))); [lia|done].
    + rewrite <- Hlow. apply (take_eq (Z.to_nat (r_edi r + loaded - base))); [lia|done].
Qed.

(** C39. Loading a file that has bytes left and whose sectors are all mapped ([fr_ok])
    ends, with the bytes that were asked for, or all that the file has, or all that
    fit, at the address, and nothing changed before it.  EBX has the address after
    them, CF is set and the handle gone if the end of the file was read, OF is set if
    the memory was full.  From there to EDI are at most DX bytes, which are zero.  EDI
    is the next multiple of DX + 1 where the end is one already and where it is in the
    middle between two, as at 2 mod 4 for a padding to dwords; the code pads to a
    wrong address from other ends, and none is claimed for them. *)
Theorem pm_load_high_loads fuel : (Z.to_nat (r_eax r) < fuel)%nat ->
  exists a, pm_load_high fuel base mem0 file0 r = Ok a /\
    take (Z.to_nat loaded) (drop (Z.to_nat (r_edi r - base)) (a_mem a)) = take (Z.to_nat loaded) (drop (Z.to_nat pos) fr_bytes) /\
    take (Z.to_nat (r_edi r - base)) (a_mem a) = take (Z.to_nat (r_edi r - base)) mem0 /\
    a_flags a = flags /\ a_esi a = bool_decide (flags <> EFLAGS_CF) /\
    a_ebx a = r_edi r + loaded /\ a_ebx a <= a_edi a <= a_ebx a + r_dx r /\
    (let pad := Z.to_nat (a_edi a - a_ebx a) in take pad (drop (Z.to_nat (a_ebx a - base)) (a_mem a)) = replicate pad 0) /\
    (Z.land (a_ebx a) (r_dx r) = Z.land (- a_ebx a) (r_dx r) -> a_edi a = a_ebx a + Z.land (- a_ebx a) (r_dx r)).
Proof.
  intros Hf. destruct (pm_load_high_runs fuel Hf) as (a & E & Hbx & Hdi & Hd & Hlow & Hz & Hfl & Hsi).
  pose proof (lo_dx ok). destruct (lo_edi ok) as [_ ?]. destruct (lo_pos ok) as [? _]. pose proof (lo_eax ok). pose proof capacity_ok as (? & _).
  assert (0 <= Z.land (r_edi r + loaded) (r_dx r) <= r_dx r) as Hpad.
  { split; [apply Z.land_nonneg; lia|]. apply land_le_right; [|lia]. unfold loaded, wanted. lia. }
  exists a. rewrite Hbx, Hdi in *. cbv zeta in *.
  replace (r_edi r + loaded + Z.land (r_edi r + loaded) (r_dx r) - (r_edi r + loaded)) with (Z.land (r_edi r + loaded) (r_dx r)) by lia.
  splits; try done; try lia.
Qed.
End Spec.

(** ** Files with extents *)

Section Extents.
Context `{SD : SectorDevice} {S : Type} `{FS : !ExtentFS S}.
Context (mapped : forall l, 0 <= l < ReadFile.file_sectors -> sector_map l <> None).

(** An open file: the inode, the offset, and whether it has its handle. *)
Record open_file := Open { o_inode : ReadFile.inode (S := S); o_offset : Z; o_open : bool }.

(** The fuel is enough for the sectors. *)
Definition getfssec (f : open_file) (buf : list Z) (sectors : Z) : result (open_file * list Z * option bool * Z) :=
  '(i, buf, offset, more, n) ←
    ReadFile.generic_getfssec (Z.to_nat (sectors + 2)) (o_inode f) (o_offset f) buf sectors;
  Ok (Open i offset (o_open f), buf, more, n).

Definition close_file (f : open_file) : open_file := Open (o_inode f) (o_offset f) false.

Definition file_at (f : open_file) (pos : Z) : Prop :=
  o_offset f = pos /\ ReadFile.inode_ok (o_inode f) /\
  (pos < inode_size -> ReadFile.seek_ok (o_inode f) (pos / 2 ^ sector_shift)).

Lemma file_bytes_length : Z.of_nat (length ReadFile.file_bytes) = inode_size.
Proof.
  pose proof inode_size_range. assert (0 < 2 ^ sector_shift) by (apply Z.pow_pos_nonneg; pose proof sector_shift_range; lia).
  unfold ReadFile.file_bytes. change (concat _) with (ReadFile.sectors_data 0 ReadFile.file_sectors).
  rewrite length_take. pose proof (Z.div_mod (inode_size + 2 ^ sector_shift - 1) (2 ^ sector_shift)) as E.
  pose proof (Z.mod_pos_bound (inode_size + 2 ^ sector_shift - 1) (2 ^ sector_shift)).
  pose proof (Z.div_pos (inode_size + 2 ^ sector_shift - 1) (2 ^ sector_shift)).
  fold ReadFile.file_sectors in *. pose proof (ReadFile.sectors_data_length 0 ReadFile.file_sectors). lia.
Qed.

Lemma getfssec_ok f pos buf sectors :
  file_at f pos -> 0 <= pos < Z.of_nat (length ReadFile.file_bytes) -> (2 ^ sector_shift | pos) ->
  0 < sectors -> sectors * 2 ^ sector_shift < 0x80000000 -> sectors * 2 ^ sector_shift <= Z.of_nat (length buf) ->
  let n := Z.min (sectors * 2 ^ sector_shift) (Z.of_nat (length ReadFile.file_bytes) - pos) in
  exists f' buf',
    getfssec f buf sectors = Ok (f', buf', Some (bool_decide (pos + n < Z.of_nat (length ReadFile.file_bytes))), n) /\
    file_at f' (pos + n) /\ length buf' = length buf /\
    take (Z.to_nat n) buf' = take (Z.to_nat n) (drop (Z.to_nat pos) ReadFile.file_bytes).
Proof.
  rewrite file_bytes_length. intros (Eo & Hi & Hseek) Hp Hal Hs Hmax Hbuf n. subst pos.
  assert (1 <= 2 ^ sector_shift) as H1 by (pose proof sector_shift_range; pose proof (Z.pow_pos_nonneg 2 sector_shift); lia).
  set (offset := o_offset f) in *. set (ss := 2 ^ sector_shift) in *.
  assert (1 <= ReadFile.request offset sectors <= sectors) as Hreq.
  { unfold ReadFile.request. fold ss. pose proof (Z.div_le_lower_bound (inode_size - offset + ss - 1) ss 1). lia. }
  assert (ReadFile.call_ok (o_inode f) offset sectors buf) as Hc.
  { constructor; try done; fold ss; [apply Hseek; lia|nia|lia|nia|nia]. }
  destruct (ReadFile.request_bounds _ _ _ _ Hc) as (_ & Hfs & _). fold ss in Hfs.
  destruct (ReadFile.getfssec_full _ offset sectors buf (Z.to_nat (sectors + 2)) Hc ltac:(lia)) as (i' & buf' & Hok & E).
  { intros j Hj. apply mapped. fold ss. pose proof (Z.div_pos offset ss). lia. }
  fold ss n in E, Hok. unfold getfssec. fold offset. rewrite E. cbn [mbind result_bind].
  exists (Open i' (offset + n) (o_open f)), buf'. rewrite decide_False by lia.
  split; [by rewrite (bool_decide_ext (n < inode_size - offset) (offset + n < inode_size)) by lia|]. destruct Hok as [Hi' Hsk _ Hlen Hdata _].
  split; [|by split]. split_and!; [done|done|]. intros Hlt. right. destruct Hsk as [[E0 _]|[E1|E1]]; [unfold n in E0; nia| |lia].
  cbn [o_inode]. fold ss. rewrite <- E1. fold ss. by rewrite Z.div_mul by lia.
Qed.

#[export] Instance extent_reader : FileReader open_file := {|
  fr_shift := sector_shift; fr_shift_range := sector_shift_range; fr_getfssec := getfssec; fr_close := close_file;
  fr_at := file_at; fr_bytes := ReadFile.file_bytes; fr_ok := getfssec_ok |}.
End Extents.

(** ** An example

    The file of five bytes with two-byte sectors, to address 0x102; the memory
    starts at 0x100 and ends, for the loader, at 0x10c. *)

Section Demo.
#[local] Existing Instance ReadFile.demo_device.

Definition demo_mapped l : 0 <= l < ReadFile.file_sectors (FS := ReadFile.demo_fs false) ->
  sector_map (ExtentFS := ReadFile.demo_fs false) l <> None.
Proof.
  intros Hl. change (0 <= l < 3) in Hl. change (ReadFile.demo_map false l <> None).
  assert (l = 0 \/ l = 1 \/ l = 2) as [-> | [-> | ->]] by lia; discriminate.
Qed.

#[local] Instance demo_reader : FileReader (open_file (S := unit)) :=
  extent_reader (FS := ReadFile.demo_fs false) demo_mapped.

Definition demo_file : open_file (S := unit) := Open ReadFile.demo_inode 0 true.
Definition demo_regs : load_regs := Regs 10 3 1 0x102 0x10f.
Definition demo_mem : list Z := replicate 20 255.

Lemma demo_load_ok : load_ok 0x100 demo_mem demo_file demo_regs 0.
Proof.
  constructor.
  1-5: vm_compute; intuition congruence.
  - change (file_at (FS := ReadFile.demo_fs false) demo_file 0). split; [reflexivity|]. split; [|intros _; left; exact I].
    exact (ReadFile.co_inode _ _ _ _ (ReadFile.demo_call false)).
  - split; [vm_compute; intuition congruence|]. apply Z.divide_0_r.
Qed.

Example demo_load :
  pm_load_high 11 0x100 demo_mem demo_file demo_regs =
    Ok (Answer (replicate 2 255 ++ [10; 110; 11; 111; 0; 0; 0; 0] ++ replicate 10 255)
          (Open (ReadFile.Inode (Extent EXTENT_ZERO 3 0) (Extent EXTENT_ZERO 2 1) tt) 5 false)
          0x107 0x10a false EFLAGS_CF).
Proof. by vm_compute. Qed.

(** The padding after 0x107 should end at 0x108.  Where the end is 0x106 it is right. *)
Example demo_padding : pm_load_high 11 0x100 demo_mem demo_file (Regs 4 3 1 0x102 0x10f) =
  Ok (Answer (replicate 2 255 ++ [10; 110; 11; 111; 0; 0] ++ replicate 12 255)
        (Open (ReadFile.Inode (Extent 12 2 0) (Extent 10 0 2) tt) 4 true) 0x106 0x108 true 0).
Proof. by vm_compute. Qed.

Lemma demo_regs_ok n : 0 <= n <= 10 -> load_ok 0x100 demo_mem demo_file (Regs n 3 1 0x102 0x10f) 0.
Proof. intros Hn. destruct demo_load_ok as [_ ? ? ? ? ? ?]. constructor; try done. simpl. lia. Qed.

Lemma pm_load_high_loads_witness :
  (exists a, pm_load_high 11 0x100 demo_mem demo_file (Regs 10 3 1 0x102 0x10f) = Ok a /\ a_ebx a = 0x107 /\
    take 5 (drop 2 (a_mem a)) = [10; 110; 11; 111; 0] /\ a_flags a = EFLAGS_CF /\ a_esi a = false) /\
  exists a, pm_load_high 11 0x100 demo_mem demo_file (Regs 4 3 1 0x102 0x10f) = Ok a /\ a_ebx a = 0x106 /\ a_edi a = 0x108 /\
    take 4 (drop 2 (a_mem a)) = [10; 110; 11; 111] /\ take 2 (drop 6 (a_mem a)) = [0; 0] /\ a_flags a = 0 /\ a_esi a = true.
Proof.
  split.
  - destruct (pm_load_high_loads 0x100 demo_mem demo_file _ 0 (demo_regs_ok 10 ltac:(lia)) 11) as
      (a & E & Hd & _ & Hf & Hs & Hbx & _); [vm_compute; lia|].
    exists a. split; [exact E|]. split; [rewrite Hbx; vm_compute; reflexivity|].
    split; [exact Hd|]. split; [rewrite Hf; vm_compute; reflexivity|]. rewrite Hs; vm_compute; reflexivity.
  - destruct (pm_load_high_loads 0x100 demo_mem demo_file _ 0 (demo_regs_ok 4 ltac:(lia)) 11) as
      (a & E & Hd & _ & Hf & Hs & Hbx & _ & Hz & Hdi); [vm_compute; lia|].
    assert (a_ebx a = 0x106) as Eb by (rewrite Hbx; vm_compute; reflexivity).
    assert (a_edi a = 0x108) as Ed by (rewrite Eb in Hdi; rewrite Hdi; vm_compute; reflexivity).
    exists a. split; [exact E|]. split; [exact Eb|]. split; [exact Ed|]. split; [exact Hd|].
    rewrite Eb, Ed in Hz. split; [exact Hz|]. split; [rewrite Hf; vm_compute; reflexivity|]. rewrite Hs; vm_compute; reflexivity.
Defined.
End Demo.

End LoadHigh.
