(* ===== verification/Crc32c.v ===== *)
(** * CRC-32C (libcore/fs/btrfs/crc32c.h)

    The checksum by which Btrfs finds names in directories.  The code goes
    byte by byte with a table; the reference is the shift register that takes
    the message bit by bit. *)

From Stdlib Require Import ZArith Lia.
From S2P Require Import Prelude.

Module Crc32c.

(** ** The code *)

(** Bit-reflected CRC32C polynomial *)
Definition poly : Z := 0x82F63B78.

(** [v = (v >> 1) ^ ((v & 1) ? poly : 0)] *)
Definition shift_poly (v : Z) : Z :=
  Z.lxor (Z.shiftr v 1) (if decide (Z.land v 1 <> 0) then poly else 0).

(** The entry [i] of the table: the inner loop. *)
Definition table_entry (i : Z) : Z := Nat.iter 8 shift_poly i.

(** [btrfs_init_crc32c]: the table. *)
Definition crc32c_table : list Z := table_entry <$> seqZ 0 256.

Fixpoint crc32c_le (crc : Z) (data : list Z) : result Z :=
  match data with
  | [] => Ok crc
  | c :: data =>
      t ← of_option (crc32c_table !! Z.to_nat (u8 (Z.lxor crc c)));
      crc32c_le (Z.lxor t (Z.shiftr crc 8)) data
  end.

(** ** The reference: one bit at a time *)

(** The register takes the bit [b] of the message: it is divided by the
    polynomial when the bit that leaves it differs from [b]. *)
Definition crc_bit (crc : Z) (b : bool) : Z :=
  Z.lxor (Z.shiftr crc 1) (if xorb (Z.testbit crc 0) b then poly else 0).

(** The bits of a byte, the lowest one first. *)
Definition byte_bits (c : Z) : list bool := Z.testbit c <$> seqZ 0 8.

Definition crc32c (crc : Z) (data : list Z) : Z := foldl crc_bit crc (data ≫= byte_bits).

(** ** The table is eight steps of the register *)

Lemma land_1 v : Z.land v 1 = Z.b2z (Z.testbit v 0).
Proof. change 1 with (Z.ones 1). rewrite Z.land_ones, Z.bit0_odd by lia. apply Zmod_odd. Qed.

Lemma shift_poly_bit v : shift_poly v = crc_bit v false.
Proof.
  unfold shift_poly, crc_bit. rewrite land_1, xorb_false_r. by destruct (Z.testbit v 0).
Qed.

(** Bits above the lowest one are only shifted. *)
Lemma shift_poly_high a b : shift_poly (Z.lxor a (Z.shiftl b 1)) = Z.lxor (shift_poly a) b.
Proof.
  rewrite !shift_poly_bit. unfold crc_bit. rewrite Z.shiftr_lxor, Z.shiftr_shiftl_l, Z.sub_diag, Z.shiftl_0_r by lia.
  rewrite Z.lxor_spec, (Z.shiftl_spec b 1 0), (Z.testbit_neg_r b) by lia. rewrite xorb_false_r.
  rewrite !Z.lxor_assoc. f_equal. apply Z.lxor_comm.
Qed.

Lemma shift_n_high n a b : Nat.iter n shift_poly (Z.lxor a (Z.shiftl b (Z.of_nat n))) = Z.lxor (Nat.iter n shift_poly a) b.
Proof.
  revert a. induction n as [|n IH]; intros a; [by rewrite Z.shiftl_0_r|].
  rewrite !Nat.iter_succ_r. replace (Z.of_nat (S n)) with (Z.of_nat n + 1) by lia.
  rewrite <- Z.shiftl_shiftl, shift_poly_high by lia. apply IH.
Qed.

(** Taking a bit is mixing it in and shifting. *)
Lemma crc_bit_mix crc b : crc_bit crc b = shift_poly (Z.lxor crc (Z.b2z b)).
Proof.
  rewrite shift_poly_bit. unfold crc_bit. rewrite Z.shiftr_lxor, Z.lxor_spec, xorb_false_r.
  rewrite (Z.b2z_bit0 b). replace (Z.shiftr (Z.b2z b) 1) with 0 by by destruct b. by rewrite Z.lxor_0_r.
Qed.

Lemma split_bit c : c = Z.lxor (Z.b2z (Z.testbit c 0)) (Z.shiftl (Z.shiftr c 1) 1).
Proof.
  apply Z.bits_inj'. intros n Hn. rewrite Z.lxor_spec. destruct (decide (n = 0)) as [->|Hne].
  - by rewrite Z.b2z_bit0, Z.shiftl_spec_low, xorb_false_r by lia.
  - rewrite Z.shiftl_spec, Z.shiftr_spec by lia. replace (n - 1 + 1) with n by lia.
    replace (Z.testbit (Z.b2z (Z.testbit c 0)) n) with false; [by destruct (Z.testbit c n)|].
    symmetry. destruct (Z.testbit c 0); cbn [Z.b2z]; [|apply Z.bits_0].
    change 1 with (2 ^ 0). apply Z.pow2_bits_false. lia.
Qed.

(** [n] bits of a byte are taken as the byte is mixed in at once. *)
Lemma bits_mix n c crc :
  Z.shiftr c (Z.of_nat n) = 0 ->
  foldl crc_bit crc (Z.testbit c <$> seqZ 0 (Z.of_nat n)) = Nat.iter n shift_poly (Z.lxor crc c).
Proof.
  revert c crc. induction n as [|n IH]; intros c crc Hc.
  - rewrite Z.shiftr_0_r in Hc. subst c. by rewrite Z.lxor_0_r.
  - rewrite seqZ_cons by lia. replace (Z.pred (Z.of_nat (S n))) with (Z.of_nat n) by lia.
    cbn [fmap list_fmap foldl]. rewrite Nat.iter_succ_r.
    replace (Z.testbit c <$> seqZ (Z.succ 0) (Z.of_nat n)) with (Z.testbit (Z.shiftr c 1) <$> seqZ 0 (Z.of_nat n)).
    + rewrite IH.
      * f_equal. rewrite crc_bit_mix, <- shift_poly_high, Z.lxor_assoc. by rewrite <- split_bit.
      * rewrite Z.shiftr_shiftr by lia. by replace (1 + Z.of_nat n) with (Z.of_nat (S n)) by lia.
    + apply list_eq_same_length with (n := n); rewrite ?length_fmap, ?length_seqZ; try lia.
      intros i x y Hi. rewrite !list_lookup_fmap, !lookup_seqZ_lt by lia. cbn [fmap option_fmap option_map]. intros [= <-] [= <-].
      rewrite Z.shiftr_spec by lia. f_equal. lia.
Qed.
Lemma byte_bits_mix c crc : byte_ok c -> foldl crc_bit crc (byte_bits c) = Nat.iter 8 shift_poly (Z.lxor crc c).
Proof. intros Hc. apply (bits_mix 8). rewrite shiftr_div by lia. apply Z.div_small. done. Qed.

(** The low byte of the register is looked up, the rest is only shifted. *)
Lemma table_step x : Nat.iter 8 shift_poly x = Z.lxor (table_entry (u8 x)) (Z.shiftr x 8).
Proof.
  unfold table_entry. rewrite <- (shift_n_high 8). f_equal. change (Z.of_nat 8) with 8. unfold u8.
  change 0x100 with (2 ^ 8). rewrite <- Z.land_ones by lia.
  apply Z.bits_inj'. intros n Hn. rewrite Z.lxor_spec, Z.land_spec. destruct (Z.lt_ge_cases n 8).
  - by rewrite Z.ones_spec_low, Z.shiftl_spec_low, andb_true_r, xorb_false_r by lia.
  - rewrite Z.ones_spec_high, Z.shiftl_spec, Z.shiftr_spec, andb_false_r, xorb_false_l by lia. f_equal. lia.
Qed.

Lemma crc32c_table_lookup i : 0 <= i < 256 -> crc32c_table !! Z.to_nat i = Some (table_entry i).
Proof.
  intros Hi. unfold crc32c_table. rewrite list_lookup_fmap.
  replace (seqZ 0 256 !! Z.to_nat i) with (Some i); [done|]. symmetry. apply lookup_seqZ. lia.
Qed.

(** The register has 32 bits. *)
Lemma lxor_range a b : 0 <= a < 0x100000000 -> 0 <= b < 0x100000000 -> 0 <= Z.lxor a b < 0x100000000.
Proof.
  intros Ha Hb. assert (0 <= Z.lxor a b) as Hn by (apply Z.lxor_nonneg; lia). split; [done|].
  assert (Z.shiftr (Z.lxor a b) 32 = 0) as Hz by (by rewrite Z.shiftr_lxor, !shiftr_div, !Z.div_small by lia).
  rewrite shiftr_div in Hz by lia. apply Z.div_small_iff in Hz; lia.
Qed.

Lemma crc32c_range crc data : 0 <= crc < 0x100000000 -> 0 <= crc32c crc data < 0x100000000.
Proof.
  unfold crc32c. generalize (data ≫= byte_bits). intros bits. revert crc. induction bits as [|b bits IH]; intros crc Hc; [done|].
  cbn [foldl]. apply IH. unfold crc_bit. apply lxor_range.
  - rewrite shiftr_div by lia. dlia.
  - unfold poly. destruct (xorb _ _); lia.
Qed.

(** The checksum by the table is the one of the shift register, from any
    start value. *)
Theorem crc32c_le_correct crc data : Forall byte_ok data -> crc32c_le crc data = Ok (crc32c crc data).
Proof.
  intros H. revert crc. induction H as [|c data Hc _ IH]; intros crc; [done|]. cbn [crc32c_le].
  pose proof (u8_range (Z.lxor crc c)). rewrite crc32c_table_lookup by lia. cbn [of_option mbind result_bind].
  rewrite IH. unfold crc32c. change ((c :: data) ≫= byte_bits) with (byte_bits c ++ (data ≫= byte_bits)).
  rewrite foldl_app, byte_bits_mix, (table_step (Z.lxor crc c)), Z.shiftr_lxor by done.
  rewrite (shiftr_div c), Z.div_small by done. by rewrite Z.lxor_0_r.
Qed.

(** The check value of the CRC-32C: the message 123456789. *)
Definition check_message : list Z := seqZ 49 9.

Lemma crc32c_le_correct_witness :
  crc32c_le 0xffffffff check_message = Ok (crc32c 0xffffffff check_message) /\
  Z.lxor (crc32c 0xffffffff check_message) 0xffffffff = 0xE3069283.
Proof.
  split; [|vm_compute; reflexivity]. apply crc32c_le_correct. vm_compute. repeat constructor; discriminate.
Defined.

End Crc32c.
