(* ===== verification/Btrfs.v ===== *)
(** * The Btrfs file system (libcore/fs/btrfs)

    The superblock and its mirrors, the map from logical to physical addresses,
    the search in the trees, inodes, directories and extents. *)

From Stdlib Require Import ZArith Lia.
From S2P Require Import Prelude Dirent CStr Cache BlockCache GetFsSec Crc32c.
Import Dirent.Dirent CStr.CStr Crc32c.Crc32c.

Module Btrfs.

(** ** Data (btrfs.h) *)

Definition BTRFS_SUPER_INFO_OFFSET : Z := 64 * 1024.
Definition BTRFS_MAX_LEAF_SIZE : Z := 4096.
Definition BTRFS_BLOCK_SHIFT : Z := 12.
Definition BTRFS_SUPER_MIRROR_MAX : Z := 3.
Definition BTRFS_SUPER_MIRROR_SHIFT : Z := 12.
Definition BTRFS_FSID_SIZE : nat := 16.

(** _BHRfS_M *)
Definition BTRFS_MAGIC : list Z := [95; 66; 72; 82; 102; 83; 95; 77].

Definition BTRFS_SUPER_FLAG_METADUMP : Z := 2 ^ 33.

Definition BTRFS_CHUNK_ITEM_KEY : Z := 228.
Definition BTRFS_ROOT_REF_KEY : Z := 156.
Definition BTRFS_ROOT_ITEM_KEY : Z := 132.
Definition BTRFS_EXTENT_DATA_KEY : Z := 108.
Definition BTRFS_DIR_ITEM_KEY : Z := 84.
Definition BTRFS_INODE_ITEM_KEY : Z := 1.

Definition BTRFS_FS_TREE_OBJECTID : Z := 5.
Definition BTRFS_FIRST_CHUNK_TREE_OBJECTID : Z := 256.

Definition BTRFS_FILE_EXTENT_INLINE : Z := 0.

Definition BTRFS_MAX_LEVEL : Z := 8.
Definition BTRFS_MAX_CHUNK_ENTRIES : Z := 256.

(** struct btrfs_super_block, in its bytes *)
Definition super_block_size : Z := 2859.
Definition sb_fsid (sb : list Z) : list Z := sub sb 32 BTRFS_FSID_SIZE.
Definition sb_bytenr (sb : list Z) : result Z := get64 sb 48.
Definition sb_flags (sb : list Z) : result Z := get64 sb 56.
Definition sb_magic (sb : list Z) : list Z := drop 64 sb.
Definition sb_generation (sb : list Z) : result Z := get64 sb 72.
Definition sb_root (sb : list Z) : result Z := get64 sb 80.
Definition sb_chunk_root (sb : list Z) : result Z := get64 sb 88.
Definition sb_total_bytes (sb : list Z) : result Z := get64 sb 112.
Definition sb_nodesize (sb : list Z) : result Z := get32 sb 148.
Definition sb_leafsize (sb : list Z) : result Z := get32 sb 152.
Definition sb_sys_chunk_array_size (sb : list Z) : result Z := get32 sb 160.
Definition sb_sys_chunk_array (cur : Z) : Z := 811 + cur.

(** struct btrfs_disk_key *)
Record btrfs_disk_key := Key { k_objectid : Z; k_type : Z; k_offset : Z }.

#[export] Instance btrfs_disk_key_eq_dec : EqDecision btrfs_disk_key.
Proof. solve_decision. Defined.

Definition key_size : Z := 17.

Definition read_key (b : list Z) (o : Z) : result btrfs_disk_key :=
  i ← get64 b o; t ← getle 1 b (o + 8); f ← get64 b (o + 9); Ok (Key i t f).

(** struct btrfs_chunk, with one stripe *)
Definition chunk_length (b : list Z) (o : Z) : result Z := get64 b o.
Definition chunk_num_stripes (b : list Z) (o : Z) : result Z := get16 b (o + 44).
Definition chunk_devid (b : list Z) (o : Z) : result Z := get64 b (o + 48).
Definition chunk_offset (b : list Z) (o : Z) : result Z := get64 b (o + 56).

(** struct btrfs_header *)
Definition header_size : Z := 101.
Definition hdr_nritems (b : list Z) : result Z := get32 b 96.
Definition hdr_level (b : list Z) : result Z := getle 1 b 100.

(** struct btrfs_item *)
Record btrfs_item := Item { ikey : btrfs_disk_key; ioffset : Z; isize : Z }.

Definition item_size : Z := 25.

(** The items of a leaf, and the keys and pointers of a node. *)
Definition leaf_key (b : list Z) (i : Z) : result btrfs_disk_key := read_key b (header_size + item_size * i).

Definition leaf_item (b : list Z) (i : Z) : result btrfs_item :=
  let o := header_size + item_size * i in
  k ← read_key b o; f ← get32 b (o + 17); n ← get32 b (o + 21); Ok (Item k f n).

Definition key_ptr_size : Z := 33.

Definition node_key (b : list Z) (i : Z) : result btrfs_disk_key := read_key b (header_size + key_ptr_size * i).
Definition node_blockptr (b : list Z) (i : Z) : result Z := get64 b (header_size + key_ptr_size * i + 17).

(** struct btrfs_path *)
Record btrfs_path := Path {
  offsets : list Z; itemsnr : list Z; slots : list Z; item : btrfs_item; data : list Z }.

(** struct btrfs_chunk_map_item *)
Record btrfs_chunk_map_item := MapItem { mi_logical : Z; mi_length : Z; mi_devid : Z; mi_physical : Z }.

(** The first [cur_length] entries of the map. *)
Abbreviation btrfs_chunk_map := (list btrfs_chunk_map_item).

(** struct btrfs_inode_item, struct btrfs_root_item, struct btrfs_dir_item,
    struct btrfs_file_extent_item, struct btrfs_root_ref *)
Definition inode_item_size (b : list Z) : result Z := get64 b 16.
Definition inode_item_mode (b : list Z) : result Z := get32 b 52.
Definition root_item_bytenr (b : list Z) : result Z := get64 b 176.
Definition dir_item_location (b : list Z) : result btrfs_disk_key := read_key b 0.
Definition dir_item_name_len (b : list Z) : result Z := get16 b 27.
Definition dir_item_type (b : list Z) : result Z := getle 1 b 29.
Definition dir_item_name (b : list Z) : list Z := drop 30 b.
Definition extent_compression (b : list Z) : result Z := getle 1 b 16.
Definition extent_encryption (b : list Z) : result Z := getle 1 b 17.
Definition extent_type (b : list Z) : result Z := getle 1 b 20.
Definition extent_disk_bytenr (b : list Z) : result Z := get64 b 21.
Definition extent_offset (b : list Z) : result Z := get64 b 37.
Definition extent_num_bytes (b : list Z) : result Z := get64 b 45.
Definition root_ref_size : Z := 18.

(** offsetof(struct btrfs_file_extent_item, disk_bytenr): where the data of an
    inline file are. *)
Definition inline_data : Z := 21.

(** struct inode, with the offset of struct btrfs_pvt_inode. *)
Record inode := Inode { ino : Z; size : Z; mode : Z; pvt_offset : Z }.

(** ** Searching a sorted array *)

(** One round of the loop of [bin_search]; [cmp i] compares the item [i] of the
    array with the one that is looked for. *)
Definition search_step (cmp : Z -> result Z) (s : Z * Z) : result (ctl (Z * Z) (Z * Z)) :=
  let '(low, high) := s in
  if decide (low < high) then
    if decide (low + high < 0x80000000) then
      let mid := (low + high) / 2 in
      ret ← cmp mid;
      if decide (ret < 0) then Ok (Continue (mid + 1, high))
      else if decide (ret > 0) then Ok (Continue (low, mid))
      else Ok (Break (0, mid))
    else Undef
  else Ok (Break (1, low)).

(** The result and the slot; a search in an int's range has at most 32 rounds. *)
Definition bin_search (cmp : Z -> result Z) (min max : Z) : result (Z * Z) :=
  loop 33 (search_step cmp) (min, max).

Definition compare (a b : Z) : Z := if decide (a > b) then 1 else if decide (a < b) then -1 else 0.

(** ** Logical and physical addresses *)

Definition btrfs_comp_chunk_map (m1 m2 : btrfs_chunk_map_item) : Z := compare (mi_logical m1) (mi_logical m2).

Definition search_map (map : btrfs_chunk_map) (m2 : btrfs_chunk_map_item) : result (Z * Z) :=
  bin_search (fun i => m1 ← of_option (map !! Z.to_nat i); Ok (btrfs_comp_chunk_map m1 m2)) 0 (Z.of_nat (length map)).

(** [for (i = chunk_map.cur_length; i > slot; i--)] *)
Fixpoint shift_items (map : btrfs_chunk_map) (slot i : nat) : btrfs_chunk_map :=
  match i with
  | O => map
  | S j => if decide (slot < i)%nat then
             match map !! j with Some m => shift_items (<[i := m]> map) slot j | None => map end
           else map
  end.

(** The map is an array of [BTRFS_MAX_CHUNK_ENTRIES] entries; it is allocated
    for the first one, and the allocation is not checked. *)
Definition insert_map (map : btrfs_chunk_map) (m : btrfs_chunk_map_item) : result btrfs_chunk_map :=
  match map with
  | [] => Ok [m]
  | _ =>
      '(ret, slot) ← search_map map m;
      if decide (ret = 0) then Ok map else
      if decide (Z.of_nat (length map) = BTRFS_MAX_CHUNK_ENTRIES) then Ok map else
      Ok (<[Z.to_nat slot := m]> (shift_items (map ++ [m]) (Z.to_nat slot) (length map)))
  end.

Definition logical_physical (map : btrfs_chunk_map) (l : Z) : result Z :=
  '(ret, slot) ← search_map map (MapItem l 0 0 0);
  if decide (ret <> 0 /\ slot = 0) then Ok (u64 (-1)) else
  let slot := if decide (ret = 0) then slot + 1 else slot in
  m ← of_option (map !! Z.to_nat (slot - 1));
  if decide (l >= u64 (mi_logical m + mi_length m)) then Ok (u64 (-1))
  else Ok (u64 (u64 (mi_physical m + l) - mi_logical m)).

Section Code.
Context {C : Type} `{BC : !BlockCache C}.

(** ** Reading *)

(** [while (count > 0)]; [buf] is what is read so far.  The cache always has an
    answer. *)
Definition read_step (s : C * list Z * Z * Z) : result (ctl (C * list Z * Z * Z) (C * list Z)) :=
  let '(c, buf, o, count) := s in
  if decide (count > 0) then
    let block := o / csize in
    let off := o mod csize in
    let '(c, cd) := cblock c block in
    let cnt := csize - off in
    let cnt := if decide (cnt > count) then count else cnt in
    Ok (Continue (c, buf ++ sub cd off (Z.to_nat cnt), u64 (o + cnt), count - cnt))
  else Ok (Break (c, buf)).

(** The bytes that are read. *)
Definition btrfs_read (c : C) (o count : Z) : result (C * list Z) :=
  loop (S (Z.to_nat count)) read_step (c, [], o, count).

(** A read into an object of [room] bytes. *)
Definition read_to (c : C) (room o count : Z) : result (C * list Z) :=
  if decide (count <= room) then btrfs_read c o count else Undef.

(** ** The superblock *)

Definition btrfs_sb_offset (mirror : Z) : Z :=
  if decide (mirror <> 0) then Z.shiftl (16 * 1024) (BTRFS_SUPER_MIRROR_SHIFT * mirror)
  else BTRFS_SUPER_INFO_OFFSET.

(** One mirror: the variables are [sb], [fsid] if it is set, and [transid]. *)
Definition mirror_step (s : C * list Z * option (list Z) * Z * Z) :
    result (ctl (C * list Z * option (list Z) * Z * Z) (C * list Z)) :=
  let '(c, sb, fsid, transid, i) := s in
  if decide (i < BTRFS_SUPER_MIRROR_MAX) then
    let o := btrfs_sb_offset i in
    total ← sb_total_bytes sb;
    if decide (o >= total) then Ok (Break (c, sb)) else
    '(c, buf) ← btrfs_read c o super_block_size;
    if decide (Z.of_nat (length buf) < super_block_size) then Ok (Break (c, sb)) else
    bytenr ← sb_bytenr buf;
    d ← strncmp (sb_magic buf) BTRFS_MAGIC 8;
    if decide (bytenr <> o \/ d <> 0) then Ok (Continue (c, sb, fsid, transid, i + 1)) else
    d ← (if decide (i = 0) then Ok 0 else f ← of_option fsid; memcmp f (sb_fsid buf) BTRFS_FSID_SIZE);
    let fsid := if decide (i = 0) then Some (sb_fsid buf) else fsid in
    if decide (d <> 0) then Ok (Continue (c, sb, fsid, transid, i + 1)) else
    generation ← sb_generation buf;
    if decide (generation > transid) then Ok (Continue (c, buf, fsid, generation, i + 1))
    else Ok (Continue (c, sb, fsid, transid, i + 1))
  else Ok (Break (c, sb)).

(** [sb] is zero at first, but for the number of bytes. *)
Definition unknown_super_block : list Z :=
  replicate 112 0 ++ replicate 8 0xff ++ replicate (Z.to_nat super_block_size - 120) 0.

Definition btrfs_read_super_block (c : C) : result (C * list Z) :=
  loop 4 mirror_step (c, unknown_super_block, None, 0, 0).

(** ** Searching a tree *)

Definition btrfs_comp_keys (k1 k2 : btrfs_disk_key) : Z :=
  if decide (k_objectid k1 > k_objectid k2) then 1 else
  if decide (k_objectid k1 < k_objectid k2) then -1 else
  if decide (k_type k1 > k_type k2) then 1 else
  if decide (k_type k1 < k_type k2) then -1 else
  if decide (k_offset k1 > k_offset k2) then 1 else
  if decide (k_offset k1 < k_offset k2) then -1 else 0.

(** compare keys but ignore offset *)
Definition btrfs_comp_keys_type (k1 k2 : btrfs_disk_key) : Z :=
  if decide (k_objectid k1 > k_objectid k2) then 1 else
  if decide (k_objectid k1 < k_objectid k2) then -1 else
  if decide (k_type k1 > k_type k2) then 1 else
  if decide (k_type k1 < k_type k2) then -1 else 0.

(** memset to zeros *)
Definition clear_path : btrfs_path :=
  Path (replicate 8 0) (replicate 8 0) (replicate 8 0) (Item (Key 0 0 0) 0 0) (replicate 4096 0).

(** An int in one of the arrays of the path. *)
Definition lookup8 (l : list Z) (i : Z) : result Z := of_option (l !! Z.to_nat i).
Definition store8 (l : list Z) (i v : Z) : result (list Z) :=
  if decide (i < BTRFS_MAX_LEVEL) then Ok (<[Z.to_nat i := v]> l) else Undef.

(** The comparison of the keys of an array with a key. *)
Definition comp_at (f : Z -> result btrfs_disk_key) (key : btrfs_disk_key) (i : Z) : result Z :=
  k ← f i; Ok (btrfs_comp_keys k key).

(** The slot before the one that was not found, if it is not the first. *)
Definition adjust_slot (ret slot min : Z) : Z := if decide (ret <> 0 /\ slot > min) then slot - 1 else slot.

(** memcpy to the start of an object *)
Definition overwrite (old new : list Z) : list Z := new ++ drop (length new) old.

Section Globals.
Context (chunk_map : btrfs_chunk_map) (sb : list Z).

(** The fuel bounds the depth of the recursion. *)
Fixpoint search_tree (fuel : nat) (c : C) (loffset : Z) (key : btrfs_disk_key) (path : btrfs_path) :
    result (C * btrfs_path * Z) :=
  match fuel with
  | O => NoFuel
  | S fuel =>
      o ← logical_physical chunk_map loffset;
      '(c, header) ← btrfs_read c o header_size;
      level ← hdr_level header;
      nritems ← hdr_nritems header;
      if decide (level <> 0) then
        nodesize ← sb_nodesize sb;
        '(c, ptrs) ← read_to c (BTRFS_MAX_LEAF_SIZE - header_size) (u64 (o + header_size)) (u32 (nodesize - header_size));
        let node := header ++ ptrs in
        itemsnr ← store8 (itemsnr path) level (s32 nritems);
        offsets ← store8 (offsets path) level loffset;
        min ← lookup8 (slots path) level;
        '(ret, slot) ← bin_search (comp_at (node_key node) key) min (s32 nritems);
        let slot := adjust_slot ret slot min in
        slots ← store8 (slots path) level slot;
        blockptr ← node_blockptr node slot;
        search_tree fuel c blockptr key (Path offsets itemsnr slots (item path) (data path))
      else
        leafsize ← sb_leafsize sb;
        '(c, items) ← read_to c (BTRFS_MAX_LEAF_SIZE - header_size) (u64 (o + header_size)) (u32 (leafsize - header_size));
        let leaf := header ++ items in
        itemsnr ← store8 (itemsnr path) 0 (s32 nritems);
        offsets ← store8 (offsets path) 0 loffset;
        min ← lookup8 (slots path) 0;
        '(ret, slot) ← bin_search (comp_at (leaf_key leaf) key) min (s32 nritems);
        let slot := adjust_slot ret slot min in
        slots ← store8 (slots path) 0 slot;
        it ← leaf_item leaf slot;
        '(c, d) ← read_to c BTRFS_MAX_LEAF_SIZE (u64 (o + header_size + ioffset it)) (isize it);
        Ok (c, Path offsets itemsnr slots it (overwrite (data path) d), ret)
  end.

(** The level at which the path can go on, from [level] up: [None] for the
    results 1. *)
Fixpoint next_level (path : btrfs_path) (n : nat) (level : Z) : result (option Z) :=
  match n with
  | O => Ok None
  | S n =>
      nr ← lookup8 (itemsnr path) level;
      if decide (nr = 0) then Ok None else
      slot ← lookup8 (slots path) level;
      if decide (slot + 1 >= nr) then next_level path n (level + 1) else Ok (Some level)
  end.

(** true if a leaf is found *)
Definition next_leaf (fuel : nat) (c : C) (key : btrfs_disk_key) (path : btrfs_path) :
    result (C * btrfs_path * bool) :=
  level ← next_level path (Z.to_nat (BTRFS_MAX_LEVEL - 1)) 1;
  match level with
  | None => Ok (c, path, false)
  | Some level =>
      slot ← lookup8 (slots path) level;
      s ← store8 (slots path) level (slot + 1);
      s ← store8 s (level - 1) 0;
      o ← lookup8 (offsets path) level;
      '(c, path, _) ← search_tree fuel c o key (Path (offsets path) (itemsnr path) s (item path) (data path));
      Ok (c, path, true)
  end.

(** true if a slot is found *)
Definition next_slot (fuel : nat) (c : C) (key : btrfs_disk_key) (path : btrfs_path) :
    result (C * btrfs_path * bool) :=
  nr ← lookup8 (itemsnr path) 0;
  if decide (nr = 0) then Ok (c, path, false) else
  slot ← lookup8 (slots path) 0;
  if decide (slot + 1 >= nr) then Ok (c, path, false) else
  s ← store8 (slots path) 0 (slot + 1);
  o ← lookup8 (offsets path) 0;
  '(c, path, _) ← search_tree fuel c o key (Path (offsets path) (itemsnr path) s (item path) (data path));
  Ok (c, path, true).
End Globals.
End Code.
(** ** Chunks *)

(** The unsigned arithmetic wraps around when there are no stripes. *)
Definition btrfs_chunk_item_size (num_stripes : Z) : Z := u32 (80 + 32 * (num_stripes - 1)).

(** The entry for the chunk at [o], without its other stripes. *)
Definition chunk_map_item (key : btrfs_disk_key) (b : list Z) (o : Z) : result btrfs_chunk_map_item :=
  n ← chunk_length b o; d ← chunk_devid b o; p ← chunk_offset b o; Ok (MapItem (k_offset key) n d p).

Definition sys_chunk_step (sb : list Z) (s : Z * btrfs_chunk_map) :
    result (ctl (Z * btrfs_chunk_map) btrfs_chunk_map) :=
  let '(cur, map) := s in
  n ← sb_sys_chunk_array_size sb;
  if decide (cur < n) then
    key ← read_key sb (sb_sys_chunk_array cur);
    let cur := cur + key_size in
    stripes ← chunk_num_stripes sb (sb_sys_chunk_array cur);
    m ← chunk_map_item key sb (sb_sys_chunk_array cur);
    map ← insert_map map m;
    Ok (Continue (cur + btrfs_chunk_item_size stripes, map))
  else Ok (Break map).

(** A chunk takes 65 bytes of the array, which has 2048. *)
Definition btrfs_read_sys_chunk_array (sb : list Z) (map : btrfs_chunk_map) : result btrfs_chunk_map :=
  loop 33 (sys_chunk_step sb) (0, map).

Section Trees.
Context {C : Type} `{BC : !BlockCache C}.
Context (fuel : nat).

(** The inner loop over the slots of a leaf. *)
Definition chunk_slot_step (sb : list Z) (key : btrfs_disk_key) (s : C * btrfs_chunk_map * btrfs_path) :
    result (ctl (C * btrfs_chunk_map * btrfs_path) (C * btrfs_chunk_map * btrfs_path)) :=
  let '(c, map, path) := s in
  if decide (btrfs_comp_keys_type key (ikey (item path)) <> 0) then Ok (Break (c, map, path)) else
  m ← chunk_map_item (ikey (item path)) (data path) 0;
  map ← insert_map map m;
  '(c, path, found) ← next_slot map sb fuel c key path;
  if (found : bool) then Ok (Continue (c, map, path)) else Ok (Break (c, map, path)).

Definition chunk_leaf_step (sb : list Z) (key : btrfs_disk_key) (s : C * btrfs_chunk_map * btrfs_path) :
    result (ctl (C * btrfs_chunk_map * btrfs_path) (C * btrfs_chunk_map)) :=
  '(c, map, path) ← loop fuel (chunk_slot_step sb key) s;
  if decide (btrfs_comp_keys_type key (ikey (item path)) <> 0) then Ok (Break (c, map)) else
  '(c, path, found) ← next_leaf map sb fuel c key path;
  if (found : bool) then Ok (Continue (c, map, path)) else Ok (Break (c, map)).

Definition btrfs_read_chunk_tree (c : C) (sb : list Z) (map : btrfs_chunk_map) : result (C * btrfs_chunk_map) :=
  flags ← sb_flags sb;
  if decide (Z.land flags BTRFS_SUPER_FLAG_METADUMP <> 0) then Ok (c, map) else
  let key := Key BTRFS_FIRST_CHUNK_TREE_OBJECTID BTRFS_CHUNK_ITEM_KEY 0 in
  root ← sb_chunk_root sb;
  '(c, path, _) ← search_tree map sb fuel c root key clear_path;
  loop fuel (chunk_leaf_step sb key) (c, map, path).

Section Globals.
Context (chunk_map : btrfs_chunk_map) (sb : list Z).

Abbreviation search_tree := (search_tree chunk_map sb fuel).

(** ** The tree of the file system *)

(** The inner loop over the references to subvolumes: true if the name is
    found.  A name matches if [SubvolName] starts with it. *)
Definition subvol_slot_step (SubvolName : list Z) (key : btrfs_disk_key) (s : C * btrfs_path) :
    result (ctl (C * btrfs_path) (C * btrfs_path * bool)) :=
  let '(c, path) := s in
  if decide (btrfs_comp_keys_type key (ikey (item path)) <> 0) then Ok (Break (c, path, false)) else
  let pathlen := u32 (isize (item path) - root_ref_size) in
  d ← strncmp (drop (Z.to_nat root_ref_size) (data path)) SubvolName (Z.to_nat pathlen);
  if decide (d = 0) then Ok (Break (c, path, true)) else
  '(c, path, found) ← next_slot chunk_map sb fuel c key path;
  if (found : bool) then Ok (Continue (c, path)) else Ok (Break (c, path, false)).

Definition subvol_leaf_step (SubvolName : list Z) (key : btrfs_disk_key) (s : C * btrfs_path) :
    result (ctl (C * btrfs_path) (C * option btrfs_path)) :=
  '(c, path, ok) ← loop fuel (subvol_slot_step SubvolName key) s;
  if (ok : bool) then Ok (Break (c, Some path)) else
  if decide (btrfs_comp_keys_type key (ikey (item path)) <> 0) then Ok (Break (c, None)) else
  '(c, path, found) ← next_leaf chunk_map sb fuel c key path;
  if (found : bool) then Ok (Continue (c, path)) else Ok (Break (c, None)).

(** The path to the reference of the subvolume. *)
Definition find_subvol (c : C) (SubvolName : list Z) : result (C * option btrfs_path) :=
  first ← get8 SubvolName 0;
  if decide (first = 0) then Ok (c, None) else
  let key := Key BTRFS_FS_TREE_OBJECTID BTRFS_ROOT_REF_KEY 0 in
  root ← sb_root sb;
  '(c, path, ret) ← search_tree c root key clear_path;
  '(c, path, _) ← (if decide (ret <> 0) then next_slot chunk_map sb fuel c key path else Ok (c, path, false));
  loop fuel (subvol_leaf_step SubvolName key) (c, path).

(** The new value of [fs_tree]. *)
Definition btrfs_get_fs_tree (c : C) (SubvolName : list Z) : result (C * Z) :=
  '(c, subvol) ← find_subvol c SubvolName;
  let objectid := match subvol with Some path => k_offset (ikey (item path)) | None => BTRFS_FS_TREE_OBJECTID end in
  root ← sb_root sb;
  '(c, path, _) ← search_tree c root (Key objectid BTRFS_ROOT_ITEM_KEY (u64 (-1))) clear_path;
  bytenr ← root_item_bytenr (data path);
  Ok (c, bytenr).

(** ** Inodes and directories *)

Context (fs_tree : Z).

(** The first [len] bytes hash as u32. *)
Definition btrfs_name_hash (name : list Z) (len : Z) : result Z :=
  if decide (len <= Z.of_nat (length name)) then crc32c_le 0xfffffffe (take (Z.to_nat len) name) else Undef.

(** The address of the data of the file, where [path] is at an extent of it. *)
Definition extent_data (path : btrfs_path) (address : Z) : result Z :=
  ty ← extent_type (data path);
  if decide (ty = BTRFS_FILE_EXTENT_INLINE) then
    o ← lookup8 (offsets path) 0; Ok (u64 (o + header_size + ioffset (item path) + inline_data))
  else Ok address.

(** [alloc_inode] does not fail here, and gives zeros. *)
Definition btrfs_iget_by_inr (c : C) (inr : Z) : result (C * option inode) :=
  '(c, path, ret) ← search_tree c fs_tree (Key inr BTRFS_INODE_ITEM_KEY 0) clear_path;
  if decide (ret <> 0) then Ok (c, None) else
  n ← inode_item_size (data path);
  m ← inode_item_mode (data path);
  let mode := IFTODT m in
  if decide (mode = dt_value DT_REG \/ mode = dt_value DT_LNK) then
    '(c, path, ret) ← search_tree c fs_tree (Key inr BTRFS_EXTENT_DATA_KEY 0) clear_path;
    if decide (ret <> 0) then Ok (c, None) else
    address ← extent_disk_bytenr (data path);
    offset ← extent_data path address;
    Ok (c, Some (Inode (u32 inr) (u32 n) mode offset))
  else Ok (c, Some (Inode (u32 inr) (u32 n) mode 0)).

Definition btrfs_iget_root (c : C) : result (C * option inode) :=
  btrfs_iget_by_inr c BTRFS_FIRST_CHUNK_TREE_OBJECTID.

Definition btrfs_iget (c : C) (name : list Z) (parent : inode) : result (C * option inode) :=
  len ← strlen name;
  hash ← btrfs_name_hash name len;
  '(c, path, ret) ← search_tree c fs_tree (Key (ino parent) BTRFS_DIR_ITEM_KEY hash) clear_path;
  if decide (ret <> 0) then Ok (c, None) else
  location ← dir_item_location (data path);
  btrfs_iget_by_inr c (k_objectid location).

(** The string and its length. *)
Definition btrfs_readlink (c : C) (i : inode) : result (C * list Z * Z) :=
  o ← logical_physical chunk_map (pvt_offset i);
  '(c, buf) ← btrfs_read c o (size i);
  Ok (c, buf ++ [0], size i).

(** The new offset and the entry; [None] for -1. *)
Definition btrfs_readdir (c : C) (i : inode) (pos : Z) : result (C * Z * option dirent) :=
  let key := Key (ino i) BTRFS_DIR_ITEM_KEY (u32 (pos - 1)) in
  '(c, path, ret) ← search_tree c fs_tree key clear_path;
  if decide (ret <> 0 /\ btrfs_comp_keys_type key (ikey (item path)) <> 0) then Ok (c, pos, None) else
  let pos := u32 (k_offset (ikey (item path))) in
  location ← dir_item_location (data path);
  n ← dir_item_name_len (data path);
  t ← dir_item_type (data path);
  let name := dir_item_name (data path) in
  if decide (NAME_MAX < n \/ Z.of_nat (length name) < n) then Undef else
  Ok (c, pos, Some (Dirent_ (u32 (k_objectid location)) pos (u16 (d_name_offset + n + 1)) (IFTODT t)
                     (take (Z.to_nat n) name))).

(** ** Extents *)

Context (sec_shift : Z).

(** The state of an open file for [generic_getfssec]. *)
Abbreviation open_inode := (C * inode)%type.

Definition btrfs_next_extent (s : open_inode) (e : extent) (l : Z) : result (open_inode * extent * bool) :=
  let '(c, i) := s in
  let key := Key (ino i) BTRFS_EXTENT_DATA_KEY (u32 (Z.shiftl l sec_shift)) in
  '(c, path, ret) ← search_tree c fs_tree key clear_path;
  if decide (ret <> 0) then Ok ((c, i), e, true) else
  encryption ← extent_encryption (data path);
  if decide (encryption <> 0) then Ok ((c, i), e, true) else
  compression ← extent_compression (data path);
  if decide (compression <> 0) then Ok ((c, i), e, true) else
  ty ← extent_type (data path);
  address ← extent_disk_bytenr (data path);
  start ← extent_offset (data path);
  bytes ← extent_num_bytes (data path);
  offset ← extent_data path (u64 (address + start));
  let len := if decide (ty = BTRFS_FILE_EXTENT_INLINE) then Z.shiftr (u32 (size i + 2 ^ sec_shift - 1)) sec_shift
             else u32 (Z.shiftr (u64 (bytes + 2 ^ sec_shift - 1)) sec_shift) in
  p ← logical_physical chunk_map offset;
  Ok ((c, Inode (ino i) (size i) (mode i) offset), Extent (Z.shiftr p sec_shift) (lstart e) len, false).
End Globals.
End Trees.

(** The file that is read is the one of the sizes and extents above.  The
    results are those of [generic_getfssec].  memcpy copies upwards. *)
Section GetFsSec.
Context {C : Type} `{BC : !BlockCache C} `{SD : SectorDevice}.

Definition btrfs_ops (fuel : nat) (chunk_map : btrfs_chunk_map) (sb : list Z) (fs_tree : Z) (size : Z) :
    ExtentOps (C * inode) :=
  {| next_extent := btrfs_next_extent fuel chunk_map sb fs_tree sector_shift; inode_size := size |}.

Definition btrfs_getfssec (fuel rfuel : nat) (chunk_map : btrfs_chunk_map) (sb : list Z) (fs_tree : Z)
    (f : ReadFile.inode (S := C * inode)) (pos : Z) (buf : list Z) (sectors : Z) :
    result (ReadFile.inode (S := C * inode) * list Z * Z * option bool * Z) :=
  let '(c, i) := ReadFile.pvt f in
  let off := pvt_offset i mod 2 ^ sector_shift in
  let handle_inline := bool_decide (off <> 0 /\ pos = 0) in
  let i := if handle_inline then Inode (ino i) (u32 (size i + off)) (mode i) (pvt_offset i) else i in
  let f := ReadFile.Inode (ReadFile.this_extent f) (ReadFile.next_ext f) (c, i) in
  '(f, buf, pos, more, ret) ←
    ReadFile.generic_getfssec (EO := btrfs_ops fuel chunk_map sb fs_tree (size i)) rfuel f pos buf sectors;
  if decide (ret = 0) then Ok (f, buf, pos, more, ret) else
  let off := pvt_offset (ReadFile.pvt f).2 mod 2 ^ sector_shift in
  if (handle_inline : bool) then
    let ret := u32 (ret - off) in
    if decide (off + ret <= Z.of_nat (length buf)) then
      Ok (f, overwrite buf (sub buf off (Z.to_nat ret)), pos, more, ret)
    else Undef
  else Ok (f, buf, pos, more, ret).
End GetFsSec.

(** ** Mounting *)

(** The superblock, the map and the tree; [None] for another file system. *)
Definition btrfs_mount {C} `{BC : !BlockCache C} (fuel : nat) (c : C) (SubvolName : list Z) :
    result (C * option (list Z * btrfs_chunk_map * Z)) :=
  '(c, sb) ← btrfs_read_super_block c;
  d ← strncmp (sb_magic sb) BTRFS_MAGIC 8;
  if decide (d <> 0) then Ok (c, None) else
  map ← btrfs_read_sys_chunk_array sb [];
  '(c, map) ← btrfs_read_chunk_tree fuel c sb map;
  '(c, fs_tree) ← btrfs_get_fs_tree fuel map sb c SubvolName;
  Ok (c, Some (sb, map, fs_tree)).

(** The block shift comes with them. *)
Definition btrfs_fs_init `{BD : BlockDevice} `{BC : !BlockCache Cache.device} (fuel : nat) (d : Cache.device)
    (SubvolName : list Z) : result (Cache.device * option (Z * (list Z * btrfs_chunk_map * Z))) :=
  '(c, r) ← btrfs_mount fuel (Cache.cache_init d BTRFS_BLOCK_SHIFT) SubvolName;
  Ok (c, match r with Some m => Some (BTRFS_BLOCK_SHIFT, m) | None => None end).

End Btrfs.
