(* ===== verification/BtrfsSpec.v ===== *)
(** * Btrfs: what its parts compute

    The binary search, the map of chunks as a partial function, and reading
    from the cache. *)

From Stdlib Require Import ZArith Lia.
From stdpp Require Import sorting.
From S2P Require Import Prelude BlockCache Btrfs.
Import Btrfs.

Module BtrfsSpec.

(** ** The binary search *)

(** The items of a sorted array, compared with the one that is looked for. *)
Definition ascending (g : Z -> Z) (min max : Z) : Prop := forall i j, min <= i < j -> j < max -> 0 <= g i -> 0 < g j.

(** Slot [s] is where the item is, or where it would be inserted. *)
Definition search_result (g : Z -> Z) (min max ret s : Z) : Prop :=
  min <= s <= max /\ (forall i, min <= i < s -> g i < 0) /\
  (ret = 0 /\ s < max /\ g s = 0 \/ ret = 1 /\ forall i, s <= i < max -> 0 < g i).

Lemma bin_search_loop f g min max n low high :
  (forall i, min <= i < max -> f i = Ok (g i)) -> ascending g min max ->
  min <= low <= high -> high <= max -> max < 0x40000000 -> 0 <= min -> high - low < 2 ^ Z.of_nat n ->
  (forall i, min <= i < low -> g i < 0) -> (forall i, high <= i < max -> 0 < g i) ->
  exists ret s, loop (S n) (search_step f) (low, high) = Ok (ret, s) /\ search_result g min max ret s.
Proof.
  intros Hf Hg. revert low high. induction n as [|n IH]; intros low high Hlow Hhigh Hmax Hmin Hn Hbelow Habove.
  { change (2 ^ Z.of_nat 0) with 1 in Hn. assert (low = high) as -> by lia. exists 1, high. split.
    - apply loop_break. unfold search_step. by rewrite decide_False by lia.
    - split; [lia|]. split; [done|]. by right. }
  unfold search_step at 1. destruct (decide (low < high)) as [Hlt|Hge].
  2: { exists 1, low. split; [apply loop_break; unfold search_step; by rewrite decide_False by lia|].
       split; [lia|]. split; [done|]. right. split; [done|]. intros i Hi. apply Habove. lia. }
  set (mid := (low + high) / 2). assert (low <= mid < high) as Hmid by (unfold mid; dlia).
  assert (high - mid <= 2 ^ Z.of_nat n /\ mid - low < 2 ^ Z.of_nat n) as [H1 H2].
  { rewrite Nat2Z.inj_succ, Z.pow_succ_r in Hn by lia. unfold mid. dlia. }
  assert (search_step f (low, high) = if decide (g mid < 0) then Ok (Continue (mid + 1, high)) else
            if decide (g mid > 0) then Ok (Continue (low, mid)) else Ok (Break (0, mid))) as Estep.
  { unfold search_step. rewrite decide_True by lia. rewrite decide_True by lia. fold mid. by rewrite Hf by lia. }
  destruct (decide (g mid < 0)) as [Hneg|Hnn]; [|destruct (decide (g mid > 0)) as [Hpos|Hz]].
  - rewrite (loop_continue _ _ _ _ Estep). apply IH; try done; try lia.
    intros i Hi. destruct (decide (i < low)); [apply Hbelow; lia|].
    destruct (Z.lt_ge_cases (g i) 0) as [|Hgi]; [done|]. destruct (decide (i = mid)) as [->|]; [done|].
    pose proof (Hg i mid ltac:(lia) ltac:(lia) Hgi). lia.
  - rewrite (loop_continue _ _ _ _ Estep). apply IH; try done; try lia.
    intros i Hi. destruct (decide (high <= i)); [apply Habove; lia|].
    destruct (decide (i = mid)) as [->|]; [lia|]. apply (Hg mid i); lia.
  - exists 0, mid. split; [by apply loop_break|]. split; [lia|]. split; [|left; lia].
    intros i Hi. destruct (Z.lt_ge_cases (g i) 0) as [|Hgi]; [done|]. pose proof (Hg i mid ltac:(lia) ltac:(lia) Hgi). lia.
Qed.

Lemma bin_search_ok f g min max :
  (forall i, min <= i < max -> f i = Ok (g i)) -> ascending g min max ->
  0 <= min <= max -> max < 0x40000000 ->
  exists ret s, bin_search f min max = Ok (ret, s) /\ search_result g min max ret s.
Proof.
  intros Hf Hg Hm Hmax. apply (bin_search_loop f g min max 32); try done; try lia.
Qed.

(** The slot that the search of a tree takes, in an array with the increasing
    keys [K]: the last one whose key is not greater, or the first one. *)
Definition slot_of (K : Z -> Z) (min max key s : Z) : Prop :=
  min <= s < max /\ (forall i, s < i < max -> key < K i) /\ (s = min \/ K s <= key).

Definition increasing (K : Z -> Z) (max : Z) : Prop := forall i j, 0 <= i < j -> j < max -> K i < K j.

Lemma adjusted_slot f K min max key :
  (forall i, min <= i < max -> exists x, f i = Ok x /\ Z.sgn x = Z.sgn (K i - key)) -> increasing K max ->
  0 <= min < max -> max < 0x40000000 ->
  exists ret s, bin_search f min max = Ok (ret, s) /\ slot_of K min max key (adjust_slot ret s min) /\
    (ret = 0 \/ ret = 1) /\ (ret = 0 <-> K (adjust_slot ret s min) = key).
Proof.
  intros Hf HK Hm Hmax. set (g i := match f i with Ok x => x | _ => 0 end).
  assert (forall i, min <= i < max -> f i = Ok (g i) /\ Z.sgn (g i) = Z.sgn (K i - key)) as Hg.
  { intros i Hi. unfold g. destruct (Hf i Hi) as (x & -> & Hx). done. }
  destruct (bin_search_ok f g min max) as (ret & s & E & Hs & Hlow & Hor); try lia.
  { intros i Hi. by apply Hg. }
  { intros i j Hi Hj Hgi. pose proof (HK i j ltac:(lia) Hj).
    destruct (Hg i ltac:(lia)) as [_ Ei]. destruct (Hg j ltac:(lia)) as [_ Ej]. lia. }
  exists ret, s. split; [done|]. unfold adjust_slot.
  assert (forall i, min <= i < s -> K i < key) as Hbelow.
  { intros i Hi. pose proof (Hlow i Hi). destruct (Hg i ltac:(lia)) as [_ Ei]. lia. }
  destruct Hor as [(-> & Hsm & Hz)|(-> & Hhigh)].
  - rewrite decide_False by lia. destruct (Hg s ltac:(lia)) as [_ Es]. split; [|lia].
    split; [lia|]. split; [|lia]. intros i Hi. pose proof (HK s i). lia.
  - assert (forall i, s <= i < max -> key < K i) as Habove.
    { intros i Hi. pose proof (Hhigh i Hi). destruct (Hg i ltac:(lia)) as [_ Ei]. lia. }
    case_decide as Hd.
    + pose proof (Hbelow (s - 1) ltac:(lia)). split; [|lia]. split; [lia|]. split; [|lia]. intros i Hi. apply Habove. lia.
    + pose proof (Habove s ltac:(lia)). split; [|lia]. split; [lia|]. split; [|lia]. intros i Hi. apply Habove. lia.
Qed.

Lemma compare_sgn a b : Z.sgn (compare a b) = Z.sgn (a - b).
Proof. unfold compare. repeat case_decide; cbn [Z.sgn]; lia. Qed.

(** ** The map of chunks *)

Definition covers (m : btrfs_chunk_map_item) (l : Z) : Prop := mi_logical m <= l < mi_logical m + mi_length m.

#[export] Instance covers_dec m l : Decision (covers m l) := _.

Definition chunk_ok (m : btrfs_chunk_map_item) : Prop :=
  0 <= mi_logical m /\ 0 < mi_length m /\ mi_logical m + mi_length m < 2 ^ 64 /\
  0 <= mi_physical m /\ mi_physical m + mi_length m < 2 ^ 63.

#[export] Instance chunk_ok_dec m : Decision (chunk_ok m) := _.

(** Chunks that do not meet. *)
Definition apart (map : btrfs_chunk_map) : Prop :=
  forall a b, a ∈ map -> b ∈ map -> mi_logical a < mi_logical b -> mi_logical a + mi_length a <= mi_logical b.

Definition by_logical (a b : btrfs_chunk_map_item) : Prop := mi_logical a < mi_logical b.

Record map_ok (map : btrfs_chunk_map) : Prop := {
  mo_sorted : StronglySorted by_logical map;
  mo_chunks : Forall chunk_ok map;
  mo_apart : apart map;
  mo_length : Z.of_nat (length map) <= BTRFS_MAX_CHUNK_ENTRIES }.

(** The physical address of a logical one. *)
Definition chunk_address (m : btrfs_chunk_map_item) (l : Z) : Z := mi_physical m + (l - mi_logical m).

Definition translate (map : btrfs_chunk_map) (l : Z) : option Z :=
  head (omap (fun m => if decide (covers m l) then Some (chunk_address m l) else None) map).

Lemma sorted_lookup map i j a b : StronglySorted by_logical map -> (i < j)%nat ->
  map !! i = Some a -> map !! j = Some b -> mi_logical a < mi_logical b.
Proof.
  intros Hs. revert i j. induction Hs as [|m map _ IH Hm]; intros i j Hij Ha Hb; [done|].
  destruct j as [|j]; [lia|]. destruct i as [|i]; [|by apply (IH i j); [lia| |]].
  injection Ha as <-. rewrite Forall_forall in Hm. apply Hm. by eapply list_elem_of_lookup_2.
Qed.

Lemma translate_None map l : (forall m, m ∈ map -> ~ covers m l) -> translate map l = None.
Proof.
  intros H. unfold translate. induction map as [|m map IH]; [done|]. cbn [omap list_omap].
  rewrite decide_False by (apply H; by left). apply IH. intros m' Hm'. apply H. by right.
Qed.

Lemma translate_covered map m l : (forall m', m' ∈ map -> covers m' l -> m' = m) -> m ∈ map -> covers m l ->
  translate map l = Some (chunk_address m l).
Proof.
  intros Hu Hm Hc. unfold translate. induction map as [|a map IH]; [by apply elem_of_nil in Hm|].
  cbn [omap list_omap]. case_decide as Ha.
  - cbn. by rewrite (Hu a) by (done || by left).
  - apply elem_of_cons in Hm as [->|Hm]; [done|]. apply IH; [|done]. intros m' Hm'. apply Hu. by right.
Qed.

(** At most one chunk has an address. *)
Lemma covers_unique map a b l : StronglySorted by_logical map -> apart map -> a ∈ map -> b ∈ map ->
  covers a l -> covers b l -> a = b.
Proof.
  intros Hs Hap Ha Hb Hca Hcb. unfold covers in *.
  destruct (Z.lt_trichotomy (mi_logical a) (mi_logical b)) as [H|[H|H]].
  - pose proof (Hap _ _ Ha Hb H). lia.
  - apply list_elem_of_lookup_1 in Ha as [i Hi]. apply list_elem_of_lookup_1 in Hb as [j Hj].
    destruct (Nat.lt_trichotomy i j) as [Hij|[->|Hij]]; [|congruence|].
    + pose proof (sorted_lookup _ _ _ _ _ Hs Hij Hi Hj). lia.
    + pose proof (sorted_lookup _ _ _ _ _ Hs Hij Hj Hi). lia.
  - pose proof (Hap _ _ Hb Ha H). lia.
Qed.

Lemma translate_ok map m l : map_ok map -> m ∈ map -> covers m l -> translate map l = Some (chunk_address m l).
Proof.
  intros Hok Hm Hc. apply translate_covered; [|done..]. intros m' Hm' Hc'. by eapply (covers_unique map); try apply Hok.
Qed.

(** The search in the map. *)
Lemma search_map_ok map m2 : StronglySorted by_logical map -> Z.of_nat (length map) < 0x40000000 ->
  exists ret s, search_map map m2 = Ok (ret, Z.of_nat s) /\ (s <= length map)%nat /\
    (forall i m, (i < s)%nat -> map !! i = Some m -> mi_logical m < mi_logical m2) /\
    (ret = 0 /\ (exists m, map !! s = Some m /\ mi_logical m = mi_logical m2) \/
     ret = 1 /\ forall i m, (s <= i)%nat -> map !! i = Some m -> mi_logical m2 < mi_logical m).
Proof.
  intros Hs Hl. set (g i := match map !! Z.to_nat i with Some m => btrfs_comp_chunk_map m m2 | None => 0 end).
  assert (forall i m, map !! i = Some m -> Z.sgn (g (Z.of_nat i)) = Z.sgn (mi_logical m - mi_logical m2)) as Hg.
  { intros i m Hm. unfold g. rewrite Nat2Z.id, Hm. apply compare_sgn. }
  assert (forall i, 0 <= i < Z.of_nat (length map) -> exists m, map !! Z.to_nat i = Some m) as Hlk.
  { intros i Hi. apply lookup_lt_is_Some_2. lia. }
  destruct (bin_search_ok (fun i => m1 ← of_option (map !! Z.to_nat i); Ok (btrfs_comp_chunk_map m1 m2)) g 0
    (Z.of_nat (length map))) as (ret & s & E & Hsl & Hlow & Hor); [| |lia|lia|].
  { intros i Hi. destruct (Hlk i Hi) as [m Hm]. unfold g. by rewrite Hm. }
  { intros i j Hi Hj Hgi. destruct (Hlk i ltac:(lia)) as [a Ha]. destruct (Hlk j ltac:(lia)) as [b Hb].
    pose proof (sorted_lookup _ (Z.to_nat i) (Z.to_nat j) _ _ Hs ltac:(lia) Ha Hb).
    pose proof (Hg _ _ Ha) as E1. pose proof (Hg _ _ Hb) as E2. rewrite Z2Nat.id in E1, E2 by lia. lia. }
  exists ret, (Z.to_nat s). rewrite Z2Nat.id by lia. split; [done|]. split; [lia|]. split.
  { intros i m Hi Hm. pose proof (Hg _ _ Hm). pose proof (Hlow (Z.of_nat i) ltac:(lia)). lia. }
  destruct Hor as [(-> & Hlt & Hz)|(-> & Hhigh)].
  - left. split; [done|]. destruct (Hlk s ltac:(lia)) as [m Hm]. exists m. split; [done|].
    pose proof (Hg _ _ Hm) as E1. rewrite Z2Nat.id in E1 by lia. lia.
  - right. split; [done|]. intros i m Hi Hm. pose proof (Hg _ _ Hm). pose proof (lookup_lt_Some _ _ _ Hm).
    pose proof (Hhigh (Z.of_nat i) ltac:(lia)). lia.
Qed.

(** The address that [logical_physical] computes is the one in the chunk that
    has the logical address, or -1 if there is none. *)
Theorem logical_physical_correct map l : map_ok map -> 0 <= l < 2 ^ 64 ->
  logical_physical map l = Ok (match translate map l with Some p => p | None => u64 (-1) end).
Proof.
  intros Hok Hl. destruct Hok as [Hs Hch Hap Hlen] eqn:E. clear E. unfold BTRFS_MAX_CHUNK_ENTRIES in Hlen.
  destruct (search_map_ok map (MapItem l 0 0 0) Hs ltac:(lia)) as (ret & s & E & Hsl & Hlow & Hor).
  cbn [mi_logical] in *. unfold logical_physical. rewrite E. cbn [mbind result_bind].
  rewrite Forall_forall in Hch. change (2 ^ 64) with 0x10000000000000000 in *.
  assert (forall m, m ∈ map -> covers m l -> exists t, ((t < s)%nat \/ ret = 0 /\ t = s) /\ map !! t = Some m) as Hin.
  { intros m Hm [Hc1 Hc2]. apply list_elem_of_lookup_1 in Hm as [t Ht]. exists t. split; [|done].
    destruct (decide (t < s)%nat) as [|Hge]; [by left|]. right.
    destruct Hor as [(-> & x & Hx & Ex)|(-> & Hhigh)]; [|pose proof (Hhigh t m ltac:(lia) Ht); lia].
    split; [done|]. destruct (decide (t = s)) as [|Hne]; [done|].
    pose proof (sorted_lookup _ s t _ _ Hs ltac:(lia) Hx Ht). lia. }
  destruct (decide (ret <> 0 /\ Z.of_nat s = 0)) as [[Hr H0]|Hn].
  { rewrite translate_None; [done|]. intros m Hm Hc. destruct (Hin m Hm Hc) as (t & [|[]] & _); lia. }
  set (t := if decide (ret = 0) then s else (s - 1)%nat).
  assert (Z.to_nat ((if decide (ret = 0) then Z.of_nat s + 1 else Z.of_nat s) - 1) = t) as ->.
  { unfold t. case_decide; lia. }
  assert (exists m, map !! t = Some m /\ mi_logical m <= l) as (m & Hm & Hle).
  { unfold t. destruct Hor as [(-> & x & Hx & Ex)|(-> & Hhigh)].
    - rewrite decide_True by done. exists x. split; [done|lia].
    - rewrite decide_False by done. destruct (lookup_lt_is_Some_2 map (s - 1)) as [m Hm]; [lia|].
      exists m. split; [done|]. pose proof (Hlow (s - 1)%nat m ltac:(lia) Hm). lia. }
  rewrite Hm. cbn [of_option mbind result_bind]. apply list_elem_of_lookup_2 in Hm as Hel.
  pose proof (Hch m Hel) as (H0 & H1 & H2 & H3 & H4). change (2 ^ 63) with 0x8000000000000000 in *.
  change (2 ^ 64) with 0x10000000000000000 in *. rewrite (u64_small (mi_logical m + _)) by lia.
  case_decide as Hend.
  - rewrite translate_None; [done|]. intros m' Hm' Hc. destruct (Hin m' Hm' Hc) as (t' & Ht' & Hl').
    unfold covers in Hc. assert (t' <= t)%nat as Htt by (unfold t; case_decide; lia).
    destruct (decide (t' = t)) as [->|Hne]; [rewrite Hm in Hl'; injection Hl' as ->; lia|].
    pose proof (sorted_lookup _ t' t _ _ Hs ltac:(lia) Hl' Hm).
    pose proof (Hap _ _ Hm' Hel ltac:(lia)). lia.
  - rewrite (translate_ok _ m) by (try done; unfold covers; lia). unfold chunk_address.
    unfold u64. rewrite Zminus_mod_idemp_l. f_equal.
    replace (mi_physical m + l - mi_logical m) with (mi_physical m + (l - mi_logical m)) by lia.
    apply Z.mod_small. lia.
Qed.

(** Moving the entries up. *)
Lemma shift_items_ok m l1 l2 x t :
  <[length l1 := m]> (shift_items (l1 ++ l2 ++ x :: t) (length l1) (length l1 + length l2)) = l1 ++ m :: l2 ++ t.
Proof.
  revert x t. induction l2 as [|y l2 IH] using rev_ind; intros x t.
  - rewrite Nat.add_0_r. cbn [app]. destruct (length l1) as [|k] eqn:Ek.
    + by destruct l1.
    + cbn [shift_items]. rewrite decide_False by lia. rewrite <- Ek, insert_app_r_alt by lia. by rewrite Nat.sub_diag.
  - rewrite length_app. cbn [length]. replace (length l1 + (length l2 + 1))%nat with (S (length l1 + length l2)) by lia.
    cbn [shift_items]. rewrite decide_True by lia. rewrite <- app_assoc. cbn [app].
    assert ((l1 ++ l2 ++ y :: x :: t) !! (length l1 + length l2)%nat = Some y) as ->.
    { rewrite app_assoc, <- length_app. by apply list_lookup_middle. }
    replace (<[S (length l1 + length l2) := y]> (l1 ++ l2 ++ y :: x :: t)) with (l1 ++ l2 ++ y :: y :: t).
    + rewrite IH. by rewrite <- app_assoc.
    + rewrite !app_assoc, <- length_app. rewrite insert_app_r_alt by lia. f_equal.
      by replace (S (length (l1 ++ l2)) - length (l1 ++ l2))%nat with 1%nat by lia.
Qed.

(** Inserting keeps the map sorted; what has the address already stays. *)
Theorem insert_map_ok map m : StronglySorted by_logical map -> Z.of_nat (length map) < BTRFS_MAX_CHUNK_ENTRIES ->
  exists map', insert_map map m = Ok map' /\ StronglySorted by_logical map' /\
    (length map' <= S (length map))%nat /\
    (forall x, x ∈ map' <-> x ∈ map \/ x = m /\ forall y, y ∈ map -> mi_logical y <> mi_logical m).
Proof.
  intros Hs Hl. unfold BTRFS_MAX_CHUNK_ENTRIES in *. destruct map as [|a map0] eqn:Em.
  { exists [m]. split; [done|]. split; [by repeat constructor|]. split; [done|]. intros x. rewrite list_elem_of_singleton.
    split; [|by intros [H%elem_of_nil|[]]]. intros ->. right. split; [done|]. by intros y ?%elem_of_nil. }
  rewrite <- Em in *. destruct (search_map_ok map m Hs ltac:(lia)) as (ret & s & E & Hsl & Hlow & Hor).
  assert (insert_map map m = '(ret, slot) ← search_map map m;
      if decide (ret = 0) then Ok map else
      if decide (Z.of_nat (length map) = BTRFS_MAX_CHUNK_ENTRIES) then Ok map else
      Ok (<[Z.to_nat slot := m]> (shift_items (map ++ [m]) (Z.to_nat slot) (length map)))) as -> by by rewrite Em.
  clear a map0 Em. rewrite E. cbn [mbind result_bind]. destruct Hor as [(-> & x & Hx & Ex)|(-> & Hhigh)].
  { rewrite decide_True by done. exists map. split; [done|]. split; [done|]. split; [lia|]. intros z. split; [by left|].
    intros [|[-> Hn]]; [done|]. destruct (Hn x); [by eapply list_elem_of_lookup_2|done]. }
  rewrite decide_False, decide_False by (unfold BTRFS_MAX_CHUNK_ENTRIES; lia). rewrite Nat2Z.id.
  assert (exists l1 l2, map = l1 ++ l2 /\ length l1 = s) as (l1 & l2 & -> & <-).
  { exists (take s map), (drop s map). rewrite take_drop, length_take. split; [done|lia]. }
  rewrite length_app, <- app_assoc. rewrite (shift_items_ok m l1 l2 m []). rewrite app_nil_r.
  eexists. split; [reflexivity|].
  assert (forall y, y ∈ l1 -> mi_logical y < mi_logical m) as H1.
  { intros y [i Hi]%list_elem_of_lookup_1. pose proof (lookup_lt_Some _ _ _ Hi).
    apply (Hlow i y); [done|]. by rewrite lookup_app_l. }
  assert (forall y, y ∈ l2 -> mi_logical m < mi_logical y) as H2.
  { intros y [i Hi]%list_elem_of_lookup_1. apply (Hhigh (length l1 + i)%nat y); [lia|].
    rewrite lookup_app_r by lia. by replace (length l1 + i - length l1)%nat with i by lia. }
  apply StronglySorted_app in Hs as (Hcross & Hs1 & Hs2). split; [|split].
  - apply StronglySorted_app. split; [|split; [done|]].
    + intros a b Ha [->|Hb]%elem_of_cons; [by apply H1|]. by apply Hcross.
    + constructor; [done|]. apply Forall_forall. intros b Hb. by apply H2.
  - rewrite !length_app. cbn. lia.
  - intros x. rewrite !elem_of_app, elem_of_cons. split; [|tauto]. intros [|[->|]]; try tauto. right. split; [done|].
    intros y [Hy|Hy]%elem_of_app; [pose proof (H1 y Hy)|pose proof (H2 y Hy)]; lia.
Qed.
(** ** Reading from the cache *)

Section Read.
Context {C : Type} `{BC : !BlockCache C}.

(** The byte at an address of the disk, and [n] bytes from there. *)
Definition disk_byte (a : Z) : Z := default 0 (cdata (a / csize) !! Z.to_nat (a mod csize)).
Definition disk_bytes (a : Z) (n : nat) : list Z := disk_byte <$> seqZ a (Z.of_nat n).

Lemma disk_bytes_length a n : length (disk_bytes a n) = n.
Proof. unfold disk_bytes. rewrite length_fmap, length_seqZ. lia. Qed.

Lemma disk_bytes_lookup a n i : (i < n)%nat -> disk_bytes a n !! i = Some (disk_byte (a + Z.of_nat i)).
Proof. intros. unfold disk_bytes. rewrite list_lookup_fmap, lookup_seqZ_lt by lia. done. Qed.

Lemma disk_bytes_app a n m : disk_bytes a (n + m) = disk_bytes a n ++ disk_bytes (a + Z.of_nat n) m.
Proof. unfold disk_bytes. by rewrite Nat2Z.inj_add, seqZ_app, fmap_app by lia. Qed.

Lemma disk_byte_ok a : byte_ok (disk_byte a).
Proof.
  unfold disk_byte. destruct (cdata _ !! _) as [b|] eqn:E; [|by split]. pose proof (cdata_bytes (a / csize)) as H.
  rewrite Forall_forall in H. apply H. by eapply list_elem_of_lookup_2.
Qed.

Lemma disk_bytes_ok a n : Forall byte_ok (disk_bytes a n).
Proof. apply Forall_fmap, Forall_true. intros. apply disk_byte_ok. Qed.

(** A part of the bytes. *)
Lemma sub_disk_bytes a n i m : 0 <= i -> i + Z.of_nat m <= Z.of_nat n ->
  sub (disk_bytes a n) i m = disk_bytes (a + i) m.
Proof.
  intros Hi Hm. replace n with (Z.to_nat i + (m + (n - Z.to_nat i - m)))%nat by lia.
  rewrite !disk_bytes_app, Z2Nat.id by lia.
  pose proof (disk_bytes_length a (Z.to_nat i)) as H1. pose proof (disk_bytes_length (a + i) m) as H2.
  unfold sub. rewrite drop_app_length' by lia. by rewrite take_app_length' by lia.
Qed.

(** A part of a block. *)
Lemma sub_block a n : 0 <= a -> a mod csize + Z.of_nat n <= csize ->
  sub (cdata (a / csize)) (a mod csize) n = disk_bytes a n.
Proof.
  intros Ha Hn. pose proof csize_pos as Hc. pose proof (Z.mod_pos_bound a csize Hc) as Hm.
  pose proof (cdata_length (a / csize)) as Hlen.
  apply list_eq_same_length with (n := n); [apply disk_bytes_length|apply sub_length; lia|].
  intros i x y Hi Hx Hy. rewrite disk_bytes_lookup in Hy by lia. injection Hy as <-.
  unfold sub in Hx. rewrite lookup_take_lt, lookup_drop in Hx by lia. unfold disk_byte.
  assert ((a + Z.of_nat i) / csize = a / csize /\ (a + Z.of_nat i) mod csize = a mod csize + Z.of_nat i) as [-> ->].
  { assert (a = csize * (a / csize) + a mod csize) as E by (apply Z.div_mod; lia). split.
    - symmetry. apply (Z.div_unique_pos _ _ _ (a mod csize + Z.of_nat i)); lia.
    - symmetry. apply (Z.mod_unique_pos _ _ (a / csize)); lia. }
  replace (Z.to_nat (a mod csize + Z.of_nat i)) with (Z.to_nat (a mod csize) + i)%nat by lia. by rewrite Hx.
Qed.

(** The addresses that a read may have. *)
Definition readable (a n : Z) : Prop := 0 <= a /\ 0 <= n /\ a + n < 2 ^ 63.

Lemma btrfs_read_loop n c buf a : cinv c -> readable a (Z.of_nat n) ->
  forall k, (n < k)%nat -> exists c', cinv c' /\ loop k read_step (c, buf, a, Z.of_nat n) = Ok (c', buf ++ disk_bytes a n).
Proof.
  revert c buf a. induction (lt_wf n) as [n _ IH]. intros c buf a Hc (Ha & _ & Hn) k Hk. destruct k as [|k]; [lia|].
  pose proof csize_pos as Hs. change (2 ^ 63) with 0x8000000000000000 in *.
  destruct (decide (n = 0)%nat) as [->|Hn0].
  { exists c. split; [done|]. rewrite app_nil_r. by apply loop_break. }
  set (off := a mod csize). pose proof (Z.mod_pos_bound a csize Hs) as Hoff. fold off in Hoff.
  set (cnt := if decide (csize - off > Z.of_nat n) then Z.of_nat n else csize - off).
  assert (0 < cnt <= Z.of_nat n /\ off + cnt <= csize) as [Hcnt Hfit] by (unfold cnt; case_decide; lia).
  assert (0 <= a / csize < u64 (-1)) as Hb.
  { split; [apply Z.div_pos; lia|]. apply (Z.le_lt_trans _ a); [apply Z.div_le_upper_bound; nia|].
    change (u64 (-1)) with 0xffffffffffffffff. lia. }
  destruct (cblock_ok c (a / csize) Hc Hb) as [Hd Hc'].
  assert (read_step (c, buf, a, Z.of_nat n) = Ok (Continue (fst (cblock c (a / csize)),
    buf ++ disk_bytes a (Z.to_nat cnt), a + cnt, Z.of_nat n - cnt))) as Estep.
  { unfold read_step. rewrite decide_True by lia. fold off cnt. destruct (cblock c (a / csize)) as [c' d]. cbn [fst snd] in *.
    rewrite u64_small, Hd by lia. unfold off. rewrite sub_block by (fold off; lia). done. }
  rewrite (loop_continue _ _ _ _ Estep).
  replace (Z.of_nat n - cnt) with (Z.of_nat (n - Z.to_nat cnt)) by lia.
  destruct (IH (n - Z.to_nat cnt)%nat ltac:(lia) (fst (cblock c (a / csize))) (buf ++ disk_bytes a (Z.to_nat cnt)) (a + cnt)
    Hc') with (k := k) as (c' & Hc'' & E); [|lia|].
  { unfold readable. change (2 ^ 63) with 0x8000000000000000. lia. }
  exists c'. split; [done|]. rewrite E. rewrite <- app_assoc. do 3 f_equal.
  replace n with (Z.to_nat cnt + (n - Z.to_nat cnt))%nat at 2 by lia. rewrite disk_bytes_app.
  by replace (a + Z.of_nat (Z.to_nat cnt)) with (a + cnt) by lia.
Qed.

Lemma btrfs_read_ok c a n : cinv c -> readable a n ->
  exists c', cinv c' /\ btrfs_read c a n = Ok (c', disk_bytes a (Z.to_nat n)).
Proof.
  intros Hc Hr. unfold btrfs_read.
  destruct (btrfs_read_loop (Z.to_nat n) c [] a Hc) with (k := S (Z.to_nat n)) as (c' & Hc' & E); [|lia|].
  { destruct Hr as (? & ? & ?). unfold readable. lia. }
  exists c'. split; [done|]. rewrite Z2Nat.id in E by (destruct Hr; lia). done.
Qed.

Lemma read_to_ok c room a n : cinv c -> readable a n -> n <= room ->
  exists c', cinv c' /\ read_to c room a n = Ok (c', disk_bytes a (Z.to_nat n)).
Proof. intros Hc Hr Hn. unfold read_to. rewrite decide_True by done. by apply btrfs_read_ok. Qed.
End Read.
End BtrfsSpec.
