(* ===== verification/BtrfsTreeSpec.v ===== *)
(** * Btrfs: the trees as sorted lists of items

    [items] are the items of a tree in the order of its leaves.  The search in
    the tree is the search in that list, and the path that it leaves is a
    position in it, from which [next_slot] and [next_leaf] go on. *)

From Stdlib Require Import ZArith Lia.
From S2P Require Import Prelude BlockCache Btrfs BtrfsSpec.
Import Btrfs BtrfsSpec.

Module BtrfsTreeSpec.

(** ** Keys *)

(** The place of a key in the order. *)
Definition knum (k : btrfs_disk_key) : Z :=
  k_objectid k * 0x1000000000000000000 + k_type k * 0x10000000000000000 + k_offset k.

Definition key_ok (k : btrfs_disk_key) : Prop :=
  0 <= k_objectid k < 0x10000000000000000 /\ 0 <= k_type k < 0x100 /\ 0 <= k_offset k < 0x10000000000000000.

Lemma comp_keys_sgn k1 k2 : key_ok k1 -> key_ok k2 -> Z.sgn (btrfs_comp_keys k1 k2) = Z.sgn (knum k1 - knum k2).
Proof.
  destruct k1 as [o1 t1 f1], k2 as [o2 t2 f2]. unfold key_ok, knum, btrfs_comp_keys. cbn [k_objectid k_type k_offset].
  intros (? & ? & ?) (? & ? & ?). symmetry. repeat case_decide; cbn [Z.sgn]; try (apply Z.sgn_pos_iff || apply Z.sgn_neg_iff || apply Z.sgn_null_iff); lia.
Qed.

Lemma knum_inj k1 k2 : key_ok k1 -> key_ok k2 -> knum k1 = knum k2 -> k1 = k2.
Proof.
  destruct k1 as [o1 t1 f1], k2 as [o2 t2 f2]. unfold key_ok, knum. cbn [k_objectid k_type k_offset].
  intros (? & ? & ?) (? & ? & ?) E. assert (o1 = o2) as -> by lia. assert (t1 = t2) as -> by lia. f_equal. lia.
Qed.

(** The keys of one kind of items of one object. *)
Definition same_type (k1 k2 : btrfs_disk_key) : Prop := k_objectid k1 = k_objectid k2 /\ k_type k1 = k_type k2.

#[export] Instance same_type_dec k1 k2 : Decision (same_type k1 k2) := _.

Lemma comp_keys_type_ok k1 k2 : btrfs_comp_keys_type k1 k2 = 0 <-> same_type k1 k2.
Proof. unfold btrfs_comp_keys_type, same_type. repeat case_decide; lia. Qed.

(** What is between two keys of a kind is of the kind. *)
Lemma same_type_between k k1 k2 : key_ok k -> key_ok k1 -> key_ok k2 -> same_type k k2 ->
  knum k <= knum k1 <= knum k2 -> same_type k k1.
Proof.
  intros (? & ? & ?) (? & ? & ?) (? & ? & ?) [E1 E2]. unfold knum, same_type. rewrite <- E1, <- E2. intros Hk. lia.
Qed.

(** ** Fields *)

Abbreviation fld n b o := (le_num (sub b o n)).

Definition keyof (b : list Z) (o : Z) : btrfs_disk_key := Key (fld 8 b o) (fld 1 b (o + 8)) (fld 8 b (o + 9)).

Lemma read_key_ok b o : 0 <= o -> o + 17 <= Z.of_nat (length b) -> read_key b o = Ok (keyof b o).
Proof. intros. unfold read_key. rewrite !getle_ok by lia. done. Qed.

Lemma fld_range n b o : Forall byte_ok b -> 0 <= fld n b o < 2 ^ (8 * Z.of_nat n).
Proof.
  intros Hb. pose proof (le_num_range (sub b o n) (sub_bytes _ _ _ Hb)) as H. split; [lia|].
  eapply Z.lt_le_trans; [apply H|]. apply Z.pow_le_mono_r; [lia|]. unfold sub. rewrite length_take. lia.
Qed.

Lemma keyof_ok b o : Forall byte_ok b -> key_ok (keyof b o).
Proof.
  intros Hb. unfold key_ok, keyof. cbn [k_objectid k_type k_offset].
  split; [|split]; [apply (fld_range 8)|apply (fld_range 1)|apply (fld_range 8)]; done.
Qed.

(** ** Lists of lists *)

Section Flat.
Context {A : Type} (f : Z -> list A).

Definition flat (n : Z) : list A := seqZ 0 n ≫= f.

Lemma flat_succ s : 0 <= s -> flat (s + 1) = flat s ++ f s.
Proof. intros Hs. unfold flat. rewrite seqZ_app, bind_app by lia. f_equal. cbn. apply app_nil_r. Qed.

Lemma flat_split n s : 0 <= s < n -> exists l, flat n = flat s ++ f s ++ l.
Proof.
  intros Hs. exists (seqZ (s + 1) (n - s - 1) ≫= f). rewrite app_assoc, <- flat_succ by lia.
  unfold flat. rewrite <- bind_app. f_equal. replace n with ((s + 1) + (n - s - 1)) at 1 by lia. by rewrite seqZ_app by lia.
Qed.

Lemma flat_lookup n s q x : 0 <= s < n -> f s !! q = Some x -> flat n !! (length (flat s) + q)%nat = Some x.
Proof.
  intros Hs Hx. destruct (flat_split n s Hs) as [l ->]. rewrite lookup_app_r by lia.
  replace (length (flat s) + q - length (flat s))%nat with q by lia.
  rewrite lookup_app_l; [done|]. by eapply lookup_lt_Some.
Qed.

Lemma flat_index n q x : 0 <= n -> flat n !! q = Some x ->
  exists s r, 0 <= s < n /\ q = (length (flat s) + r)%nat /\ f s !! r = Some x.
Proof.
  intros Hn. revert n Hn q. apply (natlike_ind (fun n => forall q, flat n !! q = Some x -> _)); [by intros q|].
  intros n Hn IH q. rewrite <- Z.add_1_r, flat_succ by lia. rewrite lookup_app_Some. intros [H|[Hge H]].
  - destruct (IH q H) as (s & r & Hs & -> & Hr). exists s, r. split; [lia|done].
  - exists n, (q - length (flat n))%nat. split; [lia|]. split; [lia|done].
Qed.

Lemma flat_mono s t : 0 <= s <= t -> (length (flat s) <= length (flat t))%nat.
Proof.
  intros Hst. destruct (decide (s = t)) as [->|Hne]; [done|]. destruct (flat_split t s ltac:(lia)) as [l ->].
  rewrite length_app. lia.
Qed.

(** Where one of the lists is, the others are before or after it. *)
Lemma flat_before n s t q r : 0 <= s < n -> 0 <= t < n -> (q < length (f s))%nat -> (r < length (f t))%nat ->
  (length (flat s) + q < length (flat t) + r)%nat -> s < t \/ s = t /\ (q < r)%nat.
Proof.
  intros Hs Ht Hq Hr Hlt. destruct (Z.lt_trichotomy s t) as [|[->|Hgt]]; [by left|right; lia|].
  pose proof (flat_mono (t + 1) s ltac:(lia)) as H. rewrite flat_succ, length_app in H by lia. lia.
Qed.
End Flat.
(** ** Trees on the disk *)

(** An item, with the logical address of its data. *)
Record entry := Entry { e_key : btrfs_disk_key; e_addr : Z; e_data : list Z }.

#[export] Instance entry_eq_dec : EqDecision entry.
Proof. solve_decision. Defined.

Abbreviation enum x := (knum (e_key x)).

Section Tree.
Context {C : Type} `{BC : !BlockCache C}.
Context (sb : list Z) (nodesize leafsize : Z).
Context (sb_node : sb_nodesize sb = Ok nodesize) (sb_leaf : sb_leafsize sb = Ok leafsize).
Context (node_range : 101 <= nodesize <= 4096) (leaf_range : 101 <= leafsize <= 4096).

(** Where the blocks of the tree are. *)
Context (phys : Z -> option Z).

Definition bsize (d : nat) : Z := match d with O => leafsize | S _ => nodesize end.

Definition blk (d : nat) (addr : Z) : list Z :=
  match phys addr with Some p => disk_bytes p (Z.to_nat (bsize d)) | None => [] end.

Definition nr (b : list Z) : Z := fld 4 b 96.

(** The keys and pointers of a node, and the items of a leaf. *)
Definition nkey (b : list Z) (i : Z) : btrfs_disk_key := keyof b (header_size + key_ptr_size * i).
Definition nptr (b : list Z) (i : Z) : Z := fld 8 b (header_size + key_ptr_size * i + 17).
Definition lkey (b : list Z) (i : Z) : btrfs_disk_key := keyof b (header_size + item_size * i).
Definition loffset (b : list Z) (i : Z) : Z := fld 4 b (header_size + item_size * i + 17).
Definition lsize (b : list Z) (i : Z) : Z := fld 4 b (header_size + item_size * i + 21).

Definition leaf_entry (addr i : Z) : entry :=
  let b := blk 0 addr in
  Entry (lkey b i) (addr + header_size + loffset b i)
    (match phys addr with Some p => disk_bytes (p + header_size + loffset b i) (Z.to_nat (lsize b i)) | None => [] end).

(** The items below a block, in order. *)
Fixpoint items (d : nat) (addr : Z) : list entry :=
  match d with
  | O => leaf_entry addr <$> seqZ 0 (nr (blk 0 addr))
  | S d' => flat (fun i => items d' (nptr (blk d addr) i)) (nr (blk d addr))
  end.

(** The keys of a block increase from [lo] and stay below [hi]. *)
Definition keys_ok (K : Z -> Z) (n lo hi : Z) : Prop :=
  K 0 = lo /\ increasing K n /\ forall i, 0 <= i < n -> K i < hi.

Record block_ok (d : nat) (addr : Z) : Prop := {
  bo_phys : exists p, phys addr = Some p /\ 0 <= p < 2 ^ 62;
  bo_level : fld 1 (blk d addr) 100 = Z.of_nat d;
  bo_nr : 1 <= nr (blk d addr);
  bo_room : header_size + match d with O => item_size | S _ => key_ptr_size end * nr (blk d addr) <= bsize d }.

(** A tree of [d] levels above its leaves. *)
Fixpoint tree_ok (d : nat) (addr lo hi : Z) : Prop :=
  let b := blk d addr in
  block_ok d addr /\
  match d with
  | O => keys_ok (fun i => knum (lkey b i)) (nr b) lo hi /\ forall i, 0 <= i < nr b -> lsize b i <= BTRFS_MAX_LEAF_SIZE
  | S d' => keys_ok (fun i => knum (nkey b i)) (nr b) lo hi /\
      forall i, 0 <= i < nr b ->
        tree_ok d' (nptr b i) (knum (nkey b i)) (if decide (i + 1 < nr b) then knum (nkey b (i + 1)) else hi)
  end.

Lemma tree_block d addr lo hi : tree_ok d addr lo hi -> block_ok d addr.
Proof. by destruct d; intros [? _]. Qed.

Lemma bsize_range d : 101 <= bsize d <= 4096.
Proof. destruct d; cbn; lia. Qed.

Lemma block_length d addr : block_ok d addr -> Z.of_nat (length (blk d addr)) = bsize d.
Proof.
  intros [(p & Hp & _) _ _ _]. pose proof (bsize_range d). unfold blk. rewrite Hp, disk_bytes_length. lia.
Qed.

Lemma block_bytes d addr : Forall byte_ok (blk d addr).
Proof. unfold blk. case_match; [apply disk_bytes_ok|done]. Qed.

Lemma nr_range d addr : block_ok d addr -> 1 <= nr (blk d addr) <= 4096.
Proof.
  intros [_ _ Hn Hr]. pose proof (bsize_range d). unfold header_size, item_size, key_ptr_size in Hr. destruct d; lia.
Qed.

(** ** The items are sorted *)

(** Items from [lo] on, below [hi]. *)
Definition sorted_items (l : list entry) (lo hi : Z) : Prop :=
  (exists x, l !! 0%nat = Some x /\ enum x = lo) /\
  (forall i j x y, (i < j)%nat -> l !! i = Some x -> l !! j = Some y -> enum x < enum y) /\
  (forall i x, l !! i = Some x -> lo <= enum x < hi).

Lemma items_sorted d addr lo hi : tree_ok d addr lo hi -> sorted_items (items d addr) lo hi.
Proof.
  revert addr lo hi. induction d as [|d IH]; intros addr lo hi [Hb Ht].
  - destruct Ht as [(H0 & Hinc & Hhi) _]. pose proof (bo_nr _ _ Hb) as Hn. cbn [items].
    set (n := nr (blk 0 addr)) in *.
    assert (forall i x, (leaf_entry addr <$> seqZ 0 n) !! i = Some x -> Z.of_nat i < n /\ enum x = knum (lkey (blk 0 addr) (Z.of_nat i))) as Hx.
    { intros i x. rewrite list_lookup_fmap, fmap_Some. intros (j & [-> Hj]%lookup_seqZ & ->). by split; [lia|]. }
    split; [|split].
    + exists (leaf_entry addr 0). rewrite list_lookup_fmap, lookup_seqZ_lt by lia. by split.
    + intros i j x y Hij [Hi ->]%Hx [Hj ->]%Hx. apply Hinc; lia.
    + intros i x [Hi ->]%Hx. split; [|apply Hhi; lia]. rewrite <- H0. destruct (decide (i = 0)%nat) as [->|]; [done|].
      apply Z.lt_le_incl, Hinc; lia.
  - destruct Ht as [(H0 & Hinc & Hhi) Hch]. pose proof (bo_nr _ _ Hb) as Hn. cbn [items].
    set (b := blk (S d) addr) in *. set (f i := items d (nptr b i)).
    assert (forall i, 0 <= i < nr b -> sorted_items (f i) (knum (nkey b i))
              (if decide (i + 1 < nr b) then knum (nkey b (i + 1)) else hi)) as Hs by (intros; by apply IH, Hch).
    assert (forall i j, 0 <= i <= j -> j < nr b -> knum (nkey b i) <= knum (nkey b j)) as Hle.
    { intros i j Hij Hj. destruct (decide (i = j)) as [->|]; [done|]. apply Z.lt_le_incl, Hinc; lia. }
    split; [|split].
    + destruct (Hs 0 ltac:(lia)) as ((x & Hx & Ex) & _). exists x. split; [|by rewrite Ex].
      apply (flat_lookup f (nr b) 0 0); [lia|done].
    + intros q r x y Hqr Hx Hy. apply flat_index in Hx as (s & q' & Hsr & -> & Hx); [|lia].
      apply flat_index in Hy as (t & r' & Htr & -> & Hy); [|lia].
      pose proof (lookup_lt_Some _ _ _ Hx) as Hlq. pose proof (lookup_lt_Some _ _ _ Hy) as Hlr.
      destruct (Hs s Hsr) as (_ & Hss & Hsb). destruct (Hs t Htr) as (_ & _ & Htb).
      destruct (flat_before f (nr b) s t q' r' Hsr Htr Hlq Hlr Hqr) as [Hst|[-> Hlt]]; [|by eapply Hss].
      pose proof (Hsb _ _ Hx) as [_ H1]. pose proof (Htb _ _ Hy) as [H2 _]. rewrite decide_True in H1 by lia.
      pose proof (Hle (s + 1) t ltac:(lia) ltac:(lia)). lia.
    + intros q x Hx. apply flat_index in Hx as (s & q' & Hsr & -> & Hx); [|lia].
      destruct (Hs s Hsr) as (_ & _ & Hsb). pose proof (Hsb _ _ Hx) as [H1 H2]. rewrite <- H0.
      pose proof (Hle 0 s ltac:(lia) ltac:(lia)). split; [lia|].
      case_decide; [pose proof (Hhi (s + 1) ltac:(lia)); lia|done].
Qed.
Lemma items_key_ok d addr x : x ∈ items d addr -> key_ok (e_key x).
Proof.
  revert addr. induction d as [|d IH]; intros addr; cbn [items].
  - intros (i & -> & _)%list_elem_of_fmap. apply keyof_ok, block_bytes.
  - unfold flat. intros (i & Hx & _)%list_elem_of_bind. by apply IH in Hx.
Qed.

Lemma items_data_ok d addr x : x ∈ items d addr -> Forall byte_ok (e_data x).
Proof.
  revert addr. induction d as [|d IH]; intros addr; cbn [items].
  - intros (i & -> & _)%list_elem_of_fmap. unfold leaf_entry. cbn [e_data]. case_match; [apply disk_bytes_ok|done].
  - unfold flat. intros (i & Hx & _)%list_elem_of_bind. by apply IH in Hx.
Qed.

(** ** Paths as positions *)

(** What a path has for a level. *)
Definition level_of (path : btrfs_path) (j : nat) : option Z * option Z * option Z :=
  (offsets path !! j, itemsnr path !! j, slots path !! j).

(** The path leads from the block at [addr] to the item [q] below it. *)
Fixpoint at_path (d : nat) (addr : Z) (path : btrfs_path) (q : nat) : Prop :=
  let b := blk d addr in
  exists s, level_of path d = (Some addr, Some (nr b), Some s) /\ 0 <= s < nr b /\
    match d with
    | O => q = Z.to_nat s
    | S d' => exists r, at_path d' (nptr b s) path r /\ q = (length (flat (fun i => items d' (nptr b i)) s) + r)%nat
    end.

Record path_ok (path : btrfs_path) : Prop := {
  po_offsets : length (offsets path) = 8%nat;
  po_itemsnr : length (itemsnr path) = 8%nat;
  po_slots : length (slots path) = 8%nat;
  po_data : length (data path) = 4096%nat }.

(** The path has the item and its data. *)
Record has_item (path : btrfs_path) (x : entry) : Prop := {
  hi_key : ikey (item path) = e_key x;
  hi_size : isize (item path) = Z.of_nat (length (e_data x));
  hi_data : take (length (e_data x)) (data path) = e_data x;
  hi_addr : exists a, offsets path !! 0%nat = Some a /\ a + header_size + ioffset (item path) = e_addr x }.

(** The levels above [d] are as before. *)
Definition same_above (d : nat) (path path' : btrfs_path) : Prop :=
  forall j, (d < j)%nat -> level_of path' j = level_of path j.

(** The last item that is not after the key, among those from [start] on, or
    the one at [start]. *)
Definition last_upto (l : list entry) (start : nat) (key : Z) (q : nat) : Prop :=
  (start <= q < length l)%nat /\ (forall j x, (q < j)%nat -> l !! j = Some x -> key < enum x) /\
  (q = start \/ forall x, l !! q = Some x -> enum x <= key).

(** The first item below the slot [m]. *)
Definition start_of (d : nat) (addr m : Z) : nat :=
  match d with O => Z.to_nat m | S d' => length (flat (fun i => items d' (nptr (blk d addr) i)) m) end.

Lemma store8_ok l (j : nat) v : (j < 8)%nat -> store8 l (Z.of_nat j) v = Ok (<[j := v]> l).
Proof. intros. unfold store8, BTRFS_MAX_LEVEL. rewrite decide_True by lia. by rewrite Nat2Z.id. Qed.

Lemma lookup8_ok l (j : nat) v : l !! j = Some v -> lookup8 l (Z.of_nat j) = Ok v.
Proof. intros H. unfold lookup8. by rewrite Nat2Z.id, H. Qed.

Lemma store8_0 l v : store8 l 0 v = Ok (<[0%nat := v]> l).
Proof. apply (store8_ok l 0). lia. Qed.

Lemma lookup8_0 l v : l !! 0%nat = Some v -> lookup8 l 0 = Ok v.
Proof. apply (lookup8_ok l 0). Qed.

Lemma store8_Z l i v : i < 8 -> store8 l i v = Ok (<[Z.to_nat i := v]> l).
Proof. intros. unfold store8, BTRFS_MAX_LEVEL. by rewrite decide_True by lia. Qed.

Lemma lookup8_Z l i v : l !! Z.to_nat i = Some v -> lookup8 l i = Ok v.
Proof. intros H. unfold lookup8. by rewrite H. Qed.

(** ** Searching *)

Section Search.
Context (map : btrfs_chunk_map) (agrees : forall a p, phys a = Some p -> logical_physical map a = Ok p).

(** The two reads of a block. *)
Lemma read_block d addr c : block_ok d addr -> cinv c ->
  exists p c1 c2 h rest, logical_physical map addr = Ok p /\ 0 <= p < 2 ^ 62 /\ phys addr = Some p /\
    btrfs_read c p header_size = Ok (c1, h) /\ hdr_level h = Ok (Z.of_nat d) /\ hdr_nritems h = Ok (nr (blk d addr)) /\
    read_to c1 (BTRFS_MAX_LEAF_SIZE - header_size) (u64 (p + header_size)) (u32 (bsize d - header_size)) = Ok (c2, rest) /\
    cinv c2 /\ h ++ rest = blk d addr.
Proof.
  intros Hb Hc. destruct (bo_phys _ _ Hb) as (p & Hp & Hpr). pose proof (bsize_range d) as Hs.
  change (2 ^ 62) with 0x4000000000000000 in *. unfold header_size, BTRFS_MAX_LEAF_SIZE in *.
  destruct (btrfs_read_ok c p 101 Hc) as (c1 & Hc1 & E1).
  { unfold readable. change (2 ^ 63) with 0x8000000000000000. lia. }
  destruct (read_to_ok c1 (4096 - 101) (p + 101) (bsize d - 101) Hc1) as (c2 & Hc2 & E2); [|lia|].
  { unfold readable. change (2 ^ 63) with 0x8000000000000000. lia. }
  assert (disk_bytes p (Z.to_nat 101) ++ disk_bytes (p + 101) (Z.to_nat (bsize d - 101)) = blk d addr) as Eb.
  { unfold blk. rewrite Hp. replace (Z.to_nat (bsize d)) with (Z.to_nat 101 + Z.to_nat (bsize d - 101))%nat by lia.
    by rewrite disk_bytes_app. }
  pose proof (disk_bytes_length p (Z.to_nat 101)) as Hl.
  exists p, c1, c2, (disk_bytes p (Z.to_nat 101)), (disk_bytes (p + 101) (Z.to_nat (bsize d - 101))). splits; try done; try lia.
  - by apply agrees.
  - unfold hdr_level. rewrite getle_ok by lia. by rewrite <- (bo_level _ _ Hb), <- Eb, sub_app_l by lia.
  - unfold hdr_nritems, nr. rewrite getle_ok by lia. by rewrite <- Eb, sub_app_l by lia.
  - by rewrite u64_small, u32_small by lia.
Qed.

(** The search in one block, for keys that start at [base] and are [w] bytes
    apart. *)
Lemma search_block d addr w key m hi lo :
  block_ok d addr -> key_ok key -> w = (match d with O => item_size | S _ => key_ptr_size end) ->
  let K i := knum (keyof (blk d addr) (header_size + w * i)) in
  keys_ok K (nr (blk d addr)) lo hi -> 0 <= m < nr (blk d addr) ->
  exists ret s, bin_search (comp_at (fun i => read_key (blk d addr) (header_size + w * i)) key) m (nr (blk d addr)) = Ok (ret, s) /\
    slot_of K m (nr (blk d addr)) (knum key) (adjust_slot ret s m) /\ (ret = 0 \/ ret = 1) /\
    (ret = 0 <-> K (adjust_slot ret s m) = knum key).
Proof.
  intros Hb Hk Hw K (_ & Hinc & _) Hm. pose proof (nr_range _ _ Hb) as Hn. pose proof (block_length _ _ Hb) as Hl.
  pose proof (bo_room _ _ Hb) as Hr. rewrite <- Hw in Hr.
  apply adjusted_slot; [|done|lia|lia]. intros i Hi. unfold comp_at.
  assert (17 <= w) by (destruct d; subst w; unfold item_size, key_ptr_size; lia).
  rewrite read_key_ok by (rewrite ?Hl; unfold header_size in *; nia). cbn [mbind result_bind]. eexists. split; [reflexivity|].
  apply comp_keys_sgn; [|done]. apply keyof_ok, block_bytes.
Qed.

Lemma overwrite_len old new : (length new <= length old)%nat -> length (overwrite old new) = length old.
Proof. intros. unfold overwrite. rewrite length_app, length_drop. lia. Qed.
Lemma start_of_0 d addr : start_of d addr 0 = 0%nat.
Proof. by destruct d. Qed.

Lemma level_of_insert path j (d : nat) a n s : path_ok path -> (d < 8)%nat ->
  level_of (Path (<[d := a]> (offsets path)) (<[d := n]> (itemsnr path)) (<[d := s]> (slots path)) (item path) (data path)) j =
    if decide (j = d) then (Some a, Some n, Some s) else level_of path j.
Proof.
  intros [Ho Hi Hs _] Hd. unfold level_of. cbn [offsets itemsnr slots]. case_decide as Hj.
  - subst j. by rewrite !list_lookup_insert_eq by lia.
  - by rewrite !list_lookup_insert_ne by done.
Qed.

(** What a search gives: the item, and the path to it. *)
Record found (d : nat) (addr : Z) (start : nat) (key : btrfs_disk_key) (path path' : btrfs_path) (ret : Z) (q : nat) (x : entry) :
    Prop := {
  fo_path : path_ok path';
  fo_at : at_path d addr path' q;
  fo_above : same_above d path path';
  fo_last : last_upto (items d addr) start (knum key) q;
  fo_item : items d addr !! q = Some x;
  fo_has : has_item path' x;
  fo_ret : ret = 0 \/ ret = 1;
  fo_exact : ret = 0 <-> e_key x = key }.

(** A leaf. *)
Lemma search_leaf fuel addr lo hi c path key m :
  tree_ok 0 addr lo hi -> cinv c -> path_ok path -> key_ok key ->
  slots path !! 0%nat = Some m -> 0 <= m < nr (blk 0 addr) ->
  exists c' path' ret q x, search_tree map sb (S fuel) c addr key path = Ok (c', path', ret) /\ cinv c' /\
    found 0 addr (Z.to_nat m) key path path' ret q x.
Proof.
  intros [Hb [Hkeys Hsize]] Hc Hp Hk Hm Hmr.
  destruct (read_block 0 addr c Hb Hc) as (p & c1 & c2 & h & rest & E1 & Hpr & Hph & E2 & E3 & E4 & E5 & Hc2 & Eb).
  destruct (search_block 0 addr item_size key m hi lo Hb Hk eq_refl Hkeys Hmr) as (ret & s & E6 & Hslot & Hret & Hex).
  pose proof (nr_range _ _ Hb) as Hn. pose proof (block_length _ _ Hb) as Hl. pose proof (bo_room _ _ Hb) as Hroom.
  set (b := blk 0 addr) in *. set (t := adjust_slot ret s m) in *. destruct Hslot as (Ht & Habove & Hor).
  unfold header_size, item_size in Hroom.
  assert (leaf_item b t = Ok (Item (lkey b t) (loffset b t) (lsize b t))) as E7.
  { unfold leaf_item, header_size, item_size. rewrite read_key_ok, !getle_ok by lia. done. }
  assert (0 <= loffset b t < 0x100000000 /\ 0 <= lsize b t <= 4096) as [Ho Hs].
  { split; [apply (fld_range 4), block_bytes|]. split; [apply (fld_range 4 b), block_bytes|]. apply Hsize. lia. }
  change (2 ^ 62) with 0x4000000000000000 in *.
  destruct (read_to_ok c2 BTRFS_MAX_LEAF_SIZE (p + header_size + loffset b t) (lsize b t) Hc2) as (c3 & Hc3 & E8); [|apply Hs|].
  { unfold readable, header_size. change (2 ^ 63) with 0x8000000000000000. lia. }
  set (x := leaf_entry addr t).
  assert (e_data x = disk_bytes (p + header_size + loffset b t) (Z.to_nat (lsize b t))) as Ed by (unfold x, leaf_entry; cbn; by rewrite Hph).
  exists c3. eexists. exists ret, (Z.to_nat t), x. split; [|split; [done|]].
  { cbn [search_tree]. rewrite E1. cbn [mbind result_bind]. rewrite E2. cbn [mbind result_bind]. rewrite E3. cbn [mbind result_bind].
    rewrite E4. cbn [mbind result_bind]. rewrite decide_False by (intros H; by apply H). rewrite sb_leaf. cbn [mbind result_bind].
    change leafsize with (bsize 0). rewrite E5. cbn [mbind result_bind]. rewrite Eb, s32_small by lia.
    rewrite !store8_0. cbn [mbind result_bind]. rewrite (lookup8_0 (slots path) m) by done. cbn [mbind result_bind].
    change (comp_at (leaf_key b) key) with (comp_at (fun i => read_key b (header_size + item_size * i)) key).
    rewrite E6. cbn [mbind result_bind]. fold t. rewrite store8_0. cbn [mbind result_bind].
    rewrite E7. cbn [mbind result_bind ioffset isize]. rewrite u64_small by (unfold header_size; lia). rewrite E8. reflexivity. }
  rewrite <- Ed. set (path' := Path _ _ _ _ _).
  assert (length (e_data x) = Z.to_nat (lsize b t)) as Hlx by by rewrite Ed, disk_bytes_length.
  assert (forall j, level_of path' j = if decide (j = 0%nat) then (Some addr, Some (nr b), Some t) else level_of path j) as Hlev.
  { intros j. rewrite <- level_of_insert by (done || lia). reflexivity. }
  destruct Hp as [P1 P2 P3 P4].
  assert (items 0 addr !! Z.to_nat t = Some x) as Hx.
  { cbn [items]. fold b. rewrite list_lookup_fmap, lookup_seqZ_lt by lia. cbn [fmap option_fmap option_map].
    unfold x. do 2 f_equal. lia. }
  constructor.
  - constructor; cbn [path' offsets itemsnr slots data]; rewrite ?length_insert; try done. rewrite overwrite_len; lia.
  - exists t. fold b. rewrite Hlev, decide_True by done. split; [done|]. split; [lia|done].
  - intros j Hj. rewrite Hlev, decide_False by lia. done.
  - split; [|split].
    + split; [lia|]. by eapply lookup_lt_Some.
    + intros j y Hj. cbn [items]. fold b. rewrite list_lookup_fmap, fmap_Some. intros (i & [-> Hi]%lookup_seqZ & ->).
      apply (Habove (0 + Z.of_nat j)). lia.
    + destruct Hor as [->|Hle]; [by left|right]. intros y Hy. rewrite Hx in Hy. by injection Hy as <-.
  - done.
  - constructor.
    + done.
    + cbn [path' item isize]. rewrite Hlx. lia.
    + cbn [path' data]. unfold overwrite. by rewrite take_app_length.
    + exists addr. split; [|done]. cbn [path' offsets]. apply list_lookup_insert_eq. lia.
  - done.
  - rewrite Hex. split; [|intros E; by rewrite <- E]. apply knum_inj; [|done]. apply keyof_ok, block_bytes.
Qed.

(** A node, whose child is searched from its start. *)
Lemma last_upto_node d addr lo hi m s r key :
  tree_ok (S d) addr lo hi -> let b := blk (S d) addr in
  slot_of (fun i => knum (nkey b i)) m (nr b) key s -> 0 <= m ->
  last_upto (items d (nptr b s)) 0 key r ->
  last_upto (items (S d) addr) (start_of (S d) addr m) key (length (flat (fun i => items d (nptr b i)) s) + r).
Proof.
  intros [Hb [_ Hch]] b (Hs & Habove & Hor) Hm ([_ Hr] & Hafter & Hlast). fold b in Hch.
  set (f i := items d (nptr b i)) in *.
  assert (forall i, 0 <= i < nr b -> sorted_items (f i) (knum (nkey b i))
            (if decide (i + 1 < nr b) then knum (nkey b (i + 1)) else hi)) as Hsort by (intros i Hi; apply items_sorted, Hch, Hi).
  destruct (lookup_lt_is_Some_2 (f s) r Hr) as [y Hy].
  assert (items (S d) addr !! (length (flat f s) + r)%nat = Some y) as Hq by (apply (flat_lookup f (nr b)); [lia|done]).
  split; [|split].
  - split; [|by eapply lookup_lt_Some]. cbn [start_of]. fold b. pose proof (flat_mono f m s ltac:(lia)). unfold f in *. lia.
  - intros j x Hj Hx. cbn [items] in Hx. fold b in Hx. apply flat_index in Hx as (t & r' & Ht & -> & Hx); [|lia].
    pose proof (lookup_lt_Some _ _ _ Hx) as Hlr.
    destruct (flat_before f (nr b) s t r r' ltac:(lia) Ht Hr Hlr Hj) as [Hst|[-> Hlt]]; [|by eapply Hafter].
    destruct (Hsort t Ht) as (_ & _ & Hrange). pose proof (Hrange _ _ Hx) as [Hx' _].
    pose proof (Habove t ltac:(lia)). cbv beta in *. lia.
  - destruct (Hsort s ltac:(lia)) as ((x0 & H0 & E0) & _).
    destruct Hlast as [->|Hle].
    + destruct Hor as [->|Hk]; [left; cbn [start_of]; fold b f; lia|]. right. intros x Hx. rewrite Hq in Hx.
      injection Hx as <-. rewrite H0 in Hy. injection Hy as <-. cbv beta in Hk. lia.
    + right. intros x Hx. rewrite Hq in Hx. injection Hx as <-. by apply Hle.
Qed.
(** A search from the slot [m] of the block, and from the first one below. *)
Lemma search_tree_ok fuel d addr lo hi c path key m :
  tree_ok d addr lo hi -> (d < fuel)%nat -> (d < 8)%nat -> cinv c -> path_ok path -> key_ok key ->
  slots path !! d = Some m -> 0 <= m < nr (blk d addr) -> (forall j, (j < d)%nat -> slots path !! j = Some 0) ->
  exists c' path' ret q x, search_tree map sb fuel c addr key path = Ok (c', path', ret) /\ cinv c' /\
    found d addr (start_of d addr m) key path path' ret q x.
Proof.
  revert fuel addr lo hi c path m. induction d as [|d IH]; intros fuel addr lo hi c path m Ht Hf H8 Hc Hp Hk Hm Hmr Hlow.
  { destruct fuel as [|fuel]; [lia|]. by apply (search_leaf fuel addr lo hi). }
  destruct fuel as [|fuel]; [lia|]. pose proof Ht as [Hb [Hkeys Hch]].
  destruct (read_block (S d) addr c Hb Hc) as (p & c1 & c2 & h & rest & E1 & Hpr & Hph & E2 & E3 & E4 & E5 & Hc2 & Eb).
  destruct (search_block (S d) addr key_ptr_size key m hi lo Hb Hk eq_refl Hkeys Hmr) as (ret & s & E6 & Hslot & _ & _).
  pose proof (nr_range _ _ Hb) as Hn. pose proof (block_length _ _ Hb) as Hl. pose proof (bo_room _ _ Hb) as Hroom.
  set (b := blk (S d) addr) in *. set (t := adjust_slot ret s m) in *. pose proof Hslot as (Htr & _ & _).
  unfold header_size, key_ptr_size in Hroom.
  assert (node_blockptr b t = Ok (nptr b t)) as E7.
  { unfold node_blockptr, header_size, key_ptr_size. rewrite getle_ok by lia. done. }
  set (path1 := Path (<[S d := addr]> (offsets path)) (<[S d := nr b]> (itemsnr path)) (<[S d := t]> (slots path)) (item path) (data path)).
  assert (forall j, level_of path1 j = if decide (j = S d) then (Some addr, Some (nr b), Some t) else level_of path j) as Hlev
    by (intros j; by apply level_of_insert).
  pose proof (Hch t ltac:(lia)) as Htree. pose proof (bo_nr _ _ (tree_block _ _ _ _ Htree)) as Hn1.
  assert (forall j, (j <= d)%nat -> slots path1 !! j = Some 0) as Hlow1.
  { intros j Hj. unfold path1. cbn [slots]. rewrite list_lookup_insert_ne by lia. apply Hlow. lia. }
  assert (path_ok path1) as Hp1.
  { destruct Hp as [P1 P2 P3 P4]. constructor; cbn [path1 offsets itemsnr slots data]; by rewrite ?length_insert. }
  destruct (IH fuel (nptr b t) _ _ c2 path1 0 Htree) as (c3 & path' & ret' & r & x & E8 & Hc3 & Hfound); try done; try lia.
  { apply Hlow1. lia. }
  { intros j Hj. apply Hlow1. lia. }
  destruct Hfound as [F1 F2 F3 F4 F5 F6 F7 F8]. rewrite start_of_0 in F4.
  exists c3, path', ret'. eexists. exists x. split; [|split; [done|]].
  { cbn [search_tree]. rewrite E1. cbn [mbind result_bind]. rewrite E2. cbn [mbind result_bind]. rewrite E3. cbn [mbind result_bind].
    rewrite E4. cbn [mbind result_bind]. rewrite decide_True by lia. rewrite sb_node. cbn [mbind result_bind].
    change nodesize with (bsize (S d)). rewrite E5. cbn [mbind result_bind]. rewrite Eb, s32_small by lia.
    rewrite (store8_ok _ (S d)), (store8_ok _ (S d)) by lia. cbn [mbind result_bind].
    rewrite (lookup8_ok _ (S d) m) by done. cbn [mbind result_bind].
    change (comp_at (node_key b) key) with (comp_at (fun i => read_key b (header_size + key_ptr_size * i)) key).
    rewrite E6. cbn [mbind result_bind]. fold t. rewrite (store8_ok _ (S d)) by lia. cbn [mbind result_bind].
    rewrite E7. cbn [mbind result_bind]. fold path1. exact E8. }
  constructor; [done| | | | |done..].
  - exists t. fold b. rewrite F3, Hlev, decide_True by lia. split; [done|]. split; [lia|]. by exists r.
  - intros j Hj. rewrite F3, Hlev, decide_False by lia. done.
  - apply (last_upto_node d addr lo hi m t r); [done|exact Hslot|lia|done].
  - cbn [items]. fold b. apply (flat_lookup _ (nr b)); [lia|done].
Qed.

Lemma clear_path_ok : path_ok clear_path.
Proof. by constructor. Qed.

Lemma clear_slots j : (j < 8)%nat -> slots clear_path !! j = Some 0.
Proof. intros H. unfold clear_path. cbn [slots]. by apply lookup_replicate_2. Qed.

(** The item with a key. *)
Definition lookup_key (l : list entry) (key : btrfs_disk_key) : option entry := head (filter (fun x => e_key x = key) l).

Lemma filter_none {A} (P : A -> Prop) `{!forall x, Decision (P x)} l : (forall x, x ∈ l -> ~ P x) -> filter P l = [].
Proof.
  induction l as [|a l IH]; intros Hn; [done|]. rewrite filter_cons_False by (apply Hn; by left).
  apply IH. intros x Hx. apply Hn. by right.
Qed.

Lemma lookup_key_Some l key q x : (forall i j x y, (i < j)%nat -> l !! i = Some x -> l !! j = Some y -> enum x < enum y) ->
  l !! q = Some x -> e_key x = key -> lookup_key l key = Some x.
Proof.
  intros Hs Hx Ek. unfold lookup_key. rewrite <- (take_drop_middle l q x Hx), filter_app.
  rewrite (filter_none _ (take q l)).
  - by rewrite filter_cons_True by done.
  - intros y [i Hi]%list_elem_of_lookup_1 Ey. apply lookup_take_Some in Hi as [Hi Hlt].
    pose proof (Hs i q y x Hlt Hi Hx) as H. rewrite Ek, Ey in H. lia.
Qed.

Lemma lookup_key_None l key : (forall x, x ∈ l -> e_key x <> key) -> lookup_key l key = None.
Proof.
  intros H. unfold lookup_key. by rewrite filter_none.
Qed.

(** What is found from a cleared path. *)
Lemma search_clear fuel d addr lo hi c key :
  tree_ok d addr lo hi -> (d < fuel)%nat -> (d < 8)%nat -> cinv c -> key_ok key ->
  exists c' path' ret q x, search_tree map sb fuel c addr key clear_path = Ok (c', path', ret) /\ cinv c' /\
    found d addr 0 key clear_path path' ret q x.
Proof.
  intros Ht Hf H8 Hc Hk. rewrite <- (start_of_0 d addr). pose proof (bo_nr _ _ (tree_block _ _ _ _ Ht)).
  apply (search_tree_ok fuel d addr lo hi); try done; try lia; [by apply clear_slots|].
  intros j Hj. apply clear_slots. lia.
Qed.

(** C28. The search for a key gives the item that has it, or the result 1 if no item of
    the tree has; the path is at the last item that is not after the key, or at
    the first one, and has its data. *)
Theorem search_tree_finds fuel d addr lo hi c key :
  tree_ok d addr lo hi -> (d < fuel)%nat -> (d < 8)%nat -> cinv c -> key_ok key ->
  exists c' path' ret q x, search_tree map sb fuel c addr key clear_path = Ok (c', path', ret) /\ cinv c' /\
    (ret = 0 /\ lookup_key (items d addr) key = Some x \/ ret = 1 /\ lookup_key (items d addr) key = None) /\
    last_upto (items d addr) 0 (knum key) q /\ items d addr !! q = Some x /\ has_item path' x /\ path_ok path'.
Proof.
  intros Ht Hf H8 Hc Hk. destruct (search_clear fuel d addr lo hi c key Ht Hf H8 Hc Hk) as (c' & path' & ret & q & x & E & Hc' & F).
  exists c', path', ret, q, x. destruct F as [F1 F2 F3 F4 F5 F6 F7 F8]. splits; try done.
  destruct (items_sorted d addr lo hi Ht) as (_ & Hs & _). destruct F7 as [-> | ->].
  - left. split; [done|]. apply (lookup_key_Some _ _ q); [done..|]. by apply F8.
  - right. split; [done|]. apply lookup_key_None. intros y [j Hy]%list_elem_of_lookup_1 Ey.
    destruct F4 as (_ & Hafter & Hor). destruct (Nat.lt_trichotomy q j) as [H|[->|H]].
    + pose proof (Hafter j y H Hy). rewrite Ey in *. lia.
    + rewrite F5 in Hy. injection Hy as <-. apply F8 in Ey. done.
    + destruct Hor as [->|Hle]; [lia|]. pose proof (Hle x F5). pose proof (Hs j q y x H Hy F5). rewrite Ey in *. lia.
Qed.

(** ** Going on *)

(** The path is at the item [q], and above the tree it is as it was cleared. *)
Record position (d : nat) (addr : Z) (path : btrfs_path) (q : nat) (x : entry) : Prop := {
  ps_path : path_ok path;
  ps_at : at_path d addr path q;
  ps_above : forall j, (d < j < 8)%nat -> itemsnr path !! j = Some 0;
  ps_item : items d addr !! q = Some x;
  ps_has : has_item path x }.

Lemma found_position d addr key path' ret q x : found d addr 0 key clear_path path' ret q x -> position d addr path' q x.
Proof.
  intros [F1 F2 F3 F4 F5 F6 F7 F8]. constructor; try done. intros j Hj. pose proof (F3 j ltac:(lia)) as E.
  unfold level_of in E. injection E as _ -> _. apply (clear_slots j). lia.
Qed.

(** The leaf of a path: its items are consecutive in the tree, and it may be
    searched from another slot. *)
Lemma at_path_leaf d addr lo hi path q : tree_ok d addr lo hi -> at_path d addr path q ->
  exists leaf llo lhi s base, tree_ok 0 leaf llo lhi /\ level_of path 0 = (Some leaf, Some (nr (blk 0 leaf)), Some s) /\
    0 <= s < nr (blk 0 leaf) /\ q = (base + Z.to_nat s)%nat /\
    (forall i x, items 0 leaf !! i = Some x -> items d addr !! (base + i)%nat = Some x) /\
    (forall path' r, same_above 0 path path' -> at_path 0 leaf path' r -> at_path d addr path' (base + r)).
Proof.
  revert addr lo hi q. induction d as [|d IH]; intros addr lo hi q Ht.
  - intros (s & Hl & Hs & ->). exists addr, lo, hi, s, 0%nat. splits; (done || lia).
  - pose proof Ht as [_ [_ Hch]]. intros (s & Hl & Hs & r & Hat & ->).
    destruct (IH _ _ _ r (Hch s Hs) Hat) as (leaf & llo & lhi & s0 & base & Hleaf & Hl0 & Hs0 & -> & Hitems & Hnew).
    set (pre := length (flat (fun i => items d (nptr (blk (S d) addr) i)) s)).
    exists leaf, llo, lhi, s0, (pre + base)%nat. splits; try done; try lia.
    + intros i x Hx. rewrite <- Nat.add_assoc. apply (flat_lookup (fun i => items d (nptr (blk (S d) addr) i)) (nr (blk (S d) addr))); [done|]. by apply Hitems.
    + intros path' r Hsame Hr. exists s. rewrite (Hsame (S d)) by lia. split; [done|]. split; [done|].
      exists (base + r)%nat. split; [by apply Hnew|]. lia.
Qed.

(** The items after the position are after the key. *)
Definition ahead (l : list entry) (q : nat) (key : Z) : Prop := forall j x, (q < j)%nat -> l !! j = Some x -> key < enum x.

(** [next_slot] goes to the next item of the leaf, if there is one. *)
Lemma next_slot_ok fuel d addr lo hi c path key q x :
  tree_ok d addr lo hi -> (0 < fuel)%nat -> cinv c -> key_ok key -> position d addr path q x -> ahead (items d addr) q (knum key) ->
  exists c' path' ok, next_slot map sb fuel c key path = Ok (c', path', ok) /\ cinv c' /\
    if ok : bool then exists y, position d addr path' (S q) y
    else c' = c /\ path' = path /\
      exists leaf s, level_of path 0 = (Some leaf, Some (nr (blk 0 leaf)), Some s) /\ s + 1 = nr (blk 0 leaf).
Proof.
  intros Ht Hf Hc Hk [Hp Hat Habove Hx Hhas] Hahead. destruct fuel as [|fuel]; [lia|].
  destruct (at_path_leaf d addr lo hi path q Ht Hat) as (leaf & llo & lhi & s & base & Hleaf & Hl0 & Hs & -> & Hitems & Hnew).
  set (n := nr (blk 0 leaf)) in *. injection Hl0 as Ho Hn Hsl.
  unfold next_slot. rewrite (lookup8_0 (itemsnr path) n) by done. cbn [mbind result_bind]. rewrite decide_False by lia.
  rewrite (lookup8_0 (slots path) s) by done. cbn [mbind result_bind]. case_decide as Hend.
  { exists c, path, false. splits; try done. exists leaf, s. unfold level_of. rewrite Ho, Hn, Hsl. split; [done|]. fold n. lia. }
  rewrite store8_0. cbn [mbind result_bind]. rewrite (lookup8_0 (offsets path) leaf) by done. cbn [mbind result_bind].
  set (path1 := Path _ _ _ _ _). pose proof Hp as [P1 P2 P3 P4].
  destruct (search_leaf fuel leaf llo lhi c path1 key (s + 1)) as (c' & path' & ret & r & y & E & Hc' & [F1 F2 F3 F4 F5 F6 F7 F8]);
    try done; try lia.
  { constructor; cbn [path1 offsets itemsnr slots data]; by rewrite ?length_insert. }
  { cbn [path1 slots]. apply list_lookup_insert_eq. lia. }
  rewrite E. cbn [mbind result_bind]. exists c', path', true. split; [done|]. split; [done|].
  assert (r = Z.to_nat (s + 1)) as ->.
  { destruct F4 as ([Hr1 Hr2] & _ & Hor). destruct Hor as [->|Hle]; [done|].
    pose proof (Hle y F5). pose proof (Hahead (base + r)%nat y ltac:(lia) (Hitems _ _ F5)). lia. }
  exists y. replace (S (base + Z.to_nat s)) with (base + Z.to_nat (s + 1))%nat by lia.
  assert (same_above 0 path path') as Hsame.
  { intros j Hj. rewrite F3 by done. unfold level_of. cbn [path1 offsets itemsnr slots]. by rewrite list_lookup_insert_ne by lia. }
  constructor; [done|by apply Hnew| |by apply Hitems|done].
  intros j Hj. pose proof (Hsame j ltac:(lia)) as E'. unfold level_of in E'. injection E' as _ -> _. by apply Habove.
Qed.
Lemma items_leaf_length leaf : 0 <= nr (blk 0 leaf) -> length (items 0 leaf) = Z.to_nat (nr (blk 0 leaf)).
Proof. intros. cbn [items]. by rewrite length_fmap, length_seqZ. Qed.

(** [next_leaf] goes to the first item of the next leaf, in a tree with at most
    one node; the path is at the last item of its leaf. *)
Lemma next_leaf_ok fuel d addr lo hi c path key q x :
  tree_ok d addr lo hi -> (d <= 1)%nat -> (d < fuel)%nat -> cinv c -> key_ok key -> position d addr path q x ->
  ahead (items d addr) q (knum key) ->
  (exists leaf s, level_of path 0 = (Some leaf, Some (nr (blk 0 leaf)), Some s) /\ s + 1 = nr (blk 0 leaf)) ->
  exists c' path' ok, next_leaf map sb fuel c key path = Ok (c', path', ok) /\ cinv c' /\
    if ok : bool then exists y, position d addr path' (S q) y else length (items d addr) = S q.
Proof.
  intros Ht Hd Hf Hc Hk [Hp Hat Habove Hx Hhas] Hahead (leaf & s & Hl0 & Hs).
  unfold next_leaf. change (Z.to_nat (BTRFS_MAX_LEVEL - 1)) with 7%nat. cbn [next_level].
  destruct d as [|[|]]; [| |lia].
  - rewrite (lookup8_Z (itemsnr path) 1 0) by (apply Habove; lia). cbn [mbind result_bind]. rewrite decide_True by done.
    cbn [mbind result_bind]. exists c, path, false. splits; try done.
    destruct Hat as (s' & Hl & Hs' & ->). rewrite Hl in Hl0. injection Hl0 as <- _ <-. rewrite items_leaf_length; lia.
  - pose proof Hat as (t & Hl1 & Ht1 & r & (s' & Hl0' & Hs' & ->) & ->). rewrite Hl0' in Hl0. injection Hl0 as <- _ <-.
    pose proof Ht as [Hb [_ Hch]]. set (b := blk 1 addr) in *. set (child := nptr b t) in *.
    injection Hl1 as Ho Hn Hsl. rewrite (lookup8_Z (itemsnr path) 1 (nr b)) by done. cbn [mbind result_bind].
    rewrite decide_False by lia. rewrite (lookup8_Z (slots path) 1 t) by done. cbn [mbind result_bind].
    set (f i := items 0 (nptr b i)) in *.
    assert (length (flat f (t + 1)) = S (length (flat f t) + Z.to_nat s')) as Hnext.
    { rewrite flat_succ, length_app by lia. change (f t) with (items 0 child). rewrite items_leaf_length by lia. lia. }
    case_decide as Hend.
    + change (1 + 1) with 2. rewrite (lookup8_Z (itemsnr path) 2 0) by (apply Habove; lia).
      cbn [mbind result_bind]. rewrite decide_True by done. cbn [mbind result_bind]. exists c, path, false. splits; try done.
      cbn [items]. fold b f. replace (nr b) with (t + 1) by lia. done.
    + cbn [mbind result_bind]. rewrite (lookup8_Z (slots path) 1 t) by done. cbn [mbind result_bind].
      rewrite (store8_Z (slots path) 1) by lia. cbn [mbind result_bind]. change (1 - 1) with 0. rewrite store8_0. cbn [mbind result_bind].
      rewrite (lookup8_Z (offsets path) 1 addr) by done. cbn [mbind result_bind].
      set (path1 := Path _ _ _ _ _). pose proof Hp as [P1 P2 P3 P4].
      destruct (search_tree_ok fuel 1 addr lo hi c path1 key (t + 1)) as (c' & path' & ret & q' & y & E & Hc' & [F1 F2 F3 F4 F5 F6 F7 F8]);
        try done; try lia.
      { constructor; cbn [path1 offsets itemsnr slots data]; by rewrite ?length_insert. }
      { cbn [path1 slots]. rewrite list_lookup_insert_ne, list_lookup_insert_eq by lia. done. }
      { fold b. lia. }
      { intros j Hj. replace j with 0%nat by lia. cbn [path1 slots]. apply list_lookup_insert_eq. rewrite length_insert. lia. }
      rewrite E. cbn [mbind result_bind]. exists c', path', true. split; [done|]. split; [done|].
      cbn [start_of] in F4. fold b f in F4. rewrite Hnext in F4.
      assert (q' = S (length (flat f t) + Z.to_nat s')) as ->.
      { destruct F4 as ([Hq1 Hq2] & _ & Hor). destruct Hor as [|Hle]; [done|].
        pose proof (Hle y F5). pose proof (Hahead q' y ltac:(lia) F5). lia. }
      exists y. constructor; try done. intros j Hj. pose proof (F3 j ltac:(lia)) as E'. unfold level_of in E'. injection E' as _ -> _.
      by apply Habove.
Qed.
End Search.
End Tree.
End BtrfsTreeSpec.
