(* ===== verification/BtrfsChunkSpec.v ===== *)
(** * Btrfs: the chunks of the volume

    The chunk tree is read through the chunks that the superblock has; what is
    read is added to the map, and does not change where the tree is. *)

From Stdlib Require Import ZArith Lia.
From stdpp Require Import sorting.
From S2P Require Import Prelude BlockCache Btrfs BtrfsSpec BtrfsTreeSpec.
Import Btrfs BtrfsSpec BtrfsTreeSpec.

Module BtrfsChunkSpec.

(** ** A map that grows *)

Lemma translate_inv map l p : translate map l = Some p -> exists m, m ∈ map /\ covers m l /\ p = chunk_address m l.
Proof.
  unfold translate. induction map as [|m map IH]; [done|]. cbn [omap list_omap]. case_decide as Hc.
  - intros [= <-]. exists m. split; [by left|done].
  - intros H. destruct (IH H) as (m' & ? & ?). exists m'. split; [by right|done].
Qed.

(** The addresses that a map has. *)
Definition phys_of (map : btrfs_chunk_map) (a : Z) : option Z := if decide (0 <= a < 2 ^ 64) then translate map a else None.

Lemma phys_of_agrees map0 map : map_ok map -> (forall m, m ∈ map0 -> m ∈ map) ->
  forall a p, phys_of map0 a = Some p -> logical_physical map a = Ok p.
Proof.
  intros Hok Hsub a p. unfold phys_of. case_decide as Ha; [|done]. intros (m & Hm & Hc & ->)%translate_inv.
  by rewrite logical_physical_correct, (translate_ok map m) by auto.
Qed.

(** ** The chunk tree *)

(** The data of an item as a chunk. *)
Definition chunk_of (x : entry) : btrfs_chunk_map_item :=
  let b := e_data x in MapItem (k_offset (e_key x)) (fld 8 b 0) (fld 8 b 48) (fld 8 b 56).

(** A field of the data of an item. *)
Lemma path_field n path x o : has_item path x -> path_ok path -> 0 <= o -> o + Z.of_nat n <= Z.of_nat (length (e_data x)) ->
  getle n (data path) o = Ok (fld n (e_data x) o).
Proof.
  intros Hx Hp Ho Hn. pose proof (hi_data _ _ Hx) as E.
  assert (length (e_data x) <= length (data path))%nat by (rewrite <- E, length_take; lia).
  rewrite getle_ok by lia. rewrite <- (take_drop (length (e_data x)) (data path)), E.
  by rewrite sub_app_l by lia.
Qed.

Definition chunk_key : btrfs_disk_key := Key BTRFS_FIRST_CHUNK_TREE_OBJECTID BTRFS_CHUNK_ITEM_KEY 0.

Definition is_chunk (x : entry) : Prop := same_type chunk_key (e_key x).

#[export] Instance is_chunk_dec x : Decision (is_chunk x) := _.

Section ChunkTree.
Context {C : Type} `{BC : !BlockCache C}.
Context (sb : list Z) (nodesize leafsize : Z).
Context (sb_node : sb_nodesize sb = Ok nodesize) (sb_leaf : sb_leafsize sb = Ok leafsize).
Context (node_range : 101 <= nodesize <= 4096) (leaf_range : 101 <= leafsize <= 4096).

(** The map before, and the tree, with one node above its leaves at most. *)
Context (map0 : btrfs_chunk_map) (map0_ok : map_ok map0).
Context (d : nat) (addr lo hi : Z).
Abbreviation phys := (phys_of map0).
Abbreviation tree := (items nodesize leafsize phys d addr).
Context (tree_wf : tree_ok nodesize leafsize phys d addr lo hi) (depth : (d <= 1)%nat).

(** Its chunks: they do not meet each other or those of the map, and there is
    room for them. *)
Context (chunks_data : forall x, x ∈ tree -> is_chunk x -> 80 <= Z.of_nat (length (e_data x)) /\ chunk_ok (chunk_of x)).
Context (chunks_apart : apart (map0 ++ (chunk_of <$> filter is_chunk tree))).
Context (chunks_room : Z.of_nat (length map0 + length tree) <= BTRFS_MAX_CHUNK_ENTRIES).

(** A chunk that is added: the map has no other at its address. *)
Definition new_chunk (x : entry) : Prop := is_chunk x /\ forall y, y ∈ map0 -> mi_logical y <> mi_logical (chunk_of x).

(** The map when the first [q] items are read. *)
Record read_upto (q : nat) (map : btrfs_chunk_map) : Prop := {
  ru_sorted : StronglySorted by_logical map;
  ru_length : (length map <= length map0 + q)%nat;
  ru_elements : forall m, m ∈ map <-> m ∈ map0 \/ exists j x, (j < q)%nat /\ tree !! j = Some x /\ new_chunk x /\ m = chunk_of x }.

Lemma read_upto_ok q map : (q <= length tree)%nat -> read_upto q map -> map_ok map.
Proof.
  intros Hq [Hs Hl Hel].
  assert (forall m, m ∈ map -> m ∈ map0 ++ (chunk_of <$> filter is_chunk tree)) as Hsub.
  { intros m [Hm|(j & x & _ & Hx & [Hch _] & ->)]%Hel; apply elem_of_app; [by left|right].
    apply list_elem_of_fmap_2. apply list_elem_of_filter. split; [done|]. by eapply list_elem_of_lookup_2. }
  constructor; [done| | |].
  - apply Forall_forall. intros m [Hm|(j & x & _ & Hx & [Hch _] & ->)]%Hel.
    + pose proof (mo_chunks _ map0_ok) as H. rewrite Forall_forall in H. by apply H.
    + apply chunks_data; [by eapply list_elem_of_lookup_2|done].
  - intros a b Ha Hb. apply chunks_apart; by apply Hsub.
  - lia.
Qed.

Lemma read_upto_agrees q map : (q <= length tree)%nat -> read_upto q map ->
  forall a p, phys a = Some p -> logical_physical map a = Ok p.
Proof.
  intros Hq Hr. apply phys_of_agrees; [by eapply read_upto_ok|]. intros m Hm. apply (ru_elements _ _ Hr). by left.
Qed.

Lemma tree_sorted : sorted_items tree lo hi.
Proof. by apply (items_sorted nodesize leafsize). Qed.

Lemma tree_lt j k x y : tree !! j = Some x -> tree !! k = Some y -> (j < k)%nat -> enum x < enum y.
Proof. intros Hx Hy Hjk. destruct tree_sorted as (_ & H & _). by apply (H j k). Qed.

(** Reading one item. *)
Lemma read_upto_skip q map x : tree !! q = Some x -> ~ is_chunk x -> read_upto q map -> read_upto (S q) map.
Proof.
  intros Hx Hn [Hs Hl Hel]. constructor; [done|lia|]. intros m. rewrite Hel. split; (intros [Hm|(j & y & Hj & Hy & Hch & ->)]; [by left|right]).
  - exists j, y. split; [lia|done].
  - exists j, y. split; [|done]. destruct (decide (j = q)) as [->|]; [|lia]. rewrite Hx in Hy. injection Hy as <-. by destruct Hch.
Qed.

Lemma read_upto_insert q map x : tree !! q = Some x -> is_chunk x -> read_upto q map ->
  exists map', insert_map map (chunk_of x) = Ok map' /\ read_upto (S q) map'.
Proof.
  intros Hx Hch [Hs Hl Hel]. pose proof (lookup_lt_Some _ _ _ Hx) as Hq.
  destruct (insert_map_ok map (chunk_of x) Hs ltac:(lia)) as (map' & E & Hs' & Hl' & Hel').
  exists map'. split; [done|]. constructor; [done|lia|]. intros m. rewrite Hel'. split.
  - intros [[Hm|(j & y & Hj & Hy & Hch' & ->)]%Hel|[-> Hnew]]; [by left| |]; right.
    + exists j, y. split; [lia|done].
    + exists q, x. split; [lia|]. split; [done|]. split; [|done]. split; [done|]. intros y Hy. apply Hnew, Hel. by left.
  - intros [Hm|(j & y & Hj & Hy & Hch' & ->)]; [left; apply Hel; by left|].
    destruct (decide (j = q)) as [->|Hne].
    + right. rewrite Hx in Hy. injection Hy as <-. split; [done|]. intros m [Hm|(k & z & Hk & Hz & [Hcz _] & ->)]%Hel.
      * by apply Hch'.
      * pose proof (tree_lt k q z x Hz Hx Hk) as Hlt. destruct Hcz as [A1 A2], Hch as [B1 B2].
        unfold knum in Hlt. rewrite <- A1, <- A2, <- B1, <- B2 in Hlt. cbn [chunk_of mi_logical]. lia.
    + left. apply Hel. right. exists j, y. split; [lia|done].
Qed.
(** ** The loops *)

Lemma chunk_key_ok : key_ok chunk_key.
Proof. unfold key_ok, chunk_key, BTRFS_FIRST_CHUNK_TREE_OBJECTID, BTRFS_CHUNK_ITEM_KEY. cbn. lia. Qed.

Abbreviation pos := (position nodesize leafsize phys d addr).

(** The path is at the last item of its leaf. *)
Definition leaf_end (path : btrfs_path) : Prop :=
  exists leaf s, level_of path 0 = (Some leaf, Some (nr (blk nodesize leafsize phys 0 leaf)), Some s) /\
    s + 1 = nr (blk nodesize leafsize phys 0 leaf).

Lemma type_test path x : has_item path x -> (btrfs_comp_keys_type chunk_key (ikey (item path)) <> 0 <-> ~ is_chunk x).
Proof. intros Hx. rewrite comp_keys_type_ok, (hi_key _ _ Hx). done. Qed.

Lemma chunk_item_ok path x : has_item path x -> path_ok path -> 80 <= Z.of_nat (length (e_data x)) ->
  chunk_map_item (ikey (item path)) (data path) 0 = Ok (chunk_of x).
Proof.
  intros Hx Hp Hl. unfold chunk_map_item, chunk_length, chunk_devid, chunk_offset. cbn [Z.add].
  rewrite !(path_field 8 _ x) by (done || lia). cbn [mbind result_bind]. by rewrite (hi_key _ _ Hx).
Qed.

Lemma ahead_succ q : ahead tree q (knum chunk_key) -> ahead tree (S q) (knum chunk_key).
Proof. intros H j x Hj. apply H. lia. Qed.

(** The slots of a leaf. *)
Lemma slot_loop fuel k c map path q x :
  (0 < fuel)%nat -> (length tree - q < k)%nat -> cinv c -> pos path q x -> ahead tree q (knum chunk_key) -> read_upto q map ->
  exists c' map' path' q' x', loop k (chunk_slot_step fuel sb chunk_key) (c, map, path) = Ok (c', map', path') /\
    cinv c' /\ (q <= q')%nat /\ pos path' q' x' /\ ahead tree q' (knum chunk_key) /\
    (~ is_chunk x' /\ read_upto q' map' \/ is_chunk x' /\ read_upto (S q') map' /\ leaf_end path').
Proof.
  intros Hf. revert c map path q x. induction k as [|k IH]; intros c map path q x Hk Hc Hpos Hahead Hread; [lia|].
  pose proof Hpos as [Hp _ _ Hx Hhas]. pose proof (lookup_lt_Some _ _ _ Hx) as Hq.
  destruct (decide (is_chunk x)) as [Hch|Hn].
  2: { exists c, map, path, q, x. split; [|splits; try done; by left]. apply loop_break. unfold chunk_slot_step.
       by rewrite decide_True by by apply (type_test _ x). }
  pose proof (chunks_data x ltac:(by eapply list_elem_of_lookup_2) Hch) as [Hdata _].
  destruct (read_upto_insert q map x Hx Hch Hread) as (map1 & Ei & Hread1).
  destruct (next_slot_ok sb nodesize leafsize sb_leaf node_range leaf_range phys map1 (read_upto_agrees (S q) map1 Hq Hread1)
    fuel d addr lo hi c path chunk_key q x tree_wf Hf Hc chunk_key_ok Hpos Hahead) as (c1 & path1 & ok & En & Hc1 & Hok).
  assert (chunk_slot_step fuel sb chunk_key (c, map, path) =
    Ok (if ok then Continue (c1, map1, path1) else Break (c1, map1, path1))) as Estep.
  { unfold chunk_slot_step. rewrite decide_False by (intros H; by apply (type_test _ x) in H).
    rewrite (chunk_item_ok _ x) by done. cbn [mbind result_bind]. rewrite Ei. cbn [mbind result_bind]. rewrite En.
    by destruct ok. }
  destruct ok.
  - rewrite (loop_continue _ _ _ _ Estep). destruct Hok as [y Hy].
    destruct (IH c1 map1 path1 (S q) y) as (c' & map' & path' & q' & x' & E & Hc' & Hq' & Hrest); try done; try lia.
    { by apply ahead_succ. }
    exists c', map', path', q', x'. split; [done|]. split; [done|]. split; [lia|done].
  - destruct Hok as (-> & -> & Hend). exists c, map1, path, q, x. split; [by apply loop_break|].
    splits; try done. right. by splits.
Qed.

(** All leaves. *)
Lemma leaf_loop fuel k c map path q x :
  (length tree < fuel)%nat -> (d < fuel)%nat -> (length tree - q < k)%nat -> cinv c -> pos path q x -> ahead tree q (knum chunk_key) ->
  read_upto q map ->
  exists c' map' q', loop k (chunk_leaf_step fuel sb chunk_key) (c, map, path) = Ok (c', map') /\ cinv c' /\
    (q <= q')%nat /\ (q' <= length tree)%nat /\ read_upto q' map' /\
    (q' = length tree \/ exists x', tree !! q' = Some x' /\ ~ is_chunk x').
Proof.
  intros Hf Hd. revert c map path q x. induction k as [|k IH]; intros c map path q x Hk Hc Hpos Hahead Hread; [lia|].
  pose proof (lookup_lt_Some _ _ _ (ps_item _ _ _ _ _ _ _ _ Hpos)) as Hq.
  destruct (slot_loop fuel fuel c map path q x) as (c1 & map1 & path1 & q1 & x1 & E1 & Hc1 & Hq1 & Hpos1 & Hahead1 & Hor); try done; try lia.
  pose proof (ps_item _ _ _ _ _ _ _ _ Hpos1) as Hx1. pose proof (lookup_lt_Some _ _ _ Hx1) as Hl1.
  destruct Hor as [[Hn Hread1]|(Hch & Hread1 & Hend)].
  { exists c1, map1, q1. split; [|splits; try done; try lia; right; by exists x1].
    - apply loop_break. unfold chunk_leaf_step. rewrite E1. cbn [mbind result_bind].
      by rewrite decide_True by (apply (type_test _ x1); [apply Hpos1|done]). }
  destruct (next_leaf_ok sb nodesize leafsize sb_node sb_leaf node_range leaf_range phys map1 (read_upto_agrees (S q1) map1 Hl1 Hread1)
    fuel d addr lo hi c1 path1 chunk_key q1 x1 tree_wf depth Hd Hc1 chunk_key_ok Hpos1 Hahead1 Hend) as (c2 & path2 & ok & E2 & Hc2 & Hok).
  assert (chunk_leaf_step fuel sb chunk_key (c, map, path) =
    Ok (if ok then Continue (c2, map1, path2) else Break (c2, map1))) as Estep.
  { unfold chunk_leaf_step. rewrite E1. cbn [mbind result_bind].
    rewrite decide_False by (intros H; apply (type_test _ x1) in H; [done|apply Hpos1]). rewrite E2. by destruct ok. }
  destruct ok.
  - rewrite (loop_continue _ _ _ _ Estep). destruct Hok as [y Hy].
    destruct (IH c2 map1 path2 (S q1) y) as (c' & map' & q' & E & Hc' & Hq' & Hrest); try done; try lia.
    { by apply ahead_succ. }
    exists c', map', q'. split; [done|]. split; [done|]. split; [lia|done].
  - exists c2, map1, (S q1). split; [by apply loop_break|]. splits; try done; lia.
Qed.
(** ** The whole tree *)

Context (no_metadump : exists flags, sb_flags sb = Ok flags /\ Z.land flags BTRFS_SUPER_FLAG_METADUMP = 0).
Context (root : sb_chunk_root sb = Ok addr).

Lemma read_chunk_tree_start fuel c : (d < fuel)%nat -> cinv c ->
  exists c' path q x ret, search_tree map0 sb fuel c addr chunk_key clear_path = Ok (c', path, ret) /\ cinv c' /\
    pos path q x /\ last_upto tree 0 (knum chunk_key) q /\
    btrfs_read_chunk_tree fuel c sb map0 = loop fuel (chunk_leaf_step fuel sb chunk_key) (c', map0, path).
Proof.
  intros Hf Hc.
  destruct (search_clear sb nodesize leafsize sb_node sb_leaf node_range leaf_range phys map0
    (phys_of_agrees map0 map0 map0_ok (fun _ H => H)) fuel d addr lo hi c chunk_key tree_wf Hf ltac:(lia) Hc chunk_key_ok)
    as (c' & path & ret & q & x & E & Hc' & Hfound).
  exists c', path, q, x, ret. split; [done|]. split; [done|]. split; [by apply found_position in Hfound|].
  split; [apply Hfound|]. destruct no_metadump as (flags & Ef & Hz). unfold btrfs_read_chunk_tree.
  rewrite Ef. cbn [mbind result_bind]. rewrite decide_False by (intros H; by apply H). rewrite root. cbn [mbind result_bind].
  fold chunk_key. by rewrite E.
Qed.

Lemma chunk_kind x : is_chunk x -> x ∈ tree -> knum chunk_key <= enum x.
Proof.
  intros [H1 H2] Hx. apply list_elem_of_lookup_1 in Hx as [j Hj].
  assert (0 <= k_offset (e_key x)) as Ho.
  { destruct (chunks_data x) as [_ [H _]]; [by eapply list_elem_of_lookup_2|by split|done]. }
  unfold knum. rewrite <- H1, <- H2. unfold chunk_key at 3. cbn [k_offset]. lia.
Qed.

(** C30. For a tree that has a chunk at the logical address 0 and at most one level of
    nodes above its leaves ([depth]), all chunks of the tree are added to the map, but
    for those at addresses that it has, and nothing else is.  Both conditions are
    those of the code, not of the format: without the chunk at 0 the chunks are not
    read ([read_chunk_tree_skips]), and below a second level of nodes the first items
    of later leaves are left out. *)
Theorem read_chunk_tree_complete fuel c :
  (length tree < fuel)%nat -> (d < fuel)%nat -> cinv c -> (exists x, x ∈ tree /\ e_key x = chunk_key) ->
  exists c' map', btrfs_read_chunk_tree fuel c sb map0 = Ok (c', map') /\ cinv c' /\ map_ok map' /\
    forall m, m ∈ map' <-> m ∈ map0 \/ exists x, x ∈ tree /\ new_chunk x /\ m = chunk_of x.
Proof.
  intros Hlen Hf Hc (x0 & [q0 Hx0]%list_elem_of_lookup_1 & Ek).
  destruct (read_chunk_tree_start fuel c Hf Hc) as (c1 & path & q & x & ret & _ & Hc1 & Hpos & (_ & Hahead & Hor) & ->).
  pose proof (ps_item _ _ _ _ _ _ _ _ Hpos) as Hx. pose proof (lookup_lt_Some _ _ _ Hx) as Hq.
  assert (q = q0) as ->.
  { destruct (Nat.lt_trichotomy q q0) as [H|[|H]]; [|done|].
    - pose proof (Hahead q0 x0 H Hx0). rewrite Ek in *. lia.
    - destruct Hor as [->|Hle]; [lia|]. pose proof (Hle x Hx). pose proof (tree_lt q0 q x0 x Hx0 Hx H). rewrite Ek in *. lia. }
  rewrite Hx in Hx0. injection Hx0 as ->.
  assert (read_upto q0 map0) as Hread.
  { constructor; [apply map0_ok|lia|]. intros m. split; [by left|]. intros [Hm|(j & y & Hj & Hy & [Hch _] & _)]; [done|].
    pose proof (tree_lt j q0 y x0 Hy Hx Hj). pose proof (chunk_kind y Hch ltac:(by eapply list_elem_of_lookup_2)).
    rewrite Ek in *. lia. }
  destruct (leaf_loop fuel fuel c1 map0 path q0 x0) as (c' & map' & q' & E & Hc' & Hq1 & Hq2 & Hread' & Hend); try done; try lia.
  exists c', map'. split; [done|]. split; [done|]. split; [by apply (read_upto_ok q')|]. intros m. rewrite (ru_elements _ _ Hread').
  split; (intros [Hm|H]; [by left|right]).
  - destruct H as (j & y & Hj & Hy & Hnew & ->). exists y. split; [by eapply list_elem_of_lookup_2|done].
  - destruct H as (y & [j Hy]%list_elem_of_lookup_1 & Hnew & ->). exists j, y. split; [|done].
    destruct (decide (j < q')%nat) as [|Hge]; [done|]. pose proof (lookup_lt_Some _ _ _ Hy).
    destruct Hend as [->|(z & Hz & Hn)]; [lia|]. destruct Hn.
    assert (knum chunk_key <= enum z) as Hle.
    { rewrite <- Ek. destruct (decide (q' = q0)) as [->|]; [rewrite Hx in Hz; by injection Hz as ->|].
      pose proof (tree_lt q0 q' x0 z Hx Hz ltac:(lia)). lia. }
    assert (enum z <= enum y) as Hle'.
    { destruct (decide (j = q')) as [->|]; [rewrite Hz in Hy; by injection Hy as ->|].
      pose proof (tree_lt q' j z y Hz Hy ltac:(lia)). lia. }
    apply (same_type_between chunk_key _ (e_key y)); [apply chunk_key_ok| | |apply Hnew|done];
      eapply items_key_ok, list_elem_of_lookup_2; done.
Qed.

(** Without a chunk at the logical address 0, and with an item before the
    chunks, none of them is read. *)
Theorem read_chunk_tree_skips fuel c :
  (0 < length tree < fuel)%nat -> (d < fuel)%nat -> cinv c -> (forall x, x ∈ tree -> e_key x <> chunk_key) ->
  (exists x, x ∈ tree /\ enum x < knum chunk_key) ->
  exists c', btrfs_read_chunk_tree fuel c sb map0 = Ok (c', map0) /\ cinv c'.
Proof.
  intros Hlen Hf Hc Hno (x0 & [q0 Hx0]%list_elem_of_lookup_1 & Hlt).
  destruct (read_chunk_tree_start fuel c Hf Hc) as (c1 & path & q & x & ret & _ & Hc1 & Hpos & (_ & Hahead & Hor) & ->).
  pose proof (ps_item _ _ _ _ _ _ _ _ Hpos) as Hx. assert (x ∈ tree) as Hin by by eapply list_elem_of_lookup_2.
  assert (enum x < knum chunk_key) as Hxk.
  { assert (enum x <= knum chunk_key) as Hle.
    { destruct Hor as [->|H]; [|by apply H]. destruct (decide (q0 = 0%nat)) as [->|]; [rewrite Hx in Hx0; injection Hx0 as ->; lia|].
      pose proof (tree_lt 0 q0 x x0 Hx Hx0 ltac:(lia)). lia. }
    destruct (decide (enum x = knum chunk_key)) as [E|]; [|lia]. destruct (Hno x Hin).
    apply knum_inj; [by eapply items_key_ok|apply chunk_key_ok|done]. }
  assert (~ is_chunk x) as Hn by (intros Hch; pose proof (chunk_kind x Hch Hin); lia).
  destruct fuel as [|fuel]; [lia|]. exists c1. split; [|done].
  assert (loop (S fuel) (chunk_slot_step (S fuel) sb chunk_key) (c1, map0, path) = Ok (c1, map0, path)) as E.
  { apply loop_break. unfold chunk_slot_step. by rewrite decide_True by (apply (type_test _ x); [apply Hpos|done]). }
  apply loop_break. unfold chunk_leaf_step. rewrite E. cbn [mbind result_bind].
  by rewrite decide_True by (apply (type_test _ x); [apply Hpos|done]).
Qed.
End ChunkTree.
End BtrfsChunkSpec.
