(* ===== verification/BtrfsFileSpec.v ===== *)
(** * Btrfs: inodes, names and files

    The tree of the file system as a list of items gives the inodes, the names
    of directories by the hash of the name, and the extents of files, which are
    an instance of [ExtentFS]. *)

From Stdlib Require Import ZArith Lia.
From S2P Require Import Prelude Dirent CStr BlockCache GetFsSec Runs Crc32c Btrfs BtrfsSpec BtrfsTreeSpec BtrfsChunkSpec.
Import Dirent.Dirent CStr.CStr.
Import GetFsSec Runs Crc32c.Crc32c Btrfs BtrfsSpec BtrfsTreeSpec BtrfsChunkSpec.

Module BtrfsFileSpec.

(** ** What the items say *)

(** Where the data of an extent are. *)
Definition is_inline (x : entry) : Prop := fld 1 (e_data x) 20 = BTRFS_FILE_EXTENT_INLINE.

#[export] Instance is_inline_dec x : Decision (is_inline x) := _.

Definition inline_address (x : entry) : Z := e_addr x + inline_data.
Definition disk_bytenr (x : entry) : Z := fld 8 (e_data x) 21.

Definition inode_key (inr : Z) : btrfs_disk_key := Key inr BTRFS_INODE_ITEM_KEY 0.
Definition extent_key (inr o : Z) : btrfs_disk_key := Key inr BTRFS_EXTENT_DATA_KEY o.
Definition dir_key (inr hash : Z) : btrfs_disk_key := Key inr BTRFS_DIR_ITEM_KEY hash.

(** Keys of an object. *)
Lemma file_key_ok i t o : 0 <= i < 0x10000000000000000 -> 0 <= t < 0x100 -> 0 <= o < 0x10000000000000000 -> key_ok (Key i t o).
Proof. done. Qed.

Definition has_data (m : Z) : Prop := m = dt_value DT_REG \/ m = dt_value DT_LNK.

#[export] Instance has_data_dec m : Decision (has_data m) := _.

(** The inode with a number; a file without an extent has none. *)
Definition inode_of (l : list entry) (inr : Z) : option inode :=
  x ← lookup_key l (inode_key inr);
  let m := IFTODT (fld 4 (e_data x) 52) in
  let n := u32 (fld 8 (e_data x) 16) in
  if decide (has_data m) then
    y ← lookup_key l (extent_key inr 0);
    Some (Inode (u32 inr) n m (if decide (is_inline y) then inline_address y else disk_bytenr y))
  else Some (Inode (u32 inr) n m 0).

(** The inode that a directory has for a name. *)
Definition named_inode (l : list entry) (dir : Z) (name : list Z) : option inode :=
  x ← lookup_key l (dir_key dir (crc32c 0xfffffffe name));
  inode_of l (fld 8 (e_data x) 0).

(** Items as long as their structures. *)
Definition item_long (x : entry) : Prop :=
  (k_type (e_key x) = BTRFS_INODE_ITEM_KEY -> 160 <= Z.of_nat (length (e_data x))) /\
  (k_type (e_key x) = BTRFS_DIR_ITEM_KEY -> 30 <= Z.of_nat (length (e_data x))) /\
  (k_type (e_key x) = BTRFS_EXTENT_DATA_KEY ->
     21 <= Z.of_nat (length (e_data x)) /\ 0 <= e_addr x < 0x8000000000000000 /\
     (~ is_inline x -> 53 <= Z.of_nat (length (e_data x)))).

#[export] Instance item_long_dec x : Decision (item_long x) := _.

Lemma lookup_key_elem l key x : lookup_key l key = Some x -> x ∈ l /\ e_key x = key.
Proof.
  unfold lookup_key. intros H. apply head_Some_elem_of, list_elem_of_filter in H. tauto.
Qed.

Section FsTree.
Context {C : Type} `{BC : !BlockCache C}.
Context (sb : list Z) (nodesize leafsize : Z).
Context (sb_node : sb_nodesize sb = Ok nodesize) (sb_leaf : sb_leafsize sb = Ok leafsize).
Context (node_range : 101 <= nodesize <= 4096) (leaf_range : 101 <= leafsize <= 4096).
Context (map : btrfs_chunk_map) (map_wf : map_ok map).
Context (d : nat) (fs_tree lo hi : Z).
Abbreviation phys := (phys_of map).
Abbreviation tree := (items nodesize leafsize phys d fs_tree).
Context (tree_wf : tree_ok nodesize leafsize phys d fs_tree lo hi) (depth : (d < 8)%nat).
Context (items_long : Forall item_long tree).
Context (fuel : nat) (enough : (d < fuel)%nat).

Lemma find_key c key : cinv c -> key_ok key ->
  exists c' path ret q x, search_tree map sb fuel c fs_tree key clear_path = Ok (c', path, ret) /\ cinv c' /\
    (ret = 0 /\ lookup_key tree key = Some x \/ ret = 1 /\ lookup_key tree key = None) /\
    last_upto tree 0 (knum key) q /\ tree !! q = Some x /\ has_item path x /\ path_ok path.
Proof.
  intros Hc Hk. eapply (search_tree_finds sb nodesize leafsize sb_node sb_leaf node_range leaf_range phys map
    (phys_of_agrees map map map_wf (fun _ H => H)) fuel d fs_tree lo hi c key tree_wf enough depth Hc Hk).
Qed.

(** The part that uses of [find_key] have in common. *)
Lemma search_key c key : cinv c -> key_ok key ->
  exists c' path, cinv c' /\ match lookup_key tree key with
    | Some x => search_tree map sb fuel c fs_tree key clear_path = Ok (c', path, 0) /\ has_item path x /\ path_ok path /\
                e_key x = key /\ item_long x /\ Forall byte_ok (e_data x)
    | None => search_tree map sb fuel c fs_tree key clear_path = Ok (c', path, 1)
    end.
Proof.
  intros Hc Hk. destruct (find_key c key Hc Hk) as (c' & path & ret & q & x & E & Hc' & Hor & _ & _ & Hx & Hp).
  exists c', path. split; [done|]. destruct Hor as [[-> El]|[-> El]]; rewrite El; [|done].
  apply lookup_key_elem in El as [Hin Ek]. pose proof items_long as H. rewrite Forall_forall in H. splits; try done; [by apply H|by eapply items_data_ok].
Qed.

(** The address of an extent, as [btrfs_iget_by_inr] and [btrfs_next_extent]
    compute it. *)
Lemma extent_data_ok path x a : has_item path x -> path_ok path -> item_long x -> k_type (e_key x) = BTRFS_EXTENT_DATA_KEY ->
  extent_data path a = Ok (if decide (is_inline x) then inline_address x else a).
Proof.
  intros Hx Hp (_ & _ & Hl) Ht. destruct (Hl Ht) as (Hlen & Ha & _). unfold extent_data, extent_type.
  rewrite (path_field 1 path x) by (done || lia). cbn [mbind result_bind].
  destruct (decide (is_inline x)) as [Hin|Hin]; [rewrite decide_True by exact Hin|by rewrite decide_False by exact Hin].
  destruct (hi_addr _ _ Hx) as (leaf & Ho & Ea). rewrite (lookup8_0 _ leaf) by done. cbn [mbind result_bind].
  unfold inline_address. rewrite <- Ea in *. rewrite u64_small; [done|]. unfold inline_data. lia.
Qed.

(** A field of the first bytes of the data, which are long enough for it to be
    there. *)
Lemma path_data_get n path o : path_ok path -> 0 <= o -> o + Z.of_nat n <= 4096 -> exists v, getle n (data path) o = Ok v.
Proof. intros Hp Ho Hn. pose proof (po_data _ Hp). rewrite getle_ok by lia. by eexists. Qed.

Lemma iget_by_inr_ok c inr : cinv c -> 0 <= inr < 0x10000000000000000 ->
  exists c', cinv c' /\ btrfs_iget_by_inr fuel map sb fs_tree c inr = Ok (c', inode_of tree inr).
Proof.
  intros Hc Hi. unfold btrfs_iget_by_inr, inode_of. fold (inode_key inr) (extent_key inr 0).
  assert (key_ok (inode_key inr) /\ key_ok (extent_key inr 0)) as [Hk1 Hk2] by (split; apply file_key_ok; (done || lia)).
  destruct (search_key c (inode_key inr) Hc Hk1) as (c1 & path & Hc1 & H).
  destruct (lookup_key tree (inode_key inr)) as [x|]; cbn [mbind option_bind].
  2: { rewrite H. cbn [mbind result_bind]. exists c1. split; [done|]. by rewrite decide_True by done. }
  destruct H as (E & Hx & Hp & Ek & (Hl & _ & _) & _). rewrite Ek in Hl. specialize (Hl eq_refl).
  rewrite E. cbn [mbind result_bind]. rewrite decide_False by (intros H; by apply H).
  unfold inode_item_size, inode_item_mode. rewrite (path_field 8 path x), (path_field 4 path x) by (done || lia).
  cbn [mbind result_bind]. destruct (decide (has_data (IFTODT (fld 4 (e_data x) 52)))) as [Hm|Hm];
    [rewrite decide_True by exact Hm|rewrite decide_False by exact Hm; exists c1; by split].
  destruct (search_key c1 (extent_key inr 0) Hc1 Hk2) as (c2 & path2 & Hc2 & H).
  destruct (lookup_key tree (extent_key inr 0)) as [y|]; cbn [mbind option_bind].
  2: { rewrite H. cbn [mbind result_bind]. exists c2. split; [done|]. by rewrite decide_True by done. }
  destruct H as (E2 & Hy & Hp2 & Ek2 & Hly & _). rewrite E2. cbn [mbind result_bind]. rewrite decide_False by (intros H; by apply H).
  unfold extent_disk_bytenr. destruct (path_data_get 8 path2 21 Hp2 ltac:(lia) ltac:(lia)) as [v Ev].
  rewrite Ev. cbn [mbind result_bind]. rewrite (extent_data_ok _ y) by (done || by rewrite Ek2). cbn [mbind result_bind].
  exists c2. split; [done|]. do 5 f_equal. case_decide as Hin; [done|]. destruct Hly as (_ & _ & Hly).
  rewrite Ek2 in Hly. destruct (Hly eq_refl) as (_ & _ & H53). specialize (H53 Hin).
  rewrite (path_field 8 path2 y) in Ev by (done || lia). by injection Ev as <-.
Qed.

(** C29. The lookup of a name gives the inode that the directory has for the hash of
    the name: the item with the hash, its inode item, and the address of its first
    extent if it is a file or a link. *)
Theorem btrfs_iget_finds c name rest parent :
  cinv c -> Forall byte_ok name -> chars name -> 0 <= ino parent < 0x10000000000000000 ->
  exists c', cinv c' /\
    btrfs_iget fuel map sb fs_tree c (name ++ 0 :: rest) parent = Ok (c', named_inode tree (ino parent) name).
Proof.
  intros Hc Hb Hn Hi. unfold btrfs_iget, named_inode. rewrite strlen_ok by done. cbn [mbind result_bind].
  unfold btrfs_name_hash. rewrite length_app. rewrite decide_True by (cbn; lia). rewrite Nat2Z.id, take_app_length.
  rewrite crc32c_le_correct by done. cbn [mbind result_bind]. set (hash := crc32c 0xfffffffe name). fold (dir_key (ino parent) hash).
  assert (key_ok (dir_key (ino parent) hash)) as Hk by (apply file_key_ok; [done|done|]; pose proof (crc32c_range 0xfffffffe name); lia).
  destruct (search_key c (dir_key (ino parent) hash) Hc Hk) as (c1 & path & Hc1 & H).
  destruct (lookup_key tree (dir_key (ino parent) hash)) as [x|]; cbn [mbind option_bind].
  2: { rewrite H. cbn [mbind result_bind]. exists c1. split; [done|]. by rewrite decide_True by done. }
  destruct H as (E & Hx & Hp & Ek & (_ & Hl & _) & Hd). rewrite Ek in Hl. specialize (Hl eq_refl).
  rewrite E. cbn [mbind result_bind]. rewrite decide_False by (intros H; by apply H).
  unfold dir_item_location, read_key. rewrite (path_field 8 path x 0), (path_field 1 path x), (path_field 8 path x) by (done || lia).
  cbn [mbind result_bind k_objectid]. apply iget_by_inr_ok; [done|]. by apply (fld_range 8).
Qed.
(** ** Extents *)

Section Read.
Context `{SD : SectorDevice} (inr sz : Z) (inr_range : 0 <= inr < 0x10000000000000000).
Context (size_ok : 0 <= sz <= 0x100000000 - 2 ^ sector_shift).

Abbreviation ss := (2 ^ sector_shift).

(** The logical address and the number of the bytes of an extent. *)
Definition extent_address (x : entry) : Z := disk_bytenr x + fld 8 (e_data x) 37.
Definition extent_bytes (x : entry) : Z := fld 8 (e_data x) 45.

(** The sectors of an extent on the disk. *)
Definition run_of (x : entry) : sector_run :=
  SRun (default 0 (phys (extent_address x)) / ss) (extent_bytes x / ss).

(** An extent that is not compressed, in whole sectors. *)
Record extent_ok (x : entry) : Prop := {
  eo_inline : ~ is_inline x;
  eo_plain : fld 1 (e_data x) 16 = 0 /\ fld 1 (e_data x) 17 = 0;
  eo_bytes : (ss | extent_bytes x);
  eo_address : (ss | extent_address x) /\ exists p, phys (extent_address x) = Some p /\ (ss | p) /\ p < 0x8000000000000000;
  eo_run : run_wf (run_of x) }.

(** The extents of the file are these, one after the other from sector [l] on. *)
Fixpoint has_extents (l : Z) (es : list entry) : Prop :=
  match es with
  | [] => True
  | x :: es => lookup_key tree (extent_key inr (l * ss)) = Some x /\ extent_ok x /\
               has_extents (l + extent_bytes x / ss) es
  end.

Context (es : list entry) (extents : has_extents 0 es) (total_max : total (run_of <$> es) < 0x100000000).
Context (covered : sz <= total (run_of <$> es) * ss).

Lemma ss_range : 1 <= ss <= 0x10000.
Proof.
  pose proof sector_shift_range. split; [pose proof (Z.pow_pos_nonneg 2 sector_shift); lia|].
  change 0x10000 with (2 ^ 16). apply Z.pow_le_mono_r; lia.
Qed.

Lemma has_extents_app l before rest : has_extents l (before ++ rest) <->
  has_extents l before /\ has_extents (l + total (run_of <$> before)) rest.
Proof.
  revert l. induction before as [|x before IH]; intros l; cbn [app has_extents fmap list_fmap total].
  - rewrite Z.add_0_r. tauto.
  - rewrite IH. cbn [run_of sr_count]. rewrite Z.add_assoc. tauto.
Qed.

Lemma has_extents_wf l xs : has_extents l xs -> Forall run_wf (run_of <$> xs).
Proof.
  revert l. induction xs as [|x xs IH]; intros l; cbn [has_extents fmap list_fmap]; [done|].
  intros (_ & Hx & H). constructor; [apply Hx|by eapply IH].
Qed.

Abbreviation file_runs := (run_of <$> es).

Lemma file_runs_wf : Forall run_wf file_runs.
Proof. by eapply has_extents_wf. Qed.

(** The inode between calls: the search may be at any extent. *)
Definition btrfs_at (s : C * inode) (l : Z) : Prop :=
  cinv s.1 /\ ino s.2 = inr /\ size s.2 = sz /\ pvt_offset s.2 mod ss = 0 /\
  exists before rest, es = before ++ rest /\ l = total (run_of <$> before).

Lemma btrfs_map_valid l p : runs_map file_runs l = Some p -> p = EXTENT_ZERO \/ valid_sector p.
Proof. intros H. right. apply (runs_map_valid file_runs l); [apply file_runs_wf|done]. Qed.

(** An extent that is found. *)
Lemma next_extent_found c i e x l : cinv c -> ino i = inr -> 0 <= l -> l * ss < 0x100000000 ->
  lookup_key tree (extent_key inr (l * ss)) = Some x -> extent_ok x -> sr_count (run_of x) < 0x100000000 ->
  exists c', cinv c' /\ btrfs_next_extent fuel map sb fs_tree sector_shift (c, i) e l =
    Ok ((c', Inode (ino i) (size i) (mode i) (extent_address x)),
        Extent (sr_first (run_of x)) (GetFsSec.lstart e) (sr_count (run_of x)), false).
Proof.
  intros Hc Hi Hl Hls Hx [Hin [Hcomp Henc] Hbytes [Hal (p & Hp & Hps & Hpr)] Hrun] Hcount.
  pose proof ss_range as Hss. pose proof sector_shift_range as Hsh.
  assert (0 <= l * ss) as Hls0 by nia. unfold btrfs_next_extent. rewrite shiftl_mul, (u32_small (l * ss)), Hi by lia. fold (extent_key inr (l * ss)).
  destruct (search_key c (extent_key inr (l * ss)) Hc) as (c1 & path & Hc1 & H); [by apply file_key_ok; [|done|lia]|].
  rewrite Hx in H. destruct H as (E & Hhas & Hpath & Ek & Hlong & Hb). pose proof Hlong as (_ & _ & Hlen). rewrite Ek in Hlen.
  destruct (Hlen eq_refl) as (_ & _ & H53). specialize (H53 Hin).
  rewrite E. cbn [mbind result_bind]. rewrite decide_False by (intros H; by apply H).
  unfold extent_encryption, extent_compression, extent_type, extent_disk_bytenr, extent_offset, extent_num_bytes.
  rewrite (path_field 1 path x 17), Henc by (done || lia). cbn [mbind result_bind]. rewrite decide_False by (intros H; by apply H).
  rewrite (path_field 1 path x 16), Hcomp by (done || lia). cbn [mbind result_bind]. rewrite decide_False by (intros H; by apply H).
  rewrite (path_field 1 path x 20), (path_field 8 path x 21), (path_field 8 path x 37), (path_field 8 path x 45) by (done || lia).
  cbn [mbind result_bind]. fold (disk_bytenr x) (extent_address x) (extent_bytes x).
  rewrite (extent_data_ok _ x) by (done || by rewrite Ek). cbn [mbind result_bind].
  rewrite (decide_False (P := is_inline x)) by done. rewrite decide_False by done.
  assert (0 <= extent_address x < 0x10000000000000000) as Ha.
  { unfold phys_of in Hp. case_decide as Hd; [|done]. change (2 ^ 64) with 0x10000000000000000 in Hd. done. }
  rewrite u64_small by done. rewrite (phys_of_agrees map map map_wf (fun _ H => H) _ p Hp). cbn [mbind result_bind].
  exists c1. split; [done|]. destruct Hrun as (Hc0 & Hf0 & Hm0 & _). unfold run_of in *. rewrite Hp in *. cbn [sr_first sr_count default] in *.
  destruct Hbytes as [k Hk]. rewrite Hk in *. rewrite Z.div_mul in * by lia. change (2 ^ 63) with 0x8000000000000000 in *.
  assert (0 <= extent_bytes x < 0x10000000000000000) as Hbr by (apply (fld_range 8), Hb). rewrite Hk in Hbr.
  rewrite !shiftr_div by lia. do 3 f_equal. f_equal.
  rewrite u64_small by nia.
  assert ((k * ss + ss - 1) / ss = k) as -> by (symmetry; apply (Z.div_unique_pos _ _ _ (ss - 1)); lia).
  rewrite u32_small by lia. done.
Qed.
Lemma btrfs_law s e l : btrfs_at s l -> 0 <= l -> l * ss < sz ->
  exists s' e' err, btrfs_next_extent fuel map sb fs_tree sector_shift s e l = Ok (s', e', err) /\
    if err || bool_decide (len e' = 0) then runs_map file_runs l = None /\ btrfs_at s' l
    else extent_maps (runs_map file_runs) (Extent (pstart e') l (len e')) /\ btrfs_at s' (l + len e').
Proof.
  intros (Hc & Hino & Hsz & _ & before & rest & Hes & Hl) Hl0 Hls. destruct s as [c i]. cbn [fst snd] in *.
  pose proof ss_range as Hss. pose proof total_max as Ht. pose proof file_runs_wf as Hwf. pose proof covered as Hcov.
  rewrite Hes, fmap_app in Ht, Hwf, Hcov. destruct rest as [|x rest].
  { cbn [fmap list_fmap] in Hcov. rewrite app_nil_r, <- Hl in Hcov. lia. }
  pose proof extents as Hext. rewrite Hes in Hext. apply has_extents_app in Hext as [_ Hext].
  rewrite Z.add_0_l, <- Hl in Hext. destruct Hext as (Hx & Hok & _).
  pose proof (runs_extent _ _ _ Hwf Ht) as Hmap. rewrite <- Hl in Hmap.
  cbn [fmap list_fmap] in Ht, Hwf. rewrite total_app in Ht. cbn [total] in Ht. apply Forall_app in Hwf as [Hb [Hr Hrest]%Forall_cons].
  pose proof (total_nonneg _ Hb). pose proof (total_nonneg _ Hrest). pose proof (proj1 Hr) as Hcount.
  destruct (next_extent_found c i e x l) as (c' & Hc' & E); try done; try lia.
  do 3 eexists. split; [exact E|]. cbn [orb len pstart]. rewrite bool_decide_false by lia. split.
  - rewrite Hes, fmap_app. exact Hmap.
  - split; [done|]. cbn [snd ino size pvt_offset]. splits; try done.
    + destruct (eo_address _ Hok) as [[k ->] _]. apply Z.mod_mul. lia.
    + exists (before ++ [x]), rest. rewrite <- app_assoc, fmap_app, total_app. cbn [fmap list_fmap total]. split; [done|]. lia.
Qed.

#[export] Instance btrfs_fs : ExtentFS (C * inode) := {|
  extent_ops := btrfs_ops fuel map sb fs_tree sz; fs_at := btrfs_at;
  inode_size_range := size_ok; sector_map := runs_map file_runs; sector_map_valid := btrfs_map_valid;
  GetFsSec.next_extent_ok := fun s e l H _ => btrfs_law s e l H |}.

Definition btrfs_contents : list Z := take (Z.to_nat sz) (contents file_runs).

Lemma open_at f : ReadFile.inode_ok f -> exists l, btrfs_at (ReadFile.pvt f) l.
Proof.
  intros (_ & (_ & H & Hn) & Hs). destruct (decide (len (ReadFile.next_ext f) = 0)) as [E|E].
  - eexists. apply (Hs (or_introl E)).
  - eexists. apply Hn. lia.
Qed.

(** C27. Reading a file of a Btrfs volume returns the bytes of its extents, in order
    and cut at the size of the file. *)
Theorem btrfs_reads_file (f : ReadFile.inode) (offset sectors : Z) (buf : list Z) (rfuel : nat) :
  ReadFile.call_ok f offset sectors buf -> (Z.to_nat (sectors + 1) < rfuel)%nat ->
  let n := Z.min (sectors * ss) (sz - offset) in
  exists f' buf' more,
    btrfs_getfssec fuel rfuel map sb fs_tree f offset buf sectors = Ok (f', buf', offset + n, more, n) /\
    ReadFile.inode_ok f' /\ length buf' = length buf /\
    take (Z.to_nat n) buf' = take (Z.to_nat n) (drop (Z.to_nat offset) btrfs_contents).
Proof.
  intros Hc Hf n. destruct (open_at f (ReadFile.co_inode _ _ _ _ Hc)) as (l & _ & _ & Hsz & Hoff & _).
  destruct (runs_read (FS := btrfs_fs) file_runs eq_refl file_runs_wf covered rfuel f offset sectors buf Hc Hf) as (f' & buf' & more & E & Hi & Hd).
  exists f', buf', more. split; [|by split]. unfold btrfs_getfssec. destruct f as [t nx [c i]]. cbn [ReadFile.pvt snd ReadFile.this_extent ReadFile.next_ext] in *.
  rewrite Hoff, bool_decide_false by (intros [H _]; by apply H). rewrite Hsz.
  change (btrfs_ops fuel map sb fs_tree sz) with (extent_ops (ExtentFS := btrfs_fs)). rewrite E. cbn [mbind result_bind].
  by case_decide.
Qed.
End Read.

(** ** Files in the tree

    The data of a small file follow its item, at an address [a] that need not be
    at a sector; the first read counts the bytes before it as part of the file,
    and takes them away. *)

Section Inline.
Context `{SD : SectorDevice} (inr sz a p : Z) (y : entry) (inr_range : 0 <= inr < 0x10000000000000000).
Context (y_found : lookup_key tree (extent_key inr 0) = Some y) (y_inline : is_inline y).
Context (y_plain : fld 1 (e_data y) 16 = 0 /\ fld 1 (e_data y) 17 = 0).
Context (a_eq : a = inline_address y) (p_eq : phys a = Some p).

Abbreviation ss := (2 ^ sector_shift).
Abbreviation off := (a mod ss).

(** Chunks are aligned to sectors. *)
Context (aligned : p mod ss = off) (not_aligned : off <> 0).
Context (size_ok : 0 < sz /\ sz + off <= 0x100000000 - ss).

Definition inline_run : sector_run := SRun (p / ss) ((sz + off + ss - 1) / ss).

Context (inline_wf : run_wf inline_run).

Abbreviation inline_runs := [inline_run].

Lemma inline_off : 0 <= off < ss /\ 1 <= ss <= 0x10000.
Proof. pose proof ss_range. split; [apply Z.mod_pos_bound; lia|lia]. Qed.

Lemma inline_covered : sz + off <= total inline_runs * ss /\ total inline_runs = sr_count inline_run /\
  sr_count inline_run < 0x100000000.
Proof.
  pose proof inline_off as [Ho Hs]. cbn [total inline_run sr_count]. rewrite Z.add_0_r.
  pose proof (Z.div_mod (sz + off + ss - 1) ss). pose proof (Z.mod_pos_bound (sz + off + ss - 1) ss).
  split; [nia|]. split; [done|]. apply Z.div_lt_upper_bound; nia.
Qed.

Definition inline_at (s : C * inode) (l : Z) : Prop :=
  cinv s.1 /\ ino s.2 = inr /\ size s.2 = sz + off /\ pvt_offset s.2 = a /\ (l = 0 \/ l = total inline_runs).

Lemma inline_map_valid l q : runs_map inline_runs l = Some q -> q = EXTENT_ZERO \/ valid_sector q.
Proof. intros H. right. apply (runs_map_valid inline_runs l); [by constructor|done]. Qed.

Lemma inline_law s e l : inline_at s l -> 0 <= l -> l * ss < sz + off ->
  exists s' e' err, btrfs_next_extent fuel map sb fs_tree sector_shift s e l = Ok (s', e', err) /\
    if err || bool_decide (len e' = 0) then runs_map inline_runs l = None /\ inline_at s' l
    else extent_maps (runs_map inline_runs) (Extent (pstart e') l (len e')) /\ inline_at s' (l + len e').
Proof.
  intros (Hc & Hi & Hsz & Hpvt & Hl) Hl0 Hls. pose proof inline_covered as (Hcov & Htot & Hcount).
  destruct Hl as [-> | ->]; [|lia]. destruct s as [c i]. cbn [fst snd] in *. pose proof inline_off as [Ho Hs].
  pose proof sector_shift_range as Hsh. unfold btrfs_next_extent. rewrite Z.shiftl_0_l, (u32_small 0), Hi by lia. fold (extent_key inr 0).
  destruct (search_key c (extent_key inr 0) Hc) as (c1 & path & Hc1 & H); [by apply file_key_ok|].
  rewrite y_found in H. destruct H as (E & Hhas & Hpath & Ek & Hlong & _). pose proof Hlong as (_ & _ & Hlen). rewrite Ek in Hlen.
  destruct (Hlen eq_refl) as (H21 & _ & _). destruct y_plain as [Hcomp Henc].
  rewrite E. cbn [mbind result_bind]. rewrite decide_False by (intros H; by apply H).
  unfold extent_encryption, extent_compression, extent_type, extent_disk_bytenr, extent_offset, extent_num_bytes.
  rewrite (path_field 1 path y 17), Henc by (done || lia). cbn [mbind result_bind]. rewrite decide_False by (intros H; by apply H).
  rewrite (path_field 1 path y 16), Hcomp by (done || lia). cbn [mbind result_bind]. rewrite decide_False by (intros H; by apply H).
  rewrite (path_field 1 path y 20) by (done || lia).
  destruct (path_data_get 8 path 21 Hpath ltac:(lia) ltac:(lia)) as [v1 ->].
  destruct (path_data_get 8 path 37 Hpath ltac:(lia) ltac:(lia)) as [v2 ->].
  destruct (path_data_get 8 path 45 Hpath ltac:(lia) ltac:(lia)) as [v3 ->].
  cbn [mbind result_bind]. rewrite (extent_data_ok _ y) by (done || by rewrite Ek). cbn [mbind result_bind].
  rewrite (decide_True (P := is_inline y)), decide_True by done. rewrite <- a_eq.
  rewrite (phys_of_agrees map map map_wf (fun _ H => H) a p p_eq). cbn [mbind result_bind].
  rewrite Hsz, !shiftr_div, u32_small by lia. do 3 eexists. split; [reflexivity|]. cbn [orb len pstart].
  pose proof inline_wf as (Hn & _). fold (sr_count inline_run) (sr_first inline_run) in *.
  change ((sz + off + ss - 1) / ss) with (sr_count inline_run). change (p / ss) with (sr_first inline_run).
  rewrite bool_decide_false by lia. split.
  - apply (runs_extent [] inline_run []); [by constructor|]. cbn [app]. lia.
  - split; [done|]. cbn [snd ino size pvt_offset]. splits; try done. right. lia.
Qed.

Lemma inline_size_ok : 0 <= sz + off <= 0x100000000 - ss.
Proof. pose proof inline_off. lia. Qed.

#[export] Instance inline_fs : ExtentFS (C * inode) := {|
  extent_ops := btrfs_ops fuel map sb fs_tree (sz + off); fs_at := inline_at;
  inode_size_range := inline_size_ok; sector_map := runs_map inline_runs; sector_map_valid := inline_map_valid;
  GetFsSec.next_extent_ok := fun s e l H _ => inline_law s e l H |}.

(** The data: what follows the item, in the sectors of the disk. *)
Definition inline_contents : list Z := take (Z.to_nat sz) (drop (Z.to_nat off) (contents inline_runs)).

(** A new inode that [btrfs_iget_by_inr] made. *)
Definition new_file (c : C) (m : Z) : ReadFile.inode :=
  ReadFile.Inode (Extent 0 0 0) (Extent 0 0 0) (c, Inode inr sz m a).

(** The first read of a file that is in the tree returns its bytes, without those
    that are before them in their sector. *)
Theorem btrfs_reads_inline (c : C) (m sectors : Z) (buf : list Z) (rfuel : nat) :
  cinv c -> 0 < sectors -> sectors * ss <= 0x80000000 -> sectors * ss <= Z.of_nat (length buf) ->
  (Z.to_nat (sectors + 1) < rfuel)%nat ->
  let n := Z.min (sectors * ss) (sz + off) - off in
  exists f' buf' more,
    btrfs_getfssec fuel rfuel map sb fs_tree (new_file c m) 0 buf sectors = Ok (f', buf', n + off, more, n) /\
    length buf' = length buf /\ take (Z.to_nat n) buf' = take (Z.to_nat n) inline_contents.
Proof.
  intros Hc Hs Hmax Hbuf Hf n. pose proof inline_off as [Ho Hss]. pose proof inline_covered as (Hcov & _ & _).
  set (i := Inode inr (sz + off) m a). set (f := ReadFile.Inode (Extent 0 0 0) (Extent 0 0 0) (c, i)).
  assert (inline_at (c, i) 0) as Hat by (split; [done|]; splits; try done; by left).
  assert (ReadFile.call_ok (FS := inline_fs) f 0 sectors buf) as Hcall.
  { assert (ReadFile.request (FS := inline_fs) 0 sectors <= sectors) as Hreq by apply Z.le_min_l.
    constructor; [|by left|nia|cbn [inode_size extent_ops inline_fs btrfs_ops]; lia|by exists 0|nia|nia].
    unfold ReadFile.inode_ok. cbn [ReadFile.this_extent ReadFile.next_ext ReadFile.pvt f lstart len].
    split; [split; [lia|split; [lia|lia]]|]. split; [split; [lia|split; [lia|lia]]|]. by intros _. }
  destruct (runs_read (FS := inline_fs) inline_runs eq_refl ltac:(by constructor) Hcov rfuel f 0 sectors buf Hcall Hf)
    as (f' & buf' & more & E & Hi & Hlen & Hd).
  cbn [inode_size extent_ops inline_fs btrfs_ops] in E, Hd. rewrite Z.sub_0_r in *. set (k := Z.min (sectors * ss) (sz + off)) in *.
  assert (pvt_offset (ReadFile.pvt f').2 = a) as Hpvt.
  { destruct Hi as (_ & (_ & H & Hn) & Hsk). destruct (decide (len (ReadFile.next_ext f') = 0)) as [E0|E0].
    - apply (Hsk (or_introl E0)). - apply Hn. lia. }
  unfold btrfs_getfssec, new_file. cbn [ReadFile.pvt pvt_offset]. rewrite bool_decide_true by done.
  cbn [ino size mode pvt_offset ReadFile.this_extent ReadFile.next_ext]. rewrite (u32_small (sz + off)) by lia. fold i. cbn [size i].
  fold f. rewrite E. cbn [mbind result_bind]. rewrite decide_False by nia. rewrite Hpvt, u32_small by nia.
  rewrite decide_True by nia. exists f'. eexists. exists more. fold n. split; [do 4 f_equal; unfold n; lia|].
  assert (0 <= n /\ off + n = k) as [Hn Hk] by (unfold n; nia).
  assert (length (sub buf' off (Z.to_nat n)) = Z.to_nat n) as Hls by (apply sub_length; nia).
  split; [unfold overwrite; rewrite length_app, length_drop, Hls; nia|].
  unfold overwrite. rewrite take_app_length' by done. unfold sub, inline_contents.
  assert (take (Z.to_nat n) (drop (Z.to_nat off) buf') = drop (Z.to_nat off) (take (Z.to_nat k) buf')) as ->.
  { rewrite take_drop_commute. f_equal. f_equal. lia. }
  rewrite Hd. change (Z.to_nat 0) with 0%nat. rewrite drop_0, take_take. rewrite take_take, take_drop_commute. f_equal. f_equal. lia.
Qed.
End Inline.
End FsTree.
End BtrfsFileSpec.
