(* ===== verification/BtrfsDemo.v ===== *)
(** * A small Btrfs volume, for the examples

    The cache has blocks of 1024 bytes; a block of a tree has 640 bytes and starts
    at one of them.  One chunk, at the logical
    address 0, is in the map; the chunk tree at 0x1000 has it and a second one at
    0x100000.  The tree of the file system is a node at 0x2000 with the leaves
    0x2400 and 0x2800: the directory 256 with the name "a", the file 257 with an
    extent of two sectors, and the file 258 whose data are in the tree. *)

From Stdlib Require Import ZArith Lia List.
From stdpp Require Import sorting.
From S2P Require Import Prelude Dirent BlockCache GetFsSec Runs Crc32c Btrfs BtrfsSpec BtrfsTreeSpec BtrfsChunkSpec BtrfsFileSpec.
Import Dirent.Dirent GetFsSec Runs Crc32c.Crc32c Btrfs BtrfsSpec BtrfsTreeSpec BtrfsChunkSpec BtrfsFileSpec.

Module BtrfsDemo.

(** ** A check of trees *)

Definition below (n : Z) (f : Z -> bool) : bool := forallb f (seqZ 0 n).

Lemma below_ok n f : below n f = true -> forall i, 0 <= i < n -> f i = true.
Proof. unfold below. rewrite forallb_forall. intros H i Hi. apply H, list_elem_of_In, elem_of_seqZ. lia. Qed.

Lemma increasing_step K n : (forall i, 0 <= i < n - 1 -> K i < K (i + 1)) -> increasing K n.
Proof.
  intros H i j Hi Hj. replace j with (i + 1 + Z.of_nat (Z.to_nat (j - i - 1))) in * by lia.
  revert Hj. induction (Z.to_nat (j - i - 1)) as [|k IH]; intros Hj.
  - rewrite Z.add_0_r in *. apply H. lia.
  - replace (i + 1 + Z.of_nat (S k)) with (i + 1 + Z.of_nat k + 1) in * by lia.
    transitivity (K (i + 1 + Z.of_nat k)); [apply IH; lia|]. apply H. lia.
Qed.

Definition keys_okb (K : Z -> Z) (n lo hi : Z) : bool :=
  (K 0 =? lo) && below (n - 1) (fun i => K i <? K (i + 1)) && below n (fun i => K i <? hi).

Lemma keys_okb_ok K n lo hi : keys_okb K n lo hi = true -> keys_ok K n lo hi.
Proof.
  unfold keys_okb. rewrite !andb_true_iff, Z.eqb_eq. intros [[H0 H1] H2]. split; [done|]. split.
  - apply increasing_step. intros i Hi. apply Z.ltb_lt, (below_ok (n - 1) (fun i => K i <? K (i + 1))); done.
  - intros i Hi. by apply Z.ltb_lt, (below_ok n (fun i => K i <? hi)).
Qed.

Section Check.
Context {C : Type} `{BC : !BlockCache C} (nodesize leafsize : Z) (phys : Z -> option Z).

Abbreviation blk := (blk nodesize leafsize phys).

Definition block_okb (d : nat) (addr : Z) : bool :=
  match phys addr with Some p => (0 <=? p) && (p <? 2 ^ 62) | None => false end &&
  (fld 1 (blk d addr) 100 =? Z.of_nat d) && (1 <=? nr (blk d addr)) &&
  (header_size + match d with O => item_size | S _ => key_ptr_size end * nr (blk d addr) <=? bsize nodesize leafsize d).

Lemma block_okb_ok d addr : block_okb d addr = true -> block_ok nodesize leafsize phys d addr.
Proof.
  unfold block_okb. rewrite !andb_true_iff, Z.eqb_eq, !Z.leb_le. intros [[[H1 H2] H3] H4]. constructor; try done.
  destruct (phys addr) as [p|]; [|done]. rewrite andb_true_iff, Z.leb_le, Z.ltb_lt in H1. by exists p.
Qed.

Fixpoint tree_okb (d : nat) (addr lo hi : Z) : bool :=
  let b := blk d addr in
  block_okb d addr &&
  match d with
  | O => keys_okb (fun i => knum (lkey b i)) (nr b) lo hi && below (nr b) (fun i => lsize b i <=? BTRFS_MAX_LEAF_SIZE)
  | S d' => keys_okb (fun i => knum (nkey b i)) (nr b) lo hi &&
      below (nr b) (fun i =>
        tree_okb d' (nptr b i) (knum (nkey b i)) (if decide (i + 1 < nr b) then knum (nkey b (i + 1)) else hi))
  end.

Lemma tree_okb_ok d addr lo hi : tree_okb d addr lo hi = true -> tree_ok nodesize leafsize phys d addr lo hi.
Proof.
  revert addr lo hi. induction d as [|d IH]; intros addr lo hi; cbn [tree_okb tree_ok]; rewrite !andb_true_iff.
  - intros [Hb [Hk Hl]]. split; [by apply block_okb_ok|]. split; [by apply keys_okb_ok|]. intros i Hi.
    apply Z.leb_le. by apply (below_ok _ (fun i => lsize (blk 0 addr) i <=? BTRFS_MAX_LEAF_SIZE)) in Hi.
  - intros [Hb [Hk Hl]]. split; [by apply block_okb_ok|]. split; [by apply keys_okb_ok|]. intros i Hi.
    apply IH. by apply (below_ok _ _ Hl) in Hi.
Qed.
End Check.

(** ** The volume *)

Definition key_bytes (k : btrfs_disk_key) : list Z := le_bytes 8 (k_objectid k) ++ [k_type k] ++ le_bytes 8 (k_offset k).

Definition pad (n : nat) (l : list Z) : list Z := l ++ replicate (n - length l) 0.

Definition header_bytes (n level : Z) : list Z := replicate 96 0 ++ le_bytes 4 n ++ [level].

(** The headers of items whose data start at [o], after the header. *)
Fixpoint item_headers (o : Z) (l : list (btrfs_disk_key * list Z)) : list Z :=
  match l with
  | [] => []
  | (k, d) :: l => key_bytes k ++ le_bytes 4 o ++ le_bytes 4 (Z.of_nat (length d)) ++ item_headers (o + Z.of_nat (length d)) l
  end.

Definition leaf_bytes (l : list (btrfs_disk_key * list Z)) : list Z :=
  pad 1024 (header_bytes (Z.of_nat (length l)) 0 ++ item_headers (25 * Z.of_nat (length l)) l ++ concat (snd <$> l)).

Definition node_bytes (l : list (btrfs_disk_key * Z)) : list Z :=
  pad 1024 (header_bytes (Z.of_nat (length l)) 1 ++ concat ((fun x => key_bytes x.1 ++ le_bytes 8 x.2 ++ le_bytes 8 7) <$> l)).

Definition inode_bytes (size mode : Z) : list Z :=
  replicate 16 0 ++ le_bytes 8 size ++ replicate 28 0 ++ le_bytes 4 mode ++ replicate 104 0.

Definition dir_item_bytes (inr : Z) (name : list Z) : list Z :=
  key_bytes (Key inr BTRFS_INODE_ITEM_KEY 0) ++ le_bytes 8 9 ++ le_bytes 2 0 ++ le_bytes 2 (Z.of_nat (length name)) ++ [1] ++ name.

Definition extent_bytes_of (disk bytes : Z) : list Z :=
  replicate 16 0 ++ [0; 0; 0; 0; 1] ++ le_bytes 8 disk ++ le_bytes 8 bytes ++ le_bytes 8 0 ++ le_bytes 8 bytes.

Definition inline_bytes (data : list Z) : list Z := replicate 21 0 ++ data.

Definition chunk_bytes (len physical : Z) : list Z :=
  le_bytes 8 len ++ replicate 36 0 ++ le_bytes 2 1 ++ le_bytes 2 0 ++ le_bytes 8 1 ++ le_bytes 8 physical ++ replicate 16 0.

Definition btdemo_name : list Z := [97].
Definition btdemo_hash : Z := crc32c 0xfffffffe btdemo_name.

Definition btdemo_leaf1 : list (btrfs_disk_key * list Z) :=
  [(Key 256 BTRFS_INODE_ITEM_KEY 0, inode_bytes 0 0x4000);
   (Key 256 BTRFS_DIR_ITEM_KEY btdemo_hash, dir_item_bytes 257 btdemo_name)].

Definition btdemo_leaf2 : list (btrfs_disk_key * list Z) :=
  [(Key 257 BTRFS_INODE_ITEM_KEY 0, inode_bytes 700 0x8000);
   (Key 257 BTRFS_EXTENT_DATA_KEY 0, extent_bytes_of 0x4000 1024);
   (Key 258 BTRFS_INODE_ITEM_KEY 0, inode_bytes 5 0x8000);
   (Key 258 BTRFS_EXTENT_DATA_KEY 0, inline_bytes [1; 2; 3; 4; 5])].

Definition btdemo_chunk : btrfs_chunk_map_item := MapItem 0 0x10000 1 0x800.
Definition btdemo_chunk2 : btrfs_chunk_map_item := MapItem 0x100000 0x10000 1 0x20000.

Definition btdemo_chunk_leaf : list (btrfs_disk_key * list Z) :=
  [(Key 1 216 1, replicate 98 0); (chunk_key, chunk_bytes 0x10000 0x800);
   (Key 256 BTRFS_CHUNK_ITEM_KEY 0x100000, chunk_bytes 0x10000 0x20000)].

Definition btdemo_chunk_block : list Z := Eval vm_compute in leaf_bytes btdemo_chunk_leaf.
Definition btdemo_node_block : list Z :=
  Eval vm_compute in node_bytes [(Key 256 BTRFS_INODE_ITEM_KEY 0, 0x2400); (Key 257 BTRFS_INODE_ITEM_KEY 0, 0x2800)].
Definition btdemo_block1 : list Z := Eval vm_compute in leaf_bytes btdemo_leaf1.
Definition btdemo_block2 : list Z := Eval vm_compute in leaf_bytes btdemo_leaf2.

(** The blocks; physical addresses are 0x800 above the logical ones. *)
Definition btdemo_block (b : Z) : list Z :=
  if decide (b = 6) then btdemo_chunk_block
  else if decide (b = 10) then btdemo_node_block
  else if decide (b = 11) then btdemo_block1
  else if decide (b = 12) then btdemo_block2
  else replicate 1024 (b mod 256).

Lemma btdemo_block_length b : Z.of_nat (length (btdemo_block b)) = 1024.
Proof. unfold btdemo_block. repeat case_decide; [vm_compute; reflexivity..|]. by rewrite length_replicate. Qed.

Lemma btdemo_block_bytes b : Forall byte_ok (btdemo_block b).
Proof.
  unfold btdemo_block. repeat case_decide; [apply (bool_decide_unpack _); vm_compute; exact I..|].
  apply Forall_replicate. apply Z.mod_pos_bound. lia.
Qed.

#[local] Instance btdemo_cache : BlockCache unit.
Proof.
  refine {| cblock c b := (c, btdemo_block b); cinv _ := True; cdata := btdemo_block; csize := 1024;
            cdata_length := btdemo_block_length; cdata_bytes := btdemo_block_bytes |}; [lia|done].
Defined.

(** The superblock: the size of its blocks, and the chunk tree. *)
Definition btdemo_sb : list Z :=
  replicate 88 0 ++ le_bytes 8 0x1000 ++ replicate 52 0 ++ le_bytes 4 640 ++ le_bytes 4 640 ++ replicate 2703 0.

Lemma btdemo_node : sb_nodesize btdemo_sb = Ok 640.
Proof. by vm_compute. Qed.
Lemma btdemo_leafsize : sb_leafsize btdemo_sb = Ok 640.
Proof. by vm_compute. Qed.
Lemma btdemo_size_range : 101 <= 640 <= 4096.
Proof. lia. Qed.

Definition btdemo_map : btrfs_chunk_map := [btdemo_chunk].

Lemma btdemo_map_ok : map_ok btdemo_map.
Proof.
  constructor; [repeat constructor|by repeat constructor| |done].
  intros a b ->%list_elem_of_singleton ->%list_elem_of_singleton. lia.
Qed.

Abbreviation btdemo_phys := (phys_of btdemo_map).

Definition btdemo_lo : Z := knum (Key 256 BTRFS_INODE_ITEM_KEY 0).
Definition btdemo_hi : Z := 2 ^ 136.

Lemma btdemo_tree : tree_ok 640 640 btdemo_phys 1 0x2000 btdemo_lo btdemo_hi.
Proof. apply tree_okb_ok. vm_compute. reflexivity. Qed.

Abbreviation btdemo_items := (items 640 640 btdemo_phys 1 0x2000).

Lemma btdemo_chunk_tree : tree_ok 640 640 btdemo_phys 0 0x1000 (knum (Key 1 216 1)) btdemo_hi.
Proof. apply tree_okb_ok. vm_compute. reflexivity. Qed.

Abbreviation btdemo_chunk_items := (items 640 640 btdemo_phys 0 0x1000).
(** ** The theorems on it *)

Lemma logical_physical_correct_witness :
  logical_physical btdemo_map 0x2000 = Ok (match translate btdemo_map 0x2000 with Some p => p | None => u64 (-1) end) /\
  translate btdemo_map 0x2000 = Some 0x2800.
Proof. split; [apply (logical_physical_correct btdemo_map 0x2000 btdemo_map_ok); lia|reflexivity]. Defined.

Lemma btdemo_agrees a p : btdemo_phys a = Some p -> logical_physical btdemo_map a = Ok p.
Proof. by apply (phys_of_agrees btdemo_map btdemo_map btdemo_map_ok). Qed.

Lemma btdemo_found : lookup_key btdemo_items (extent_key 257 0) <> None.
Proof. vm_compute. discriminate. Qed.

Lemma search_tree_finds_witness :
  exists c' path' x, search_tree btdemo_map btdemo_sb 5 tt 0x2000 (extent_key 257 0) clear_path = Ok (c', path', 0) /\
    lookup_key btdemo_items (extent_key 257 0) = Some x /\ has_item path' x.
Proof.
  destruct (search_tree_finds btdemo_sb 640 640 btdemo_node btdemo_leafsize btdemo_size_range btdemo_size_range btdemo_phys btdemo_map btdemo_agrees
    5 1 0x2000 btdemo_lo btdemo_hi tt (extent_key 257 0) btdemo_tree ltac:(lia) ltac:(lia) I ltac:(by apply file_key_ok))
    as (c' & path' & ret & q & x & E & _ & Hor & _ & _ & Hx & _).
  destruct Hor as [[-> El]|[_ El]]; [|by destruct btdemo_found]. exists c', path', x. by split_and!.
Defined.

Lemma btdemo_chunks_data x : x ∈ btdemo_chunk_items -> is_chunk x -> 80 <= Z.of_nat (length (e_data x)) /\ chunk_ok (chunk_of x).
Proof.
  assert (Forall (fun x => is_chunk x -> 80 <= Z.of_nat (length (e_data x)) /\ chunk_ok (chunk_of x)) btdemo_chunk_items) as H by by_compute.
  rewrite Forall_forall in H. apply H.
Qed.

Lemma btdemo_chunks_apart : apart (btdemo_map ++ (chunk_of <$> filter is_chunk btdemo_chunk_items)).
Proof.
  assert (btdemo_map ++ (chunk_of <$> filter is_chunk btdemo_chunk_items) = [btdemo_chunk; btdemo_chunk; btdemo_chunk2]) as -> by by vm_compute.
  intros a b Ha Hb. rewrite !elem_of_cons in Ha, Hb.
  destruct Ha as [-> | [-> | [-> | []%elem_of_nil]]], Hb as [-> | [-> | [-> | []%elem_of_nil]]]; simpl; lia.
Qed.

Lemma read_chunk_tree_complete_witness :
  exists c' map', btrfs_read_chunk_tree 5 tt btdemo_sb btdemo_map = Ok (c', map') /\ map_ok map' /\ btdemo_chunk2 ∈ map'.
Proof.
  destruct (read_chunk_tree_complete btdemo_sb 640 640 btdemo_node btdemo_leafsize btdemo_size_range btdemo_size_range btdemo_map btdemo_map_ok
    0 0x1000 (knum (Key 1 216 1)) btdemo_hi btdemo_chunk_tree ltac:(lia) btdemo_chunks_data btdemo_chunks_apart ltac:(by_compute)
    ltac:(by exists 0) eq_refl 5 tt ltac:(by_compute) ltac:(lia) I) as (c' & map' & E & _ & Hok & Hel).
  - exists (default (Entry chunk_key 0 []) (lookup_key btdemo_chunk_items chunk_key)). by_compute.
  - exists c', map'. split; [exact E|]. split; [exact Hok|]. apply Hel. right.
    exists (default (Entry chunk_key 0 []) (lookup_key btdemo_chunk_items (Key 256 BTRFS_CHUNK_ITEM_KEY 0x100000))). 
    split; [by_compute|]. split; [|by vm_compute]. split; [by_compute|]. intros y ->%list_elem_of_singleton. by vm_compute.
Defined.
Lemma btdemo_items_long : Forall item_long btdemo_items.
Proof. by_compute. Qed.

Lemma btrfs_iget_finds_witness :
  exists c', btrfs_iget 5 btdemo_map btdemo_sb 0x2000 tt (btdemo_name ++ [0]) (Inode 256 0 4 0) =
    Ok (c', Some (Inode 257 700 8 0x4000)).
Proof.
  destruct (btrfs_iget_finds btdemo_sb 640 640 btdemo_node btdemo_leafsize btdemo_size_range btdemo_size_range btdemo_map btdemo_map_ok
    1 0x2000 btdemo_lo btdemo_hi btdemo_tree ltac:(lia) btdemo_items_long 5 ltac:(lia) tt btdemo_name [] (Inode 256 0 4 0) I
    ltac:(by_compute) ltac:(by_compute) ltac:(by_compute)) as (c' & _ & E).
  exists c'. rewrite E. assert (named_inode btdemo_items 256 btdemo_name = Some (Inode 257 700 8 0x4000)) as En by by vm_compute.
  cbn [ino]. by rewrite En.
Defined.

(** Sectors of 512 bytes. *)
#[local] Instance btdemo_device : SectorDevice.
Proof.
  refine {| sector_shift := 9; disk_sector p := replicate 512 (p mod 256); valid_sector _ := True;
            rdwr_sectors start count old := concat ((fun p => replicate 512 (p mod 256)) <$> seqZ start count) |}; [lia| |done].
  intros p. by rewrite length_replicate.
Defined.

Definition btdemo_entry (k : btrfs_disk_key) : entry := default (Entry k 0 []) (lookup_key btdemo_items k).

Definition btdemo_extents : list entry := Eval vm_compute in [btdemo_entry (extent_key 257 0)].

Lemma btdemo_has_extents : has_extents 640 640 btdemo_map 1 0x2000 257 0 btdemo_extents.
Proof.
  split; [by vm_compute|]. split; [|done]. constructor.
  - by vm_compute.
  - by vm_compute.
  - exists 2. by vm_compute.
  - split; [exists 32; by vm_compute|]. exists 0x4800. split; [by vm_compute|]. split; [by exists 36|done].
  - split_and!; [by vm_compute..|done].
Qed.

Lemma btdemo_file_size : 0 <= 700 <= 0x100000000 - 2 ^ sector_shift.
Proof. simpl. lia. Qed.

Lemma btdemo_file_total : total (run_of btdemo_map <$> btdemo_extents) < 0x100000000.
Proof. by vm_compute. Qed.

Lemma btdemo_file_covered : 700 <= total (run_of btdemo_map <$> btdemo_extents) * 2 ^ sector_shift.
Proof. vm_compute. discriminate. Qed.

Lemma btdemo_inr : 0 <= 257 < 0x10000000000000000.
Proof. lia. Qed.

Definition btdemo_open : ReadFile.inode (S := unit * inode) :=
  ReadFile.Inode (Extent 0 0 0) (Extent 0 0 0) (tt, Inode 257 700 8 0x4000).

Lemma btdemo_depth : (1 < 8)%nat.
Proof. lia. Qed.

Lemma btdemo_fuel : (1 < 5)%nat.
Proof. lia. Qed.

Abbreviation btdemo_fs := (btrfs_fs btdemo_sb 640 640 btdemo_node btdemo_leafsize btdemo_size_range btdemo_size_range btdemo_map btdemo_map_ok
  1 0x2000 btdemo_lo btdemo_hi btdemo_tree btdemo_depth btdemo_items_long 5 btdemo_fuel 257 700 btdemo_inr btdemo_file_size btdemo_extents
  btdemo_has_extents btdemo_file_total btdemo_file_covered).

Lemma btdemo_at : fs_at (ExtentFS := btdemo_fs) (tt, Inode 257 700 8 0x4000) 0.
Proof. split; [done|]. split; [done|]. split; [done|]. split; [done|]. by exists [], btdemo_extents. Qed.

Lemma btrfs_reads_file_witness :
  exists f' buf' more, btrfs_getfssec 5 10 btdemo_map btdemo_sb 0x2000 btdemo_open 0 (replicate 1024 255) 2 = Ok (f', buf', 700, more, 700) /\
    ReadFile.inode_ok (FS := btdemo_fs) f' /\ length buf' = 1024%nat /\
    take (Z.to_nat 700) buf' = take (Z.to_nat 700) (drop (Z.to_nat 0) (btrfs_contents btdemo_map 700 btdemo_extents)).
Proof.
  apply (btrfs_reads_file btdemo_sb 640 640 btdemo_node btdemo_leafsize btdemo_size_range btdemo_size_range btdemo_map btdemo_map_ok
    1 0x2000 btdemo_lo btdemo_hi btdemo_tree btdemo_depth btdemo_items_long 5 btdemo_fuel 257 700 btdemo_inr btdemo_file_size btdemo_extents
    btdemo_has_extents btdemo_file_total btdemo_file_covered btdemo_open 0 2 (replicate 1024 255) 10); [|lia].
  constructor; [|by left; exact btdemo_at|lia|simpl; lia|by exists 0|by vm_compute|by vm_compute].
  unfold ReadFile.inode_ok. cbn [ReadFile.this_extent ReadFile.next_ext ReadFile.pvt btdemo_open lstart len].
  splits; try lia. intros _. exact btdemo_at.
Defined.

(** The file in the tree: its data start 21 bytes after the item's. *)
Definition btdemo_inline : entry := Eval vm_compute in btdemo_entry (extent_key 258 0).

Definition btdemo_address : Z := Eval vm_compute in inline_address btdemo_inline.

Lemma btdemo_inline_found : lookup_key btdemo_items (extent_key 258 0) = Some btdemo_inline.
Proof. by vm_compute. Qed.

Lemma btrfs_reads_inline_witness :
  exists f' buf' more, btrfs_getfssec 5 10 btdemo_map btdemo_sb 0x2000 (new_file 258 5 btdemo_address tt 8) 0 (replicate 1024 255) 2 =
      Ok (f', buf', 5 + btdemo_address mod 512, more, 5) /\
    length buf' = 1024%nat /\ take (Z.to_nat 5) buf' = take (Z.to_nat 5) (inline_contents 5 btdemo_address (btdemo_address + 0x800)).
Proof.
  apply (btrfs_reads_inline btdemo_sb 640 640 btdemo_node btdemo_leafsize btdemo_size_range btdemo_size_range btdemo_map btdemo_map_ok
    1 0x2000 btdemo_lo btdemo_hi btdemo_tree btdemo_depth btdemo_items_long 5 btdemo_fuel 258 5 btdemo_address (btdemo_address + 0x800)
    btdemo_inline ltac:(lia) btdemo_inline_found eq_refl (conj eq_refl eq_refl) eq_refl ltac:(by vm_compute) ltac:(by vm_compute) ltac:(by vm_compute)
    ltac:(by_compute)); [|done|lia|simpl; lia|simpl; lia|lia].
  split_and!; [by vm_compute..|done].
Defined.
End BtrfsDemo.
